(* ===== verification/_CoqProject ===== *)
-Q . S2P
Prelude.v
GoStd.v
Decimal.v
Models.v
GoTime.v
Json.v
JsonFacts.v
TimeFacts.v
Floats.v
Compact.v
World.v
Growing.v
MemEnv.v
Sql.v
Columns.v
Schema.v
Migrations.v
Lifecycle.v
JobsRepo.v
JobsSpec.v
WorkersRepo.v
WorkersSpec.v
DeadLettersRepo.v
Broker.v
BrokerSpec.v
Dispatcher.v
DispatcherSpec.v
Assignment.v
Monitor.v
Leader.v
Sha256.v
Cache.v
CacheSpec.v
Collector.v
Redelivery.v
Http.v
JobHandler.v
OtherHandlers.v
Router.v
HttpSpec.v
Rendered.v
Answers.v
Worker.v
WorkerSpec.v
HeartbeatSpec.v
Quiet.v
Executor.v
ExecutorSpec.v
ExecutorLive.v
Startup.v
Wiring.v
Components.v
WorkerProc.v
WorkerMetrics.v
SchedulerProc.v
ConsumerProc.v
SchedulerRun.v
Overlap.v
CollectorProc.v
ApiProc.v
System.v
Statements.v
SchemaSpec.v
Provenance.v
Deployment.v
Telemetry.v
Drain.v
Recovery.v
Scenarios.v
SchemaScenarios.v
ProcScenarios.v
