(* ===== verification/Prelude.v ===== *)
(** * A verification library for the distributed job scheduler

    The program (src/, in Go) is four processes around PostgreSQL, Redis and Kafka:
    - the API (cmd/api, internal/application, internal/api/http) accepts, shows, lists and
      cancels jobs, and shows, deletes and replays dead letters;
    - the scheduler (cmd/scheduler, internal/scheduler): after winning an election it runs the
      dispatcher, which assigns pending jobs to healthy workers and publishes them on the topic
      jobs, and the heartbeat monitor, which sweeps for silent workers; every scheduler consumes
      the topic heartbeats;
    - the workers (cmd/worker, internal/worker) consume jobs, execute at most five at a time and
      publish to results and heartbeats;
    - the collector (cmd/result-collector, internal/collector) applies results to the jobs
      table, publishes jobs that are given up to dead-letters, and stores those.

    ** How it is modelled

    A process's code is a [Prog] (World.v): a tree of atomic actions on a [World], which holds
    the three tables, the Redis keyspace, every message written to Kafka, and the counters. An
    action is one SQL statement, one Redis command, one message written, a clock reading, a
    random UUID or a counter's Inc. The environment gives each action an [Input]: the time, the
    UUID drawn, the rows other transactions have locked, and the [Outcome]: done, lost (not
    applied, the caller sees an error) or applied (the caller sees an error all the same). The
    same definition of a handler has a sequential run ([run]) and an interleaved semantics
    ([pool_step]). Errors are values of [Result] with Go's wrapping chain ([error], GoStd.v).
    Code that is not the program's - PostgreSQL's ORDER BY and jsonb, Redis, google/uuid, chi,
    golang-migrate, pgxpool - is a class parameter ([Env], [Mux], [Migrate], [PgxPool]); what is
    relied on is stated in classes of laws ([OrderByLaws], [JsonbLaws], [UuidLaws], [TextLaws],
    [RedisLaws], [PgxPoolLaws]), and MemEnv.v has an implementation that obeys them.

    A process is more than a loop over one handler, and is a step relation on a record: one field
    for each goroutine's place in the code, and the channels, contexts and counters they share;
    the handlers it is running are programs in that record. What a kind of process owes to the
    rest is a class ([Process], [ProcessLaws] in Deployment.v) with an instance for each.

    ** Files

    - Prelude, GoStd, Decimal, GoTime: results, lists and maps; errors, strings, strconv, net and
      hex; decimal printing and reading; RFC 3339.
    - Json, JsonFacts, Compact, TimeFacts, Floats: encoding/json by bytes: escaping, the scanner,
      compaction of a RawMessage, objects and the decoding of fields; that printing and reading
      agree, for instants and float64 values too.
    - Models: internal/models and the DeadLetter record.
    - World, Growing, MemEnv: the world, programs, their runs and specifications; specifications
      of programs that rely on what they have read earlier; a concrete environment.
    - Sql, Columns, Lifecycle: SQL conditions and updates; rows as columns and what Row.Scan makes
      of them; the abstract machines of a job row ([job_next]) and of a dead letter ([dl_next]),
      and the invariant [Inv] of the tables.
    - Schema, Migrations: src/migrations as statements on a catalogue, what a row must satisfy and
      what defaults and triggers add to it; up and down. Statements, SchemaSpec: that programs
      change the tables by the repositories' statements only, and what these keep.
    - JobsRepo, WorkersRepo, DeadLettersRepo: internal/repository: each interface a class, each
      statement an action, each method a program; the class ...Safe is what an implementation
      promises to its clients, and the PostgreSQL one discharges it. JobsSpec and WorkersSpec
      give the exact post-states.
    - Broker, BrokerSpec: internal/broker: topics, messages, producer, the consumer's loop.
    - Dispatcher, DispatcherSpec, Assignment, Monitor, HeartbeatSpec, Leader: internal/scheduler; a
      tick as one allocation of the queue to the workers' free seats; the elector with the
      sessions and the advisory lock of the server; a heartbeat's way from the worker to the
      table.
    - Sha256, Cache, CacheSpec: internal/cache.
    - Collector, Redelivery: internal/collector, and what it does with a result that comes twice.
    - Http, JobHandler, OtherHandlers, Router, HttpSpec, Rendered, Answers: internal/api/http:
      DTOs, handlers, middleware, routes, the effects of requests, the JSON of their answers, the
      table of all answers and the access log.
    - Worker, WorkerSpec, Executor, ExecutorSpec, ExecutorLive: internal/worker and the runners of
      cmd/worker (with time.ParseDuration); Executor.Run with its goroutines, semaphore, wait
      group and counter as a step relation, each goroutine's body being the program [execute].
    - Startup: internal/config, cmd/migrate, how cmd/api and cmd/result-collector end, and what
      internal/db, internal/application, internal/metrics and internal/logger compute.
    - Wiring, Components: the consumers' topics and groups, the API's server and its settings; the
      structs, constructors and mains, and that what they put together fits.
    - WorkerProc: cmd/worker's process: the consumer's goroutine, the executor, the heartbeat's
      goroutine and main; WorkerMetrics: what it measures. SchedulerProc: cmd/scheduler's process: campaign, select, contexts,
      deferred calls, several schedulers on one lock. ConsumerProc: Consumer.Run as a goroutine.
      SchedulerRun: the schedulers with their loops, ticks and consumers; Overlap: a run of two of
      them. CollectorProc: cmd/result-collector's process. ApiProc: cmd/api's process: RunAPI,
      the server with its connections and requests in flight, Shutdown.
    - System: all programs together, with any messages delivered. Quiet, Provenance: the same
      when consumers read what was written; which programs publish nothing, and where every
      message and dead letter comes from. Deployment: the whole program, the real processes in
      the place of the programs. Telemetry: a worker's measurements there, and the metrics
      server. Drain: rounds of dispatch, execution and collection, after a sweep of the monitor.
      Recovery: such rounds beside everything that is in flight.
    - Scenarios, SchemaScenarios, ProcScenarios: the theorems applied to concrete states.

    ** What is shown

    - C1 - C3: in every interleaving of every process, with any failures and any delivery of
      messages, the tables stay well-formed, each step of the program is a step of the abstract
      machines, no job is lost or loses its identity, and a dead letter changes in its replay
      mark only, as long as nobody deletes it. C4: the system with the real scheduler, worker, API and collector processes is simulated by the one in which programs
      run at any time, so all this holds of it. C6: the tables keep the schema that the
      migrations leave, column by column. C5, C7, C8: every message and dead letter is about a
      job of the table and has its topic's type, and no consumer is stopped by one.
    - C9: no state is a trap: from wherever failures and dead processes have left the system, once
      every worker has been silent, its programs can bring each job to its end, whatever is
      still in flight. C10: no job is lost with its worker, and the queue drains: after a sweep
      of the monitor every job that was pending, or RUNNING on a lost worker, ends COMPLETED, or
      DEAD after three attempts, in a number of rounds known in advance ([queue_drains] for the
      queue alone). C14: one job's way through dispatcher, worker and collector.
    - C11, C13, C15, C17, C18: a tick is one allocation of the sorted queue to the free seats of
      the healthy workers; FetchPending takes the first jobs of the queue and never gives one job
      to two callers; a tick respects every worker's capacity whatever fails, and gives nothing
      to a worker that is silent or out of service; the monitor requeues exactly the jobs of lost
      workers. C12: loops run where the lock is held, or have been told to stop; a process starts
      them once. C16, C25: what a result does to a job; a collector handles its own topics and
      commits only what was handled.
    - C19, C20, C22, C27: the executor runs each job once, five at a time, and comes to its end;
      what a worker process has committed, and the sixteen jobs it may have open; every
      execution reports one result. C21: a worker's histogram and gauge say what it did
      ([metrics_server_stops]: the server that shows them leaves no listener behind).
    - C23, C24: a graceful stop of the API answers every request that it has read, and every stop
      ends. C26: the answers that a request can get, whatever the stores do, from a table of
      constant messages. C28 - C30: submission under idempotency, replay, the
      rate limit as a fixed-window counter; without a number the status cache
      ([GetJobStatus_cached]), authentication ([router_auth]) and cancelling ([Cancel_spec]).
    - C31: an INSERT leaves in its row what the schema's defaults make of it, and every UPDATE
      of the repositories leaves in the rows that it selects what it sets and what the trigger
      does, and all others as they were. C32: the migrations go up, beside whatever else the
      database holds, which stays as it is, and come down again. C33, C34: messages and heartbeats
      survive their trip through JSON.
    - C35 - C40: behaviours that the code has and hardly wants: late results, a second dead letter
      from a result delivered twice, twice a worker's capacity between two heartbeats, two
      leaders' ticks at once over the same free capacities, a leader that hangs with the lock when
      its heartbeat consumer fails, and a worker that leaves its jobs behind when it is told to
      stop. More of this kind is in theorems without a number: poisoned and colliding idempotency keys
      ([submit_poisoned], [submit_collision]), stale cached statuses
      ([cancel_leaves_stale_status]), duplicate replays ([Replay_duplicates]), a collector that
      exits in the middle of a handler ([collector_exit_cuts]), failed publications
      ([publish_failure]), a leader that does not notice its loss ([leader_not_fenced]), a
      counter that overcounts ([RunningJobs_overcounts]), a migration error that is swallowed
      ([force_error_hidden]).

    ** Bounds and fuel

    Integers are Z with the ranges of their Go type or column checked where they are stored or
    decoded ([int16_ok], [int32_ok], [int64_ok]); the executor's counter wraps at 32 bits. The
    loops that are not structural have fuel that their input bounds: the parser of an object's
    members and of durations, [trim_left] and the blocks of SHA-256 use up at least one byte or
    word per turn and get the length. The endless loops (consumers, dispatcher, monitor, main)
    take the list of their turns or events, or are step relations; the theorems hold for every
    list and every run. A queue needs at most three rounds for each job of the table
    ([rounds_needed]). That a stop ends is shown by a well-founded order on the steps left
    ([inevitable]), without fuel.

    ** What is not modelled

    Log lines, but for the access log and the metrics server's; promhttp's page and a
    histogram's buckets; connection pools beyond their answers and their Close; the timeouts of
    HTTP connections; the reader's own state (offsets, rebalancing: a consumer may be given any
    message of its topic, any number of times); the writer's retries (a message that it appended twice is one that is
    delivered twice); panics; query plans, so an index is its keys and their directions only;
    the deletion of workers, which no statement does, so ON DELETE SET NULL is in the catalogue
    without an effect; test support (containers, suites) and generated
    mocks. A PostgreSQL statement is atomic, as each of the program's is a transaction of its
    own, and the migrations run on one connection. Floating-point numbers are exact decimals,
    except in time.ParseDuration, which uses IEEE arithmetic. The text of errors from drivers
    and decoders is fixed where the program does not look at it.

    Clocks tick as they like, and Kafka delivers what it likes: nothing in the code says how
    often a ticker's channel is served or a message comes, so that every job ends cannot be
    proved of all runs. What is proved instead is C9, that the system can always end them, and
    C10, in how many rounds, when rounds come. *)

From Stdlib Require Export ZArith Lia Ascii.
From stdpp Require Export sorting gmap strings pretty prelude.

Declare Scope go_scope.
Delimit Scope go_scope with go.
#[global] Open Scope Z_scope.
#[global] Open Scope go_scope.

(** ** Results: what a Go function of type (T, error) returns. *)

(** A call either returns its value with a nil error, or an error. *)
Inductive Result (E A : Type) : Type :=
| Ok (a : A)
| Err (e : E).
Arguments Ok {E A} a.
Arguments Err {E A} e.

#[export] Instance Result_eq_dec `{EqDecision E, EqDecision A} : EqDecision (Result E A).
Proof. solve_decision. Defined.

Definition result_map {E A B} (f : A → B) (r : Result E A) : Result E B :=
  match r with Ok a => Ok (f a) | Err e => Err e end.

Definition result_bind {E A B} (r : Result E A) (f : A → Result E B) : Result E B :=
  match r with Ok a => f a | Err e => Err e end.

Definition is_ok {E A} (r : Result E A) : bool :=
  match r with Ok _ => true | Err _ => false end.

Definition ok_value {E A} (d : A) (r : Result E A) : A :=
  match r with Ok a => a | Err _ => d end.

(** ** Machine integers: the ranges the source and its schema use. *)

Definition in_range (lo hi z : Z) : bool := (lo <=? z) && (z <=? hi).
Definition int16_ok (z : Z) : bool := in_range (-32768) 32767 z.
Definition int32_ok (z : Z) : bool := in_range (-2147483648) 2147483647 z.
Definition int64_ok (z : Z) : bool :=
  in_range (-9223372036854775808) 9223372036854775807 z.

Lemma int32_int64 z : int32_ok z = true → int64_ok z = true.
Proof. unfold int32_ok, int64_ok, in_range. rewrite !andb_true_iff, !Z.leb_le. lia. Qed.

(** ** Tactics of the development. *)

(** Splits the first [match] or [if] of the goal, or of a hypothesis. *)
Ltac split_match :=
  match goal with
  | |- context [match ?x with _ => _ end] => destruct x eqn:?
  | H : context [match ?x with _ => _ end] |- _ => destruct x eqn:?
  end.

(** Boolean comparisons to propositions, everywhere. *)
Ltac to_prop :=
  repeat match goal with
  | H : _ && _ = true |- _ => apply andb_prop in H; destruct H
  | H : _ || _ = false |- _ => apply orb_false_elim in H; destruct H
  | H : negb _ = true |- _ => apply negb_true_iff in H
  | H : negb _ = false |- _ => apply negb_false_iff in H
  | H : (_ =? _)%Z = true |- _ => apply Z.eqb_eq in H
  | H : (_ =? _)%Z = false |- _ => apply Z.eqb_neq in H
  | H : (_ <=? _)%Z = true |- _ => apply Z.leb_le in H
  | H : (_ <=? _)%Z = false |- _ => apply Z.leb_gt in H
  | H : (_ <? _)%Z = true |- _ => apply Z.ltb_lt in H
  | H : (_ <? _)%Z = false |- _ => apply Z.ltb_ge in H
  | H : bool_decide _ = true |- _ => apply bool_decide_eq_true in H
  | H : bool_decide _ = false |- _ => apply bool_decide_eq_false in H
  end.

(** The facts that automate the common cases are registered here by the files
    that prove them. *)
Create HintDb sched discriminated.

(** ** Lists *)

Section lists.
Context {A : Type}.
Implicit Types l : list A.

Lemma elem_of_filter_bool (P : A → bool) l x :
  x ∈ List.filter P l ↔ P x = true ∧ x ∈ l.
Proof. rewrite !list_elem_of_In, List.filter_In. tauto. Qed.

Lemma NoDup_fmap_filter_bool {B} (f : A → B) (P : A → bool) l :
  NoDup (f <$> l) → NoDup (f <$> List.filter P l).
Proof.
  induction l as [|x l IH]; cbn; [done|].
  intros [Hx Hl]%NoDup_cons. destruct (P x); [|auto].
  apply NoDup_cons; split; [|auto].
  contradict Hx. apply list_elem_of_fmap in Hx as (y & -> & Hy).
  apply elem_of_filter_bool in Hy as [_ Hy].
  by apply list_elem_of_fmap_2.
Qed.

Lemma NoDup_fmap_take {B} (f : A → B) n l :
  NoDup (f <$> l) → NoDup (f <$> take n l).
Proof.
  rewrite <- (take_drop n l) at 1. rewrite fmap_app.
  by intros (H & _ & _)%NoDup_app.
Qed.

Lemma elem_of_take_list n l x : x ∈ take n l → x ∈ l.
Proof.
  rewrite <- (take_drop n l) at 2. intros H. by apply elem_of_app; left.
Qed.

(** In a list sorted for a transitive order, what a prefix keeps is never after what
    it drops. *)
Lemma sorted_take_drop (R : A → A → Prop) n l x y :
  StronglySorted R l → x ∈ take n l → y ∈ drop n l → R x y.
Proof.
  intros Hs. revert n. induction Hs as [|a l Hs IH Ha]; intros n.
  - rewrite take_nil. by intros ?%elem_of_nil.
  - destruct n as [|n]; cbn; [by intros ?%elem_of_nil|].
    intros [->|Hx]%elem_of_cons Hy; [|by apply (IH n)].
    rewrite Forall_forall in Ha. apply Ha.
    rewrite <- (take_drop n l). apply elem_of_app. by right.
Qed.

Lemma filter_all_true (P : A → bool) l : (∀ x, x ∈ l → P x = true) → List.filter P l = l.
Proof.
  induction l as [|x l IH]; intros H; cbn; [done|]. rewrite (H x) by left.
  f_equal. apply IH. intros y Hy. apply H. by right.
Qed.

Lemma filter_all_false (P : A → bool) l : (∀ x, x ∈ l → P x = false) → List.filter P l = [].
Proof.
  induction l as [|x l IH]; intros H; cbn; [done|]. rewrite (H x) by left.
  apply IH. intros y Hy. apply H. by right.
Qed.

Lemma StronglySorted_weaken (R R' : A → A → Prop) l :
  (∀ x y, R x y → R' x y) → StronglySorted R l → StronglySorted R' l.
Proof.
  intros HR Hs. induction Hs as [|a l Hs IH Ha]; constructor; [done|].
  eapply Forall_impl; [exact Ha|]. apply HR.
Qed.
End lists.

(** ** Finite maps as tables *)

Section maps.
Context {K : Type} `{Countable K} {A : Type}.
Implicit Types t : gmap K A.

(** The rows of a table, in the order of its representation. *)
Definition rows t : list A := (map_to_list t).*2.

Lemma elem_of_rows t r : r ∈ rows t ↔ ∃ k, t !! k = Some r.
Proof.
  unfold rows. rewrite list_elem_of_fmap. split.
  - intros ([k r'] & -> & Hin). exists k. by apply elem_of_map_to_list.
  - intros [k Hk]. exists (k, r). split; [done|]. by apply elem_of_map_to_list.
Qed.

Lemma length_rows t : length (rows t) = size t.
Proof. unfold rows. by rewrite length_fmap, length_map_to_list. Qed.

(** In a table keyed by a field of its rows, the rows differ in that field. *)
Lemma NoDup_rows_key (f : A → K) t :
  (∀ k r, t !! k = Some r → f r = k) → NoDup (f <$> rows t).
Proof.
  intros Hf. unfold rows.
  replace (f <$> (map_to_list t).*2) with (map_to_list t).*1.
  { apply NoDup_fst_map_to_list. }
  rewrite <- list_fmap_compose. apply list_fmap_ext. intros i [k r] Hi. cbn.
  symmetry. apply Hf, elem_of_map_to_list. by eapply list_elem_of_lookup_2.
Qed.
End maps.

Create Rewrite HintDb sched_rw.
#[export] Hint Rewrite @length_rows : sched_rw.
