(* ===== verification/GoStd.v ===== *)
(** * The Go standard library, as far as the scheduler uses it

    Error values with their wrapping chain, [strconv.Atoi], the functions of [strings]
    and [net] that the HTTP middleware calls, hexadecimal encoding and decimal printing.
    A Go string is a [string] of bytes. *)

From S2P Require Import Prelude.

(** ** Errors *)

(** The error values the program compares against, the ones the drivers return, and
    [fmt.Errorf] with a %w verb, which wraps another error behind a message. *)
Inductive error : Type :=
| ErrNotFound                       (* repository.ErrNotFound *)
| ErrNoRows                         (* pgx.ErrNoRows *)
| ErrPayloadMismatch                (* cache.ErrPayloadMismatch *)
| ErrRedisNil                       (* redis.Nil *)
| ErrCanceled                       (* context.Canceled *)
| ErrDeadlineExceeded               (* context.DeadlineExceeded *)
| ErrText (msg : string)            (* errors.New, or a decoder's error *)
| ErrPg (code : string)             (* an error PostgreSQL reports, by its SQLSTATE *)
| ErrTemporary (t : bool) (msg : string)  (* an error with a Temporary() method *)
| Wrap (msg : string) (e : error).  (* fmt.Errorf("msg: %w", e) *)

#[export] Instance error_eq_dec : EqDecision error.
Proof. solve_decision. Defined.

Abbreviation Res := (Result error).

(** [errors.Is]: some error of the chain is the target. *)
Fixpoint errors_Is (e target : error) : bool :=
  bool_decide (e = target) ||
  match e with Wrap _ e' => errors_Is e' target | _ => false end.

(** [errors.As] with an interface that has Temporary(): the first error of the chain that
    has the method; [None] when no error has it. The deadline error of package context has it
    and answers true. *)
Fixpoint errors_As_Temporary (e : error) : option bool :=
  match e with
  | ErrTemporary t _ => Some t
  | ErrDeadlineExceeded => Some true
  | Wrap _ e' => errors_As_Temporary e'
  | _ => None
  end.

(** [err.Error()] *)
Fixpoint error_Error (e : error) : string :=
  match e with
  | ErrNotFound => "not found"
  | ErrNoRows => "no rows in result set"
  | ErrPayloadMismatch => "idempotency key reused with different payload"
  | ErrRedisNil => "redis: nil"
  | ErrCanceled => "context canceled"
  | ErrDeadlineExceeded => "context deadline exceeded"
  | ErrText msg => msg
  | ErrPg code => "ERROR (SQLSTATE " +:+ code +:+ ")"
  | ErrTemporary _ msg => msg
  | Wrap msg e' => msg +:+ ": " +:+ error_Error e'
  end.

(** ** Bytes and strings *)

Definition byte_of (n : nat) : ascii := ascii_of_nat n.
Definition chr (n : nat) : string := String (ascii_of_nat n) EmptyString.
(** The double quote and the backslash, by their codes. *)
Definition quote : ascii := ascii_of_nat 34.
Definition backslash : ascii := ascii_of_nat 92.

Definition is_digit (c : ascii) : bool :=
  let n := nat_of_ascii c in (48 <=? n)%nat && (n <=? 57)%nat.
Definition digit_value (c : ascii) : Z := Z.of_nat (nat_of_ascii c) - 48.

(** The 26 letters, as [strings.ToUpper] and [strings.EqualFold] treat ASCII. *)
Definition to_upper (c : ascii) : ascii :=
  let n := nat_of_ascii c in
  if (97 <=? n)%nat && (n <=? 122)%nat then ascii_of_nat (n - 32) else c.

Fixpoint string_map (f : ascii → ascii) (s : string) : string :=
  match s with
  | EmptyString => EmptyString
  | String c s' => String (f c) (string_map f s')
  end.

Fixpoint string_forallb (f : ascii → bool) (s : string) : bool :=
  match s with
  | EmptyString => true
  | String c s' => f c && string_forallb f s'
  end.

Definition string_is_empty (s : string) : bool :=
  match s with EmptyString => true | _ => false end.

Definition EqualFold_ascii (s t : string) : bool :=
  bool_decide (string_map to_upper s = string_map to_upper t).

(** The part before the first [c] and the part after it; [None] without a [c]. *)
Fixpoint cut (c : ascii) (s : string) : option (string * string) :=
  match s with
  | EmptyString => None
  | String d s' =>
      if bool_decide (d = c) then Some (EmptyString, s')
      else match cut c s' with
           | Some (a, b) => Some (String d a, b)
           | None => None
           end
  end.

(** [strings.Split(s, sep)] with a one-byte separator: every piece, at least one. *)
Fixpoint Split (c : ascii) (s : string) : list string :=
  match s with
  | EmptyString => [EmptyString]
  | String d s' =>
      if bool_decide (d = c) then EmptyString :: Split c s'
      else match Split c s' with
           | p :: ps => String d p :: ps
           | [] => [String d EmptyString]
           end
  end.

(** [strings.SplitN(s, sep, 2)] *)
Definition SplitN2 (c : ascii) (s : string) : list string :=
  match cut c s with
  | Some (a, b) => [a; b]
  | None => [s]
  end.

(** The encodings of the Unicode white space, the ones [unicode.IsSpace] accepts. *)
Definition space_runes : list string :=
  [chr 9; chr 10; chr 11; chr 12; chr 13; chr 32;
   chr 194 +:+ chr 133; chr 194 +:+ chr 160; chr 225 +:+ chr 154 +:+ chr 128]
  ++ ((λ n, chr 226 +:+ chr 128 +:+ chr n) <$> [128; 129; 130; 131; 132; 133; 134; 135; 136;
        137; 138; 168; 169; 175]%nat)
  ++ [chr 226 +:+ chr 129 +:+ chr 159; chr 227 +:+ chr 128 +:+ chr 128].

Fixpoint strip_prefix (p s : string) : option string :=
  match p, s with
  | EmptyString, _ => Some s
  | String a p', String b s' => if bool_decide (a = b) then strip_prefix p' s' else None
  | _, _ => None
  end.

Definition strip_one (ps : list string) (s : string) : option string :=
  foldr (λ p r, match strip_prefix p s with Some s' => Some s' | None => r end) None ps.

Fixpoint trim_left (fuel : nat) (ps : list string) (s : string) : string :=
  match fuel with
  | O => s
  | S fuel' => match strip_one ps s with Some s' => trim_left fuel' ps s' | None => s end
  end.

(** [strings.TrimSpace]: white space off the front, then off the back (the reversed string,
    with the reversed encodings). *)
Definition TrimSpace (s : string) : string :=
  let l := trim_left (String.length s) space_runes s in
  String.rev (trim_left (String.length l) (String.rev <$> space_runes) (String.rev l)).

(** [strconv.Atoi]: an optional sign and decimal digits, within int (64 bits). *)
Fixpoint digits_value (acc : Z) (s : string) : option Z :=
  match s with
  | EmptyString => Some acc
  | String c s' => if is_digit c then digits_value (10 * acc + digit_value c) s' else None
  end.

Definition unsigned_value (s : string) : option Z :=
  if string_is_empty s then None else digits_value 0 s.

Definition signed_value (s : string) : option Z :=
  match s with
  | String "-" s' => Z.opp <$> unsigned_value s'
  | String "+" s' => unsigned_value s'
  | _ => unsigned_value s
  end.

Definition Atoi (s : string) : option Z :=
  match signed_value s with
  | Some n => if int64_ok n then Some n else None
  | None => None
  end.

(** ** Hexadecimal *)

Definition hex_digit (n : nat) : ascii :=
  if (n <? 10)%nat then ascii_of_nat (48 + n) else ascii_of_nat (87 + n).

(** [hex.EncodeToString] *)
Fixpoint hex_EncodeToString (s : string) : string :=
  match s with
  | EmptyString => EmptyString
  | String c s' =>
      let n := nat_of_ascii c in
      String (hex_digit (n / 16)) (String (hex_digit (n mod 16)) (hex_EncodeToString s'))
  end.

(** ** net.SplitHostPort *)

Fixpoint has_byte (c : ascii) (s : string) : bool :=
  match s with
  | EmptyString => false
  | String d s' => bool_decide (d = c) || has_byte c s'
  end.

(** The parts before and after the last [c]. *)
Fixpoint cut_last (c : ascii) (s : string) : option (string * string) :=
  match s with
  | EmptyString => None
  | String d s' =>
      match cut_last c s' with
      | Some (a, b) => Some (String d a, b)
      | None => if bool_decide (d = c) then Some (EmptyString, s') else None
      end
  end.

Definition SplitHostPort (hostport : string) : option (string * string) :=
  match cut_last ":" hostport with
  | None => None                                   (* missing port in address *)
  | Some (pre, port) =>
      match hostport with
      | String "[" rest =>
          match cut "]" rest with
          | None => None                           (* missing ']' in address *)
          | Some (host, after) =>
              match after with
              | String ":" port' =>
                  if has_byte ":" port' then None  (* too many colons *)
                  else if has_byte "[" rest || has_byte "]" port' then None
                  else Some (host, port')
              | _ => None                          (* missing port *)
              end
          end
      | _ =>
          if has_byte ":" pre then None            (* too many colons *)
          else if has_byte "[" hostport || has_byte "]" hostport then None
          else Some (pre, port)
      end
  end.
