(* ===== verification/Decimal.v ===== *)
(** * Decimal numbers: printing and reading agree

    The text that [fmt.Sprintf] with %d, [strconv.Itoa] and encoding/json print for an
    integer ([pretty]) is read back by [strconv.Atoi] as that integer. *)

From S2P Require Import Prelude GoStd.

(** Texts made of digits only, with no superfluous zero in front. *)
Definition is_decimal (s : string) : bool :=
  match s with
  | EmptyString => false
  | String c s' => is_digit c && string_forallb is_digit s'
                   && (negb (bool_decide (c = "0"%char)) || string_is_empty s')
  end.

Lemma append_cons c s t : String c s +:+ t = String c (s +:+ t).
Proof. done. Qed.

Lemma append_nil s : EmptyString +:+ s = s.
Proof. done. Qed.

Lemma append_assoc s t u : (s +:+ t) +:+ u = s +:+ (t +:+ u).
Proof. induction s as [|c s IH]; [done|]. rewrite !append_cons. by rewrite IH. Qed.

Lemma append_empty_r s : s +:+ EmptyString = s.
Proof. induction s as [|c s IH]; [done|]. by rewrite append_cons, IH. Qed.

Lemma length_append s t : String.length (s +:+ t) = (String.length s + String.length t)%nat.
Proof. induction s as [|c s IH]; [done|]. rewrite append_cons. cbn. by rewrite IH. Qed.

Lemma string_forallb_app f s t :
  string_forallb f (s +:+ t) = string_forallb f s && string_forallb f t.
Proof. induction s as [|c s IH]; [done|]. simpl. rewrite <- andb_assoc. by f_equal. Qed.

Lemma digits_value_app acc s t :
  digits_value acc (s +:+ t) =
  match digits_value acc s with Some n => digits_value n t | None => None end.
Proof.
  revert acc. induction s as [|c s IH]; intros acc; [done|]. rewrite append_cons. cbn.
  destruct (is_digit c); [apply IH|done].
Qed.

Lemma digits_value_forallb acc s :
  string_forallb is_digit s = true → is_Some (digits_value acc s).
Proof.
  revert acc. induction s as [|c s IH]; intros acc; cbn; [done|].
  intros [Hc Hs]%andb_prop. rewrite Hc. by apply IH.
Qed.

Lemma pretty_N_char_digit x :
  (x < 10)%N →
  is_digit (pretty_N_char x) = true ∧ digit_value (pretty_N_char x) = Z.of_N x ∧
  (pretty_N_char x = "0"%char → x = 0%N).
Proof.
  intros Hx.
  assert (x = 0 ∨ x = 1 ∨ x = 2 ∨ x = 3 ∨ x = 4 ∨ x = 5 ∨ x = 6 ∨ x = 7 ∨ x = 8 ∨ x = 9)%N
    as Hc by lia.
  repeat destruct Hc as [->|Hc]; [done..|]. by subst.
Qed.

(** The loop of the printer: the digits of [x] in front of [s]. *)
Lemma pretty_N_go_value x s :
  digits_value 0 (pretty_N_go x s) = digits_value (Z.of_N x) s.
Proof.
  revert s. induction (N.lt_wf_0 x) as [x _ IH]; intros s.
  destruct (decide (x = 0%N)) as [->|Hx]; [by rewrite pretty_N_go_0|].
  rewrite pretty_N_go_step by lia. rewrite IH by (apply N.div_lt; lia). cbn.
  destruct (pretty_N_char_digit (x mod 10)) as (-> & -> & _); [by apply N.mod_lt|].
  f_equal. rewrite N2Z.inj_div, N2Z.inj_mod. pose proof (Z.div_mod (Z.of_N x) 10). lia.
Qed.

Lemma pretty_N_go_decimal x s :
  (0 < x)%N → string_forallb is_digit s = true → is_decimal (pretty_N_go x s) = true.
Proof.
  revert s. induction (N.lt_wf_0 x) as [x _ IH]; intros s Hx Hs.
  rewrite pretty_N_go_step by done.
  destruct (pretty_N_char_digit (x mod 10)) as (Hd & _ & H0); [by apply N.mod_lt|].
  destruct (decide (x / 10 = 0)%N) as [Hq|Hq].
  - rewrite Hq, pretty_N_go_0. cbn. rewrite Hd, Hs. cbn.
    rewrite bool_decide_false; [done|]. intros Heq%H0.
    pose proof (N.Div0.div_mod x 10). lia.
  - apply IH; [apply N.div_lt; lia| |cbn; by rewrite Hd].
    revert Hq. generalize (x / 10)%N. lia.
Qed.

Lemma pretty_N_decimal (x : N) : is_decimal (pretty x) = true.
Proof.
  unfold pretty, pretty_N. case_decide; [done|]. apply pretty_N_go_decimal; [lia|done].
Qed.

Lemma pretty_N_value (x : N) : digits_value 0 (pretty x) = Some (Z.of_N x).
Proof.
  unfold pretty, pretty_N. case_decide; [by subst|]. by rewrite pretty_N_go_value.
Qed.

Lemma is_decimal_nonempty s : is_decimal s = true → string_is_empty s = false.
Proof. by destruct s. Qed.

Lemma is_decimal_digits s : is_decimal s = true → string_forallb is_digit s = true.
Proof. destruct s as [|c s]; [done|]. cbn. intros [[-> ->]%andb_prop _]%andb_prop. done. Qed.

Lemma unsigned_value_pretty (x : N) : unsigned_value (pretty x) = Some (Z.of_N x).
Proof.
  unfold unsigned_value. rewrite is_decimal_nonempty by apply pretty_N_decimal.
  apply pretty_N_value.
Qed.

(** A text of digits has no sign. *)
Lemma signed_value_digits s :
  is_decimal s = true → signed_value s = unsigned_value s.
Proof.
  destruct s as [|c s]; [done|]. intros H%is_decimal_digits. cbn in H.
  apply andb_prop in H as [H _]. by destruct c as [[] [] [] [] [] [] [] []].
Qed.

(** strconv.Atoi reads what was printed. *)
Lemma signed_value_pretty (z : Z) : signed_value (pretty z) = Some z.
Proof.
  destruct z as [|p|p]; [done|..].
  - change (pretty (Zpos p)) with (pretty (Npos p)).
    rewrite signed_value_digits by apply pretty_N_decimal. by rewrite unsigned_value_pretty.
  - change (pretty (Zneg p)) with (String "-" (pretty (Npos p))). cbn.
    by rewrite unsigned_value_pretty.
Qed.

Lemma has_byte_app c s t : has_byte c (s +:+ t) = has_byte c s || has_byte c t.
Proof.
  induction s as [|d s IH]; [done|]. rewrite append_cons. cbn. by rewrite IH, orb_assoc.
Qed.

Lemma digits_no_byte c s :
  is_digit c = false → string_forallb is_digit s = true → has_byte c s = false.
Proof.
  intros Hc. induction s as [|d s IH]; [done|]. cbn. intros [Hd Hs]%andb_true_iff.
  rewrite IH by done. rewrite bool_decide_false; [done|]. intros ->. by rewrite Hc in Hd.
Qed.

Lemma pretty_no_colon (z : Z) : has_byte ":" (pretty z) = false.
Proof.
  assert (Hn : ∀ n : N, has_byte ":" (pretty n) = false).
  { intros n. apply digits_no_byte; [done|]. apply is_decimal_digits, pretty_N_decimal. }
  destruct z as [|p|p]; [done|exact (Hn (Npos p))|]. exact (Hn (Npos p)).
Qed.

Lemma Atoi_pretty (z : Z) : int64_ok z = true → Atoi (pretty z) = Some z.
Proof. intros Hz. unfold Atoi. by rewrite signed_value_pretty, Hz. Qed.

#[export] Hint Rewrite append_cons append_nil append_assoc append_empty_r length_append signed_value_pretty unsigned_value_pretty : sched_rw.
