(* ===== verification/Models.v ===== *)
(** * The domain model: internal/models and the DeadLetter record

    Identifiers, timestamps, payloads, the two status enumerations and the three records
    that the repositories store. *)

From S2P Require Import Prelude GoStd.

(** A [uuid.UUID]: the 16 bytes as a big-endian number. The zero value is [uuid.Nil]. *)
Abbreviation uuid := N.
Definition uuid_Nil : uuid := 0%N.

(** An instant, in microseconds since the Unix epoch (the resolution of timestamptz). *)
Abbreviation Time := Z.
Definition seconds (n : Z) : Z := n * 1000000.

(** A [json.RawMessage]: a nil slice, or the bytes of a JSON text. *)
Abbreviation RawMessage := (option string).

(** A finite float64, by the decimal that denotes it: mant / 10^exp. *)
Record float64 : Type := mkFloat { f_mant : Z; f_exp : nat }.
#[export] Instance float64_eq_dec : EqDecision float64.
Proof. solve_decision. Defined.

Definition float_leb (a b : float64) : bool :=
  f_mant a * 10 ^ Z.of_nat (f_exp b) <=? f_mant b * 10 ^ Z.of_nat (f_exp a).

(** ** Jobs *)

Inductive JobStatus : Type :=
| JobStatusQueued
| JobStatusRunning
| JobStatusCompleted
| JobStatusFailed
| JobStatusRetrying
| JobStatusDead.
#[export] Instance JobStatus_eq_dec : EqDecision JobStatus.
Proof. solve_decision. Defined.

Definition JobStatus_string (s : JobStatus) : string :=
  match s with
  | JobStatusQueued => "QUEUED"
  | JobStatusRunning => "RUNNING"
  | JobStatusCompleted => "COMPLETED"
  | JobStatusFailed => "FAILED"
  | JobStatusRetrying => "RETRYING"
  | JobStatusDead => "DEAD"
  end.

(** The values of the enumeration type job_status, as its input function reads them. *)
Definition JobStatus_parse (s : string) : option JobStatus :=
  if decide (s = "QUEUED") then Some JobStatusQueued
  else if decide (s = "RUNNING") then Some JobStatusRunning
  else if decide (s = "COMPLETED") then Some JobStatusCompleted
  else if decide (s = "FAILED") then Some JobStatusFailed
  else if decide (s = "RETRYING") then Some JobStatusRetrying
  else if decide (s = "DEAD") then Some JobStatusDead
  else None.

Record Job : Type := mkJob {
  job_ID : uuid;
  job_Status : JobStatus;
  job_Type : string;
  job_Payload : RawMessage;
  job_Priority : Z;               (* int16 *)
  job_Attempts : Z;               (* int; INTEGER in the table *)
  job_WorkerID : option uuid;
  job_CreatedAt : Time;
  job_UpdatedAt : Time;
}.
#[export] Instance Job_eq_dec : EqDecision Job.
Proof. solve_decision. Defined.

(** [models.NewJob]; [newID] is what uuid.New() returned, the fields the literal omits have
    their zero values (the zero time is [0] here: the insert never sends it). *)
Definition NewJob (newID : uuid) (jobType : string) (payload : RawMessage) (priority : Z) : Job :=
  {| job_ID := newID;
     job_Status := JobStatusQueued;
     job_Type := jobType;
     job_Payload := payload;
     job_Priority := priority;
     job_Attempts := 0;
     job_WorkerID := None;
     job_CreatedAt := 0;
     job_UpdatedAt := 0 |}.

(** Updates of single columns. *)
Definition job_set_status (s : JobStatus) (j : Job) : Job :=
  mkJob (job_ID j) s (job_Type j) (job_Payload j) (job_Priority j) (job_Attempts j)
    (job_WorkerID j) (job_CreatedAt j) (job_UpdatedAt j).
Definition job_set_worker (w : option uuid) (j : Job) : Job :=
  mkJob (job_ID j) (job_Status j) (job_Type j) (job_Payload j) (job_Priority j) (job_Attempts j)
    w (job_CreatedAt j) (job_UpdatedAt j).
Definition job_set_attempts (n : Z) (j : Job) : Job :=
  mkJob (job_ID j) (job_Status j) (job_Type j) (job_Payload j) (job_Priority j) n
    (job_WorkerID j) (job_CreatedAt j) (job_UpdatedAt j).
Definition job_set_updated (t : Time) (j : Job) : Job :=
  mkJob (job_ID j) (job_Status j) (job_Type j) (job_Payload j) (job_Priority j) (job_Attempts j)
    (job_WorkerID j) (job_CreatedAt j) t.

(** ** Workers *)

Inductive WorkerStatus : Type :=
| WorkerStatusActive
| WorkerStatusIdle
| WorkerStatusUnhealty
| WorkerStatusOffline.
#[export] Instance WorkerStatus_eq_dec : EqDecision WorkerStatus.
Proof. solve_decision. Defined.

Definition WorkerStatus_string (s : WorkerStatus) : string :=
  match s with
  | WorkerStatusActive => "ACTIVE"
  | WorkerStatusIdle => "IDLE"
  | WorkerStatusUnhealty => "UNHEALTHY"
  | WorkerStatusOffline => "OFFLINE"
  end.

Definition WorkerStatus_parse (s : string) : option WorkerStatus :=
  if decide (s = "ACTIVE") then Some WorkerStatusActive
  else if decide (s = "IDLE") then Some WorkerStatusIdle
  else if decide (s = "UNHEALTHY") then Some WorkerStatusUnhealty
  else if decide (s = "OFFLINE") then Some WorkerStatusOffline
  else None.

Record Worker : Type := mkWorker {
  worker_ID : uuid;
  worker_Host : string;
  worker_Status : WorkerStatus;
  worker_CPU : option float64;
  worker_Memory : option float64;
  worker_RunningJobs : Z;
  worker_LastHeartBeat : option Time;
  worker_CreatedAt : Time;
}.
#[export] Instance Worker_eq_dec : EqDecision Worker.
Proof. solve_decision. Defined.

Definition worker_set_status (s : WorkerStatus) (w : Worker) : Worker :=
  mkWorker (worker_ID w) (worker_Host w) s (worker_CPU w) (worker_Memory w)
    (worker_RunningJobs w) (worker_LastHeartBeat w) (worker_CreatedAt w).

(** ** Dead letters *)

Record DeadLetter : Type := mkDeadLetter {
  dl_ID : uuid;
  dl_JobID : uuid;
  dl_WorkerID : option uuid;
  dl_JobType : string;
  dl_Payload : RawMessage;
  dl_Attempts : Z;
  dl_Error : string;
  dl_Status : string;
  dl_ReplayedAt : option Time;
  dl_ReplayedJobID : option uuid;
  dl_CreatedAt : Time;
}.
#[export] Instance DeadLetter_eq_dec : EqDecision DeadLetter.
Proof. solve_decision. Defined.

(** ** Facts *)

Lemma JobStatus_parse_string s : JobStatus_parse (JobStatus_string s) = Some s.
Proof. by destruct s. Qed.

Lemma JobStatus_string_parse t s : JobStatus_parse t = Some s → JobStatus_string s = t.
Proof. unfold JobStatus_parse. by intros; repeat case_decide; simplify_eq. Qed.

Lemma WorkerStatus_parse_string s : WorkerStatus_parse (WorkerStatus_string s) = Some s.
Proof. by destruct s. Qed.

Lemma WorkerStatus_string_parse t s : WorkerStatus_parse t = Some s → WorkerStatus_string s = t.
Proof. unfold WorkerStatus_parse. by intros; repeat case_decide; simplify_eq. Qed.
