(* ===== verification/GoTime.v ===== *)
(** * Package time: wall clocks and RFC 3339

    An instant is a number of microseconds ([Time]); a [time.Time] that is printed or read is
    a wall clock with its zone offset. *)

From S2P Require Import Prelude GoStd Models.

Record WallTime : Type := mkWallTime {
  wt_year : Z;
  wt_month : Z;
  wt_day : Z;
  wt_hour : Z;
  wt_minute : Z;
  wt_second : Z;
  wt_nanos : Z;
  wt_offset : Z;   (* minutes east of UTC *)
}.
#[export] Instance WallTime_eq_dec : EqDecision WallTime.
Proof. solve_decision. Defined.

(** The zero time.Time. *)
Definition wall_zero : WallTime := mkWallTime 1 1 1 0 0 0 0 0.

(** The proleptic Gregorian date of a day counted from 1970-01-01. *)
Definition civil_from_days (days : Z) : Z * Z * Z :=
  let z := days + 719468 in
  let era := z / 146097 in
  let doe := z - era * 146097 in
  let yoe := (doe - doe / 1460 + doe / 36524 - doe / 146096) / 365 in
  let doy := doe - (365 * yoe + yoe / 4 - yoe / 100) in
  let mp := (5 * doy + 2) / 153 in
  let d := doy - (153 * mp + 2) / 5 + 1 in
  let m := if mp <? 10 then mp + 3 else mp - 9 in
  (yoe + era * 400 + (if m <=? 2 then 1 else 0), m, d).

(** The instant [t] in a zone [offset] minutes east of UTC. *)
Definition wall_clock (offset : Z) (t : Time) : WallTime :=
  let local := t + offset * 60000000 in
  let days := local / 86400000000 in
  let rest := local - days * 86400000000 in
  let '(y, m, d) := civil_from_days days in
  mkWallTime y m d (rest / 3600000000) (rest / 60000000 mod 60) (rest / 1000000 mod 60)
    (rest mod 1000000 * 1000) offset.

(** [n] decimal digits of a number, zeros in front. *)
Fixpoint digits (n : nat) (z : Z) : string :=
  match n with
  | O => EmptyString
  | S n' => digits n' (z / 10) +:+ chr (48 + Z.to_nat (z mod 10))
  end.

Fixpoint trim_zeros (n : nat) (z : Z) : string :=
  match n with
  | O => EmptyString
  | S n' => if z mod 10 =? 0 then trim_zeros n' (z / 10) else digits n z
  end.

Definition format_zone (offset : Z) : string :=
  if offset =? 0 then "Z"
  else (if offset <? 0 then "-" else "+") +:+ digits 2 (Z.abs offset / 60) +:+ ":"
       +:+ digits 2 (Z.abs offset mod 60).

Definition format_seconds (t : WallTime) : string :=
  digits 4 (wt_year t) +:+ "-" +:+ digits 2 (wt_month t) +:+ "-" +:+ digits 2 (wt_day t)
  +:+ "T" +:+ digits 2 (wt_hour t) +:+ ":" +:+ digits 2 (wt_minute t) +:+ ":"
  +:+ digits 2 (wt_second t).

(** [Format(time.RFC3339)] and [Format(time.RFC3339Nano)]. *)
Definition format_rfc3339 (t : WallTime) : string :=
  format_seconds t +:+ format_zone (wt_offset t).
Definition format_rfc3339_nano (t : WallTime) : string :=
  format_seconds t
  +:+ (if wt_nanos t =? 0 then EmptyString else "." +:+ trim_zeros 9 (wt_nanos t))
  +:+ format_zone (wt_offset t).

(** What MarshalJSON accepts: a year of four digits, a zone of less than 24 hours. *)
Definition time_marshals (t : WallTime) : bool :=
  (0 <=? wt_year t) && (wt_year t <=? 9999) && (Z.abs (wt_offset t) <? 1440).

(** ** Reading RFC 3339, as UnmarshalJSON does *)

Fixpoint read_digits (n : nat) (acc : Z) (s : string) : option (Z * string) :=
  match n, s with
  | O, _ => Some (acc, s)
  | S n', String c s' =>
      if is_digit c then read_digits n' (10 * acc + digit_value c) s' else None
  | S _, EmptyString => None
  end.

Definition read_byte (c : ascii) (s : string) : option string :=
  match s with
  | String d s' => if bool_decide (d = c) then Some s' else None
  | EmptyString => None
  end.

Fixpoint read_fraction (k : nat) (acc : Z) (s : string) : Z * nat * string :=
  match s with
  | String c s' =>
      if is_digit c
      then read_fraction (S k) (if (k <? 9)%nat then 10 * acc + digit_value c else acc) s'
      else (acc, k, s)
  | EmptyString => (acc, k, EmptyString)
  end.

Definition is_leap (y : Z) : bool :=
  (y mod 4 =? 0) && (negb (y mod 100 =? 0) || (y mod 400 =? 0)).

Definition days_in (y m : Z) : Z :=
  if m =? 2 then if is_leap y then 29 else 28
  else if (m =? 4) || (m =? 6) || (m =? 9) || (m =? 11) then 30 else 31.

Definition read_zone (s : string) : option Z :=
  match s with
  | String "Z" EmptyString => Some 0
  | String c s' =>
      let sign := if bool_decide (c = "+"%char) then Some 1
                  else if bool_decide (c = "-"%char) then Some (-1) else None in
      match sign, read_digits 2 0 s' with
      | Some sg, Some (h, s1) =>
          match read_byte ":" s1 with
          | Some s2 =>
              match read_digits 2 0 s2 with
              | Some (m, EmptyString) =>
                  if (h <=? 23) && (m <=? 59) then Some (sg * (60 * h + m)) else None
              | _ => None
              end
          | None => None
          end
      | _, _ => None
      end
  | EmptyString => None
  end.

Definition parse_rfc3339 (s : string) : option WallTime :=
  y ← read_digits 4 0 s; s1 ← read_byte "-" y.2;
  m ← read_digits 2 0 s1; s2 ← read_byte "-" m.2;
  d ← read_digits 2 0 s2; s3 ← read_byte "T" d.2;
  h ← read_digits 2 0 s3; s4 ← read_byte ":" h.2;
  mi ← read_digits 2 0 s4; s5 ← read_byte ":" mi.2;
  sec ← read_digits 2 0 s5;
  fr ← match read_byte "." sec.2 with
       | Some r => let '(v, k, r') := read_fraction 0 0 r in
                   if (k =? 0)%nat then None
                   else Some (v * 10 ^ (9 - Z.min 9 (Z.of_nat k)), r')
       | None => Some (0, sec.2)
       end;
  off ← read_zone fr.2;
  if (1 <=? m.1) && (m.1 <=? 12) && (1 <=? d.1) && (d.1 <=? days_in y.1 m.1)
     && (h.1 <=? 23) && (mi.1 <=? 59) && (sec.1 <=? 59)
  then Some (mkWallTime y.1 m.1 d.1 h.1 mi.1 sec.1 fr.1 off) else None.

Example wall_clock_epoch : format_rfc3339_nano (wall_clock 0 0) = "1970-01-01T00:00:00Z".
Proof. vm_compute. reflexivity. Qed.
Example wall_clock_leap :
  format_rfc3339_nano (wall_clock 330 1709231696500000) = "2024-03-01T00:04:56.5+05:30".
Proof. vm_compute. reflexivity. Qed.
Example parse_rfc3339_leap :
  parse_rfc3339 "2024-02-29T18:34:56.5+05:30" = Some (mkWallTime 2024 2 29 18 34 56 500000000 330).
Proof. vm_compute. reflexivity. Qed.
Example parse_rfc3339_bad_day : parse_rfc3339 "2023-02-29T18:34:56Z" = None.
Proof. vm_compute. reflexivity. Qed.
