(* ===== verification/Json.v ===== *)
(** * encoding/json, as far as the scheduler uses it

    The text layer: string literals with their escapes, numbers, the recogniser of a JSON
    value (the state machine of the package's scanner), compaction of a RawMessage, and the
    members of an object with the raw text of each value, from which the structs of the
    program are decoded. *)

From S2P Require Import Prelude GoStd Models.

(** ** UTF-8 *)

Definition code (c : ascii) : nat := nat_of_ascii c.
Definition between (lo hi : nat) (c : ascii) : bool := (lo <=? code c)%nat && (code c <=? hi)%nat.
Definition cont (c : ascii) : bool := between 128 191 c.

Definition valid2 (a b : ascii) : bool := between 194 223 a && cont b.
Definition valid3 (a b c : ascii) : bool :=
  ((between 224 224 a && between 160 191 b)
   || ((between 225 236 a || between 238 239 a) && cont b)
   || (between 237 237 a && between 128 159 b)) && cont c.
Definition valid4 (a b c d : ascii) : bool :=
  ((between 240 240 a && between 144 191 b)
   || (between 241 243 a && cont b)
   || (between 244 244 a && between 128 143 b)) && cont c && cont d.

(** A string as runes; [Bad] is a byte that starts no valid encoding (U+FFFD, width 1). *)
Inductive rune : Type :=
| R1 (a : ascii)
| R2 (a b : ascii)
| R3 (a b c : ascii)
| R4 (a b c d : ascii)
| Bad.

Fixpoint runes (s : string) : list rune :=
  match s with
  | EmptyString => []
  | String a s1 =>
      if (code a <? 128)%nat then R1 a :: runes s1
      else match s1 with
           | EmptyString => [Bad]
           | String b s2 =>
               if valid2 a b then R2 a b :: runes s2
               else match s2 with
                    | EmptyString => Bad :: runes s1
                    | String c s3 =>
                        if valid3 a b c then R3 a b c :: runes s3
                        else match s3 with
                             | EmptyString => Bad :: runes s1
                             | String d s4 =>
                                 if valid4 a b c d then R4 a b c d :: runes s4
                                 else Bad :: runes s1
                             end
                    end
           end
  end.

(** The bytes of a rune; a bad byte is written as U+FFFD. *)
Definition rune_bytes (r : rune) : string :=
  match r with
  | R1 a => String a EmptyString
  | R2 a b => String a (String b EmptyString)
  | R3 a b c => String a (String b (String c EmptyString))
  | R4 a b c d => String a (String b (String c (String d EmptyString)))
  | Bad => chr 239 +:+ chr 191 +:+ chr 189
  end.

Definition rune_ok (r : rune) : bool := match r with Bad => false | _ => true end.

Definition utf8_valid (s : string) : bool := forallb rune_ok (runes s).

(** ** String literals *)

Definition q : string := String quote EmptyString.
Definition bs : string := String backslash EmptyString.

(** \u00XX *)
Definition u00 (n : nat) : string :=
  bs +:+ "u00" +:+ String (hex_digit (n / 16)) (String (hex_digit (n mod 16)) EmptyString).

(** encodeState.string with HTML escaping on. *)
Definition escape_rune (r : rune) : string :=
  match r with
  | R1 a =>
      let n := code a in
      if (n =? 34)%nat then bs +:+ q
      else if (n =? 92)%nat then bs +:+ bs
      else if (n =? 8)%nat then bs +:+ "b"
      else if (n =? 12)%nat then bs +:+ "f"
      else if (n =? 10)%nat then bs +:+ "n"
      else if (n =? 13)%nat then bs +:+ "r"
      else if (n =? 9)%nat then bs +:+ "t"
      else if (n <? 32)%nat || (n =? 60)%nat || (n =? 62)%nat || (n =? 38)%nat then u00 n
      else String a EmptyString
  | R3 a b c =>
      if (code a =? 226)%nat && (code b =? 128)%nat && ((code c =? 168)%nat || (code c =? 169)%nat)
      then bs +:+ "u202" +:+ String (hex_digit (code c - 160)) EmptyString
      else rune_bytes r
  | Bad => bs +:+ "ufffd"
  | _ => rune_bytes r
  end.

Fixpoint concat_map {A} (f : A → string) (l : list A) : string :=
  match l with [] => EmptyString | x :: l' => f x +:+ concat_map f l' end.

Definition json_string (s : string) : string := q +:+ concat_map escape_rune (runes s) +:+ q.

Definition hex_value (c : ascii) : option N :=
  let n := code c in
  if (48 <=? n)%nat && (n <=? 57)%nat then Some (N.of_nat (n - 48))
  else if (97 <=? n)%nat && (n <=? 102)%nat then Some (N.of_nat (n - 87))
  else if (65 <=? n)%nat && (n <=? 70)%nat then Some (N.of_nat (n - 55))
  else None.

Definition hex4 (a b c d : ascii) : option N :=
  match hex_value a, hex_value b, hex_value c, hex_value d with
  | Some x, Some y, Some z, Some t => Some (((x * 16 + y) * 16 + z) * 16 + t)%N
  | _, _, _, _ => None
  end.

Definition nchr (n : N) : string := chr (N.to_nat n).

(** utf8.AppendRune *)
Definition utf8_encode (n : N) : string :=
  (if n <? 128 then nchr n
   else if n <? 2048 then nchr (192 + n / 64) +:+ nchr (128 + n mod 64)
   else if n <? 65536
   then nchr (224 + n / 4096) +:+ nchr (128 + n / 64 mod 64) +:+ nchr (128 + n mod 64)
   else nchr (240 + n / 262144) +:+ nchr (128 + n / 4096 mod 64)
        +:+ nchr (128 + n / 64 mod 64) +:+ nchr (128 + n mod 64))%N.

Definition is_high (n : N) : bool := ((55296 <=? n) && (n <? 56320))%N.
Definition is_low (n : N) : bool := ((56320 <=? n) && (n <? 57344))%N.
Definition replacement : string := rune_bytes Bad.

Definition simple_escape (c : ascii) : option ascii :=
  match code c with
  | 34%nat => Some quote | 92%nat => Some backslash | 47%nat => Some c
  | 98%nat => Some (ascii_of_nat 8) | 102%nat => Some (ascii_of_nat 12)
  | 110%nat => Some (ascii_of_nat 10) | 114%nat => Some (ascii_of_nat 13)
  | 116%nat => Some (ascii_of_nat 9)
  | _ => None
  end.

(** [unquote]: the runes after the opening quote, up to the closing quote; the value and the
    runes that follow. A surrogate that is not half of a pair is U+FFFD. *)
Fixpoint unquote (l : list rune) : option (string * list rune) :=
  match l with
  | R1 a :: l1 =>
      let n := code a in
      if (n =? 34)%nat then Some (EmptyString, l1)
      else if (n <? 32)%nat then None
      else if (n =? 92)%nat then
        match l1 with
        | R1 e :: l2 =>
            if (code e =? 117)%nat then
              match l2 with
              | R1 h1 :: R1 h2 :: R1 h3 :: R1 h4 :: l3 =>
                  match hex4 h1 h2 h3 h4 with
                  | None => None
                  | Some u =>
                      if is_high u then
                        match l3 with
                        | R1 b :: R1 e' :: R1 g1 :: R1 g2 :: R1 g3 :: R1 g4 :: l4 =>
                            match hex4 g1 g2 g3 g4 with
                            | Some v =>
                                if (code b =? 92)%nat && (code e' =? 117)%nat && is_low v
                                then match unquote l4 with
                                     | Some (t, r) =>
                                         Some (utf8_encode (65536 + (u - 55296) * 1024
                                                            + (v - 56320)) +:+ t, r)
                                     | None => None
                                     end
                                else match unquote l3 with
                                     | Some (t, r) => Some (replacement +:+ t, r)
                                     | None => None
                                     end
                            | None => match unquote l3 with
                                      | Some (t, r) => Some (replacement +:+ t, r)
                                      | None => None
                                      end
                            end
                        | _ => match unquote l3 with
                               | Some (t, r) => Some (replacement +:+ t, r)
                               | None => None
                               end
                        end
                      else match unquote l3 with
                           | Some (t, r) =>
                               Some ((if is_low u then replacement else utf8_encode u) +:+ t, r)
                           | None => None
                           end
                  end
              | _ => None
              end
            else match simple_escape e with
                 | Some c => match unquote l2 with
                             | Some (t, r) => Some (String c t, r)
                             | None => None
                             end
                 | None => None
                 end
        | _ => None
        end
      else match unquote l1 with
           | Some (t, r) => Some (String a t, r)
           | None => None
           end
  | r :: l1 =>
      match unquote l1 with
      | Some (t, rest) => Some (rune_bytes r +:+ t, rest)
      | None => None
      end
  | [] => None
  end.

Definition runes_string (l : list rune) : string := concat_map rune_bytes l.

(** The text of a string literal to its value. *)
Definition json_unquote (raw : string) : option string :=
  match raw with
  | String c s =>
      if (code c =? 34)%nat then
        match unquote (runes s) with
        | Some (t, []) => Some t
        | _ => None
        end
      else None
  | EmptyString => None
  end.

(** ** The scanner *)

Inductive frame : Type := FArr | FObjKey | FObjVal.

(** scanner.go: the step functions, with what is left of a literal or of a \u escape. *)
Inductive mode : Type :=
| BeginValue
| BeginValueOrEmpty
| BeginString
| BeginStringOrEmpty
| InString
| InStringEsc
| InStringEscU (n : nat)
| Neg | Num0 | Num1 | Dot | Dot0 | Ex | ExSign | Ex0
| Literal (rest : string)
| EndValue
| EndTop.

Definition is_ws (c : ascii) : bool :=
  let n := code c in (n =? 32)%nat || (n =? 9)%nat || (n =? 10)%nat || (n =? 13)%nat.
Definition is_byte (n : nat) (c : ascii) : bool := (code c =? n)%nat.

Inductive verdict : Type :=
| Go (m : mode) (st : list frame)
| Stop                          (* the value ended before this byte *)
| Fail_.

Definition after_value (st : list frame) : mode := match st with [] => EndTop | _ => EndValue end.

(** stateBeginValue *)
Definition step_value (st : list frame) (c : ascii) : verdict :=
  if is_ws c then Go BeginValue st
  else if is_byte 123 c then Go BeginStringOrEmpty (FObjKey :: st)
  else if is_byte 91 c then Go BeginValueOrEmpty (FArr :: st)
  else if is_byte 34 c then Go InString st
  else if is_byte 45 c then Go Neg st
  else if is_byte 48 c then Go Num0 st
  else if is_digit c then Go Num1 st
  else if is_byte 116 c then Go (Literal "rue") st
  else if is_byte 102 c then Go (Literal "alse") st
  else if is_byte 110 c then Go (Literal "ull") st
  else Fail_.

(** stateEndValue *)
Definition step_end (st : list frame) (c : ascii) : verdict :=
  match st with
  | [] => Stop
  | f :: st' =>
      if is_ws c then Go EndValue st
      else match f with
           | FObjKey => if is_byte 58 c then Go BeginValue (FObjVal :: st') else Fail_
           | FObjVal => if is_byte 44 c then Go BeginString (FObjKey :: st')
                        else if is_byte 125 c then Go (after_value st') st' else Fail_
           | FArr => if is_byte 44 c then Go BeginValue (FArr :: st')
                     else if is_byte 93 c then Go (after_value st') st' else Fail_
           end
  end.

Definition scan_step (m : mode) (st : list frame) (c : ascii) : verdict :=
  match m with
  | BeginValue => step_value st c
  | BeginValueOrEmpty =>
      if is_ws c then Go BeginValueOrEmpty st
      else if is_byte 93 c then step_end st c else step_value st c
  | BeginString =>
      if is_ws c then Go BeginString st
      else if is_byte 34 c then Go InString st else Fail_
  | BeginStringOrEmpty =>
      if is_ws c then Go BeginStringOrEmpty st
      else if is_byte 125 c
      then match st with f :: st' => step_end (FObjVal :: st') c | [] => Fail_ end
      else if is_byte 34 c then Go InString st else Fail_
  | InString =>
      if is_byte 34 c then Go (after_value st) st
      else if is_byte 92 c then Go InStringEsc st
      else if (code c <? 32)%nat then Fail_ else Go InString st
  | InStringEsc =>
      if is_byte 117 c then Go (InStringEscU 4) st
      else match simple_escape c with Some _ => Go InString st | None => Fail_ end
  | InStringEscU n =>
      match hex_value c with
      | Some _ => Go (match n with S (S n') => InStringEscU (S n') | _ => InString end) st
      | None => Fail_
      end
  | Neg => if is_byte 48 c then Go Num0 st else if is_digit c then Go Num1 st else Fail_
  | Num1 => if is_digit c then Go Num1 st
            else if is_byte 46 c then Go Dot st
            else if is_byte 101 c || is_byte 69 c then Go Ex st else step_end st c
  | Num0 => if is_byte 46 c then Go Dot st
            else if is_byte 101 c || is_byte 69 c then Go Ex st else step_end st c
  | Dot => if is_digit c then Go Dot0 st else Fail_
  | Dot0 => if is_digit c then Go Dot0 st
            else if is_byte 101 c || is_byte 69 c then Go Ex st else step_end st c
  | Ex => if is_byte 43 c || is_byte 45 c then Go ExSign st
          else if is_digit c then Go Ex0 st else Fail_
  | ExSign => if is_digit c then Go Ex0 st else Fail_
  | Ex0 => if is_digit c then Go Ex0 st else step_end st c
  | Literal (String d r) =>
      if bool_decide (c = d)
      then Go (match r with EmptyString => after_value st | _ => Literal r end) st else Fail_
  | Literal EmptyString => Fail_
  | EndValue => step_end st c
  | EndTop => Stop
  end.

(** May the input end here? *)
Definition scan_eof (m : mode) (st : list frame) : bool :=
  match st, m with
  | [], (EndTop | Num0 | Num1 | Dot0 | Ex0) => true
  | _, _ => false
  end.

(** The text of one value, from the state [m], [st], and what follows it. *)
Fixpoint take_value (m : mode) (st : list frame) (s : string) : option (string * string) :=
  match s with
  | EmptyString => if scan_eof m st then Some (EmptyString, EmptyString) else None
  | String c s' =>
      match scan_step m st c with
      | Go m' st' =>
          match take_value m' st' s' with
          | Some (v, r) => Some (String c v, r)
          | None => None
          end
      | Stop => if scan_eof m st then Some (EmptyString, s) else None
      | Fail_ => None
      end
  end.

Fixpoint skip_ws (s : string) : string :=
  match s with
  | String c s' => if is_ws c then skip_ws s' else s
  | EmptyString => EmptyString
  end.

(** The next value of the input and the rest (Decoder.Decode); a whole text (Unmarshal). *)
Definition next_value (s : string) : option (string * string) :=
  take_value BeginValue [] (skip_ws s).
Definition whole_value (s : string) : option string :=
  match next_value s with
  | Some (v, r) => if string_is_empty (skip_ws r) then Some v else None
  | None => None
  end.

(** ** Compaction: what Marshal makes of a RawMessage *)

(** The escapes that compaction adds inside strings: <, > and & by their codes. *)
Definition html_byte (a : ascii) : bool :=
  (code a =? 60)%nat || (code a =? 62)%nat || (code a =? 38)%nat.
Definition compact_byte (a : ascii) : string :=
  if html_byte a then u00 (code a) else String a EmptyString.

(** The three bytes of U+2028 or U+2029. *)
Definition line_separator (a b c : ascii) : bool :=
  (code a =? 226)%nat && (code b =? 128)%nat && ((code c =? 168)%nat || (code c =? 169)%nat).

(** White space outside strings is dropped; <, >, & and the line separators are escaped. *)
Fixpoint compact (in_string esc : bool) (s : string) : string :=
  match s with
  | EmptyString => EmptyString
  | String a s1 =>
      if in_string then
        let rest := compact (negb (negb esc && is_byte 34 a)) (negb esc && is_byte 92 a) s1 in
        match s1 with
        | String b (String c s3) =>
            if line_separator a b c
            then bs +:+ "u202" +:+ String (hex_digit (code c - 160)) (compact true false s3)
            else compact_byte a +:+ rest
        | _ => compact_byte a +:+ rest
        end
      else if is_ws a then compact false false s1
      else String a (compact (is_byte 34 a) false s1)
  end.

(** RawMessage.MarshalJSON and the compaction of its result: null for a nil slice, an error
    for a text that is no JSON value. *)
Definition json_raw (p : RawMessage) : Res string :=
  match p with
  | None => Ok "null"
  | Some s =>
      match whole_value s with
      | Some _ => Ok (compact false false s)
      | None => Err (ErrText "json: error calling MarshalJSON for type json.RawMessage")
      end
  end.

(** ** Objects *)

(** "key":value members between braces. *)
Fixpoint render_members (l : list (string * string)) : string :=
  match l with
  | [] => EmptyString
  | [(k, v)] => json_string k +:+ ":" +:+ v
  | (k, v) :: l' => json_string k +:+ ":" +:+ v +:+ "," +:+ render_members l'
  end.
Definition render_object (l : list (string * string)) : string :=
  "{" +:+ render_members l +:+ "}".

(** The members of an object after a brace or a comma: keys unquoted, values as raw text.
    Each member takes at least one byte, so the length of the text is enough fuel. *)
Fixpoint parse_members (fuel : nat) (s : string) : option (list (string * string)) :=
  match fuel with
  | O => None
  | S fuel' =>
      match take_value BeginValue [] (skip_ws s) with
      | None => None
      | Some (rawk, s1) =>
          match json_unquote rawk, skip_ws s1 with
          | Some k, String c s2 =>
              if is_byte 58 c then
                match take_value BeginValue [] (skip_ws s2) with
                | None => None
                | Some (v, s3) =>
                    match skip_ws s3 with
                    | String d s4 =>
                        if is_byte 125 d then
                          if string_is_empty (skip_ws s4) then Some [(k, v)] else None
                        else if is_byte 44 d then cons (k, v) <$> parse_members fuel' s4
                        else None
                    | EmptyString => None
                    end
                end
              else None
          | _, _ => None
          end
      end
  end.

(** What Unmarshal sees of a text: no JSON; null, which leaves a struct as it is; the members
    of an object; a value that is no object. *)
Inductive document : Type :=
| DocInvalid
| DocNull
| DocObject (members : list (string * string))
| DocOther.

Definition read_document (v : string) : document :=
  match whole_value v with
  | None => DocInvalid
  | Some t =>
      match t with
      | String c s' =>
          if is_byte 123 c then
            match skip_ws s' with
            | String d s2 =>
                if is_byte 125 d && string_is_empty (skip_ws s2) then DocObject []
                else match parse_members (String.length t) s' with
                     | Some l => DocObject l
                     | None => DocInvalid
                     end
            | EmptyString => DocInvalid
            end
          else if bool_decide (t = "null") then DocNull else DocOther
      | EmptyString => DocInvalid
      end
  end.

(** ** Fields *)

(** Keys match exactly, or after folding (foldName): ASCII to upper case, and the two
    non-ASCII runes that fold to S and K. *)
Definition fold_rune (r : rune) : rune :=
  match r with
  | R1 a => R1 (to_upper a)
  | R2 a b => if (code a =? 197)%nat && (code b =? 191)%nat then R1 (ascii_of_nat 83) else r
  | R3 a b c => if (code a =? 226)%nat && (code b =? 132)%nat && (code c =? 170)%nat
                then R1 (ascii_of_nat 75) else r
  | _ => r
  end.
Definition fold_name (s : string) : string := runes_string (fold_rune <$> runes s).

Definition names_match (names : list string) (name key : string) : bool :=
  bool_decide (key = name)
  || (negb (bool_decide (key ∈ names)) && bool_decide (fold_name key = fold_name name)).

(** The raw values of the members for the field [name] of a struct with fields [names]. *)
Fixpoint field (names : list string) (name : string) (l : list (string * string))
    : list string :=
  match l with
  | [] => []
  | (k, v) :: l' =>
      if names_match names name k then v :: field names name l' else field names name l'
  end.

Definition type_error : error := ErrText "json: cannot unmarshal".

(** The values are stored one after the other; null leaves the field as it is. *)
Fixpoint get_with {T} (x : T) (parse : string → option T) (vs : list string) : Res T :=
  match vs with
  | [] => Ok x
  | raw :: vs' =>
      if bool_decide (raw = "null") then get_with x parse vs'
      else match parse raw with
           | Some x' => get_with x' parse vs'
           | None => Err type_error
           end
  end.

Definition get_string : list string → Res string := get_with EmptyString json_unquote.

Definition parse_bool (raw : string) : option bool :=
  if bool_decide (raw = "true") then Some true
  else if bool_decide (raw = "false") then Some false else None.
Definition get_bool : list string → Res bool := get_with false parse_bool.

(** strconv.ParseInt on the literal, and the range of the field's type. *)
Definition parse_int (ok : Z → bool) (raw : string) : option Z :=
  match signed_value raw with
  | Some n => if ok n then Some n else None
  | None => None
  end.
Definition get_int (ok : Z → bool) : list string → Res Z := get_with 0 (parse_int ok).

(** A RawMessage takes the text as it is, null included. *)
Definition get_raw (vs : list string) : RawMessage := last vs.

(** A field whose type reads a string: UnmarshalText of a UUID, UnmarshalJSON of a time. *)
Definition parse_text {T} (parse : string → option T) (raw : string) : option T :=
  match json_unquote raw with Some s => parse s | None => None end.
Definition get_text {T} (zero : T) (parse : string → option T) : list string → Res T :=
  get_with zero (parse_text parse).

(** A float64 field: the literal's decimal value. *)
Fixpoint parse_frac (acc : Z) (k : nat) (s : string) : option (Z * nat * string) :=
  match s with
  | String c s' => if is_digit c then parse_frac (10 * acc + digit_value c) (S k) s'
                   else Some (acc, k, s)
  | EmptyString => Some (acc, k, EmptyString)
  end.

Definition float_sign (raw : string) : Z * string :=
  match raw with String "-" s' => (-1, s') | _ => (1, raw) end.

Definition parse_float (raw : string) : option float64 :=
  let '(sign, s) := float_sign raw in
  match s with
  | EmptyString => None
  | String c _ =>
      if is_digit c then
        match parse_frac 0 0 s with
        | Some (i, _, r) =>
            let '(m, k, r') :=
              match r with
              | String "." r1 => match parse_frac i 0 r1 with
                                 | Some (m, k, r2) => (m, k, r2)
                                 | None => (i, 0%nat, r)
                                 end
              | _ => (i, 0%nat, r)
              end in
            match r' with
            | EmptyString => Some (mkFloat (sign * m) k)
            | String _ e =>
                match signed_value e with
                | Some x =>
                    let k' := Z.of_nat k - x in
                    Some (if k' <? 0 then mkFloat (sign * m * 10 ^ (- k')) 0
                          else mkFloat (sign * m) (Z.to_nat k'))
                | None => None
                end
            end
        | None => None
        end
      else None
  end.

Definition get_float : list string → Res float64 := get_with (mkFloat 0 0) parse_float.

(** The digits of an integer; a float64 in the 'f' format. *)
Definition json_int (n : Z) : string := pretty n.

Fixpoint pad_left (n : nat) (s : string) : string :=
  if (String.length s <? n)%nat
  then match n with O => s | S n' => String "0" (pad_left n' s) end else s.

Fixpoint split_at (n : nat) (s : string) : string * string :=
  match n, s with
  | S n', String c s' => let '(a, b) := split_at n' s' in (String c a, b)
  | _, _ => (EmptyString, s)
  end.

Definition json_float (x : float64) : string :=
  let d := pad_left (S (f_exp x)) (pretty (Z.to_N (Z.abs (f_mant x)))) in
  let '(i, f) := split_at (String.length d - f_exp x) d in
  (if f_mant x <? 0 then "-" else "") +:+ i
  +:+ (match f_exp x with O => EmptyString | _ => "." +:+ f end).

Definition json_bool (b : bool) : string := if b then "true" else "false".
