(* ===== verification/JsonFacts.v ===== *)
(** * encoding/json: printing and reading agree

    The scanner accepts what the printer writes, and the members of a printed object are read
    back as they were: [read_document] of [render_object] is the list of members. *)

From S2P Require Import Prelude GoStd Decimal Models Json.

#[local] Arguments Nat.ltb : simpl never.
#[local] Arguments scan_eof : simpl never.
#[local] Arguments scan_step : simpl never.
#[local] Arguments step_end : simpl never.

(** ** Runs of the scanner *)

(** The state after all bytes of a text, when none of them stops or fails the scan. *)
Fixpoint scan_run (m : mode) (st : list frame) (s : string) : option (mode * list frame) :=
  match s with
  | EmptyString => Some (m, st)
  | String c s' =>
      match scan_step m st c with
      | Go m' st' => scan_run m' st' s'
      | _ => None
      end
  end.

(** Modes in which a value may be over: after it, or in a number that can stop. *)
Definition closes (m : mode) (st : list frame) : Prop :=
  m = after_value st ∨ m = Num0 ∨ m = Num1 ∨ m = Dot0 ∨ m = Ex0.

(** A text that is a value wherever one is expected, with no space in front. *)
Definition value_ok (v : string) : Prop :=
  (match v with EmptyString => False | String c _ => is_ws c = false end) ∧
  ∀ st, ∃ m, scan_run BeginValue st v = Some (m, st) ∧ closes m st.

(** The runes of a string are well formed. *)
Definition rune_wf (r : rune) : Prop :=
  match r with
  | R1 a => (code a < 128)%nat
  | R2 a b => (128 ≤ code a)%nat ∧ valid2 a b = true
  | R3 a b c => (128 ≤ code a)%nat ∧ valid2 a b = false ∧ valid3 a b c = true
  | R4 a b c d => (128 ≤ code a)%nat ∧ valid2 a b = false ∧ valid3 a b c = false ∧
                  valid4 a b c d = true
  | Bad => True
  end.

Lemma scan_run_app m st s t :
  scan_run m st (s +:+ t) =
  match scan_run m st s with Some (m', st') => scan_run m' st' t | None => None end.
Proof.
  revert m st. induction s as [|c s IH]; intros m st; [done|]. rewrite append_cons. cbn.
  by destruct (scan_step m st c).
Qed.

Lemma take_value_app m st s m' st' t :
  scan_run m st s = Some (m', st') →
  take_value m st (s +:+ t) =
  match take_value m' st' t with Some (v, r) => Some (s +:+ v, r) | None => None end.
Proof.
  revert m st. induction s as [|c s IH]; intros m st Hs.
  { cbn in Hs. simplify_eq. rewrite append_nil. by destruct (take_value m' st' t) as [[]|]. }
  rewrite append_cons. cbn in *. destruct (scan_step m st c) as [m1 st1| |]; [|done..].
  rewrite (IH m1 st1 Hs). by destruct (take_value m' st' t) as [[]|].
Qed.

(** Where a value is closed, the bytes that may follow it act as after any value. *)
Lemma closes_step m st c :
  closes m st → is_digit c = false → is_byte 46 c = false → is_byte 101 c = false →
  is_byte 69 c = false → scan_step m st c = step_end st c.
Proof.
  intros [->|[->|[->|[->| ->]]]] Hd H1 H2 H3; unfold scan_step; rewrite ?Hd, ?H1, ?H2, ?H3; try done.
  by destruct st.
Qed.

Lemma closes_eof m : closes m [] → scan_eof m [] = true.
Proof. by intros [->|[->|[->|[->| ->]]]]. Qed.

Lemma skip_ws_id s : match s with EmptyString => True | String c _ => is_ws c = false end →
  skip_ws s = s.
Proof. destruct s; [done|]. cbn. by intros ->. Qed.

(** A value at the end of the text, or before a comma or a brace. *)
Definition delimiter (c : ascii) : bool := is_byte 44 c || is_byte 125 c || is_byte 93 c.

Lemma delimiter_step m st c :
  closes m st → delimiter c = true → scan_step m st c = step_end st c.
Proof.
  intros Hm Hc. apply closes_step; [done|..];
    destruct c as [[] [] [] [] [] [] [] []]; cbn in *; done.
Qed.

Lemma take_value_ok v c t :
  value_ok v → delimiter c = true →
  take_value BeginValue [] (skip_ws (v +:+ String c t)) = Some (v, String c t).
Proof.
  intros [Hf Hv] Hc. destruct (Hv []) as (m & Hrun & Hm).
  rewrite skip_ws_id by (by destruct v). rewrite (take_value_app _ _ _ _ _ _ Hrun).
  cbn. rewrite delimiter_step by done. cbn. rewrite closes_eof by done.
  change (step_end [] c) with Stop. cbn. by rewrite append_empty_r.
Qed.

Lemma next_value_ok v : value_ok v → next_value v = Some (v, EmptyString).
Proof.
  intros [Hf Hv]. destruct (Hv []) as (m & Hrun & Hm). unfold next_value.
  rewrite skip_ws_id by (by destruct v). rewrite <- (append_empty_r v) at 1.
  rewrite (take_value_app _ _ _ _ _ _ Hrun). cbn. rewrite closes_eof by done.
  by rewrite append_empty_r.
Qed.

Lemma whole_value_ok v : value_ok v → whole_value v = Some v.
Proof. intros Hv. unfold whole_value. by rewrite next_value_ok. Qed.

(** ** Runes *)

Lemma runes_R1 a t : (code a < 128)%nat → runes (String a t) = R1 a :: runes t.
Proof. intros Ha. cbn. by rewrite (proj2 (Nat.ltb_lt _ _) Ha). Qed.

Lemma runes_bytes r t : rune_wf r → r ≠ Bad → runes (rune_bytes r +:+ t) = r :: runes t.
Proof.
  intros Hr HB. destruct r as [a|a b|a b c|a b c d|]; cbn in Hr; [| | | |done];
    unfold rune_bytes; rewrite !append_cons, append_nil.
  - by apply runes_R1.
  - destruct Hr as [Ha H2]. cbn. rewrite (proj2 (Nat.ltb_ge _ _) Ha). by rewrite H2.
  - destruct Hr as (Ha & H2 & H3). cbn. rewrite (proj2 (Nat.ltb_ge _ _) Ha). by rewrite H2, H3.
  - destruct Hr as (Ha & H2 & H3 & H4). cbn. rewrite (proj2 (Nat.ltb_ge _ _) Ha).
    by rewrite H2, H3, H4.
Qed.

Lemma runes_wf_le n s : (String.length s ≤ n)%nat → Forall rune_wf (runes s).
Proof.
  revert s. induction n as [|n IH]; intros s Hs; [by destruct s; [constructor|cbn in Hs; lia]|].
  destruct s as [|a s1]; [constructor|]. cbn in Hs |- *.
  destruct (Nat.ltb_spec (code a) 128) as [Ha|Ha].
  { constructor; [done|]. apply IH. lia. }
  destruct s1 as [|b s2]; [by repeat constructor|]. cbn in Hs.
  destruct (valid2 a b) eqn:H2; [constructor; [done|]; apply IH; lia|].
  destruct s2 as [|c s3]; [constructor; [done|]; apply (IH (String b EmptyString)); cbn; lia|].
  cbn in Hs.
  destruct (valid3 a b c) eqn:H3; [constructor; [done|]; apply IH; lia|].
  destruct s3 as [|d s4];
    [constructor; [done|]; apply (IH (String b (String c EmptyString))); cbn; lia|].
  cbn in Hs.
  destruct (valid4 a b c d) eqn:H4; [constructor; [done|]; apply IH; lia|].
  constructor; [done|]. apply (IH (String b (String c (String d s4)))). cbn. lia.
Qed.

Lemma runes_wf s : Forall rune_wf (runes s).
Proof. by eapply runes_wf_le. Qed.

Lemma runes_string_runes_le n s :
  (String.length s ≤ n)%nat → utf8_valid s = true → runes_string (runes s) = s.
Proof.
  unfold utf8_valid, runes_string. revert s.
  induction n as [|n IH]; intros s Hs; [by destruct s; [|cbn in Hs; lia]|].
  destruct s as [|a s1]; [done|]. cbn in Hs |- *.
  destruct (code a <? 128)%nat.
  { cbn. intros Hv. rewrite append_cons, append_nil. f_equal. apply IH; [lia|done]. }
  destruct s1 as [|b s2]; [done|]. cbn in Hs.
  destruct (valid2 a b).
  { cbn. intros Hv. rewrite !append_cons, append_nil. do 2 f_equal. apply IH; [lia|done]. }
  destruct s2 as [|c s3]; [done|]. cbn in Hs.
  destruct (valid3 a b c).
  { cbn. intros Hv. rewrite !append_cons, append_nil. do 3 f_equal. apply IH; [lia|done]. }
  destruct s3 as [|d s4]; [done|]. cbn in Hs.
  destruct (valid4 a b c d); [|done].
  cbn. intros Hv. rewrite !append_cons, append_nil. do 4 f_equal. apply IH; [lia|done].
Qed.

(** A valid UTF-8 string is the concatenation of its runes. *)
Lemma runes_string_runes s : utf8_valid s = true → runes_string (runes s) = s.
Proof. by eapply runes_string_runes_le. Qed.

(** ** String literals *)

(** The ASCII bytes, by computation over all of them. *)
Lemma ascii_cases (P : ascii → bool) :
  forallb (λ n, P (ascii_of_nat n)) (seq 0 128) = true → ∀ a, (code a < 128)%nat → P a = true.
Proof.
  intros H a Ha. rewrite forallb_forall in H. rewrite <- (ascii_nat_embedding a).
  apply H. apply in_seq. unfold code in Ha. lia.
Qed.

(** The runes of the escape of a rune: the printed text is plain ASCII, or the rune. *)
Definition escaped (r : rune) : list rune :=
  match r with
  | R1 _ | Bad => runes (escape_rune r)
  | R3 a b c => if line_separator a b c then runes (escape_rune r) else [r]
  | _ => [r]
  end.

Fixpoint all_ascii (s : string) : bool :=
  match s with EmptyString => true | String c s' => (code c <? 128)%nat && all_ascii s' end.

Lemma runes_ascii_app s t : all_ascii s = true → runes (s +:+ t) = runes s ++ runes t.
Proof.
  induction s as [|c s IH]; [done|]. cbn [all_ascii]. intros [Hc Hs]%andb_prop.
  rewrite append_cons, !runes_R1 by (by apply Nat.ltb_lt). cbn. by rewrite IH.
Qed.

Lemma code_eqb a n : (code a =? n)%nat = true → a = ascii_of_nat n.
Proof. intros Ha%Nat.eqb_eq. subst n. symmetry. apply ascii_nat_embedding. Qed.

(** ASCII text is valid UTF-8. *)
Lemma all_ascii_valid s : all_ascii s = true → utf8_valid s = true.
Proof.
  unfold utf8_valid. induction s as [|c s IH]; [done|]. cbn [all_ascii].
  intros [Hc Hs]%andb_prop. rewrite runes_R1 by (by apply Nat.ltb_lt). cbn. auto.
Qed.

Lemma all_ascii_app s t : all_ascii (s +:+ t) = all_ascii s && all_ascii t.
Proof.
  induction s as [|c s IH]; [done|]. rewrite append_cons. cbn [all_ascii].
  by rewrite IH, andb_assoc.
Qed.

Lemma digits_ascii s : string_forallb is_digit s = true → all_ascii s = true.
Proof.
  induction s as [|c s IH]; [done|]. cbn [string_forallb all_ascii].
  intros [Hc Hs]%andb_prop. rewrite IH, andb_true_r by done.
  unfold is_digit in Hc. apply andb_prop in Hc as [_ Hc%Nat.leb_le].
  apply Nat.ltb_lt. unfold code. lia.
Qed.

Lemma hex_ascii s : all_ascii (hex_EncodeToString s) = true.
Proof.
  assert (Hd : ∀ n, (n < 16)%nat → (code (hex_digit n) <? 128)%nat = true).
  { intros n Hn. do 16 (destruct n as [|n]; [done|]). lia. }
  induction s as [|c s IH]; [done|]. cbn [hex_EncodeToString all_ascii]. rewrite IH.
  rewrite !Hd; [done| |].
  - apply Nat.mod_upper_bound. lia.
  - apply Nat.Div0.div_lt_upper_bound. pose proof (nat_ascii_bounded c). lia.
Qed.

Lemma line_separator_eq a b c :
  line_separator a b c = true →
  a = ascii_of_nat 226 ∧ b = ascii_of_nat 128 ∧ (c = ascii_of_nat 168 ∨ c = ascii_of_nat 169).
Proof.
  unfold line_separator.
  intros [[Ha%code_eqb Hb%code_eqb]%andb_prop [Hc%code_eqb|Hc%code_eqb]%orb_prop]%andb_prop; auto.
Qed.

Lemma escape_R3 a b c :
  escape_rune (R3 a b c) =
  if line_separator a b c then bs +:+ "u202" +:+ String (hex_digit (code c - 160)) EmptyString
  else rune_bytes (R3 a b c).
Proof. done. Qed.

Lemma runes_escape r t : rune_wf r → runes (escape_rune r +:+ t) = escaped r ++ runes t.
Proof.
  intros Hr. destruct r as [a|a b|a b c|a b c d|].
  - apply runes_ascii_app. by apply (ascii_cases (λ a, all_ascii (escape_rune (R1 a)))).
  - by apply (runes_bytes (R2 a b)).
  - unfold escaped. rewrite escape_R3. destruct (line_separator a b c) eqn:Hl.
    + apply line_separator_eq in Hl as (-> & -> & [-> | ->]); by apply runes_ascii_app.
    + by apply (runes_bytes (R3 a b c)).
  - by apply (runes_bytes (R4 a b c d)).
  - by apply runes_ascii_app.
Qed.

(** What [unquote] makes of one rune in front of a literal. *)
Definition unquoted (t : string) (o : option (string * list rune)) : option (string * list rune) :=
  match o with Some (s, r) => Some (t +:+ s, r) | None => None end.

Lemma ascii_destruct (P : ascii → Prop) :
  (∀ n, (n < 128)%nat → P (ascii_of_nat n)) → ∀ a, (code a < 128)%nat → P a.
Proof. intros H a Ha. rewrite <- (ascii_nat_embedding a). by apply H. Qed.

(** One goal for each of the 128 ASCII bytes. *)
Ltac each_ascii tac :=
  let n := fresh in let Hn := fresh in
  intros n Hn; do 128 (destruct n as [|n]; [tac ()|]); lia.

Lemma unquote_escaped r l :
  rune_wf r → unquote (escaped r ++ l) = unquoted (rune_bytes r) (unquote l).
Proof.
  intros Hr. destruct r as [a|a b|a b c|a b c d|].
  - revert a Hr. apply ascii_destruct.
    each_ascii ltac:(fun _ => reflexivity).
  - reflexivity.
  - unfold escaped. destruct (line_separator a b c) eqn:Hl.
    + apply line_separator_eq in Hl as (-> & -> & [-> | ->]);
        reflexivity.
    + reflexivity.
  - reflexivity.
  - reflexivity.
Qed.

Lemma runes_escape_all l t :
  Forall rune_wf l →
  runes (concat_map escape_rune l +:+ t) = concat (escaped <$> l) ++ runes t.
Proof.
  induction 1 as [|r l Hr _ IH]; [done|]. cbn [concat_map].
  rewrite append_assoc, runes_escape by done. cbn. by rewrite IH, app_assoc.
Qed.

Lemma unquote_escape_all l :
  Forall rune_wf l →
  unquote (concat (escaped <$> l) ++ [R1 quote]) = Some (runes_string l, []).
Proof.
  induction 1 as [|r l Hr _ IH]; [done|]. cbn [fmap list_fmap concat].
  rewrite <- app_assoc, unquote_escaped by done. by rewrite IH.
Qed.

(** A printed string is read back, with its invalid bytes replaced. *)
Lemma json_unquote_string s : json_unquote (json_string s) = Some (runes_string (runes s)).
Proof.
  unfold json_string, q. rewrite !append_cons, append_nil. cbn [json_unquote].
  change ((code quote =? 34)%nat) with true. cbv match.
  rewrite runes_escape_all by apply runes_wf.
  change (runes (String quote EmptyString)) with [R1 quote].
  by rewrite unquote_escape_all by apply runes_wf.
Qed.

Lemma json_unquote_valid s : utf8_valid s = true → json_unquote (json_string s) = Some s.
Proof. intros Hs. by rewrite json_unquote_string, runes_string_runes. Qed.

(** ** The scanner accepts what is printed *)

Lemma scan_string_byte st c : (128 ≤ code c)%nat → scan_step InString st c = Go InString st.
Proof.
  intros Hc. unfold scan_step, is_byte.
  rewrite (proj2 (Nat.eqb_neq _ _)), (proj2 (Nat.eqb_neq _ _)), (proj2 (Nat.ltb_ge _ _)) by lia.
  done.
Qed.

Lemma between_high lo hi c : (128 ≤ lo)%nat → between lo hi c = true → (128 ≤ code c)%nat.
Proof. unfold between. intros Hlo [Hl%Nat.leb_le _]%andb_prop. lia. Qed.

Lemma cont_high c : cont c = true → (128 ≤ code c)%nat.
Proof. apply between_high. lia. Qed.

Lemma scan_run_cons m st c s m' st' :
  scan_step m st c = Go m' st' → scan_run m st (String c s) = scan_run m' st' s.
Proof. cbn. by intros ->. Qed.

#[local] Arguments Nat.leb : simpl never.

Lemma rune_bytes_high r :
  rune_wf r → match r with R1 _ => True | _ =>
    string_forallb (λ c, 128 <=? code c)%nat (rune_bytes r) = true end.
Proof.
  assert (Hb : ∀ lo hi c, (128 <= lo)%nat → between lo hi c = true → (128 <=? code c)%nat = true).
  { intros lo hi c Hlo Hc. apply Nat.leb_le. by eapply between_high. }
  assert (Hc : ∀ c, cont c = true → (128 <=? code c)%nat = true).
  { intros c Hc. by apply Nat.leb_le, cont_high. }
  destruct r as [a|a b|a b c|a b c d|]; cbn; [done| | | |done].
  - intros [Ha [_ H]%andb_prop]. by rewrite (proj2 (Nat.leb_le _ _) Ha), Hc.
  - intros (Ha & _ & [H3 Hcc]%andb_prop). rewrite (proj2 (Nat.leb_le _ _) Ha), (Hc c) by done.
    rewrite andb_true_r. cbn. apply orb_prop in H3 as [[H3|H3]%orb_prop|H3];
      apply andb_prop in H3 as [_ H3]; rewrite ?andb_true_r;
      first [by apply Hc | eapply Hb; [|exact H3]; lia].
  - intros (Ha & _ & _ & [[H4 Hcc]%andb_prop Hdd]%andb_prop).
    rewrite (proj2 (Nat.leb_le _ _) Ha), (Hc c), (Hc d) by done.
    rewrite !andb_true_r. cbn. apply orb_prop in H4 as [[H4|H4]%orb_prop|H4];
      apply andb_prop in H4 as [_ H4]; rewrite ?andb_true_r;
      first [by apply Hc | eapply Hb; [|exact H4]; lia].
Qed.

Lemma scan_high st s :
  string_forallb (λ c, 128 <=? code c)%nat s = true → scan_run InString st s = Some (InString, st).
Proof.
  induction s as [|c s IH]; [done|]. cbn [string_forallb]. intros [Hc Hs]%andb_prop.
  erewrite scan_run_cons by (apply scan_string_byte; by apply Nat.leb_le). auto.
Qed.

Lemma scan_escape st r : rune_wf r → scan_run InString st (escape_rune r) = Some (InString, st).
Proof.
  intros Hr. pose proof (rune_bytes_high r Hr) as Hh. destruct r as [a|a b|a b c|a b c d|].
  - revert a Hr Hh. intros a Hr _. revert a Hr. apply ascii_destruct.
    each_ascii ltac:(fun _ => reflexivity).
  - by apply scan_high.
  - rewrite escape_R3. destruct (line_separator a b c) eqn:Hl; [|by apply scan_high].
    by apply line_separator_eq in Hl as (-> & -> & [-> | ->]).
  - by apply scan_high.
  - done.
Qed.

Lemma scan_escape_all st l :
  Forall rune_wf l → scan_run InString st (concat_map escape_rune l) = Some (InString, st).
Proof.
  induction 1 as [|r l Hr _ IH]; [done|]. cbn [concat_map].
  by rewrite scan_run_app, scan_escape.
Qed.

(** A literal read from any mode that a quote takes into a string. *)
Lemma scan_literal m st st' s :
  scan_step m st quote = Go InString st' →
  scan_run m st (json_string s) = Some (after_value st', st').
Proof.
  intros Hq. unfold json_string, q. rewrite append_cons, append_nil.
  rewrite (scan_run_cons _ _ _ _ _ _ Hq), scan_run_app, scan_escape_all by apply runes_wf.
  done.
Qed.

Lemma json_string_value s : value_ok (json_string s).
Proof.
  split; [done|]. intros st. exists (after_value st). split; [by apply scan_literal|by left].
Qed.

(** ** Numbers and the other scalars *)

Lemma scan_digits st s :
  string_forallb is_digit s = true → scan_run Num1 st s = Some (Num1, st).
Proof.
  induction s as [|c s IH]; [done|]. cbn [string_forallb]. intros [Hc Hs]%andb_prop.
  rewrite (scan_run_cons _ _ _ _ Num1 st); [auto|]. unfold scan_step. by rewrite Hc.
Qed.

(** The first byte of a number, where a value or the digits after a minus are expected. *)
Lemma scan_first_digit st c :
  is_digit c = true →
  is_ws c = false ∧
  scan_step BeginValue st c = Go (if bool_decide (c = "0"%char) then Num0 else Num1) st ∧
  scan_step Neg st c = Go (if bool_decide (c = "0"%char) then Num0 else Num1) st.
Proof. by destruct c as [[] [] [] [] [] [] [] []]; intros [=]; split_and!. Qed.

Lemma scan_decimal m st s :
  is_decimal s = true → m = BeginValue ∨ m = Neg →
  ∃ m', scan_run m st s = Some (m', st) ∧ (m' = Num0 ∨ m' = Num1).
Proof.
  destruct s as [|c s]; [done|]. unfold is_decimal. intros [[Hc Hs]%andb_prop H0]%andb_prop Hm.
  destruct (scan_first_digit st c Hc) as (_ & H1 & H2).
  assert (scan_step m st c = Go (if bool_decide (c = "0"%char) then Num0 else Num1) st)
    as Hstep by (by destruct Hm as [->| ->]).
  rewrite (scan_run_cons _ _ _ _ _ _ Hstep).
  destruct (bool_decide (c = "0"%char)).
  - cbn in H0. destruct s; [|done]. exists Num0. auto.
  - exists Num1. split; [by apply scan_digits|auto].
Qed.

Lemma json_int_value n : value_ok (json_int n).
Proof.
  unfold json_int. assert (Hpos : ∀ p : N, value_ok (pretty p)).
  { intros p. pose proof (pretty_N_decimal p) as Hd. split.
    - destruct (pretty p) as [|c s]; [done|]. unfold is_decimal in Hd.
      apply andb_prop in Hd as [[Hc _]%andb_prop _]. by apply (scan_first_digit []).
    - intros st. destruct (scan_decimal BeginValue st _ Hd) as (m & Hm & Hc); [by left|].
      exists m. split; [done|]. unfold closes. tauto. }
  destruct n as [|p|p]; [apply (Hpos 0%N)|apply (Hpos (Npos p))|].
  change (pretty (Zneg p)) with (String "-" (pretty (Npos p))). split; [done|].
  intros st. destruct (scan_decimal Neg st _ (pretty_N_decimal (Npos p))) as (m & Hm & Hc);
    [by right|].
  exists m. split; [done|]. unfold closes. tauto.
Qed.

Lemma json_bool_value b : value_ok (json_bool b).
Proof.
  split; [by destruct b|]. intros st. exists (after_value st).
  split; [by destruct b, st|by left].
Qed.

Lemma null_value : value_ok "null".
Proof. split; [done|]. intros st. exists (after_value st). split; [by destruct st|by left]. Qed.

(** ** Objects *)

(** Members whose values are texts of values and whose keys are plain strings. *)
Definition members_ok (l : list (string * string)) : Prop :=
  Forall (λ kv, utf8_valid kv.1 = true ∧ value_ok kv.2) l.

Lemma render_members_cons k v kv l :
  render_members ((k, v) :: kv :: l) =
  json_string k +:+ ":" +:+ v +:+ "," +:+ render_members (kv :: l).
Proof. done. Qed.

(** A key and its value, from the mode [m] that expects a key. *)
Lemma scan_member m st k v :
  scan_step m (FObjKey :: st) quote = Go InString (FObjKey :: st) → value_ok v →
  ∃ m', scan_run m (FObjKey :: st) (json_string k +:+ ":" +:+ v) = Some (m', FObjVal :: st) ∧
        closes m' (FObjVal :: st).
Proof.
  intros Hq [_ Hv]. destruct (Hv (FObjVal :: st)) as (m' & Hrun & Hm'). exists m'.
  split; [|done]. rewrite scan_run_app, (scan_literal _ _ _ _ Hq).
  rewrite append_cons, append_nil. by rewrite (scan_run_cons _ _ _ _ BeginValue (FObjVal :: st)).
Qed.

Lemma scan_members m st kv l :
  scan_step m (FObjKey :: st) quote = Go InString (FObjKey :: st) → members_ok (kv :: l) →
  ∃ m', scan_run m (FObjKey :: st) (render_members (kv :: l)) = Some (m', FObjVal :: st) ∧
        closes m' (FObjVal :: st).
Proof.
  revert m kv. induction l as [|kv2 l IH]; intros m [k v] Hq [[_ Hv] Hl]%Forall_cons.
  - by apply scan_member.
  - rewrite render_members_cons. destruct (scan_member m st k v Hq Hv) as (m1 & H1 & Hm1).
    destruct (IH BeginString kv2 eq_refl Hl) as (m2 & H2 & Hm2). exists m2. split; [|done].
    replace (json_string k +:+ ":" +:+ v +:+ "," +:+ render_members (kv2 :: l))
      with ((json_string k +:+ ":" +:+ v) +:+ String "," (render_members (kv2 :: l)))
      by (by rewrite !append_assoc).
    rewrite scan_run_app, H1. erewrite scan_run_cons; [exact H2|].
    by rewrite delimiter_step.
Qed.

Lemma render_object_value l : members_ok l → value_ok (render_object l).
Proof.
  intros Hl. unfold render_object. rewrite append_cons, append_nil. split; [done|]. intros st.
  exists (after_value st). split; [|by left].
  rewrite (scan_run_cons _ _ _ _ BeginStringOrEmpty (FObjKey :: st)) by done.
  destruct l as [|kv l]; [by destruct st|].
  destruct (scan_members BeginStringOrEmpty st kv l eq_refl Hl) as (m & Hm & Hc).
  rewrite scan_run_app, Hm. erewrite scan_run_cons; [done|]. by rewrite delimiter_step.
Qed.

Lemma take_literal k t :
  take_value BeginValue [] (skip_ws (json_string k +:+ t)) = Some (json_string k, t).
Proof.
  rewrite skip_ws_id by done. rewrite (take_value_app _ _ _ EndTop []) by (by apply (scan_literal BeginValue [] [])).
  assert (take_value EndTop [] t = Some (EmptyString, t)) as -> by (by destruct t).
  by rewrite append_empty_r.
Qed.

(** One step of the member parser over a printed member. *)
Lemma parse_member fuel k v c t :
  utf8_valid k = true → value_ok v → delimiter c = true →
  parse_members (S fuel) (json_string k +:+ ":" +:+ v +:+ String c t) =
  if is_byte 125 c then if string_is_empty (skip_ws t) then Some [(k, v)] else None
  else if is_byte 44 c then cons (k, v) <$> parse_members fuel t else None.
Proof.
  intros Hk Hv Hc. cbn [parse_members]. rewrite take_literal, json_unquote_valid by done.
  rewrite append_cons, append_nil. rewrite (skip_ws_id (String ":" _)) by done.
  change (is_byte 58 ":") with true. cbv match.
  rewrite take_value_ok by done. rewrite skip_ws_id; [done|].
  by destruct c as [[] [] [] [] [] [] [] []].
Qed.

Lemma parse_render_members fuel kv l :
  members_ok (kv :: l) → (length l < fuel)%nat →
  parse_members fuel (render_members (kv :: l) +:+ "}") = Some (kv :: l).
Proof.
  revert fuel kv. induction l as [|kv2 l IH]; intros fuel [k v] [[Hk Hv] Hl]%Forall_cons Hf;
    (destruct fuel as [|fuel]; [lia|]).
  - replace (render_members [(k, v)] +:+ "}") with (json_string k +:+ ":" +:+ v +:+ "}")
      by (by cbn; rewrite !append_assoc).
    by rewrite parse_member.
  - rewrite render_members_cons.
    replace ((json_string k +:+ ":" +:+ v +:+ "," +:+ render_members (kv2 :: l)) +:+ "}")
      with (json_string k +:+ ":" +:+ v +:+ String "," (render_members (kv2 :: l) +:+ "}"))
      by (by rewrite !append_assoc).
    rewrite parse_member by done. cbn in Hf. rewrite (IH fuel kv2 Hl) by lia. done.
Qed.

Lemma length_render_members kv l :
  (length l < String.length (render_members (kv :: l)))%nat.
Proof.
  revert kv. induction l as [|kv2 l IH]; intros [k v].
  - cbn. rewrite !length_append. cbn. lia.
  - rewrite render_members_cons. rewrite !length_append. specialize (IH kv2). cbn in *. lia.
Qed.

(** A printed object is read as its members. *)
Lemma read_render_object l : members_ok l → read_document (render_object l) = DocObject l.
Proof.
  intros Hl. unfold read_document. rewrite whole_value_ok by (by apply render_object_value).
  unfold render_object. rewrite append_cons, append_nil.
  change (is_byte 123 "{") with true. cbv match.
  destruct l as [|kv l]; [done|].
  assert (Hlen : (length l < String.length (String "{" (render_members (kv :: l) +:+ "}")))%nat).
  { cbn [String.length]. rewrite length_append. pose proof (length_render_members kv l). lia. }
  rewrite (parse_render_members _ kv l Hl Hlen).
  by destruct kv as [k v], l as [|[k2 v2] l].
Qed.

(** ** Reading fields *)

Lemma json_string_not_null s : bool_decide (json_string s = "null") = false.
Proof. by apply bool_decide_false. Qed.

(** A string as it is read back: invalid bytes become U+FFFD. *)
Definition to_valid (s : string) : string := runes_string (runes s).

Lemma to_valid_id s : utf8_valid s = true → to_valid s = s.
Proof. apply runes_string_runes. Qed.

Lemma get_string_any s : get_string [json_string s] = Ok (to_valid s).
Proof.
  unfold get_string. cbn. by rewrite json_string_not_null, json_unquote_string.
Qed.

Lemma get_string_printed s : utf8_valid s = true → get_string [json_string s] = Ok s.
Proof.
  intros Hs. unfold get_string. cbn. by rewrite json_string_not_null, json_unquote_valid.
Qed.

Lemma get_text_printed {T} (zero : T) parse s x :
  utf8_valid s = true → parse s = Some x → get_text zero parse [json_string s] = Ok x.
Proof.
  intros Hs Hx. unfold get_text, parse_text. cbn.
  by rewrite json_string_not_null, json_unquote_valid, Hx.
Qed.

Lemma get_int_printed ok n : ok n = true → get_int ok [json_int n] = Ok n.
Proof.
  intros Hn. unfold get_int, parse_int. cbn.
  rewrite bool_decide_false.
  - unfold json_int. by rewrite signed_value_pretty, Hn.
  - intros Heq. pose proof (signed_value_pretty n) as Hs. unfold json_int in Heq.
    by rewrite Heq in Hs.
Qed.

Lemma get_bool_printed b : get_bool [json_bool b] = Ok b.
Proof. by destruct b. Qed.

#[export] Hint Resolve json_string_value json_int_value json_bool_value null_value
  render_object_value : sched.

(** Proves [members_ok] of a list of printed members with constant keys. *)
Ltac members_tac :=
  repeat (apply Forall_cons; split; [cbn [fst snd]; split; [reflexivity|auto with sched]|]);
  constructor.
