(* ===== verification/TimeFacts.v ===== *)
(** * RFC 3339: what is printed is what is read

    The calendar computation of [wall_clock] gives a date that exists, and a wall clock of the
    years 0 to 9999 survives [Format] and [Parse]. *)

From S2P Require Import Prelude GoStd Decimal Models GoTime.

(** ** Decimal fields of a fixed width *)

Lemma digit_char z :
  is_digit (ascii_of_nat (48 + Z.to_nat (z mod 10))) = true ∧
  digit_value (ascii_of_nat (48 + Z.to_nat (z mod 10))) = z mod 10.
Proof.
  assert (Hz : 0 ≤ z mod 10 < 10) by (apply Z.mod_pos_bound; lia).
  unfold is_digit, digit_value. rewrite nat_ascii_embedding by lia.
  split; [|lia]. apply andb_true_iff. rewrite !Nat.leb_le. lia.
Qed.

Lemma length_digits n z : String.length (digits n z) = n.
Proof.
  revert z. induction n as [|n IH]; intros z; [done|]. cbn [digits].
  rewrite length_append, IH. unfold chr. cbn. lia.
Qed.

Lemma digits_value_digits n z acc :
  digits_value acc (digits n z) = Some (acc * 10 ^ Z.of_nat n + z mod 10 ^ Z.of_nat n).
Proof.
  revert z acc. induction n as [|n IH]; intros z acc.
  - cbn. f_equal. rewrite Z.mod_1_r. lia.
  - cbn [digits]. rewrite digits_value_app, IH. destruct (digit_char z) as [Hd Hv].
    unfold chr. cbn [digits_value]. rewrite Hd, Hv. f_equal.
    rewrite Nat2Z.inj_succ, Z.pow_succ_r by lia.
    rewrite (Z.mul_comm 10 (10 ^ _)), (Z.mul_comm _ 10), Z.rem_mul_r by lia.
    rewrite Z.mul_add_distr_l, Z.mul_assoc. lia.
Qed.

Lemma read_digits_value n acc s t v :
  String.length s = n → digits_value acc s = Some v → read_digits n acc (s +:+ t) = Some (v, t).
Proof.
  revert acc s. induction n as [|n IH]; intros acc s Hlen Hv.
  - destruct s; [|done]. cbn in Hv |- *. by injection Hv as ->.
  - destruct s as [|c s]; [done|]. rewrite append_cons. cbn in *.
    destruct (is_digit c); [|done]. apply IH; [lia|done].
Qed.

(** A field of [n] digits is read back, whatever follows. *)
Lemma read_digits_printed n z t :
  0 ≤ z < 10 ^ Z.of_nat n → read_digits n 0 (digits n z +:+ t) = Some (z, t).
Proof.
  intros Hz. eapply read_digits_value; [apply length_digits|].
  rewrite digits_value_digits, Z.mod_small by done. done.
Qed.

Lemma read_byte_printed c s : read_byte c (String c s) = Some s.
Proof. cbn. by rewrite bool_decide_true. Qed.

(** ** The fraction of a second *)

(** Not the beginning of a digit. *)
Definition no_digit (s : string) : bool :=
  match s with EmptyString => true | String c _ => negb (is_digit c) end.

Lemma read_fraction_value k acc s t v :
  (k + String.length s ≤ 9)%nat → no_digit t = true → digits_value acc s = Some v →
  read_fraction k acc (s +:+ t) = (v, (k + String.length s)%nat, t).
Proof.
  revert k acc. induction s as [|c s IH]; intros k acc Hk Ht Hv.
  - cbn in Hv. injection Hv as ->. cbn [String.length]. rewrite append_nil, Nat.add_0_r.
    destruct t as [|c t]; [done|]. cbn in *. by destruct (is_digit c).
  - rewrite append_cons. cbn [String.length digits_value read_fraction] in *.
    destruct (is_digit c); [|done]. rewrite (proj2 (Nat.ltb_lt k 9)) by lia. rewrite IH; [|lia|done|done].
    do 2 f_equal. lia.
Qed.

(** What is trimmed is a number of final zeros. *)
Lemma trim_zeros_digits n z :
  0 < z < 10 ^ Z.of_nat n →
  ∃ m y, (1 ≤ m ≤ n)%nat ∧ trim_zeros n z = digits m y ∧ 0 < y < 10 ^ Z.of_nat m ∧
         z = y * 10 ^ Z.of_nat (n - m).
Proof.
  revert z. induction n as [|n IH]; intros z Hz; [cbn in Hz; lia|].
  cbn [trim_zeros]. destruct (Z.eqb_spec (z mod 10) 0) as [H0|H0].
  - rewrite Nat2Z.inj_succ, Z.pow_succ_r in Hz by lia.
    pose proof (Z.div_mod z 10 ltac:(lia)) as Hdm.
    destruct (IH (z / 10)) as (m & y & Hm & Ht & Hy & Heq); [lia|].
    exists m, y. split_and!; [lia|lia|done|lia|lia|].
    replace (S n - m)%nat with (S (n - m)) by lia.
    rewrite Nat2Z.inj_succ, Z.pow_succ_r by lia. lia.
  - exists (S n), z. split_and!; [lia|lia|done|lia|lia|]. rewrite Nat.sub_diag. cbn. lia.
Qed.

(** ** Zones *)

Definition zone_ok (off : Z) : Prop := -1440 < off < 1440.

Lemma format_zone_front off : no_digit (format_zone off) = true.
Proof. unfold format_zone. destruct (off =? 0); [done|]. by destruct (off <? 0). Qed.

Lemma format_zone_no_dot off : read_byte "." (format_zone off) = None.
Proof. unfold format_zone. destruct (off =? 0); [done|]. by destruct (off <? 0). Qed.

Lemma read_zone_printed off : zone_ok off → read_zone (format_zone off) = Some off.
Proof.
  intros Hz. unfold zone_ok, format_zone in *. destruct (Z.eqb_spec off 0) as [->|Hne]; [done|].
  assert (Hh : 0 ≤ Z.abs off / 60 < 24).
  { split; [apply Z.div_pos; lia|apply Z.div_lt_upper_bound; lia]. }
  assert (Hm : 0 ≤ Z.abs off mod 60 < 60) by (apply Z.mod_pos_bound; lia).
  pose proof (Z.div_mod (Z.abs off) 60 ltac:(lia)) as Hdm.
  assert (Hread : ∀ c sg,
    (if bool_decide (c = "+"%char) then Some 1
     else if bool_decide (c = "-"%char) then Some (-1) else None) = Some sg →
    c ≠ "Z"%char →
    read_zone (String c (digits 2 (Z.abs off / 60) +:+ String ":" (digits 2 (Z.abs off mod 60)))) =
    Some (sg * Z.abs off)).
  { intros c sg Hsg Hc. unfold read_zone.
    rewrite (read_digits_printed 2 (Z.abs off / 60)) by (cbn; lia).
    rewrite Hsg, read_byte_printed, <- (append_empty_r (digits 2 (Z.abs off mod 60))).
    rewrite (read_digits_printed 2 (Z.abs off mod 60)) by (cbn; lia).
    rewrite (proj2 (Z.leb_le _ 23)), (proj2 (Z.leb_le _ 59)) by lia. cbn [andb].
    replace (60 * (Z.abs off / 60) + Z.abs off mod 60) with (Z.abs off) by lia.
    destruct c as [b0 b1 b2 b3 b4 b5 b6 b7].
    destruct b0, b1, b2, b3, b4, b5, b6, b7; first [done|by destruct Hc]. }
  destruct (Z.ltb_spec off 0).
  - specialize (Hread "-"%char (-1) eq_refl ltac:(done)). rewrite append_cons, append_nil.
    etransitivity; [exact Hread|f_equal; lia].
  - specialize (Hread "+"%char 1 eq_refl ltac:(done)). rewrite append_cons, append_nil.
    etransitivity; [exact Hread|f_equal; lia].
Qed.

(** ** A wall clock survives the trip *)

Record wall_ok (t : WallTime) : Prop := {
  wk_year : 0 ≤ wt_year t ≤ 9999;
  wk_month : 1 ≤ wt_month t ≤ 12;
  wk_day : 1 ≤ wt_day t ≤ days_in (wt_year t) (wt_month t);
  wk_hour : 0 ≤ wt_hour t ≤ 23;
  wk_minute : 0 ≤ wt_minute t ≤ 59;
  wk_second : 0 ≤ wt_second t ≤ 59;
  wk_nanos : 0 ≤ wt_nanos t < 10 ^ 9;
  wk_zone : zone_ok (wt_offset t);
}.

(** The fraction and the zone, as [parse_rfc3339] reads them. *)
Lemma read_fraction_printed z off :
  0 ≤ z < 10 ^ 9 →
  match read_byte "." ((if z =? 0 then EmptyString else "." +:+ trim_zeros 9 z)
                             +:+ format_zone off) with
        | Some r => let '(v, k, r') := read_fraction 0 0 r in
                    if (k =? 0)%nat then None
                    else Some (v * 10 ^ (9 - Z.min 9 (Z.of_nat k)), r')
        | None => Some (0, (if z =? 0 then EmptyString else "." +:+ trim_zeros 9 z)
                             +:+ format_zone off)
        end = Some (z, format_zone off).
Proof.
  intros Hz. destruct (Z.eqb_spec z 0) as [->|Hne].
  - by rewrite append_nil, format_zone_no_dot.
  - rewrite append_cons, append_nil, append_cons, read_byte_printed.
    destruct (trim_zeros_digits 9 z) as (m & y & Hm & -> & Hy & ->); [lia|].
    rewrite (read_fraction_value 0 0 (digits m y) _ y); rewrite ?length_digits;
      [|lia|apply format_zone_front|by rewrite digits_value_digits, Z.mod_small by lia].
    cbn [plus]. rewrite (proj2 (Nat.eqb_neq m 0)) by lia. 
    do 2 f_equal. replace (9 - Z.min 9 (Z.of_nat m)) with (Z.of_nat (9 - m)) by lia. done.
Qed.

Lemma days_in_le y m : days_in y m ≤ 31.
Proof. unfold days_in. repeat case_match; lia. Qed.

Lemma format_rfc3339_nano_eq t :
  format_rfc3339_nano t =
  digits 4 (wt_year t) +:+ String "-" (digits 2 (wt_month t) +:+ String "-"
    (digits 2 (wt_day t) +:+ String "T" (digits 2 (wt_hour t) +:+ String ":"
      (digits 2 (wt_minute t) +:+ String ":" (digits 2 (wt_second t) +:+
        ((if wt_nanos t =? 0 then EmptyString else "." +:+ trim_zeros 9 (wt_nanos t))
         +:+ format_zone (wt_offset t))))))).
Proof. unfold format_rfc3339_nano, format_seconds. by rewrite !append_assoc. Qed.

(** Parse is a left inverse of Format on the wall clocks that MarshalJSON accepts. *)
Lemma parse_format_rfc3339 t : wall_ok t → parse_rfc3339 (format_rfc3339_nano t) = Some t.
Proof.
  intros [Hy Hmo Hd Hh Hmi Hs Hn Hz]. rewrite format_rfc3339_nano_eq.
  pose proof (days_in_le (wt_year t) (wt_month t)).
  unfold parse_rfc3339.
  rewrite (read_digits_printed 4 (wt_year t)) by (cbn; lia). cbn [mbind option_bind snd].
  rewrite read_byte_printed. cbn [mbind option_bind].
  rewrite (read_digits_printed 2 (wt_month t)) by (cbn; lia). cbn [mbind option_bind snd].
  rewrite read_byte_printed. cbn [mbind option_bind].
  rewrite (read_digits_printed 2 (wt_day t)) by (cbn; lia). cbn [mbind option_bind snd].
  rewrite read_byte_printed. cbn [mbind option_bind].
  rewrite (read_digits_printed 2 (wt_hour t)) by (cbn; lia). cbn [mbind option_bind snd].
  rewrite read_byte_printed. cbn [mbind option_bind].
  rewrite (read_digits_printed 2 (wt_minute t)) by (cbn; lia). cbn [mbind option_bind snd].
  rewrite read_byte_printed. cbn [mbind option_bind].
  rewrite (read_digits_printed 2 (wt_second t)) by (cbn; lia). cbn [mbind option_bind snd].
  rewrite (read_fraction_printed _ _ Hn). cbn [mbind option_bind fst snd].
  rewrite (read_zone_printed _ Hz). cbn [mbind option_bind].
  rewrite !(proj2 (Z.leb_le _ _)) by lia. cbn [andb]. by destruct t.
Qed.

(** ** The calendar *)

(** The year of era and the day of year (counted from the first of March) of a day of an era;
    the 366th day is there in leap years only. *)
Lemma day_of_year doe :
  0 ≤ doe < 146097 →
  let yoe := (doe - doe / 1460 + doe / 36524 - doe / 146096) / 365 in
  let doy := doe - (365 * yoe + yoe / 4 - yoe / 100) in
  0 ≤ doy ≤ 365 ∧ (doy = 365 → is_leap (yoe + 1) = true).
Proof.
  intros Hdoe yoe doy. subst yoe doy. split.
  - Z.to_euclidean_division_equations. lia.
  - intros H. unfold is_leap. rewrite andb_true_iff, orb_true_iff, negb_true_iff, !Z.eqb_eq,
      Z.eqb_neq. revert H. Z.to_euclidean_division_equations. lia.
Qed.

(** Months of 31 and 30 days from March on, February last. *)
Lemma month_of_year y doy :
  0 ≤ doy ≤ 365 → (doy = 365 → is_leap (y + 1) = true) →
  let mp := (5 * doy + 2) / 153 in
  let d := doy - (153 * mp + 2) / 5 + 1 in
  let m := if mp <? 10 then mp + 3 else mp - 9 in
  1 ≤ m ≤ 12 ∧ 1 ≤ d ≤ days_in (y + (if m <=? 2 then 1 else 0)) m.
Proof.
  intros Hdoy Hleap mp. cbv zeta.
  assert (Hmp : 0 ≤ mp ≤ 11) by (subst mp; Z.to_euclidean_division_equations; lia).
  assert (Hin : 153 * mp ≤ 5 * doy + 2 < 153 * mp + 153)
    by (subst mp; Z.to_euclidean_division_equations; lia).
  clearbody mp.
  assert (Hd : 1 ≤ doy - (153 * mp + 2) / 5 + 1 ≤ 31 ∧
    (mp = 1 ∨ mp = 3 ∨ mp = 6 ∨ mp = 8 → doy - (153 * mp + 2) / 5 + 1 ≤ 30) ∧
    (mp = 11 → doy - (153 * mp + 2) / 5 + 1 = doy - 336))
    by (Z.to_euclidean_division_equations; lia).
  destruct Hd as (Hd & H30 & H29). split; [destruct (Z.ltb_spec mp 10); lia|].
  split; [lia|]. unfold days_in. destruct (Z.ltb_spec mp 10).
  - rewrite (proj2 (Z.leb_gt (mp + 3) 2)), (proj2 (Z.eqb_neq (mp + 3) 2)) by lia.
    destruct (_ || _) eqn:Hs; [|lia]. rewrite !orb_true_iff, !Z.eqb_eq in Hs. lia.
  - destruct (Z.eqb_spec (mp - 9) 2).
    + rewrite (proj2 (Z.leb_le (mp - 9) 2)) by lia.
      destruct (is_leap (y + 1)); [lia|].
      assert (doy ≠ 365) by (intros Hx; by specialize (Hleap Hx)). lia.
    + destruct (_ || _) eqn:Hs; [|lia]. rewrite !orb_true_iff, !Z.eqb_eq in Hs. lia.
Qed.

Lemma is_leap_era y era : is_leap (y + era * 400) = is_leap y.
Proof.
  unfold is_leap. replace (y + era * 400) with (y + (era * 100) * 4) at 1 by lia.
  rewrite Z_mod_plus_full. replace (y + era * 400) with (y + (era * 4) * 100) at 1 by lia.
  by rewrite !Z_mod_plus_full.
Qed.

Lemma days_in_era y era m : days_in (y + era * 400) m = days_in y m.
Proof. unfold days_in. by rewrite is_leap_era. Qed.

(** The civil date of any day exists. *)
Lemma civil_from_days_ok days :
  let '(y, m, d) := civil_from_days days in 1 ≤ m ≤ 12 ∧ 1 ≤ d ≤ days_in y m.
Proof.
  unfold civil_from_days. set (z := days + 719468). set (era := z / 146097).
  set (doe := z - era * 146097).
  assert (Hdoe : 0 ≤ doe < 146097).
  { unfold doe, era. pose proof (Z.mod_pos_bound z 146097 ltac:(lia)).
    pose proof (Z.div_mod z 146097 ltac:(lia)). lia. }
  destruct (day_of_year doe Hdoe) as [Hdoy Hleap].
  destruct (month_of_year _ _ Hdoy Hleap) as [Hm Hd]. cbv zeta in *.
  split; [done|]. rewrite <- (days_in_era _ era) in Hd. split; [lia|].
  etransitivity; [apply Hd|]. apply reflexive_eq. f_equal. lia.
Qed.

(** A clock that MarshalJSON accepts is a valid one. *)
Lemma wall_clock_ok offset t :
  time_marshals (wall_clock offset t) = true → wall_ok (wall_clock offset t).
Proof.
  unfold time_marshals, wall_clock. set (local := t + offset * 60000000).
  set (days := local / 86400000000). set (rest := local - days * 86400000000).
  assert (Hrest : 0 ≤ rest < 86400000000).
  { unfold rest, days. pose proof (Z.mod_pos_bound local 86400000000 ltac:(lia)).
    pose proof (Z.div_mod local 86400000000 ltac:(lia)). lia. }
  pose proof (civil_from_days_ok days) as Hc.
  destruct (civil_from_days days) as [[y m] d]. cbn [wt_year wt_offset].
  rewrite !andb_true_iff, !Z.leb_le, Z.ltb_lt. intros [[Hy Hy'] Hz].
  constructor; cbn; [lia|lia|lia|..].
  - split; [apply Z.div_pos; lia|]. apply Z.lt_succ_r, Z.div_lt_upper_bound; lia.
  - pose proof (Z.mod_pos_bound (rest / 60000000) 60). lia.
  - pose proof (Z.mod_pos_bound (rest / 1000000) 60). lia.
  - pose proof (Z.mod_pos_bound rest 1000000). lia.
  - unfold zone_ok. lia.
Qed.

Lemma parse_wall_clock offset t :
  time_marshals (wall_clock offset t) = true →
  parse_rfc3339 (format_rfc3339_nano (wall_clock offset t)) = Some (wall_clock offset t).
Proof. intros H. by apply parse_format_rfc3339, wall_clock_ok. Qed.

(** The printed text is plain ASCII. *)
Lemma digits_are_digits n z : string_forallb is_digit (digits n z) = true.
Proof.
  revert z. induction n as [|n IH]; intros z; [done|]. cbn [digits].
  rewrite string_forallb_app, IH. unfold chr. cbn [string_forallb andb].
  by rewrite (proj1 (digit_char z)).
Qed.

Lemma trim_zeros_are_digits n z : string_forallb is_digit (trim_zeros n z) = true.
Proof.
  revert z. induction n as [|n IH]; intros z; [done|]. cbn [trim_zeros].
  destruct (_ =? 0); [apply IH|apply digits_are_digits].
Qed.
