(* ===== verification/Floats.v ===== *)
(** * The numbers of a heartbeat: float64 values in JSON

    A float64 field is printed by its decimal and read back as the same decimal; the printed
    text is a JSON number. *)

From S2P Require Import Prelude GoStd Decimal Models GoTime Json JsonFacts TimeFacts.

(** ** Splitting and padding *)

Lemma split_at_spec n s :
  ∃ a b, split_at n s = (a, b) ∧ s = a +:+ b ∧
         String.length a = Nat.min n (String.length s).
Proof.
  revert s. induction n as [|n IH]; intros s; [by exists EmptyString, s|].
  destruct s as [|c s]; [by exists EmptyString, EmptyString|].
  destruct (IH s) as (a & b & Heq & -> & Hlen). exists (String c a), b. cbn. rewrite Heq.
  by rewrite Hlen.
Qed.

(** Padding puts zeros in front of a text that is too short. *)
Lemma pad_left_cases n s :
  (n ≤ String.length s ∧ pad_left n s = s)%nat ∨
  (String.length s < n ∧ String.length (pad_left n s) = n ∧
   ∃ t, pad_left n s = String "0" t ∧ (string_forallb is_digit s = true →
     string_forallb is_digit t = true ∧ digits_value 0 t = digits_value 0 s))%nat.
Proof.
  induction n as [|n IH]; cbn [pad_left].
  - left. split; [lia|]. by destruct (Nat.ltb_spec (String.length s) 0); [lia|].
  - destruct (Nat.ltb_spec (String.length s) (S n)) as [Hlt|]; [|left; split; [lia|done]].
    right. destruct IH as [[Hle ->]|(_ & Hlen & t & Ht & Hs)].
    + split_and!; [lia|cbn; lia|]. by exists s.
    + split_and!; [lia|cbn; by rewrite Hlen|]. eexists. split; [done|]. intros Hd.
      destruct (Hs Hd) as [H1 H2]. rewrite Ht. split; [done|exact H2].
Qed.

(** The digits of a decimal with [k] places: an integer part without superfluous zeros, and
    exactly [k] digits. *)
Lemma float_digits (n : N) k :
  ∃ i f, split_at (String.length (pad_left (S k) (pretty n)) - k) (pad_left (S k) (pretty n)) =
           (i, f) ∧
    is_decimal i = true ∧ string_forallb is_digit f = true ∧ String.length f = k ∧
    digits_value 0 (i +:+ f) = Some (Z.of_N n).
Proof.
  pose proof (pretty_N_decimal n) as Hdec. pose proof (is_decimal_digits _ Hdec) as Hdig.
  set (s := pretty n) in *. set (d := pad_left (S k) s).
  assert (Hd : (S k ≤ String.length d)%nat ∧ string_forallb is_digit d = true ∧
               digits_value 0 d = Some (Z.of_N n) ∧
               (∀ a b, d = a +:+ b → String.length a = (String.length d - k)%nat →
                  is_decimal a = true)).
  { unfold d. destruct (pad_left_cases (S k) s) as [[Hle ->]|(Hlt & Hlen & t & Ht & Hs)].
    - split_and!; [done|done|apply pretty_N_value|]. intros a b Hab Hlen. rewrite Hab in Hdec, Hlen, Hle.
      destruct a as [|c a]; [cbn in Hlen; rewrite length_append in *; cbn in *; lia|].
      rewrite append_cons in Hdec. cbn in Hdec |- *. rewrite string_forallb_app in Hdec.
      destruct (is_digit c); [|done]. destruct (string_forallb is_digit a); [|done].
      cbn in Hdec |- *. destruct a as [|c' a]; [by rewrite orb_true_r|].
      rewrite append_cons in Hdec. cbn in Hdec. rewrite orb_false_r in *.
      by apply andb_prop in Hdec as [_ ->].
    - destruct (Hs Hdig) as [Hs1 Hs2]. rewrite Hlen, Ht. split_and!.
      + lia.
      + cbn. by rewrite Hs1.
      + change (digits_value 0 (String "0" t)) with (digits_value 0 t). rewrite Hs2.
        apply pretty_N_value.
      + intros a b Hab Ha. assert (String.length a = 1%nat) as Ha1 by lia.
        destruct a as [|c [|]]; [done| |done]. rewrite append_cons in Hab. by injection Hab as <- _. }
  clearbody d. destruct Hd as (Hlen & Hdd & Hv & Hfirst).
  destruct (split_at_spec (String.length d - k) d) as (i & f & Heq & Hif & Hi).
  exists i, f. split; [done|]. rewrite Nat.min_l in Hi by lia.
  split_and!; [by eapply Hfirst| | |by rewrite <- Hif].
  - rewrite Hif, string_forallb_app in Hdd. by apply andb_prop in Hdd as [_ ?].
  - rewrite Hif, length_append in Hi. rewrite Hif, length_append in Hlen. lia.
Qed.

(** ** Printing and reading *)

Lemma json_float_parts x :
  ∃ i f, json_float x = (if f_mant x <? 0 then "-" else "") +:+ i +:+
           (match f_exp x with O => EmptyString | _ => "." +:+ f end) ∧
    is_decimal i = true ∧ string_forallb is_digit f = true ∧ String.length f = f_exp x ∧
    digits_value 0 (i +:+ f) = Some (Z.abs (f_mant x)).
Proof.
  destruct (float_digits (Z.to_N (Z.abs (f_mant x))) (f_exp x)) as (i & f & Heq & Hi & Hf & Hl & Hv).
  exists i, f. unfold json_float. rewrite Heq. split_and!; [done|done|done|done|].
  rewrite Hv. f_equal. lia.
Qed.

Lemma parse_frac_value acc k s t v :
  digits_value acc s = Some v → no_digit t = true →
  parse_frac acc k (s +:+ t) = Some (v, (k + String.length s)%nat, t).
Proof.
  revert acc k. induction s as [|c s IH]; intros acc k Hv Ht.
  - cbn in Hv. injection Hv as ->. rewrite append_nil, Nat.add_0_r.
    destruct t as [|c t]; [done|]. cbn in *. by destruct (is_digit c).
  - rewrite append_cons. cbn [digits_value parse_frac String.length] in *.
    destruct (is_digit c); [|done]. rewrite IH by done. do 3 f_equal. lia.
Qed.

(** A float64 is read back as it was printed. *)
Lemma parse_float_printed x : parse_float (json_float x) = Some x.
Proof.
  destruct (json_float_parts x) as (i & f & -> & Hi & Hf & Hl & Hv).
  rewrite digits_value_app in Hv. destruct (digits_value 0 i) as [vi|] eqn:Hvi; [|done].
  destruct i as [|c i]; [done|].
  assert (Hc : is_digit c = true) by (cbn in Hi; by destruct (is_digit c)).
  set (tail := match f_exp x with O => EmptyString | _ => "." +:+ f end).
  assert (Hsign : float_sign ((if f_mant x <? 0 then "-" else "") +:+ String c i +:+ tail) =
                  ((if f_mant x <? 0 then -1 else 1), String c i +:+ tail)).
  { destruct (f_mant x <? 0); [done|].
    by destruct c as [[] [] [] [] [] [] [] []]. }
  unfold parse_float. rewrite Hsign. rewrite append_cons, Hc, <- append_cons.
  rewrite (parse_frac_value 0 0 (String c i) tail vi); [|done|by unfold tail; destruct (f_exp x)].
  assert (Hm : (if f_mant x <? 0 then -1 else 1) * Z.abs (f_mant x) = f_mant x)
    by (destruct (Z.ltb_spec (f_mant x) 0); lia).
  unfold tail. destruct (f_exp x) as [|k] eqn:Hk.
  - destruct f; [|done]. cbn in Hv. injection Hv as ->. destruct x as [m e]. cbn in *. subst e.
    by rewrite Hm.
  - rewrite append_cons, append_nil. rewrite <- (append_empty_r f) at 1.
    rewrite (parse_frac_value vi 0 f EmptyString _ Hv) by done.
    destruct x as [m e]. cbn in *. subst e. by rewrite Hm, Hl.
Qed.

Lemma json_float_not_null x : json_float x ≠ "null".
Proof. intros H. pose proof (parse_float_printed x) as Hp. by rewrite H in Hp. Qed.

Lemma get_float_printed x : get_float [json_float x] = Ok x.
Proof.
  unfold get_float. cbn. rewrite bool_decide_false by apply json_float_not_null.
  by rewrite parse_float_printed.
Qed.

(** ** The printed text is a JSON number *)

Lemma scan_fraction st f :
  string_forallb is_digit f = true → scan_run Dot0 st f = Some (Dot0, st).
Proof.
  induction f as [|c f IH]; [done|]. cbn [string_forallb]. intros [Hc Hf]%andb_prop.
  rewrite (scan_run_cons _ _ _ _ Dot0 st); [auto|]. unfold scan_step. by rewrite Hc.
Qed.

Lemma scan_number m st i f k :
  is_decimal i = true → string_forallb is_digit f = true → String.length f = k →
  m = BeginValue ∨ m = Neg →
  ∃ m', scan_run m st (i +:+ match k with O => EmptyString | _ => "." +:+ f end) = Some (m', st) ∧
        closes m' st.
Proof.
  intros Hi Hf Hk Hm. destruct (scan_decimal m st i Hi Hm) as (m1 & H1 & Hm1).
  rewrite scan_run_app, H1. destruct k as [|k].
  - exists m1. split; [done|]. unfold closes. tauto.
  - destruct f as [|c f]; [done|]. cbn in Hf. apply andb_prop in Hf as [Hc Hf].
    rewrite append_cons, append_nil. exists Dot0. split; [|unfold closes; tauto].
    rewrite (scan_run_cons m1 st _ _ Dot st) by (by destruct Hm1 as [->| ->]).
    rewrite (scan_run_cons Dot st _ _ Dot0 st) by (unfold scan_step; by rewrite Hc).
    by apply scan_fraction.
Qed.

Lemma json_float_value x : value_ok (json_float x).
Proof.
  destruct (json_float_parts x) as (i & f & -> & Hi & Hf & Hl & _). split.
  - destruct (f_mant x <? 0); [done|]. destruct i as [|c i]; [done|].
    rewrite append_nil, append_cons. cbn in Hi. apply andb_prop in Hi as [[Hc _]%andb_prop _].
    by apply (scan_first_digit []).
  - intros st. destruct (f_mant x <? 0).
    + rewrite append_cons, append_nil. rewrite (scan_run_cons _ _ _ _ Neg st) by done.
      apply scan_number; auto.
    + rewrite append_nil. apply scan_number; auto.
Qed.
#[export] Hint Resolve json_float_value : sched.

(** ** Timestamps *)

Lemma format_rfc3339_utf8 t : utf8_valid (format_rfc3339_nano t) = true.
Proof.
  assert (Hd : ∀ n z, all_ascii (digits n z) = true)
    by (intros; apply digits_ascii, digits_are_digits).
  apply all_ascii_valid. rewrite format_rfc3339_nano_eq.
  assert (Hz : all_ascii (format_zone (wt_offset t)) = true).
  { unfold format_zone. destruct (_ =? 0); [done|].
    by destruct (_ <? 0); rewrite !all_ascii_app, !Hd. }
  repeat (rewrite all_ascii_app, Hd; cbn [all_ascii andb]; simpl (_ <? _)%nat; cbn [andb]).
  rewrite all_ascii_app, Hz, andb_true_r. destruct (_ =? 0); [done|].
  by rewrite all_ascii_app, (digits_ascii _ (trim_zeros_are_digits _ _)).
Qed.
