(* ===== verification/Compact.v ===== *)
(** * Compaction of a RawMessage

    What encoding/json writes for a RawMessage is again a value: the compaction of a JSON text
    is accepted by the scanner wherever a value is expected. *)

From S2P Require Import Prelude GoStd Decimal Models Json JsonFacts.

#[local] Arguments scan_eof : simpl never.
#[local] Arguments scan_step : simpl never.
#[local] Arguments step_end : simpl never.

(** Inside a string literal; right after a backslash in it. *)
Definition in_literal (m : mode) : bool :=
  match m with InString | InStringEsc | InStringEscU _ => true | _ => false end.
Definition in_escape (m : mode) : bool := match m with InStringEsc => true | _ => false end.

Definition in_number (m : mode) : bool :=
  match m with Num0 | Num1 | Dot0 | Ex0 => true | _ => false end.

(** What is left of true, false or null holds no space and no quote. *)
Definition plain_byte (c : ascii) : bool := negb (is_ws c) && negb (is_byte 34 c).
Definition mode_ok (m : mode) : bool :=
  match m with Literal r => string_forallb plain_byte r | _ => true end.

(** The scan of the compacted text is where the scan of the text is, except that it may still
    be in a number that a dropped space ended. *)
Definition simulates (m m2 : mode) : Prop := m2 = m ∨ (m = EndValue ∧ in_number m2 = true).

(** The mode at the end of a value, with the frames [k] below. *)
Definition lift (k : list frame) (m : mode) : mode :=
  match m with EndTop => after_value k | _ => m end.

(** ** The value at the front of a text *)

Lemma scan_eof_stack m st : scan_eof m st = true → st = [].
Proof. by destruct st, m. Qed.

Lemma take_value_split m st s v r :
  take_value m st s = Some (v, r) →
  s = v +:+ r ∧ ∃ m', scan_run m st v = Some (m', []) ∧ scan_eof m' [] = true.
Proof.
  revert m st v. induction s as [|c s IH]; intros m st v; cbn.
  - destruct (scan_eof m st) eqn:He; [|done]. intros [= <- <-]. split; [done|].
    exists m. pose proof (scan_eof_stack _ _ He) as ->. done.
  - destruct (scan_step m st c) as [m1 st1| |] eqn:Hstep; [|destruct (scan_eof m st) eqn:He|done].
    + destruct (take_value m1 st1 s) as [[v1 r1]|] eqn:Ht; [|done]. intros [= <- <-].
      destruct (IH _ _ _ Ht) as (-> & m' & Hm' & He). split; [by rewrite append_cons|].
      exists m'. split; [|done]. cbn. by rewrite Hstep.
    + intros [= <- <-]. split; [done|]. exists m.
      pose proof (scan_eof_stack _ _ He) as ->. done.
    + done.
Qed.

Lemma skip_ws_first s : match skip_ws s with EmptyString => True | String c _ => is_ws c = false end.
Proof. induction s as [|c s IH]; cbn; [done|]. by destruct (is_ws c) eqn:Hc. Qed.

(** A value taken from a text: it begins with no space, and is itself a whole value. *)
Lemma next_value_front s v r :
  next_value s = Some (v, r) →
  match v with EmptyString => False | String c _ => is_ws c = false end ∧
  ∃ m, scan_run BeginValue [] v = Some (m, []) ∧ scan_eof m [] = true.
Proof.
  unfold next_value. intros Ht. destruct (take_value_split _ _ _ _ _ Ht) as (Hs & m & Hm & He).
  split; [|by exists m]. pose proof (skip_ws_first s) as Hf. rewrite Hs in Hf.
  destruct v as [|c v]; [|done]. cbn in Hm. simplify_eq.
Qed.

Lemma next_value_whole s v r : next_value s = Some (v, r) → whole_value v = Some v.
Proof.
  intros Hn. destruct (next_value_front _ _ _ Hn) as (Hf & m & Hm & He).
  unfold whole_value, next_value. rewrite skip_ws_id by (by destruct v).
  rewrite <- (append_empty_r v) at 1. rewrite (take_value_app _ _ _ _ _ _ Hm). cbn.
  rewrite He. by rewrite append_empty_r.
Qed.

(** ** A value in any context *)

(** The same step with more frames below: the end of the value is then not the end of the
    text. *)
Lemma scan_step_lift m st k c m' st' :
  scan_step m st c = Go m' st' →
  scan_step m (st ++ k) c =
  Go (lift k m') (st' ++ k).
Proof.
  assert (Hafter : ∀ l, lift k (after_value l) = after_value (l ++ k)) by (by intros []).
  assert (Hend : ∀ l d n l', step_end l d = Go n l' →
    step_end (l ++ k) d = Go (lift k n) (l' ++ k)).
  { intros [|f l] d n l'; [done|]. unfold step_end. cbn [app].
    destruct (is_ws d); [by intros [= <- <-]|]. destruct f.
    - destruct (is_byte 44 d); [by intros [= <- <-]|].
      destruct (is_byte 93 d); [|done]. intros [= <- <-]. by rewrite Hafter.
    - destruct (is_byte 58 d); [|done]. by intros [= <- <-].
    - destruct (is_byte 44 d); [by intros [= <- <-]|].
      destruct (is_byte 125 d); [|done]. intros [= <- <-]. by rewrite Hafter. }
  assert (Hval : ∀ d n l', step_value st d = Go n l' →
    step_value (st ++ k) d = Go (lift k n) (l' ++ k)).
  { intros d n l'. unfold step_value. repeat case_match; try done; by intros [= <- <-]. }
  unfold scan_step. destruct m.
  all: try (by apply Hval). all: try (by apply Hend).
  all: try (by repeat case_match; try done; first [by apply Hend|by apply Hval|by intros [= <- <-]]).
  - destruct (is_ws c); [by intros [= <- <-]|]. destruct (is_byte 125 c).
    + destruct st as [|f st0]; [done|]. apply (Hend (FObjVal :: st0)).
    + destruct (is_byte 34 c); [|done]. by intros [= <- <-].
  - destruct (is_byte 34 c); [intros [= <- <-]; by rewrite Hafter|].
    destruct (is_byte 92 c); [by intros [= <- <-]|].
    destruct (code c <? 32)%nat; [done|]. by intros [= <- <-].
  - destruct rest as [|d r]; [done|]. destruct (bool_decide (c = d)); [|done].
    destruct r; intros [= <- <-]; [by rewrite Hafter|done].
Qed.

Lemma scan_run_lift m st v k m' st' :
  m ≠ EndTop → scan_run m st v = Some (m', st') →
  scan_run m (st ++ k) v = Some (lift k m', st' ++ k).
Proof.
  revert m st. induction v as [|c v IH]; intros m st Hm; cbn.
  - intros [= <- <-]. by destruct m.
  - destruct (scan_step m st c) as [m1 st1| |] eqn:Hstep; [|done..].
    rewrite (scan_step_lift _ _ k _ _ _ Hstep). intros Hrun.
    destruct v as [|d v]; [by cbn in *; simplify_eq|].
    assert (m1 ≠ EndTop) as H1 by (by intros ->).
    replace (lift k m1) with m1 by (by destruct m1). by apply IH.
Qed.

Lemma lift_closes k m : scan_eof m [] = true → closes (lift k m) k.
Proof. unfold closes. destruct m; intros [=]; cbn; tauto. Qed.

(** A value taken from a text is one wherever a value is expected. *)
Lemma next_value_ok_front s v r : next_value s = Some (v, r) → value_ok v.
Proof.
  intros Hn. destruct (next_value_front _ _ _ Hn) as (Hf & m & Hm & He).
  split; [done|]. intros st. exists (lift st m). split; [|by apply lift_closes].
  by apply (scan_run_lift BeginValue [] v st) in Hm.
Qed.

(** ** The scan of the compacted text *)

Lemma compact_out e s : compact false e s = compact false false s.
Proof. by destruct s. Qed.

Lemma compact_literal e a s1 :
  compact true e (String a s1) =
    compact_byte a +:+ compact (negb (negb e && is_byte 34 a)) (negb e && is_byte 92 a) s1 ∨
  ∃ b d s3, s1 = String b (String d s3) ∧ line_separator a b d = true ∧
    compact true e (String a s1) =
      bs +:+ "u202" +:+ String (hex_digit (code d - 160)) (compact true false s3).
Proof.
  destruct s1 as [|b [|d s3]]; [by left..|].
  destruct (line_separator a b d) eqn:Hl.
  - right. exists b, d, s3. split_and!; [done|done|]. cbn [compact]. by rewrite Hl.
  - left. cbn [compact]. by rewrite Hl.
Qed.

(** A step inside a literal: what follows it, and the flags of the compaction. *)
Lemma literal_step m st c m1 st1 :
  in_literal m = true → scan_step m st c = Go m1 st1 →
  in_literal m1 = negb (negb (in_escape m) && is_byte 34 c) ∧
  (in_literal m1 = true → in_escape m1 = negb (in_escape m) && is_byte 92 c) ∧
  mode_ok m1 = true ∧
  (html_byte c = true → m = InString ∧ m1 = InString ∧ st1 = st) ∧
  (code c = 226%nat → m = InString).
Proof.
  destruct m; try done; intros _; unfold scan_step.
  - destruct (is_byte 34 c) eqn:H34.
    + apply code_eqb in H34 as ->. intros [= <- <-]. by destruct st.
    + destruct (is_byte 92 c) eqn:H92.
      * apply code_eqb in H92 as ->. intros [= <- <-]. by split_and!.
      * destruct (code c <? 32)%nat; [done|]. intros [= <- <-]. by split_and!.
  - destruct (is_byte 117 c) eqn:H117.
    + apply code_eqb in H117 as ->. intros [= <- <-]. by split_and!.
    + destruct (simple_escape c) eqn:Hs; [|done]. intros [= <- <-].
      split_and!; try done.
      * unfold html_byte. intros [[H|H]%orb_prop|H]%orb_prop; apply code_eqb in H; by subst c.
      * intros H. unfold simple_escape in Hs. by rewrite H in Hs.
  - destruct (hex_value c) eqn:Hh; [|done]. intros [= <- <-].
    assert (is_byte 34 c = false ∧ is_byte 92 c = false ∧ html_byte c = false ∧
            code c ≠ 226%nat) as (-> & -> & -> & H226).
    { unfold is_byte, html_byte. unfold hex_value in Hh.
      destruct (Nat.eqb_spec (code c) 34) as [H|_]; [by rewrite H in Hh|].
      destruct (Nat.eqb_spec (code c) 92) as [H|_]; [by rewrite H in Hh|].
      destruct (Nat.eqb_spec (code c) 60) as [H|_]; [by rewrite H in Hh|].
      destruct (Nat.eqb_spec (code c) 62) as [H|_]; [by rewrite H in Hh|].
      destruct (Nat.eqb_spec (code c) 38) as [H|_]; [by rewrite H in Hh|].
      split_and!; try done. intros H. by rewrite H in Hh. }
    split_and!; try done; by destruct n as [|[|n]].
Qed.

(** A space outside literals. *)
Lemma outside_space m st c m1 st1 :
  in_literal m = false → mode_ok m = true → is_ws c = true → scan_step m st c = Go m1 st1 →
  st1 = st ∧ (m1 = m ∨ m1 = EndValue ∧ in_number m = true).
Proof.
  intros Hm Hok Hw.
  assert (c = ascii_of_nat 32 ∨ c = ascii_of_nat 9 ∨ c = ascii_of_nat 10 ∨ c = ascii_of_nat 13)
    as Hc.
  { unfold is_ws in Hw. apply orb_prop in Hw as [[[H|H]%orb_prop|H]%orb_prop|H];
      apply code_eqb in H; tauto. }
  destruct m; try done;
    try (destruct Hc as [->|[->|[->| ->]]]; destruct st as [|[] st]; cbv; intros [= <- <-]; tauto).
  unfold scan_step. destruct rest as [|d r]; [done|].
  destruct (bool_decide_reflect (c = d)) as [->|]; [|done].
  cbn in Hok. unfold plain_byte in Hok. by rewrite Hw in Hok.
Qed.

Lemma is_byte_other k c : is_byte k c = true → k ≠ 34%nat → is_byte 34 c = false.
Proof. unfold is_byte. intros ->%Nat.eqb_eq Hne. by apply Nat.eqb_neq. Qed.

Lemma digit_no_quote c : is_digit c = true → is_byte 34 c = false.
Proof.
  unfold is_digit, is_byte, code. intros [H _]%andb_prop.
  apply Nat.leb_le in H. apply Nat.eqb_neq. lia.
Qed.

Lemma after_value_plain l :
  mode_ok (after_value l) = true ∧ in_literal (after_value l) = false ∧
  in_escape (after_value l) = false.
Proof. by destruct l. Qed.

(** What a step that is no space leads to. *)
Definition outside_next (c : ascii) (m1 : mode) : Prop :=
  mode_ok m1 = true ∧ in_literal m1 = is_byte 34 c ∧ in_escape m1 = false.

Lemma outside_next_byte k c m1 :
  is_byte k c = true → k ≠ 34%nat →
  mode_ok m1 = true → in_literal m1 = false → in_escape m1 = false → outside_next c m1.
Proof. intros Hc Hk H1 H2 H3. split_and!; [done| |done]. by rewrite H2, (is_byte_other k). Qed.

Lemma outside_next_digit c m1 :
  is_digit c = true → mode_ok m1 = true → in_literal m1 = false → in_escape m1 = false →
  outside_next c m1.
Proof. intros Hc H1 H2 H3. split_and!; [done| |done]. by rewrite H2, digit_no_quote. Qed.

Lemma step_end_next st c m1 st1 :
  is_ws c = false → step_end st c = Go m1 st1 → outside_next c m1.
Proof.
  intros Hw. unfold step_end. destruct st as [|f l]; [done|]. rewrite Hw.
  destruct (after_value_plain l) as (H1 & H2 & H3).
  destruct f; repeat case_match; try done; intros [= <- <-];
    eapply outside_next_byte; first [eassumption|done].
Qed.

Lemma step_value_next st c m1 st1 :
  is_ws c = false → step_value st c = Go m1 st1 → outside_next c m1.
Proof.
  intros Hw. unfold step_value. rewrite Hw.
  destruct (is_byte 123 c) eqn:?; [intros [= <- <-]; by eapply outside_next_byte|].
  destruct (is_byte 91 c) eqn:?; [intros [= <- <-]; by eapply outside_next_byte|].
  destruct (is_byte 34 c) eqn:?; [intros [= <- <-]; by split_and!|].
  destruct (is_byte 45 c) eqn:?; [intros [= <- <-]; by eapply outside_next_byte|].
  destruct (is_byte 48 c) eqn:?; [intros [= <- <-]; by eapply outside_next_byte|].
  destruct (is_digit c) eqn:?; [intros [= <- <-]; by eapply outside_next_digit|].
  destruct (is_byte 116 c) eqn:?; [intros [= <- <-]; by eapply outside_next_byte|].
  destruct (is_byte 102 c) eqn:?; [intros [= <- <-]; by eapply outside_next_byte|].
  destruct (is_byte 110 c) eqn:?; [intros [= <- <-]; by eapply outside_next_byte|done].
Qed.

Lemma outside_step m st c m1 st1 :
  in_literal m = false → mode_ok m = true → is_ws c = false →
  scan_step m st c = Go m1 st1 → outside_next c m1.
Proof.
  intros Hm Hok Hw. unfold scan_step. rewrite ?Hw. destruct m; try done.
  - by apply step_value_next.
  - destruct (is_byte 93 c); [by apply step_end_next|by apply step_value_next].
  - destruct (is_byte 34 c) eqn:?; [|done]. intros [= <- <-]. by split_and!.
  - destruct (is_byte 125 c).
    + destruct st; [done|]. by apply step_end_next.
    + destruct (is_byte 34 c) eqn:?; [|done]. intros [= <- <-]. by split_and!.
  - destruct (is_byte 48 c) eqn:?; [intros [= <- <-]; by eapply outside_next_byte|].
    destruct (is_digit c) eqn:?; [|done]. intros [= <- <-]. by apply outside_next_digit.
  - destruct (is_byte 46 c) eqn:?; [intros [= <- <-]; by eapply outside_next_byte|].
    destruct (_ || _) eqn:Ho; [|by apply step_end_next]. intros [= <- <-].
    apply orb_prop in Ho as [Ho|Ho]; by eapply outside_next_byte.
  - destruct (is_digit c) eqn:?; [intros [= <- <-]; by apply outside_next_digit|].
    destruct (is_byte 46 c) eqn:?; [intros [= <- <-]; by eapply outside_next_byte|].
    destruct (_ || _) eqn:Ho; [|by apply step_end_next]. intros [= <- <-].
    apply orb_prop in Ho as [Ho|Ho]; by eapply outside_next_byte.
  - destruct (is_digit c) eqn:?; [|done]. intros [= <- <-]. by apply outside_next_digit.
  - destruct (is_digit c) eqn:?; [intros [= <- <-]; by apply outside_next_digit|].
    destruct (_ || _) eqn:Ho; [|by apply step_end_next]. intros [= <- <-].
    apply orb_prop in Ho as [Ho|Ho]; by eapply outside_next_byte.
  - destruct (_ || _) eqn:Ho.
    + intros [= <- <-]. apply orb_prop in Ho as [Ho|Ho]; by eapply outside_next_byte.
    + destruct (is_digit c) eqn:?; [|done]. intros [= <- <-]. by apply outside_next_digit.
  - destruct (is_digit c) eqn:?; [|done]. intros [= <- <-]. by apply outside_next_digit.
  - destruct (is_digit c) eqn:?; [intros [= <- <-]; by apply outside_next_digit|].
    by apply step_end_next.
  - destruct rest as [|d r]; [done|]. destruct (bool_decide_reflect (c = d)) as [->|]; [|done].
    cbn in Hok. apply andb_prop in Hok as [Hd Hr]. unfold plain_byte in Hd.
    apply andb_prop in Hd as [_ Hd%negb_true_iff]. unfold outside_next. rewrite Hd.
    destruct (after_value_plain st) as (? & ? & ?).
    destruct r; intros [= <- <-]; by split_and!.
  - by apply step_end_next.
Qed.

(** A number that a dropped space ended goes on as after the space. *)
Lemma number_step m2 st c m1 st1 :
  in_number m2 = true → is_ws c = false → scan_step EndValue st c = Go m1 st1 →
  scan_step m2 st c = Go m1 st1.
Proof.
  intros Hn Hw Hs. assert (H : is_byte 44 c = true ∨ is_byte 125 c = true ∨ is_byte 93 c = true ∨
                               is_byte 58 c = true).
  { unfold scan_step, step_end in Hs. destruct st as [|f l]; [done|]. rewrite Hw in Hs.
    destruct f; repeat case_match; try done; tauto. }
  rewrite closes_step; [exact Hs|destruct m2; unfold closes; tauto || done|..];
    destruct H as [H|[H|[H|H]]]; apply code_eqb in H; by subst c.
Qed.

Lemma compact_byte_scan m st c m1 st1 :
  in_literal m = true → scan_step m st c = Go m1 st1 →
  scan_run m st (compact_byte c) = Some (m1, st1).
Proof.
  intros Hm Hs. destruct (literal_step _ _ _ _ _ Hm Hs) as (_ & _ & _ & Hhtml & _).
  unfold compact_byte. destruct (html_byte c) eqn:Hc.
  - destruct (Hhtml eq_refl) as (-> & -> & ->). unfold html_byte in Hc.
    apply orb_prop in Hc as [[H|H]%orb_prop|H]; apply code_eqb in H; by subst c.
  - cbn. by rewrite Hs.
Qed.

Lemma compact_scan n s m st m' st' m2 :
  (String.length s ≤ n)%nat → scan_run m st s = Some (m', st') → mode_ok m = true →
  simulates m m2 →
  ∃ m2', scan_run m2 st (compact (in_literal m) (in_escape m) s) = Some (m2', st') ∧
         simulates m' m2'.
Proof.
  revert s m st m2. induction n as [|n IH]; intros s m st m2 Hlen Hrun Hok Hsim.
  { destruct s; [|cbn in Hlen; lia]. cbn in *. simplify_eq. by exists m2. }
  destruct s as [|c s]; [cbn in *; simplify_eq; by exists m2|].
  cbn in Hlen. cbn in Hrun. destruct (scan_step m st c) as [m1 st1| |] eqn:Hstep; [|done..].
  destruct (in_literal m) eqn:Hlit.
  - assert (m2 = m) as -> by (destruct Hsim as [?|[-> _]]; done).
    destruct (literal_step _ _ _ _ _ Hlit Hstep) as (Hl1 & He1 & Hok1 & _ & H226).
    destruct (compact_literal (in_escape m) c s) as [->|(b & d & s3 & -> & Hls & ->)].
    + rewrite scan_run_app, (compact_byte_scan _ _ _ _ _ Hlit Hstep).
      destruct (IH s m1 st1 m1) as (m2' & Hm2 & Hs2); [lia|done|done|by left|].
      exists m2'. split; [|done]. rewrite <- Hl1, <- Hm2. f_equal.
      destruct (in_literal m1); [by rewrite He1|]. by rewrite compact_out, (compact_out (in_escape m1)).
    + pose proof (line_separator_eq _ _ _ Hls) as (-> & -> & Hd).
      rewrite (H226 eq_refl) in *. cbn in Hstep. injection Hstep as <- <-.
      assert (scan_run InString st s3 = Some (m', st')) as Hrun3 by (by destruct Hd as [->| ->]).
      destruct (IH s3 InString st InString) as (m2' & Hm2 & Hs2);
        [cbn in Hlen; lia|done|done|by left|].
      exists m2'. split; [|done]. rewrite <- Hm2. by destruct Hd as [->| ->].
  - cbn [compact]. destruct (is_ws c) eqn:Hw.
    + destruct (outside_space _ _ _ _ _ Hlit Hok Hw Hstep) as [-> Hm1].
      destruct (IH s m1 st m2) as (m2' & Hm2 & Hs2); [lia|done| | |].
      * by destruct Hm1 as [->|[-> _]].
      * destruct Hm1 as [->|[-> Hnum]]; [done|]. destruct Hsim as [->|[-> ?]]; by right.
      * exists m2'. split; [|done]. rewrite <- Hm2. f_equal.
        destruct Hm1 as [->|[-> _]]; [|done]. by rewrite Hlit, (compact_out (in_escape m)).
    + destruct (outside_step _ _ _ _ _ Hlit Hok Hw Hstep) as (Hok1 & Hl1 & He1).
      assert (scan_step m2 st c = Go m1 st1) as Hstep2.
      { destruct Hsim as [->|[-> Hnum]]; [done|]. by apply number_step. }
      destruct (IH s m1 st1 m1) as (m2' & Hm2 & Hs2); [lia|done|done|by left|].
      exists m2'. split; [|done]. cbn [scan_run]. rewrite Hstep2, <- Hm2. by rewrite Hl1, He1.
Qed.

(** ** White space around a value *)

Definition all_ws (s : string) : bool := string_forallb is_ws s.

Lemma skip_ws_all s : string_is_empty (skip_ws s) = true → all_ws s = true.
Proof.
  unfold all_ws. induction s as [|c s IH]; cbn; [done|]. by destruct (is_ws c).
Qed.

Lemma compact_skip_ws s : compact false false s = compact false false (skip_ws s).
Proof.
  induction s as [|c s IH]; [done|]. cbn [compact skip_ws]. destruct (is_ws c) eqn:Hc; [done|].
  cbn [compact]. by rewrite Hc.
Qed.

Lemma compact_ws s : all_ws s = true → compact false false s = EmptyString.
Proof.
  unfold all_ws. induction s as [|c s IH]; cbn; [done|]. by intros [-> Hs%IH]%andb_prop.
Qed.

(** A space belongs to no line separator. *)
Lemma ws_separator a b c : is_ws b = true ∨ is_ws c = true → line_separator a b c = false.
Proof.
  intros H. destruct (line_separator a b c) eqn:Hl; [|done].
  apply line_separator_eq in Hl as (-> & -> & [-> | ->]); by destruct H.
Qed.

Lemma compact_literal_ws e c s r :
  all_ws r = true →
  (∃ b d s3, s = String b (String d s3) ∧ line_separator c b d = true) ∨
  (compact true e (String c (s +:+ r)) =
     compact_byte c +:+ compact (negb (negb e && is_byte 34 c)) (negb e && is_byte 92 c) (s +:+ r) ∧
   compact true e (String c s) =
     compact_byte c +:+ compact (negb (negb e && is_byte 34 c)) (negb e && is_byte 92 c) s).
Proof.
  intros Hr.
  destruct (compact_literal e c s) as [Hs|(b & d & s3 & -> & Hl & _)]; [|left; eauto].
  destruct (compact_literal e c (s +:+ r)) as [Hsr|(b & d & s3 & Heq & Hl & _)]; [by right|].
  exfalso. unfold all_ws in Hr.
  destruct s as [|b' [|d' s']]; rewrite ?append_cons, ?append_nil in Heq.
  - subst r. cbn in Hr. apply andb_prop in Hr as [Hb _].
    by rewrite ws_separator in Hl by (by left).
  - injection Heq as -> ->. cbn in Hr. apply andb_prop in Hr as [Hd _].
    by rewrite ws_separator in Hl by (by right).
  - injection Heq as -> -> _. cbn [compact] in Hs. rewrite Hl in Hs.
    unfold line_separator in Hl. cbn in Hs. apply andb_prop in Hl as [Hl _].
    apply andb_prop in Hl as [Hc _]. apply code_eqb in Hc. subst c. cbn in Hs. done.
Qed.

Lemma compact_app_ws n v m st m' st' r :
  (String.length v ≤ n)%nat → scan_run m st v = Some (m', st') → mode_ok m = true →
  in_literal m' = false → all_ws r = true →
  compact (in_literal m) (in_escape m) (v +:+ r) = compact (in_literal m) (in_escape m) v.
Proof.
  revert v m st. induction n as [|n IH]; intros v m st Hlen Hrun Hok Hm' Hr.
  { destruct v; [|cbn in Hlen; lia]. cbn in Hrun. simplify_eq.
    rewrite append_nil, Hm', compact_out. by apply compact_ws. }
  destruct v as [|c v].
  { cbn in Hrun. simplify_eq. rewrite append_nil, Hm', compact_out. by apply compact_ws. }
  rewrite append_cons. cbn in Hlen. cbn in Hrun.
  destruct (scan_step m st c) as [m1 st1| |] eqn:Hstep; [|done..].
  destruct (in_literal m) eqn:Hlit.
  - destruct (literal_step _ _ _ _ _ Hlit Hstep) as (Hl1 & He1 & Hok1 & _ & H226).
    destruct (compact_literal_ws (in_escape m) c v r Hr) as [(b & d & s3 & -> & Hls)|[-> ->]].
    + rewrite !append_cons. cbn [compact]. rewrite Hls. do 3 f_equal.
      pose proof (line_separator_eq _ _ _ Hls) as (-> & -> & Hd).
      rewrite (H226 eq_refl) in *. cbn in Hstep. injection Hstep as <- <-.
      assert (scan_run InString st s3 = Some (m', st')) as Hrun3 by (by destruct Hd as [->| ->]).
      apply (IH s3 InString st); [cbn in Hlen; lia|done..].
    + f_equal. rewrite <- Hl1. specialize (IH v m1 st1 ltac:(lia) Hrun Hok1 Hm' Hr).
      destruct (in_literal m1) eqn:Hl; [by rewrite He1 in IH|].
      by rewrite !(compact_out (negb (in_escape m) && _)), <- !(compact_out (in_escape m1)).
  - cbn [compact]. destruct (is_ws c) eqn:Hw.
    + destruct (outside_space _ _ _ _ _ Hlit Hok Hw Hstep) as [-> Hm1].
      assert (in_literal m1 = false ∧ mode_ok m1 = true) as [Hl1 Hok1]
        by (by destruct Hm1 as [->|[-> _]]).
      specialize (IH v m1 st ltac:(lia) Hrun Hok1 Hm' Hr). rewrite Hl1 in IH.
      by rewrite !(compact_out (in_escape m1)) in IH.
    + destruct (outside_step _ _ _ _ _ Hlit Hok Hw Hstep) as (Hok1 & Hl1 & He1).
      f_equal. specialize (IH v m1 st1 ltac:(lia) Hrun Hok1 Hm' Hr). by rewrite Hl1, He1 in IH.
Qed.

(** The compaction of a JSON text is a value. *)
Lemma compact_value s v : whole_value s = Some v → value_ok (compact false false s).
Proof.
  unfold whole_value. destruct (next_value s) as [[v' r]|] eqn:Hn; [|done].
  destruct (string_is_empty (skip_ws r)) eqn:Hr; [|done]. intros [= ->].
  apply skip_ws_all in Hr.
  destruct (next_value_ok_front _ _ _ Hn) as [Hf Hv].
  destruct (next_value_front _ _ _ Hn) as (_ & m0 & Hrun0 & He0).
  assert (Heq : compact false false s = compact false false v).
  { rewrite compact_skip_ws. unfold next_value in Hn.
    destruct (take_value_split _ _ _ _ _ Hn) as [-> _].
    apply (compact_app_ws _ v BeginValue [] m0 [] r (le_n _) Hrun0); [done| |done].
    by destruct m0. }
  rewrite Heq. split.
  - destruct v as [|c v]; [done|]. cbn [compact]. by rewrite Hf.
  - intros st. destruct (Hv st) as (m & Hrun & Hc).
    destruct (compact_scan _ v BeginValue st m st BeginValue (le_n _) Hrun eq_refl)
      as (m2 & Hm2 & Hs); [by left|].
    exists m2. split; [done|]. destruct Hs as [->|[-> Hnum]]; [done|].
    unfold closes. destruct m2; try done; tauto.
Qed.

Lemma json_raw_value p s : json_raw p = Ok s → value_ok s.
Proof.
  destruct p as [t|]; cbn; [|intros [= <-]; apply null_value].
  destruct (whole_value t) eqn:Hw; [|done]. intros [= <-]. by eapply compact_value.
Qed.
#[export] Hint Resolve json_raw_value : sched.

(** ** Compacting twice *)

(** The first two bytes of a compacted literal that are not ASCII were there before. *)
Lemma compact_literal_front s :
  compact true false s = EmptyString ∨
  (∃ t, compact true false s = String backslash t) ∨
  ∃ c s' t, s = String c s' ∧ compact true false s = String c t ∧
    (code c = 128%nat → t = compact true false s').
Proof.
  destruct s as [|c s']; [by left|right].
  destruct (compact_literal false c s') as [->|(b & d & s3 & -> & _ & ->)]; [|left; by eexists].
  unfold compact_byte. destruct (html_byte c); [left; by eexists|right].
  exists c, s', (compact (negb (is_byte 34 c)) (is_byte 92 c) s').
  split_and!; [done|done|]. intros Hc. unfold is_byte. by rewrite Hc.
Qed.

(** A byte that is copied starts no line separator in the compacted text either. *)
Lemma compact_no_separator a s b c t :
  code a = 226%nat → compact true false s = String b (String c t) →
  line_separator a b c = true →
  ∃ s', s = String b (String c s').
Proof.
  intros Ha Hs Hl. unfold line_separator in Hl.
  apply andb_prop in Hl as [[_ Hb]%andb_prop Hc].
  destruct (compact_literal_front s) as [He|[[t' He]|(b' & s' & t' & -> & He & Ht)]];
    rewrite Hs in He; [done|by injection He as -> _|].
  injection He as -> He. apply Nat.eqb_eq in Hb. specialize (Ht Hb).
  rewrite Ht in He. clear Ht Hs.
  destruct (compact_literal_front s') as [Hf|[[t2 Hf]|(c' & s2 & t2 & -> & Hf & _)]];
    rewrite Hf in He; [done|by injection He as -> _|].
  injection He as -> _. by eexists.
Qed.

Lemma compact_literal_copy e a s :
  html_byte a = false →
  (∀ b c t, s = String b (String c t) → line_separator a b c = false) →
  compact true e (String a s) =
    String a (compact (negb (negb e && is_byte 34 a)) (negb e && is_byte 92 a) s).
Proof.
  intros Hh Hs. cbn [compact]. unfold compact_byte. rewrite Hh, append_cons, append_nil.
  destruct s as [|b [|c t]]; [done|done|]. by rewrite (Hs b c t).
Qed.

Lemma compact_escape e n t :
  (n = 60 ∨ n = 62 ∨ n = 38)%nat →
  compact true e (u00 n +:+ t) = u00 n +:+ compact true false t.
Proof. intros [->|[->| ->]]; destruct e; by destruct t as [|? [|? ?]]. Qed.

Lemma compact_u202 e x t :
  x = "8"%char ∨ x = "9"%char →
  compact true e (bs +:+ "u202" +:+ String x EmptyString +:+ t) =
    bs +:+ "u202" +:+ String x EmptyString +:+ compact true false t.
Proof. intros [->| ->]; destruct e; by destruct t as [|? [|? ?]]. Qed.

(** Compaction leaves a compacted text as it is. *)
Lemma compact_idem n s i e :
  (String.length s ≤ n)%nat → compact i e (compact i e s) = compact i e s.
Proof.
  revert s i e. induction n as [|n IH]; intros s i e Hn.
  { destruct s; [by destruct i|cbn in Hn; lia]. }
  destruct s as [|a s]; [by destruct i|]. cbn in Hn. destruct i.
  - destruct (compact_literal e a s) as [Heq|(b & d & s3 & -> & Hl & ->)].
    + rewrite Heq. unfold compact_byte. destruct (html_byte a) eqn:Hh.
      * assert (Ha : (code a = 60 ∨ code a = 62 ∨ code a = 38)%nat).
        { unfold html_byte in Hh. rewrite !orb_true_iff, !Nat.eqb_eq in Hh. tauto. }
        assert (is_byte 34 a = false ∧ is_byte 92 a = false) as [-> ->].
        { unfold is_byte. by destruct Ha as [->|[->| ->]]. }
        rewrite !andb_false_r. cbn [negb]. rewrite compact_escape by done. by rewrite IH by lia.
      * rewrite append_cons, append_nil. set (r := compact _ _ s).
        rewrite (compact_literal_copy e a r Hh); [unfold r; by rewrite IH by lia|].
        intros b c t Hr. destruct (line_separator a b c) eqn:Hl; [|done]. exfalso.
        assert (code a = 226%nat) as Ha.
        { unfold line_separator in Hl. apply andb_prop in Hl as [[Ha _]%andb_prop _].
          by apply Nat.eqb_eq. }
        assert (is_byte 34 a = false ∧ is_byte 92 a = false) as [H34 H92]
          by (unfold is_byte; by rewrite Ha).
        unfold r in Hr. rewrite H34, H92, !andb_false_r in Hr. cbn [negb] in Hr.
        destruct (compact_no_separator a s b c t Ha Hr Hl) as [s' ->].
        cbn [compact] in Heq. rewrite Hl in Heq. unfold compact_byte in Heq.
        rewrite Hh, !append_cons in Heq. by injection Heq as <- _.
    + pose proof (line_separator_eq _ _ _ Hl) as (_ & _ & Hd). cbn in Hn.
      assert (hex_digit (code d - 160) = "8"%char ∨ hex_digit (code d - 160) = "9"%char) as Hx
        by (destruct Hd as [->| ->]; [by left|by right]).
      set (x := hex_digit _) in *.
      change (String x (compact true false s3))
        with (String x EmptyString +:+ compact true false s3).
      rewrite compact_u202 by done. by rewrite IH by lia.
  - cbn [compact]. destruct (is_ws a) eqn:Hw.
    { rewrite (compact_out e). by apply IH; lia. }
    cbn [compact]. rewrite Hw. by rewrite IH by lia.
Qed.
