(* ===== verification/World.v ===== *)
(** * The world the processes act on, and programs over it

    The outside services are parameters ([Env]): PostgreSQL's ORDER BY and jsonb output,
    Redis, the text form of a UUID. Their documented behaviour is in classes of laws, which only
    the theorems that need them assume. The processes' code is a [Prog]: a tree of atomic actions
    on the shared [World], so that one definition of a handler has both a sequential run
    ([run]) and an interleaved semantics ([pool_step]). *)

From S2P Require Import Prelude GoStd Models Json.

(** ** The services *)

Class Env : Type := {
  (** A sort for an ORDER BY clause, given "may come before"; the order among ties is the
      server's choice. With a constantly true comparison: the order in which a statement
      without ORDER BY returns its rows. *)
  order_by : ∀ {A : Type}, (A → A → bool) → list A → list A;
  (** What a jsonb column gives back for a text stored in it; [None] when the server refuses
      the text (it is no JSON, or holds an escaped NUL). *)
  jsonb : string → option string;
  (** Does the server accept the text as a TEXT value? (Not with a NUL in it, say.) *)
  pg_text : string → bool;
  (** google/uuid: UUID.String and uuid.Parse. *)
  uuid_String : uuid → string;
  uuid_Parse : string → option uuid;
  (** The zone of the processes: minutes east of UTC at an instant. *)
  local_offset : Time → Z;
  (** A Redis server: its keyspace, and the commands with the server's clock. *)
  redis : Type;
  redis_get : Time → string → redis → option string;
  redis_set : Time → string → string → Z → redis → redis;
  redis_setnx : Time → string → string → Z → redis → bool * redis;
  redis_del : Time → string → redis → redis;
  redis_incr : Time → string → redis → Res Z * redis;
  redis_expire : Time → string → Z → redis → redis;
}.

(** ORDER BY returns the same rows, sorted for any total preorder. *)
Class OrderByLaws `{Env} : Prop := {
  order_by_Permutation {A} (leb : A → A → bool) l : order_by leb l ≡ₚ l;
  order_by_Sorted {A} (leb : A → A → bool) l :
    (∀ x y, leb x y = true ∨ leb y x = true) →
    (∀ x y z, leb x y = true → leb y z = true → leb x z = true) →
    StronglySorted (λ x y, leb x y = true) (order_by leb l);
}.

(** A stored document is a JSON text. *)
Definition json_text (p : RawMessage) : Prop :=
  ∃ s, p = Some s ∧ is_Some (whole_value s).

Class JsonbLaws `{Env} : Prop := {
  jsonb_json p d : jsonb p = Some d → json_text (Some d);
}.

(** The database's encoding is UTF8: a text it accepts is valid. *)
Class TextLaws `{Env} : Prop := {
  pg_text_utf8 s : pg_text s = true → utf8_valid s = true;
}.

Class UuidLaws `{Env} : Prop := {
  uuid_Parse_String u : uuid_Parse (uuid_String u) = Some u;
  uuid_String_utf8 u : utf8_valid (uuid_String u) = true;
}.

(** The commands of Redis, observed through GET at any later instant. *)
Class RedisLaws `{Env} : Prop := {
  redis_get_set t t' k v ttl r :
    0 < ttl → t ≤ t' →
    redis_get t' k (redis_set t k v ttl r) = if t' <? t + ttl then Some v else None;
  redis_get_set_ne t t' k k' v ttl r :
    t ≤ t' → k ≠ k' → redis_get t' k' (redis_set t k v ttl r) = redis_get t' k' r;
  redis_setnx_taken t k v ttl r v0 :
    redis_get t k r = Some v0 →
    (redis_setnx t k v ttl r).1 = false ∧
    ∀ t' k', t ≤ t' → redis_get t' k' (redis_setnx t k v ttl r).2 = redis_get t' k' r;
  redis_setnx_free t k v ttl r :
    redis_get t k r = None →
    (redis_setnx t k v ttl r).1 = true ∧
    ∀ t' k', t ≤ t' →
      redis_get t' k' (redis_setnx t k v ttl r).2 = redis_get t' k' (redis_set t k v ttl r);
  redis_get_del t t' k r : t ≤ t' → redis_get t' k (redis_del t k r) = None;
  redis_get_del_ne t t' k k' r :
    t ≤ t' → k ≠ k' → redis_get t' k' (redis_del t k r) = redis_get t' k' r;
  redis_incr_new t k r :
    redis_get t k r = None →
    (redis_incr t k r).1 = Ok 1 ∧
    ∀ t', t ≤ t' → redis_get t' k (redis_incr t k r).2 = Some "1";
  redis_incr_old t k r s n :
    redis_get t k r = Some s → Atoi s = Some n → int64_ok (n + 1) = true →
    (redis_incr t k r).1 = Ok (n + 1) ∧
    ∀ t', t ≤ t' → redis_get t' k (redis_incr t k r).2 =
                   (λ _, pretty (n + 1)) <$> redis_get t' k r;
  redis_incr_ne t t' k k' r :
    t ≤ t' → k ≠ k' → redis_get t' k' (redis_incr t k r).2 = redis_get t' k' r;
  redis_get_expire t t' k ttl r :
    t ≤ t' → redis_get t' k (redis_expire t k ttl r) =
             if t' <? t + ttl then redis_get t k r else None;
  redis_get_expire_ne t t' k k' ttl r :
    t ≤ t' → k ≠ k' → redis_get t' k' (redis_expire t k ttl r) = redis_get t' k' r;
}.

(** ** The world *)

(** A message as a topic keeps it. *)
Record KafkaMessage : Type := mkKafkaMessage {
  km_topic : string;
  km_key : string;
  km_value : string;
}.
#[export] Instance KafkaMessage_eq_dec : EqDecision KafkaMessage.
Proof. solve_decision. Defined.

(** The Prometheus counters of internal/metrics. *)
Record Metrics : Type := mkMetrics {
  JobsSubmittedTotal : Z;
  JobsCompletedTotal : Z;
  JobsFailedTotal : Z;
  JobsRetriedTotal : Z;
  JobsDeadTotal : Z;
  JobsReplayedTotal : Z;
  DeadLettersPersistedTotal : Z;
}.
#[export] Instance Metrics_eq_dec : EqDecision Metrics.
Proof. solve_decision. Defined.
Definition no_metrics : Metrics := mkMetrics 0 0 0 0 0 0 0.

Inductive counter : Type :=
| CSubmitted | CCompleted | CFailed | CRetried | CDead | CReplayed | CDeadLetters.

(** [Inc()] on one of the counters. *)
Definition metrics_Inc (c : counter) (m : Metrics) : Metrics :=
  let '(mkMetrics a b d e f g h) := m in
  match c with
  | CSubmitted => mkMetrics (a + 1) b d e f g h
  | CCompleted => mkMetrics a (b + 1) d e f g h
  | CFailed => mkMetrics a b (d + 1) e f g h
  | CRetried => mkMetrics a b d (e + 1) f g h
  | CDead => mkMetrics a b d e (f + 1) g h
  | CReplayed => mkMetrics a b d e f (g + 1) h
  | CDeadLetters => mkMetrics a b d e f g (h + 1)
  end.

(** The three tables, the Redis keyspace, every message written to Kafka, oldest first, and
    the counters. *)
Record World `{Env} : Type := mkWorld {
  w_jobs : gmap uuid Job;
  w_workers : gmap uuid Worker;
  w_dead : gmap uuid DeadLetter;
  w_redis : redis;
  w_log : list KafkaMessage;
  w_metrics : Metrics;
}.

Section programs.
Context `{E : Env}.

Definition set_jobs (t : gmap uuid Job) (w : World) : World :=
  mkWorld _ t (w_workers w) (w_dead w) (w_redis w) (w_log w) (w_metrics w).
Definition set_workers (t : gmap uuid Worker) (w : World) : World :=
  mkWorld _ (w_jobs w) t (w_dead w) (w_redis w) (w_log w) (w_metrics w).
Definition set_dead (t : gmap uuid DeadLetter) (w : World) : World :=
  mkWorld _ (w_jobs w) (w_workers w) t (w_redis w) (w_log w) (w_metrics w).
Definition set_redis (r : redis) (w : World) : World :=
  mkWorld _ (w_jobs w) (w_workers w) (w_dead w) r (w_log w) (w_metrics w).
Definition set_log (l : list KafkaMessage) (w : World) : World :=
  mkWorld _ (w_jobs w) (w_workers w) (w_dead w) (w_redis w) l (w_metrics w).
Definition set_metrics (m : Metrics) (w : World) : World :=
  mkWorld _ (w_jobs w) (w_workers w) (w_dead w) (w_redis w) (w_log w) m.

(** How a call to a service ends: done; failed with nothing applied; applied, but the
    caller sees an error (the answer is lost, or the context ends). *)
Inductive Outcome : Type :=
| Done
| Lost (e : error)
| Applied (e : error).

(** What the environment contributes to one action: the clock, the random UUID drawn for
    it, the jobs other transactions hold locked, how the call ends. *)
Record Input : Type := mkInput {
  in_now : Time;
  in_uuid : uuid;
  in_locked : gset uuid;
  in_outcome : Outcome;
}.

(** One atomic action of a service. *)
Definition action (B : Type) : Type := Input → World → Res B * World.

Definition perform {B} (inp : Input) (f : action B) (w : World) : Res B * World :=
  match in_outcome inp with
  | Done => f inp w
  | Lost e => (Err e, w)
  | Applied e => (Err e, (f inp w).2)
  end.

(** ** Programs *)

(** [Call] asks a service and may fail; [Local] cannot fail (uuid.New, time.Now, a metric). *)
Inductive Prog (A : Type) : Type :=
| Ret (a : A)
| Call {B : Type} (f : action B) (k : Res B → Prog A)
| Local {B : Type} (f : Input → World → B * World) (k : B → Prog A).
#[global] Arguments Ret {A} a.
#[global] Arguments Call {A B} f k.
#[global] Arguments Local {A B} f k.

Fixpoint bind {A B} (p : Prog A) (q : A → Prog B) : Prog B :=
  match p with
  | Ret a => q a
  | Call f k => Call f (λ r, bind (k r) q)
  | Local f k => Local f (λ b, bind (k b) q)
  end.

Definition call {B} (f : action B) : Prog (Res B) := Call f Ret.
Definition local {B} (f : Input → World → B * World) : Prog B := Local f Ret.

(** [if err != nil { return ..., err }] *)
Definition bind_ok {A B} (p : Prog (Res A)) (q : A → Prog (Res B)) : Prog (Res B) :=
  bind p (λ r, match r with Ok a => q a | Err e => Ret (Err e) end).

(** A loop over a slice whose body may not end the loop. *)
Fixpoint for_each {A} (l : list A) (body : A → Prog unit) : Prog unit :=
  match l with
  | [] => Ret tt
  | x :: l' => bind (body x) (λ _, for_each l' body)
  end.

(** The same with a value carried from one iteration to the next. *)
Fixpoint for_fold {A S} (l : list A) (s : S) (body : S → A → Prog S) : Prog S :=
  match l with
  | [] => Ret s
  | x :: l' => bind (body s x) (λ s', for_fold l' s' body)
  end.

Definition uuid_New : Prog uuid := local (λ inp w, (in_uuid inp, w)).
Definition time_Now : Prog Time := local (λ inp w, (in_now inp, w)).
Definition Inc (c : counter) : Prog unit :=
  local (λ _ w, (tt, set_metrics (metrics_Inc c (w_metrics w)) w)).

(** ** Sequential runs *)

Definition default_input : Input := mkInput 0 0%N ∅ Done.

(** Runs a program to its end; each action takes the next input, or the default one. *)
Fixpoint run {A} (p : Prog A) (ins : list Input) (w : World) : A * World :=
  match p with
  | Ret a => (a, w)
  | Call f k =>
      let '(r, w') := perform (hd default_input ins) f w in run (k r) (tl ins) w'
  | Local f k =>
      let '(b, w') := f (hd default_input ins) w in run (k b) (tl ins) w'
  end.

(** The inputs that [p] leaves over. *)
Fixpoint run_rest {A} (p : Prog A) (ins : list (Input)) (w : World) : list Input :=
  match p with
  | Ret _ => ins
  | Call f k =>
      let '(r, w') := perform (hd default_input ins) f w in run_rest (k r) (tl ins) w'
  | Local f k =>
      let '(b, w') := f (hd default_input ins) w in run_rest (k b) (tl ins) w'
  end.

(** Every service answers. *)
Definition all_done (ins : list Input) : Prop := Forall (λ i, in_outcome i = Done) ins.

(** ** Interleaved runs *)

Inductive prog_step {A} : Input → Prog A * World → Prog A * World → Prop :=
| step_call {B} inp (f : action B) k w :
    prog_step inp (Call f k, w) (k (perform inp f w).1, (perform inp f w).2)
| step_local {B} inp (f : Input → World → B * World) k w :
    prog_step inp (Local f k, w) (k (f inp w).1, (f inp w).2).

(** Any number of processes: a new one may start, any one may take its next action.
    [starts w p] says that a process may begin to execute [p] in the world [w]. *)
Inductive pool_step (starts : World → Prog unit → Prop) :
    list (Prog unit) * World → list (Prog unit) * World → Prop :=
| pool_start p ps w :
    starts w p → pool_step starts (ps, w) (p :: ps, w)
| pool_run inp p p' ps1 ps2 w w' :
    prog_step inp (p, w) (p', w') →
    pool_step starts (ps1 ++ p :: ps2, w) (ps1 ++ p' :: ps2, w').

Definition pool_steps starts := rtc (pool_step starts).

(** ** What a program does to the world *)

(** Every action of [p], from any world that satisfies [I] and however it ends, keeps [I]
    and changes the world by [R]; every value [p] can return satisfies [Q]. *)
Fixpoint prog_spec {A} (I : World → Prop) (R : World → World → Prop) (p : Prog A)
    (Q : A → Prop) : Prop :=
  match p with
  | Ret a => Q a
  | Call f k => ∀ inp w, I w →
      let '(r, w') := perform inp f w in I w' ∧ R w w' ∧ prog_spec I R (k r) Q
  | Local f k => ∀ inp w, I w →
      let '(b, w') := f inp w in I w' ∧ R w w' ∧ prog_spec I R (k b) Q
  end.

Definition prog_safe {A} (I : World → Prop) (R : World → World → Prop) (p : Prog A) : Prop :=
  prog_spec I R p (λ _, True).
End programs.

#[global] Arguments Outcome : clear implicits.
#[global] Arguments Input : clear implicits.

Notation "'let!' x := p 'in' q" := (bind p (λ x, q))
  (at level 10, x pattern, p at level 100, q at level 200) : go_scope.
Notation "'let?' x := p 'in' q" := (bind_ok p (λ x, q))
  (at level 10, x pattern, p at level 100, q at level 200) : go_scope.
Notation "p ;;! q" := (bind p (λ _, q))
  (at level 100, q at level 200, right associativity) : go_scope.

(** ** Lemmas on runs *)

Section run_lemmas.
Context `{E : Env}.

Lemma run_Ret {A} (a : A) ins w : run (Ret a) ins w = (a, w).
Proof. done. Qed.

Lemma run_call {B} (f : action B) ins w :
  run (call f) ins w = perform (hd default_input ins) f w.
Proof. unfold call. cbn. by destruct (perform _ f w). Qed.

Lemma perform_done {B} inp (f : action B) w :
  in_outcome inp = Done → perform inp f w = f inp w.
Proof. unfold perform. by intros ->. Qed.

Lemma perform_lost {B} inp (f : action B) w e :
  in_outcome inp = Lost e → perform inp f w = (Err e, w).
Proof. unfold perform. by intros ->. Qed.

Lemma run_bind {A B} (p : Prog A) (q : A → Prog B) ins w :
  run (bind p q) ins w = run (q (run p ins w).1) (run_rest p ins w) (run p ins w).2.
Proof.
  revert ins w. induction p as [a|C f k IH|C f k IH]; intros ins w; cbn; [done|..].
  - destruct (perform _ f w) as [r w']. apply IH.
  - destruct (f _ w) as [r w']. apply IH.
Qed.

Lemma run_rest_bind {A B} (p : Prog A) (q : A → Prog B) ins w :
  run_rest (bind p q) ins w = run_rest (q (run p ins w).1) (run_rest p ins w) (run p ins w).2.
Proof.
  revert ins w. induction p as [a|C f k IH|C f k IH]; intros ins w; cbn; [done|..].
  - destruct (perform _ f w) as [r w']. apply IH.
  - destruct (f _ w) as [r w']. apply IH.
Qed.

Lemma all_done_hd ins : all_done ins → in_outcome (hd default_input ins) = Done.
Proof. destruct ins; [done|]. by intros [? ?]%Forall_cons. Qed.

Lemma all_done_tl ins : all_done ins → all_done (tl ins).
Proof. destruct ins; [done|]. by intros [? ?]%Forall_cons. Qed.

Lemma all_done_rest {A} (p : Prog A) ins w : all_done ins → all_done (run_rest p ins w).
Proof.
  revert ins w. induction p as [a|C f k IH|C f k IH]; intros ins w Hd; cbn; [done|..].
  - destruct (perform _ f w) as [r w']. by apply IH, all_done_tl.
  - destruct (f _ w) as [r w']. by apply IH, all_done_tl.
Qed.

Lemma perform_all_done {B} ins (f : action B) w :
  all_done ins → perform (hd default_input ins) f w = f (hd default_input ins) w.
Proof. intros. by apply perform_done, all_done_hd. Qed.

(** However a call ends, the world is as before it or as the action leaves it. *)
Lemma perform_world {B} inp (f : action B) w :
  (perform inp f w).2 = w ∨ (perform inp f w).2 = (f inp w).2.
Proof. unfold perform. destruct (in_outcome inp); cbn; auto. Qed.

Lemma perform_ok {B} inp (f : action B) w b :
  (perform inp f w).1 = Ok b → perform inp f w = f inp w.
Proof. unfold perform. by destruct (in_outcome inp). Qed.

Lemma run_bind_call {B C} (f : action B) (q : Res B → Prog C) ins w :
  run (bind (call f) q) ins w =
  (let '(r, w') := perform (hd default_input ins) f w in run (q r) (tl ins) w').
Proof. done. Qed.

Lemma run_bind_local {B C} (f : Input → World → B * World) (q : B → Prog C) ins w :
  run (bind (local f) q) ins w =
  (let '(b, w') := f (hd default_input ins) w in run (q b) (tl ins) w').
Proof. done. Qed.
End run_lemmas.

(** The one step of a program, by its head. *)
Lemma prog_step_inv `{Env} {A} inp (p p' : Prog A) w w' :
  prog_step inp (p, w) (p', w') →
  match p with
  | Ret _ => False
  | Call f k => p' = k (perform inp f w).1 ∧ w' = (perform inp f w).2
  | Local f k => p' = k (f inp w).1 ∧ w' = (f inp w).2
  end.
Proof.
  intros Hs. remember (p, w) as c eqn:Hc. remember (p', w') as c' eqn:Hc'.
  by destruct Hs; simplify_eq.
Qed.

(** Some steps of one program, whatever their inputs. *)
Definition prog_steps `{Env} {A} : Prog A * World → Prog A * World → Prop :=
  rtc (λ c c', ∃ inp, prog_step inp c c').

(** The sequential run of a program is such steps. *)
Lemma run_prog_steps `{Env} {A} (p : Prog A) ins w :
  prog_steps (p, w) (Ret (run p ins w).1, (run p ins w).2).
Proof.
  revert ins w. induction p as [a|C f k IH|C f k IH]; intros ins w; cbn; [by constructor|..];
    eapply rtc_l; [exists (hd default_input ins); constructor| |
                   exists (hd default_input ins); constructor|].
  - destruct (perform _ f w) as [r w']. apply IH.
  - destruct (f _ w) as [r w']. apply IH.
Qed.

(** A process that runs alone: its sequential run is an interleaved one. *)
Lemma run_pool `{Env} starts (p : Prog unit) ins ps w :
  pool_steps starts (p :: ps, w) (Ret (run p ins w).1 :: ps, (run p ins w).2).
Proof.
  revert ins w. induction p as [a|C f k IH|C f k IH]; intros ins w; cbn.
  - reflexivity.
  - eapply rtc_l; [exact (pool_run starts _ _ _ [] ps w _ (step_call (hd default_input ins) f k w))|].
    destruct (perform _ f w) as [r w']. apply IH.
  - eapply rtc_l; [exact (pool_run starts _ _ _ [] ps w _ (step_local (hd default_input ins) f k w))|].
    destruct (f _ w) as [r w']. apply IH.
Qed.

Lemma run_pool_start `{Env} (starts : World → Prog unit → Prop) p ins w ps0 w0 :
  pool_steps starts ([], w0) (ps0, w) → starts w p →
  ∃ ps, pool_steps starts ([], w0) (ps, (run p ins w).2).
Proof.
  intros Hs Hp. eexists. etransitivity; [exact Hs|].
  eapply rtc_l; [by apply pool_start|]. apply run_pool.
Qed.

(** ** Lemmas on specifications *)

Section spec_lemmas.
Context `{E : Env} (I : World → Prop) (R : World → World → Prop) `{!Reflexive R}.

Lemma prog_spec_mono {A} (p : Prog A) (Q Q' : A → Prop) :
  prog_spec I R p Q → (∀ a, Q a → Q' a) → prog_spec I R p Q'.
Proof.
  intros Hp HQ. induction p as [a|C f k IH|C f k IH]; cbn in *; [by apply HQ|..];
    intros inp w Hw; specialize (Hp inp w Hw).
  - destruct (perform inp f w) as [r w'], Hp as (? & ? & ?). auto.
  - destruct (f inp w) as [r w'], Hp as (? & ? & ?). auto.
Qed.

Lemma prog_spec_bind {A B} (p : Prog A) (q : A → Prog B) (Q : A → Prop) (Q' : B → Prop) :
  prog_spec I R p Q → (∀ a, Q a → prog_spec I R (q a) Q') → prog_spec I R (bind p q) Q'.
Proof.
  intros Hp HQ. induction p as [a|C f k IH|C f k IH]; cbn in *; [by apply HQ|..];
    intros inp w Hw; specialize (Hp inp w Hw).
  - destruct (perform inp f w) as [r w'], Hp as (? & ? & ?). auto.
  - destruct (f inp w) as [r w'], Hp as (? & ? & ?). auto.
Qed.

Lemma prog_safe_bind {A B} (p : Prog A) (q : A → Prog B) :
  prog_safe I R p → (∀ a, prog_safe I R (q a)) → prog_safe I R (bind p q).
Proof. intros Hp Hq. apply (prog_spec_bind p q (λ _, True)); [done|]. intros a _. apply Hq. Qed.

Lemma prog_safe_bind_ok {A B} (p : Prog (Res A)) (q : A → Prog (Res B)) :
  prog_safe I R p → (∀ a, prog_safe I R (q a)) → prog_safe I R (bind_ok p q).
Proof. intros Hp Hq. apply prog_safe_bind; [done|]. by intros [a|e]; [apply Hq|]. Qed.

(** A service call is safe when its effect is, whether or not the caller hears of it. *)
Lemma prog_spec_call {B} (f : action B) (Q : Res B → Prop) :
  (∀ inp w, I w → I (f inp w).2 ∧ R w (f inp w).2 ∧ Q (f inp w).1) →
  (∀ e, Q (Err e)) →
  prog_spec I R (call f) Q.
Proof.
  intros Hf He inp w Hw. unfold perform. specialize (Hf inp w Hw).
  destruct (in_outcome inp) as [|e|e]; [|split_and!; [done|done|apply He]|];
    destruct (f inp w) as [r w'], Hf as (? & ? & ?); cbn in *; auto.
Qed.

Lemma prog_safe_call {B} (f : action B) :
  (∀ inp w, I w → I (f inp w).2 ∧ R w (f inp w).2) → prog_safe I R (call f).
Proof.
  intros Hf. apply prog_spec_call; [|done]. intros inp w Hw.
  destruct (Hf inp w Hw). split_and!; [..|exact Logic.I]; done.
Qed.

(** The shape of a repository method: one statement, then a pure result. *)
Lemma prog_safe_method {B C} (f : action B) (g : Res B → C) :
  (∀ inp w, I w → I (f inp w).2 ∧ R w (f inp w).2) →
  prog_safe I R (bind (call f) (λ r, Ret (g r))).
Proof. intros Hf. apply prog_safe_bind; [by apply prog_safe_call|done]. Qed.

Lemma prog_safe_local {B} (f : Input → World → B * World) :
  (∀ inp w, I w → I (f inp w).2 ∧ R w (f inp w).2) → prog_safe I R (local f).
Proof.
  intros Hf inp w Hw. specialize (Hf inp w Hw). destruct (f inp w), Hf. by split_and!.
Qed.

Lemma prog_safe_for_each {A} (l : list A) (body : A → Prog unit) :
  (∀ x, x ∈ l → prog_safe I R (body x)) → prog_safe I R (for_each l body).
Proof.
  induction l as [|x l IH]; intros Hb; cbn; [done|].
  apply prog_safe_bind; [apply Hb; left|]. intros _. apply IH. intros y Hy. apply Hb. by right.
Qed.

Lemma prog_safe_for_fold {A S} (l : list A) (s : S) (body : S → A → Prog S) :
  (∀ s x, x ∈ l → prog_safe I R (body s x)) → prog_safe I R (for_fold l s body).
Proof.
  revert s. induction l as [|x l IH]; intros s Hb; cbn; [done|].
  apply prog_safe_bind; [apply Hb; left|].
  intros s'. apply IH. intros s'' y Hy. apply Hb. by right.
Qed.

(** A sequential run of a program follows its specification. *)
Lemma run_spec `{!Transitive R} {A} (p : Prog A) Q ins w :
  prog_spec I R p Q → I w →
  I (run p ins w).2 ∧ R w (run p ins w).2 ∧ Q (run p ins w).1.
Proof.
  revert ins w. induction p as [a|C f k IH|C f k IH]; intros ins w Hp Hw; cbn in *;
    [done|..]; specialize (Hp (hd default_input ins) w Hw).
  - destruct (perform _ f w) as [r w']. destruct Hp as (HI & HR & Hk).
    destruct (IH r (tl ins) w' Hk HI) as (? & ? & ?). split_and!; [done| |done].
    by transitivity w'.
  - destruct (f _ w) as [r w']. destruct Hp as (HI & HR & Hk).
    destruct (IH r (tl ins) w' Hk HI) as (? & ? & ?). split_and!; [done| |done].
    by transitivity w'.
Qed.

(** The invariant and the result of a run; no property of [R] is needed. *)
Lemma run_inv {A} (p : Prog A) Q ins w :
  prog_spec I R p Q → I w → I (run p ins w).2 ∧ Q (run p ins w).1.
Proof.
  revert ins w. induction p as [a|C f k IH|C f k IH]; intros ins w Hp Hw; cbn in *;
    [done|..]; specialize (Hp (hd default_input ins) w Hw).
  - destruct (perform _ f w) as [r w']. destruct Hp as (HI & _ & Hk). by apply IH.
  - destruct (f _ w) as [r w']. destruct Hp as (HI & _ & Hk). by apply IH.
Qed.

(** Safe programs, run in any number and any interleaving, keep the invariant. *)
Definition pool_ok (ps : list (Prog unit)) : Prop := Forall (prog_safe I R) ps.

Lemma pool_step_safe starts s s' :
  (∀ w p, I w → starts w p → prog_safe I R p) →
  pool_step starts s s' → pool_ok s.1 → I s.2 →
  pool_ok s'.1 ∧ I s'.2 ∧ R s.2 s'.2.
Proof.
  intros Hst Hstep. destruct Hstep as [p ps w Hp|inp p p' ps1 ps2 w w' Hp]; cbn.
  - intros Hok Hw. split_and!; [|done|done]. constructor; [by eapply Hst|done].
  - intros (Hok1 & [Hpok Hok2]%Forall_cons)%Forall_app Hw.
    assert (prog_safe I R p' ∧ I w' ∧ R w w') as (? & ? & ?).
    { inversion Hp; simplify_eq; specialize (Hpok inp w Hw).
      - by destruct (perform inp f w), Hpok as (? & ? & ?).
      - by destruct (f inp w), Hpok as (? & ? & ?). }
    split_and!; [|done|done]. apply Forall_app. by split; [|constructor].
Qed.

Lemma pool_steps_safe starts s s' :
  (∀ w p, I w → starts w p → prog_safe I R p) →
  pool_steps starts s s' → pool_ok s.1 → I s.2 → pool_ok s'.1 ∧ I s'.2.
Proof.
  intros Hst Hsteps. induction Hsteps as [s|s1 s2 s3 H12 _ IH]; [done|].
  intros Hok HI. eapply pool_step_safe in H12 as (? & ? & _); eauto.
Qed.
End spec_lemmas.

#[export] Hint Resolve prog_safe_bind prog_safe_bind_ok prog_safe_for_each
  prog_safe_for_fold all_done_hd all_done_tl all_done_rest : sched.
#[export] Hint Rewrite @run_Ret @run_bind_call @run_bind_local @run_call : sched_rw.

(** A repository method is safe when its statement is. *)
Ltac method_safe := apply prog_safe_method; [apply _|intros inp w HI].
