(* ===== verification/Growing.v ===== *)
(** * Specifications that remember: programs over a growing world

    [prog_spec] of World.v says what each action of a program does from any world. Some
    guarantees need more: a program that has read a row may rely, in its later actions, on
    what the others can only add to the world. [prog_from] is such a specification: it holds
    at a world [w] and quantifies over the worlds that come later. *)

From S2P Require Import Prelude GoStd Models World.

Section growing.
Context `{E : Env} (I : World → Prop) (L : World → World → Prop) `{!PreOrder L}.

(** Started at [w], with other processes acting between any two actions: each action keeps
    [I] and moves the world along [L]; a value [a] that is returned at [w'] satisfies
    [Q w' a]. *)
Fixpoint prog_from {A} (p : Prog A) (Q : World → A → Prop) (w : World) : Prop :=
  match p with
  | Ret a => Q w a
  | Call f k => ∀ inp w1, L w w1 → I w1 →
      let '(r, w2) := perform inp f w1 in I w2 ∧ L w1 w2 ∧ prog_from (k r) Q w2
  | Local f k => ∀ inp w1, L w w1 → I w1 →
      let '(b, w2) := f inp w1 in I w2 ∧ L w1 w2 ∧ prog_from (k b) Q w2
  end.

(** Facts that stay true. *)
Definition stable (P : World → Prop) : Prop := ∀ w w', L w w' → P w → P w'.

Lemma prog_from_later {A} (p : Prog A) (Q : World → A → Prop) w w' :
  (∀ a, stable (λ w, Q w a)) → L w w' → prog_from p Q w → prog_from p Q w'.
Proof.
  intros HQ Hl Hp. destruct p as [a|C f k|C f k]; cbn in *; [by eapply HQ|..];
    intros inp w1 H1 HI; apply Hp; [by transitivity w'|done|by transitivity w'|done].
Qed.

Lemma prog_from_mono {A} (p : Prog A) (Q Q' : World → A → Prop) w :
  prog_from p Q w → (∀ w' a, L w w' → Q w' a → Q' w' a) → prog_from p Q' w.
Proof.
  revert w. induction p as [a|C f k IH|C f k IH]; intros w Hp HQ; cbn in *; [by apply HQ|..];
    intros inp w1 Hl HI; specialize (Hp inp w1 Hl HI).
  - destruct (perform inp f w1) as [r w2], Hp as (? & ? & ?). split_and!; [done|done|].
    apply IH; [done|]. intros w' a Hw'. apply HQ. by do 2 (etransitivity; [done|]).
  - destruct (f inp w1) as [r w2], Hp as (? & ? & ?). split_and!; [done|done|].
    apply IH; [done|]. intros w' a Hw'. apply HQ. by do 2 (etransitivity; [done|]).
Qed.

Lemma prog_from_bind {A B} (p : Prog A) (q : A → Prog B) Q Q' w :
  prog_from p Q w → (∀ w' a, L w w' → Q w' a → prog_from (q a) Q' w') →
  prog_from (bind p q) Q' w.
Proof.
  revert w. induction p as [a|C f k IH|C f k IH]; intros w Hp HQ; cbn in *; [by apply HQ|..];
    intros inp w1 Hl HI; specialize (Hp inp w1 Hl HI).
  - destruct (perform inp f w1) as [r w2], Hp as (? & ? & ?). split_and!; [done|done|].
    apply IH; [done|]. intros w' a Hw'. apply HQ. by do 2 (etransitivity; [done|]).
  - destruct (f inp w1) as [r w2], Hp as (? & ? & ?). split_and!; [done|done|].
    apply IH; [done|]. intros w' a Hw'. apply HQ. by do 2 (etransitivity; [done|]).
Qed.

(** [let?]: an error ends the program. *)
Lemma prog_from_bind_ok {A B} (p : Prog (Res A)) (q : A → Prog (Res B)) Q Q' w :
  prog_from p Q w →
  (∀ w' a, L w w' → Q w' (Ok a) → prog_from (q a) Q' w') →
  (∀ w' e, L w w' → Q w' (Err e) → Q' w' (Err e)) →
  prog_from (bind_ok p q) Q' w.
Proof.
  intros Hp Hok Herr. apply (prog_from_bind p _ Q); [done|].
  intros w' [a|e] Hl HQ; [by apply Hok|by apply Herr].
Qed.

Lemma prog_from_call {B} (f : action B) (Q : World → Res B → Prop) w :
  (∀ inp w1, L w w1 → I w1 →
     I (f inp w1).2 ∧ L w1 (f inp w1).2 ∧ Q (f inp w1).2 (f inp w1).1) →
  (∀ w' e, L w w' → Q w' (Err e)) →
  prog_from (call f) Q w.
Proof.
  intros Hf He inp w1 Hl HI. unfold perform. specialize (Hf inp w1 Hl HI).
  destruct (in_outcome inp) as [|e|e].
  - by destruct (f inp w1) as [r w2].
  - split_and!; [done|done|]. by apply He.
  - destruct (f inp w1) as [r w2], Hf as (? & ? & ?). cbn in *. split_and!; [done|done|].
    apply He. by transitivity w1.
Qed.

(** A program whose actions are safe from any world is safe from this one. *)
Lemma prog_from_spec {A} I' (R' : World → World → Prop) (p : Prog A) (Q : A → Prop) w :
  (∀ w1, I w1 → I' w1) →
  (∀ w1 w2, I w1 → I' w2 → R' w1 w2 → I w2 ∧ L w1 w2) →
  prog_spec I' R' p Q → prog_from p (λ _, Q) w.
Proof.
  intros HI' HR'. revert w. induction p as [a|C f k IH|C f k IH]; intros w Hp; cbn in *; [done|..];
    intros inp w1 Hl HI; specialize (Hp inp w1 (HI' _ HI)).
  - destruct (perform inp f w1) as [r w2], Hp as (H1 & H2 & H3).
    destruct (HR' w1 w2 HI H1 H2). auto.
  - destruct (f inp w1) as [r w2], Hp as (H1 & H2 & H3). destruct (HR' w1 w2 HI H1 H2). auto.
Qed.

Lemma prog_from_for_each {A} (l : list A) (body : A → Prog unit) (P : A → World → Prop) w :
  (∀ x, stable (P x)) → Forall (λ x, P x w) l →
  (∀ w' x, L w w' → P x w' → prog_from (body x) (λ _ _, True) w') →
  prog_from (for_each l body) (λ _ _, True) w.
Proof.
  intros HP Hl Hb. revert w Hl Hb. induction l as [|x l IH]; intros w Hl Hb; [done|].
  apply Forall_cons in Hl as [Hx Hl]. cbn.
  apply (prog_from_bind _ _ (λ _ _, True)); [by apply Hb|]. intros w1 _ H1 _. apply IH.
  - eapply Forall_impl; [done|]. intros y Hy. by eapply HP.
  - intros w2 y H2. apply Hb. by transitivity w1.
Qed.

Lemma prog_from_for_fold {A S} (l : list A) (s : S) (body : S → A → Prog S)
    (P : A → World → Prop) w :
  (∀ x, stable (P x)) → Forall (λ x, P x w) l →
  (∀ w' s x, L w w' → P x w' → prog_from (body s x) (λ _ _, True) w') →
  prog_from (for_fold l s body) (λ _ _, True) w.
Proof.
  intros HP Hl Hb. revert w s Hl Hb. induction l as [|x l IH]; intros w s Hl Hb; [done|].
  apply Forall_cons in Hl as [Hx Hl]. cbn.
  apply (prog_from_bind _ _ (λ _ _, True)); [by apply Hb|]. intros w1 s1 H1 _. apply IH.
  - eapply Forall_impl; [done|]. intros y Hy. by eapply HP.
  - intros w2 s2 y H2. apply Hb. by transitivity w1.
Qed.

(** ** Soundness for interleaved runs *)

Definition pool_from (s : list (Prog unit) * World) : Prop :=
  Forall (λ p, prog_from p (λ _ _, True) s.2) s.1 ∧ I s.2.

Lemma prog_step_from {A} inp (p p' : Prog A) Q w w' :
  prog_step inp (p, w) (p', w') → prog_from p Q w → I w →
  prog_from p' Q w' ∧ I w' ∧ L w w'.
Proof.
  intros Hs Hp HI. inversion Hs; simplify_eq; specialize (Hp inp w (reflexivity w) HI).
  - by destruct (perform inp f w), Hp as (? & ? & ?).
  - by destruct (f inp w), Hp as (? & ? & ?).
Qed.

Lemma pool_step_from starts s s' :
  (∀ w p, I w → starts w p → prog_from p (λ _ _, True) w) →
  pool_step starts s s' → pool_from s → pool_from s' ∧ L s.2 s'.2.
Proof.
  intros Hst Hstep [Hok HI]. destruct Hstep as [p ps w Hp|inp p p' ps1 ps2 w w' Hp]; cbn in *.
  - split; [split; [|done]|done]. constructor; [by eapply Hst|done].
  - apply Forall_app in Hok as [Hok1 [Hpok Hok2]%Forall_cons].
    destruct (prog_step_from _ _ _ _ _ _ Hp Hpok HI) as (H1 & H2 & H3).
    assert (Hlater : ∀ qs : list (Prog unit), Forall (λ p, prog_from p (λ _ _, True) w) qs →
                                              Forall (λ p, prog_from p (λ _ _, True) w') qs).
    { intros qs Hqs. eapply Forall_impl; [done|]. intros p0 Hp0.
      by eapply prog_from_later; [|done|done]. }
    split; [split; [|done]|done]. apply Forall_app. split; [auto|]. constructor; auto.
Qed.

Lemma pool_steps_from starts s s' :
  (∀ w p, I w → starts w p → prog_from p (λ _ _, True) w) →
  pool_steps starts s s' → pool_from s → pool_from s' ∧ L s.2 s'.2.
Proof.
  intros Hst Hsteps. induction Hsteps as [s|s1 s2 s3 H12 _ IH]; [by split|].
  intros Hok. destruct (pool_step_from starts s1 s2 Hst H12 Hok) as [H2 HL2].
  destruct (IH H2) as [H3 HL3]. split; [done|]. by transitivity s2.2.
Qed.
End growing.

(** A specification of each action by two relations at once. *)
Lemma prog_spec_both `{Env} {A} I1 R1 I2 R2 (p : Prog A) (Q1 Q2 : A → Prop) :
  prog_spec I1 R1 p Q1 → prog_spec I2 R2 p Q2 →
  prog_spec (λ w, I1 w ∧ I2 w) (λ w w', R1 w w' ∧ R2 w w') p (λ a, Q1 a ∧ Q2 a).
Proof.
  induction p as [a|C f k IH|C f k IH]; cbn; [done|..]; intros Hp1 Hp2 inp w [HI1 HI2];
    specialize (Hp1 inp w HI1); specialize (Hp2 inp w HI2).
  - destruct (perform inp f w), Hp1 as (?&?&?), Hp2 as (?&?&?). split_and!; auto.
  - destruct (f inp w), Hp1 as (?&?&?), Hp2 as (?&?&?). split_and!; auto.
Qed.
