(* ===== verification/MemEnv.v ===== *)
(** * A concrete environment

    In-memory services that obey the laws assumed of the real ones: a merge sort, decimal
    texts for UUIDs, a keyspace with expiry times. The witnesses of the development run the
    program in it. *)

From S2P Require Import Prelude GoStd Decimal Models Json JsonFacts World.

(** A stored value with the instant from which it is gone. *)
Record Entry : Type := mkEntry { en_value : string; en_expires : option Time }.

Definition live (t : Time) (e : Entry) : bool :=
  match en_expires e with Some x => t <? x | None => true end.

Abbreviation Store := (gmap string Entry).

Definition store_get (t : Time) (k : string) (r : Store) : option string :=
  match r !! k with
  | Some e => if live t e then Some (en_value e) else None
  | None => None
  end.

Definition store_set (t : Time) (k v : string) (ttl : Z) (r : Store) : Store :=
  <[k := mkEntry v (Some (t + ttl))]> r.

Definition store_setnx (t : Time) (k v : string) (ttl : Z) (r : Store) : bool * Store :=
  match store_get t k r with
  | Some _ => (false, r)
  | None => (true, store_set t k v ttl r)
  end.

Definition store_incr (t : Time) (k : string) (r : Store) : Res Z * Store :=
  match r !! k with
  | Some e =>
      if live t e then
        match Atoi (en_value e) with
        | Some n =>
            if int64_ok (n + 1)
            then (Ok (n + 1), <[k := mkEntry (pretty (n + 1)) (en_expires e)]> r)
            else (Err (ErrText "ERR increment or decrement would overflow"), r)
        | None => (Err (ErrText "ERR value is not an integer or out of range"), r)
        end
      else (Ok 1, <[k := mkEntry "1" None]> r)
  | None => (Ok 1, <[k := mkEntry "1" None]> r)
  end.

(** EXPIRE replaces the expiry of a live key. *)
Definition store_expire (t : Time) (k : string) (ttl : Z) (r : Store) : Store :=
  match r !! k with
  | Some e => if live t e then <[k := mkEntry (en_value e) (Some (t + ttl))]> r else r
  | None => r
  end.

Definition mem_sort {A : Type} (leb : A → A → bool) (l : list A) : list A :=
  @merge_sort A (λ x y, leb x y = true) (λ x y, decide (leb x y = true)) l.

(** The decimal text of a UUID's number. *)
Definition mem_uuid_Parse (s : string) : option uuid :=
  match unsigned_value s with
  | Some z => if bool_decide (pretty (Z.to_N z) = s) then Some (Z.to_N z) else None
  | None => None
  end.

Definition mem_env : Env := {|
  order_by := @mem_sort;
  jsonb s := match whole_value s with Some _ => Some s | None => None end;
  pg_text s := negb (has_byte "000" s) && utf8_valid s;
  uuid_String := pretty;
  uuid_Parse := mem_uuid_Parse;
  local_offset _ := 0;
  redis := Store;
  redis_get := store_get;
  redis_set := store_set;
  redis_setnx := store_setnx;
  redis_del := λ _ k r, delete k r;
  redis_incr := store_incr;
  redis_expire := store_expire;
|}.

(** Empty tables, an empty keyspace, no message. *)
Definition mem_world : @World mem_env :=
  @mkWorld mem_env ∅ ∅ ∅ (∅ : Store) [] no_metrics.

Lemma mem_order_by : @OrderByLaws mem_env.
Proof.
  constructor.
  - intros A leb l. apply merge_sort_Permutation.
  - intros A leb l Htot Htrans. cbn.
    set (R := λ x y : A, leb x y = true).
    assert (Transitive R) by (intros x y z; apply Htrans).
    assert (Total R) by (intros x y; apply Htot).
    apply (StronglySorted_merge_sort R).
Qed.

Lemma mem_uuid : @UuidLaws mem_env.
Proof.
  constructor; intros u; cbn.
  - unfold mem_uuid_Parse. rewrite unsigned_value_pretty.
    rewrite N2Z.id. by rewrite bool_decide_true.
  - apply all_ascii_valid, digits_ascii, is_decimal_digits, pretty_N_decimal.
Qed.

Lemma mem_jsonb : @JsonbLaws mem_env.
Proof.
  constructor. intros p d. cbn. destruct (whole_value p) eqn:Hp; [|done].
  intros [= <-]. exists p. by rewrite Hp.
Qed.

Lemma mem_text : @TextLaws mem_env.
Proof. constructor. intros s. cbn. by intros [_ ?]%andb_prop. Qed.

Section redis.
Implicit Types (r : Store) (t : Time).

Lemma store_get_insert t k k' e r :
  store_get t k' (<[k := e]> r) =
  if decide (k = k') then (if live t e then Some (en_value e) else None) else store_get t k' r.
Proof.
  unfold store_get. rewrite lookup_insert. by case_decide.
Qed.

(** A key that is gone stays gone. *)
Lemma live_mono t t' e : t ≤ t' → live t e = false → live t' e = false.
Proof.
  unfold live. destruct (en_expires e); [|done]. rewrite !Z.ltb_ge. lia.
Qed.
End redis.

Lemma mem_redis : @RedisLaws mem_env.
Proof.
  constructor; cbn [mem_env redis_get redis_set redis_setnx redis_del redis_incr redis_expire
                    redis].
  - intros t t' k v ttl r _ Ht. unfold store_set. rewrite store_get_insert.
    by rewrite decide_True by done.
  - intros t t' k k' v ttl r _ Hk. unfold store_set. rewrite store_get_insert.
    by rewrite decide_False by done.
  - intros t k v ttl r v0 Hg. unfold store_setnx. rewrite Hg. done.
  - intros t k v ttl r Hg. unfold store_setnx. rewrite Hg. done.
  - intros t t' k r _. unfold store_get. by rewrite lookup_delete_eq.
  - intros t t' k k' r _ Hk. unfold store_get. by rewrite lookup_delete_ne.
  - intros t k r Hg. unfold store_get in Hg. unfold store_incr.
    destruct (r !! k) as [e|].
    + destruct (live t e); [done|]. split; [done|]. intros t' _.
      cbn. rewrite store_get_insert. by rewrite decide_True.
    + split; [done|]. intros t' _. cbn. rewrite store_get_insert. by rewrite decide_True.
  - intros t k r s n Hg Hs Hn. unfold store_get in Hg. unfold store_incr.
    destruct (r !! k) as [e|] eqn:Hk; [|done]. destruct (live t e); [|done]. simplify_eq.
    rewrite Hs, Hn. split; [done|]. intros t' _. cbn.
    rewrite store_get_insert. rewrite decide_True by done.
    unfold store_get. rewrite Hk. unfold live. cbn.
    destruct (en_expires e); [by destruct (_ <? _)|done].
  - intros t t' k k' r _ Hk. unfold store_incr.
    destruct (r !! k) as [e|]; [destruct (live t e); [destruct (Atoi _); [destruct (int64_ok _)|]|]|];
      cbn; try done; rewrite store_get_insert; by rewrite decide_False.
  - intros t t' k ttl r Ht. unfold store_expire, store_get.
    destruct (r !! k) as [e|] eqn:Hk; [|rewrite Hk; by destruct (_ <? _)].
    destruct (live t e) eqn:Hl.
    + rewrite lookup_insert_eq. cbn. unfold live. cbn. done.
    + rewrite Hk, (live_mono t t' e) by done. by destruct (_ <? _).
  - intros t t' k k' ttl r Ht Hk. unfold store_expire.
    destruct (r !! k) as [e|]; [destruct (live t e)|]; [|done..].
    rewrite store_get_insert. by rewrite decide_False.
Qed.
