(* ===== verification/Sql.v ===== *)
(** * SQL statements over tables

    The parts of SQL that the repositories' statements share: three-valued conditions, UPDATE
    over a table keyed by its primary key, NUMERIC(5,2) and INTEGER columns, LIMIT/OFFSET. *)

From S2P Require Import Prelude GoStd Models.

(** ** Three-valued conditions: [None] is NULL. *)

Definition tri : Type := option bool.

Definition tri_or (a b : tri) : tri :=
  match a, b with
  | Some true, _ | _, Some true => Some true
  | Some false, Some false => Some false
  | _, _ => None
  end.

Definition tri_and (a b : tri) : tri :=
  match a, b with
  | Some false, _ | _, Some false => Some false
  | Some true, Some true => Some true
  | _, _ => None
  end.

(** WHERE keeps a row when its condition is true, not when it is NULL. *)
Definition is_true (a : tri) : bool := match a with Some true => true | _ => false end.

Definition sql_is_null {A} (a : option A) : tri :=
  Some (match a with None => true | Some _ => false end).
Definition sql_lt (a : option Z) (b : Z) : tri := (λ x, x <? b) <$> a.
Definition sql_gt (a : option Z) (b : Z) : tri := (λ x, b <? x) <$> a.

(** [x IN (subquery)]: false on an empty result even for a NULL [x]. *)
Definition sql_in {A} `{EqDecision A} (x : option A) (l : list A) : tri :=
  match l with
  | [] => Some false
  | _ => (λ a, bool_decide (a ∈ l)) <$> x
  end.

(** [now() - make_interval(secs => n)] *)
Definition ago (now : Time) (secs : Z) : Time := now - seconds secs.

(** ** UPDATE *)

Section update.
Context {A : Type}.
Implicit Types t : gmap uuid A.

(** UPDATE t SET ... WHERE p: the new table, and the number of rows it affects. *)
Definition update_where (p : A → bool) (f : A → A) t : gmap uuid A * Z :=
  ((λ r, if p r then f r else r) <$> t,
   Z.of_nat (length (List.filter p (rows t)))).

(** UPDATE t SET ... WHERE id = $1 AND p *)
Definition update_id (id : uuid) (p : A → bool) (f : A → A) t : gmap uuid A * Z :=
  match t !! id with
  | Some r => if p r then (<[id := f r]> t, 1) else (t, 0)
  | None => (t, 0)
  end.

Lemma lookup_update_where p f t k :
  (update_where p f t).1 !! k = (λ r, if p r then f r else r) <$> t !! k.
Proof. apply lookup_fmap. Qed.

Lemma update_where_zero p f t :
  (update_where p f t).2 = 0 ↔ ∀ k r, t !! k = Some r → p r = false.
Proof.
  cbn. split.
  - intros H0 k r Hr. destruct (p r) eqn:Hp; [|done].
    assert (r ∈ List.filter p (rows t)) as Hin.
    { apply elem_of_filter_bool. split; [done|]. apply elem_of_rows. eauto. }
    destruct (List.filter p (rows t)); [by apply elem_of_nil in Hin|cbn in H0; lia].
  - intros Hall. destruct (List.filter p (rows t)) as [|r l] eqn:Heq; [done|].
    assert (r ∈ List.filter p (rows t)) as Hin by (rewrite Heq; left).
    apply elem_of_filter_bool in Hin as [Hp [k Hk]%elem_of_rows].
    by rewrite (Hall k r Hk) in Hp.
Qed.

Lemma lookup_update_id id p f t k :
  (update_id id p f t).1 !! k =
  if decide (k = id) then (λ r, if p r then f r else r) <$> t !! k else t !! k.
Proof.
  unfold update_id. destruct (decide (k = id)) as [->|Hne].
  - destruct (t !! id) as [r|] eqn:Hr; [|done].
    simpl. destruct (p r); simpl; [by rewrite lookup_insert_eq|done].
  - destruct (t !! id) as [r|]; [|done]. destruct (p r); [|done].
    simpl. by rewrite lookup_insert_ne.
Qed.

(** The row count of an update by primary key is 0 or 1, and tells whether it matched. *)
Lemma update_id_count id p f t :
  (update_id id p f t).2 = if match t !! id with Some r => p r | None => false end
                           then 1 else 0.
Proof. unfold update_id. destruct (t !! id) as [r|]; [by destruct (p r)|done]. Qed.
End update.

(** ** Columns *)

(** The SQLSTATE codes of the errors that the schema can raise. *)
Definition not_null_violation : error := ErrPg "23502".
Definition foreign_key_violation : error := ErrPg "23503".
Definition unique_violation : error := ErrPg "23505".
Definition numeric_value_out_of_range : error := ErrPg "22003".
Definition invalid_text_representation : error := ErrPg "22P02".
Definition character_not_in_repertoire : error := ErrPg "22021".
Definition invalid_limit : error := ErrPg "2201W".
Definition invalid_offset : error := ErrPg "2201X".

(** Storing a number in a NUMERIC(5,2) column: rounded to hundredths, half away from zero,
    and refused from 1000 on. *)
Definition round_half_away (num den : Z) : Z :=
  Z.sgn num * ((2 * Z.abs num + den) / (2 * den)).

Definition numeric_5_2 (x : float64) : option float64 :=
  let h := round_half_away (f_mant x * 100) (10 ^ Z.of_nat (f_exp x)) in
  if Z.abs h <? 100000 then Some (mkFloat h 2) else None.

(** LIMIT $n OFFSET $m *)
Definition limit_offset {A} (limit offset : Z) (l : list A) : Res (list A) :=
  if limit <? 0 then Err invalid_limit
  else if offset <? 0 then Err invalid_offset
  else Ok (take (Z.to_nat limit) (drop (Z.to_nat offset) l)).

Lemma numeric_5_2_overflow x :
  199999 * 10 ^ Z.of_nat (f_exp x) ≤ 200 * f_mant x → numeric_5_2 x = None.
Proof.
  intros H. unfold numeric_5_2, round_half_away.
  set (d := 10 ^ Z.of_nat (f_exp x)) in *.
  assert (0 < d) by (apply Z.pow_pos_nonneg; lia).
  assert (0 < f_mant x) by nia.
  rewrite Z.sgn_pos, (Z.abs_eq (f_mant x * 100)) by lia.
  destruct (Z.ltb_spec (Z.abs (1 * ((2 * (f_mant x * 100) + d) / (2 * d)))) 100000)
    as [Hlt|]; [exfalso|done].
  assert (100000 ≤ (2 * (f_mant x * 100) + d) / (2 * d)).
  { apply Z.div_le_lower_bound; nia. }
  lia.
Qed.

#[export] Hint Rewrite @lookup_update_where @lookup_update_id @update_id_count : sched_rw.
