(* ===== verification/Columns.v ===== *)
(** * Rows as columns

    What the server sends for a row - the columns of the SELECT or RETURNING list, in its
    order - and what Row.Scan makes of them: internal/repository/common.go and scanDeadLetter.
    A destination takes a value of its column's type only, and NULL only when it is a pointer
    or a byte slice. *)

From S2P Require Import Prelude GoStd Models.

(** A value of one of the column types of src/migrations. *)
Inductive SqlValue : Type :=
| VUuid (u : uuid)
| VText (s : string)
| VJsonb (s : string)
| VSmallint (n : Z)
| VInteger (n : Z)
| VNumeric (x : float64)
| VTimestamptz (t : Time)
| VEnum (type label : string).

(** A cell of a row; [None] is NULL. *)
Abbreviation Cell := (option SqlValue).

(** ** The lists *)

(** id, status, type, payload, priority, attempts, worker_id, created_at, updated_at *)
Definition job_columns (j : Job) : list (string * Cell) :=
  [("id", Some (VUuid (job_ID j)));
   ("status", Some (VEnum "job_status" (JobStatus_string (job_Status j))));
   ("type", Some (VText (job_Type j)));
   ("payload", VJsonb <$> job_Payload j);
   ("priority", Some (VSmallint (job_Priority j)));
   ("attempts", Some (VInteger (job_Attempts j)));
   ("worker_id", VUuid <$> job_WorkerID j);
   ("created_at", Some (VTimestamptz (job_CreatedAt j)));
   ("updated_at", Some (VTimestamptz (job_UpdatedAt j)))].

(** id, host, status, cpu, memory, running_jobs, last_heartbeat, created_at *)
Definition worker_columns (x : Worker) : list (string * Cell) :=
  [("id", Some (VUuid (worker_ID x)));
   ("host", Some (VText (worker_Host x)));
   ("status", Some (VEnum "worker_status" (WorkerStatus_string (worker_Status x))));
   ("cpu", VNumeric <$> worker_CPU x);
   ("memory", VNumeric <$> worker_Memory x);
   ("running_jobs", Some (VInteger (worker_RunningJobs x)));
   ("last_heartbeat", VTimestamptz <$> worker_LastHeartBeat x);
   ("created_at", Some (VTimestamptz (worker_CreatedAt x)))].

(** id, job_id, worker_id, job_type, payload, attempts, error, status, replayed_at,
    replayed_job_id, created_at *)
Definition dead_letter_columns (d : DeadLetter) : list (string * Cell) :=
  [("id", Some (VUuid (dl_ID d)));
   ("job_id", Some (VUuid (dl_JobID d)));
   ("worker_id", VUuid <$> dl_WorkerID d);
   ("job_type", Some (VText (dl_JobType d)));
   ("payload", VJsonb <$> dl_Payload d);
   ("attempts", Some (VInteger (dl_Attempts d)));
   ("error", Some (VText (dl_Error d)));
   ("status", Some (VText (dl_Status d)));
   ("replayed_at", VTimestamptz <$> dl_ReplayedAt d);
   ("replayed_job_id", VUuid <$> dl_ReplayedJobID d);
   ("created_at", Some (VTimestamptz (dl_CreatedAt d)))].

(** ** Destinations *)

Definition cannot_scan : error := ErrText "can't scan into dest".
Definition wrong_number : error :=
  ErrText "number of field descriptions must equal number of destinations".

(** A pointer destination: NULL is nil. *)
Definition nullable {A} (dest : Cell → Res A) (c : Cell) : Res (option A) :=
  match c with None => Ok None | Some _ => result_map Some (dest c) end.

Definition to_uuid (c : Cell) : Res uuid :=
  match c with Some (VUuid u) => Ok u | _ => Err cannot_scan end.
(** A string, of a text or of the text form of an enumeration. *)
Definition to_string (c : Cell) : Res string :=
  match c with Some (VText s) | Some (VEnum _ s) => Ok s | _ => Err cannot_scan end.
(** A byte slice. *)
Definition to_bytes (c : Cell) : Res RawMessage :=
  match c with None => Ok None | Some (VJsonb s) => Ok (Some s) | _ => Err cannot_scan end.
Definition to_int16 (c : Cell) : Res Z :=
  match c with Some (VSmallint n) => Ok n | _ => Err cannot_scan end.
Definition to_int (c : Cell) : Res Z :=
  match c with Some (VSmallint n) | Some (VInteger n) => Ok n | _ => Err cannot_scan end.
Definition to_float (c : Cell) : Res float64 :=
  match c with Some (VNumeric x) => Ok x | _ => Err cannot_scan end.
Definition to_time (c : Cell) : Res Time :=
  match c with Some (VTimestamptz t) => Ok t | _ => Err cannot_scan end.

(** The named string types of internal/models; [None] for a text that is none of their
    constants, which the enumeration types rule out. *)
Definition to_JobStatus (c : Cell) : Res JobStatus :=
  result_bind (to_string c) (λ s, from_option Ok (Err cannot_scan) (JobStatus_parse s)).
Definition to_WorkerStatus (c : Cell) : Res WorkerStatus :=
  result_bind (to_string c) (λ s, from_option Ok (Err cannot_scan) (WorkerStatus_parse s)).

(** ** Row.Scan, with the destinations of each function *)

Definition Scan_Job (row : list Cell) : Res Job :=
  match row with
  | [c1; c2; c3; c4; c5; c6; c7; c8; c9] =>
      result_bind (to_uuid c1) (λ id, result_bind (to_JobStatus c2) (λ status,
      result_bind (to_string c3) (λ type, result_bind (to_bytes c4) (λ payload,
      result_bind (to_int16 c5) (λ priority, result_bind (to_int c6) (λ attempts,
      result_bind (nullable to_uuid c7) (λ worker, result_bind (to_time c8) (λ created,
      result_map (mkJob id status type payload priority attempts worker created)
        (to_time c9)))))))))
  | _ => Err wrong_number
  end.

Definition Scan_Worker (row : list Cell) : Res Worker :=
  match row with
  | [c1; c2; c3; c4; c5; c6; c7; c8] =>
      result_bind (to_uuid c1) (λ id, result_bind (to_string c2) (λ host,
      result_bind (to_WorkerStatus c3) (λ status, result_bind (nullable to_float c4) (λ cpu,
      result_bind (nullable to_float c5) (λ memory, result_bind (to_int c6) (λ running,
      result_bind (nullable to_time c7) (λ heartbeat,
      result_map (mkWorker id host status cpu memory running heartbeat) (to_time c8))))))))
  | _ => Err wrong_number
  end.

Definition Scan_DeadLetter (row : list Cell) : Res DeadLetter :=
  match row with
  | [c1; c2; c3; c4; c5; c6; c7; c8; c9; c10; c11] =>
      result_bind (to_uuid c1) (λ id, result_bind (to_uuid c2) (λ jobID,
      result_bind (nullable to_uuid c3) (λ worker, result_bind (to_string c4) (λ type,
      result_bind (to_bytes c5) (λ payload, result_bind (to_int c6) (λ attempts,
      result_bind (to_string c7) (λ err, result_bind (to_string c8) (λ status,
      result_bind (nullable to_time c9) (λ replayedAt,
      result_bind (nullable to_uuid c10) (λ replayedJobID,
      result_map (mkDeadLetter id jobID worker type payload attempts err status replayedAt
        replayedJobID) (to_time c11)))))))))))
  | _ => Err wrong_number
  end.

(** scanJob, scanWorker, scanDeadLetter: the error of the query, or the row scanned. *)
Definition scanJob (row : Res Job) : Res Job :=
  result_bind row (λ j, Scan_Job (job_columns j).*2).
Definition scanWorker (row : Res Worker) : Res Worker :=
  result_bind row (λ x, Scan_Worker (worker_columns x).*2).
Definition scanDeadLetter (row : Res DeadLetter) : Res DeadLetter :=
  result_bind row (λ d, Scan_DeadLetter (dead_letter_columns d).*2).

(** for rows.Next(): the first error ends the loop. *)
Fixpoint scan_rows {A} (scan : Res A → Res A) (rows : list A) : Res (list A) :=
  match rows with
  | [] => Ok []
  | x :: rows' => result_bind (scan (Ok x)) (λ a, result_map (cons a) (scan_rows scan rows'))
  end.

(** ** What is selected is scanned *)

Lemma nullable_fmap {A} (dest : Cell → Res A) (f : A → SqlValue) (o : option A) :
  (∀ a, dest (Some (f a)) = Ok a) → nullable dest (f <$> o) = Ok o.
Proof. intros Hd. destruct o as [a|]; cbn; [by rewrite Hd|done]. Qed.

Lemma to_bytes_payload (p : RawMessage) : to_bytes (VJsonb <$> p) = Ok p.
Proof. by destruct p. Qed.

Lemma to_JobStatus_enum t s : to_JobStatus (Some (VEnum t (JobStatus_string s))) = Ok s.
Proof. by destruct s. Qed.

Lemma to_WorkerStatus_enum t s : to_WorkerStatus (Some (VEnum t (WorkerStatus_string s))) = Ok s.
Proof. by destruct s. Qed.

Ltac scan_columns :=
  repeat first [ progress cbn [to_uuid to_string to_int16 to_int to_time result_bind result_map]
               | rewrite to_bytes_payload | rewrite to_JobStatus_enum
               | rewrite to_WorkerStatus_enum | rewrite nullable_fmap by done ].

Lemma Scan_Job_columns j : Scan_Job (job_columns j).*2 = Ok j.
Proof. cbn [job_columns fmap list_fmap snd Scan_Job]. scan_columns. by destruct j. Qed.

Lemma Scan_Worker_columns x : Scan_Worker (worker_columns x).*2 = Ok x.
Proof. cbn [worker_columns fmap list_fmap snd Scan_Worker]. scan_columns. by destruct x. Qed.

Lemma Scan_DeadLetter_columns d : Scan_DeadLetter (dead_letter_columns d).*2 = Ok d.
Proof. cbn [dead_letter_columns fmap list_fmap snd Scan_DeadLetter]. scan_columns. by destruct d. Qed.

Lemma scanJob_id r : scanJob r = r.
Proof. destruct r as [j|e]; [apply Scan_Job_columns|done]. Qed.
Lemma scanWorker_id r : scanWorker r = r.
Proof. destruct r as [x|e]; [apply Scan_Worker_columns|done]. Qed.
Lemma scanDeadLetter_id r : scanDeadLetter r = r.
Proof. destruct r as [d|e]; [apply Scan_DeadLetter_columns|done]. Qed.

Lemma scan_rows_id {A} (scan : Res A → Res A) (l : list A) :
  (∀ r, scan r = r) → scan_rows scan l = Ok l.
Proof. intros Hs. induction l as [|a l IH]; cbn; [done|]. by rewrite Hs, IH. Qed.

(** A query's rows, once the query itself has answered. *)
Lemma scan_query_id {A} (scan : Res A → Res A) (r : Res (list A)) :
  (∀ r, scan r = r) → result_bind r (scan_rows scan) = r.
Proof. intros Hs. destruct r as [l|e]; cbn; [by apply scan_rows_id|done]. Qed.

#[global] Arguments scanJob : simpl never.
#[global] Arguments scanWorker : simpl never.
#[global] Arguments scanDeadLetter : simpl never.
#[global] Arguments scan_rows : simpl never.

(** Scanning read away from a goal. *)
Ltac scanned :=
  rewrite ?scanJob_id, ?scanWorker_id, ?scanDeadLetter_id,
    ?(scan_query_id scanJob _ scanJob_id), ?(scan_query_id scanWorker _ scanWorker_id),
    ?(scan_rows_id scanJob _ scanJob_id), ?(scan_rows_id scanWorker _ scanWorker_id),
    ?(scan_rows_id scanDeadLetter _ scanDeadLetter_id).

(** And from the hypotheses. *)
Ltac scanned_hyps :=
  repeat match goal with
         | H : context [scan_rows scanJob _] |- _ => rewrite (scan_rows_id scanJob _ scanJob_id) in H
         | H : context [scanJob _] |- _ => rewrite scanJob_id in H
         end; simplify_eq/=.
