(* ===== verification/Schema.v ===== *)
(** * The schema: src/migrations

    The migration files as statements on a catalogue - extensions, types, tables, indexes,
    functions and triggers -, what the schema they build asks of the rows, and what it adds to
    an INSERT and an UPDATE. The repositories' statements are checked against it in
    SchemaSpec.v. *)

From S2P Require Import Prelude GoStd Models Json World Sql Columns.

(** ** Definitions of tables *)

Inductive ColType : Type :=
| TUuid | TText | TJsonb | TSmallint | TInteger | TTimestamptz
| TNumeric (precision scale : nat)
| TUser (name : string).

Inductive Default : Type :=
| GenRandomUuid                  (* gen_random_uuid() *)
| DefaultNow                     (* now() *)
| DefaultValue (v : SqlValue).

(** What becomes of a row when the row that it refers to is deleted; no statement of the program
    deletes a row that another refers to. *)
Inductive OnDelete : Type := NoAction | SetNull.

Record Column : Type := mkColumn {
  col_name : string;
  col_type : ColType;
  col_not_null : bool;
  col_default : option Default;
  col_primary : bool;
  col_references : option (string * string * OnDelete);   (* REFERENCES table(column) *)
}.
(** The direction of a key of an index. *)
Inductive Direction : Type := Asc | Desc.
Definition asc (k : string) : string * Direction := (k, Asc).
Definition desc (k : string) : string * Direction := (k, Desc).

#[export] Instance SqlValue_eq_dec : EqDecision SqlValue.
Proof. solve_decision. Defined.
#[export] Instance ColType_eq_dec : EqDecision ColType.
Proof. solve_decision. Defined.
#[export] Instance Default_eq_dec : EqDecision Default.
Proof. solve_decision. Defined.
#[export] Instance OnDelete_eq_dec : EqDecision OnDelete.
Proof. solve_decision. Defined.
#[export] Instance Direction_eq_dec : EqDecision Direction.
Proof. solve_decision. Defined.
#[export] Instance Column_eq_dec : EqDecision Column.
Proof. solve_decision. Defined.

(** ** The catalogue *)

Record Catalog : Type := mkCatalog {
  ct_extensions : gset string;
  ct_types : gmap string (list string);                        (* enumerations: their labels *)
  ct_tables : gmap string (list Column);
  ct_indexes : gmap string (string * list (string * Direction));   (* table, keys *)
  ct_functions : gmap string string;       (* of a trigger: the column of NEW set to now() *)
  ct_triggers : gmap (string * string) string;   (* BEFORE UPDATE: table and name to function *)
}.

Definition empty_catalog : Catalog := mkCatalog ∅ ∅ ∅ ∅ ∅ ∅.

Definition set_types t (c : Catalog) : Catalog :=
  mkCatalog (ct_extensions c) t (ct_tables c) (ct_indexes c) (ct_functions c) (ct_triggers c).
Definition set_tables t (c : Catalog) : Catalog :=
  mkCatalog (ct_extensions c) (ct_types c) t (ct_indexes c) (ct_functions c) (ct_triggers c).
Definition set_indexes t (c : Catalog) : Catalog :=
  mkCatalog (ct_extensions c) (ct_types c) (ct_tables c) t (ct_functions c) (ct_triggers c).
Definition set_functions t (c : Catalog) : Catalog :=
  mkCatalog (ct_extensions c) (ct_types c) (ct_tables c) (ct_indexes c) t (ct_triggers c).
Definition set_triggers t (c : Catalog) : Catalog :=
  mkCatalog (ct_extensions c) (ct_types c) (ct_tables c) (ct_indexes c) (ct_functions c) t.
Definition with_extension (e : string) (c : Catalog) : Catalog :=
  mkCatalog ({[e]} ∪ ct_extensions c) (ct_types c) (ct_tables c) (ct_indexes c)
    (ct_functions c) (ct_triggers c).

(** ** The statements of the files *)

(** All the DROPs are IF EXISTS, the extension IF NOT EXISTS, the function OR REPLACE. *)
Inductive Ddl : Type :=
| CreateExtension (name : string)
| CreateType (name : string) (labels : list string)
| CreateTable (name : string) (cols : list Column)
| CreateIndex (name table : string) (keys : list (string * Direction))
| CreateFunction (name sets : string)
| CreateTrigger (name table function : string)
| AddColumns (table : string) (cols : list Column)
| DropTrigger (name table : string)
| DropFunction (name : string)
| DropTable (name : string)
| DropType (name : string)
| DropIndex (name : string)
| DropColumns (table : string) (names : list string).

Definition duplicate_table : error := ErrPg "42P07".
Definition duplicate_object : error := ErrPg "42710".
Definition duplicate_column : error := ErrPg "42701".
Definition undefined_table : error := ErrPg "42P01".
Definition undefined_column : error := ErrPg "42703".
Definition undefined_object : error := ErrPg "42704".
Definition undefined_function : error := ErrPg "42883".
Definition dependent_objects : error := ErrPg "2BP01".

Definition uses_type (t : string) (col : Column) : bool := bool_decide (col_type col = TUser t).
Definition refers_to (table : string) (col : Column) : bool :=
  match col_references col with Some (t, _, _) => bool_decide (t = table) | None => false end.

Definition refers_into (table : string) (names : list string) (col : Column) : bool :=
  match col_references col with
  | Some (t, k, _) => bool_decide (t = table) && bool_decide (k ∈ names)
  | None => false
  end.

(** The types that the columns name, and the tables they refer to, are there. *)
Definition col_known (c : Catalog) (table : string) (col : Column) : bool :=
  match col_type col with TUser t => bool_decide (is_Some (ct_types c !! t)) | _ => true end &&
  match col_references col with
  | Some (t, k, _) =>
      match ct_tables c !! t with
      | Some cols => bool_decide (k ∈ col_name <$> cols)
      | None => bool_decide (t = table)
      end
  | None => true
  end.

Definition exec (d : Ddl) (c : Catalog) : Res Catalog :=
  match d with
  | CreateExtension e => Ok (with_extension e c)
  | CreateType t labels =>
      if bool_decide (is_Some (ct_types c !! t)) then Err duplicate_object
      else Ok (set_types (<[t := labels]> (ct_types c)) c)
  | CreateTable t cols =>
      if bool_decide (is_Some (ct_tables c !! t) ∨ is_Some (ct_indexes c !! t))
      then Err duplicate_table
      else if negb (bool_decide (NoDup (col_name <$> cols))) then Err duplicate_column
      else if negb (forallb (col_known c t) cols) then Err undefined_object
      else Ok (set_tables (<[t := cols]> (ct_tables c)) c)
  | CreateIndex i t keys =>
      if bool_decide (is_Some (ct_tables c !! i) ∨ is_Some (ct_indexes c !! i))
      then Err duplicate_table
      else match ct_tables c !! t with
           | None => Err undefined_table
           | Some cols =>
               if forallb (λ k, bool_decide (k.1 ∈ col_name <$> cols)) keys
               then Ok (set_indexes (<[i := (t, keys)]> (ct_indexes c)) c)
               else Err undefined_column
           end
  | CreateFunction f sets => Ok (set_functions (<[f := sets]> (ct_functions c)) c)
  | CreateTrigger g t f =>
      if bool_decide (ct_tables c !! t = None) then Err undefined_table
      else if bool_decide (ct_functions c !! f = None) then Err undefined_function
      else if bool_decide (is_Some (ct_triggers c !! (t, g))) then Err duplicate_object
      else Ok (set_triggers (<[(t, g) := f]> (ct_triggers c)) c)
  | AddColumns t new =>
      match ct_tables c !! t with
      | None => Err undefined_table
      | Some cols =>
          if negb (bool_decide (NoDup (col_name <$> cols ++ new))) then Err duplicate_column
          else if negb (forallb (col_known c t) new) then Err undefined_object
          else Ok (set_tables (<[t := cols ++ new]> (ct_tables c)) c)
      end
  | DropTrigger g t => Ok (set_triggers (delete (t, g) (ct_triggers c)) c)
  | DropFunction f =>
      if bool_decide (map_Forall (λ _ f', f' ≠ f) (ct_triggers c))
      then Ok (set_functions (delete f (ct_functions c)) c) else Err dependent_objects
  | DropTable t =>
      if bool_decide (map_Forall (λ t' cols, t' = t ∨ forallb (negb ∘ refers_to t) cols = true)
                        (ct_tables c))
      then Ok (set_triggers (filter (λ x, x.1.1 ≠ t) (ct_triggers c))
                 (set_indexes (filter (λ x, x.2.1 ≠ t) (ct_indexes c))
                    (set_tables (delete t (ct_tables c)) c)))
      else Err dependent_objects
  | DropType t =>
      if bool_decide (map_Forall (λ _ cols, forallb (negb ∘ uses_type t) cols = true)
                        (ct_tables c))
      then Ok (set_types (delete t (ct_types c)) c) else Err dependent_objects
  | DropIndex i => Ok (set_indexes (delete i (ct_indexes c)) c)
  | DropColumns t names =>
      match ct_tables c !! t with
      | None => Err undefined_table
      | Some cols =>
          if bool_decide (map_Forall (λ _ cols', forallb (negb ∘ refers_into t names) cols' = true)
                            (ct_tables c))
          then Ok (set_indexes (filter (λ x, ¬ (x.2.1 = t ∧ Exists (λ k, k.1 ∈ names) x.2.2))
                                  (ct_indexes c))
                     (set_tables (<[t := filter (λ col, col_name col ∉ names) cols]>
                                    (ct_tables c)) c))
          else Err dependent_objects
      end
  end.

(** ** The files *)

Definition col (name : string) (type : ColType) (not_null : bool) (d : option Default) : Column :=
  mkColumn name type not_null d false None.
Definition primary (name : string) (d : option Default) : Column :=
  mkColumn name TUuid true d true None.
Definition text_default (s : string) : option Default := Some (DefaultValue (VText s)).

(** 001_init.up.sql *)
Definition init_up : list Ddl :=
  [CreateExtension "pgcrypto";
   CreateType "job_status" ["QUEUED"; "RUNNING"; "COMPLETED"; "FAILED"; "RETRYING"; "DEAD"];
   CreateType "worker_status" ["ACTIVE"; "IDLE"; "UNHEALTHY"; "OFFLINE"];
   CreateTable "workers"
     [primary "id" (Some GenRandomUuid);
      col "host" TText true None;
      col "status" (TUser "worker_status") true
        (Some (DefaultValue (VEnum "worker_status" "IDLE")));
      col "cpu" (TNumeric 5 2) false None;
      col "memory" (TNumeric 5 2) false None;
      col "running_jobs" TInteger true (Some (DefaultValue (VInteger 0)));
      col "last_heartbeat" TTimestamptz false None;
      col "created_at" TTimestamptz true (Some DefaultNow)];
   CreateIndex "idx_workers_status" "workers" [asc "status"];
   CreateIndex "idx_workers_last_heartbeat" "workers" [asc "last_heartbeat"];
   CreateTable "jobs"
     [primary "id" (Some GenRandomUuid);
      col "status" (TUser "job_status") true
        (Some (DefaultValue (VEnum "job_status" "QUEUED")));
      col "type" TText true None;
      col "payload" TJsonb true (Some (DefaultValue (VJsonb "{}")));
      col "priority" TSmallint true (Some (DefaultValue (VSmallint 0)));
      col "attempts" TInteger true (Some (DefaultValue (VInteger 0)));
      mkColumn "worker_id" TUuid false None false (Some ("workers", "id", SetNull));
      col "created_at" TTimestamptz true (Some DefaultNow);
      col "updated_at" TTimestamptz true (Some DefaultNow)];
   CreateIndex "idx_jobs_status_priority" "jobs" [asc "status"; desc "priority"; asc "created_at"];
   CreateIndex "idx_jobs_worker_id" "jobs" [asc "worker_id"];
   CreateIndex "idx_jobs_type" "jobs" [asc "type"];
   CreateFunction "set_updated_at" "updated_at";
   CreateTrigger "trg_jobs_updated_at" "jobs" "set_updated_at"].

(** 001_init.down.sql *)
Definition init_down : list Ddl :=
  [DropTrigger "trg_jobs_updated_at" "jobs"; DropFunction "set_updated_at"; DropTable "jobs";
   DropTable "workers"; DropType "job_status"; DropType "worker_status"].

(** 002_create_dead_letters.up.sql *)
Definition dead_letters_up : list Ddl :=
  [CreateTable "dead_letters"
     [primary "id" (Some GenRandomUuid);
      col "job_id" TUuid true None;
      col "worker_id" TUuid false None;
      col "job_type" TText true (text_default EmptyString);
      col "payload" TJsonb true (Some (DefaultValue (VJsonb "{}")));
      col "attempts" TInteger true (Some (DefaultValue (VInteger 0)));
      col "error" TText true (text_default EmptyString);
      col "created_at" TTimestamptz true (Some DefaultNow)];
   CreateIndex "idx_dead_letters_job_id" "dead_letters" [asc "job_id"];
   CreateIndex "idx_dead_letters_created_at" "dead_letters" [desc "created_at"]].

(** 002_create_dead_letters.down.sql *)
Definition dead_letters_down : list Ddl := [DropTable "dead_letters"].

(** 003_add_dead_letter_replay_fields.up.sql *)
Definition replay_fields_up : list Ddl :=
  [AddColumns "dead_letters"
     [col "status" TText true (text_default "OPEN");
      col "replayed_at" TTimestamptz false None;
      col "replayed_job_id" TUuid false None];
   CreateIndex "idx_dead_letters_status" "dead_letters" [asc "status"]].

(** 003_add_dead_letter_replay_fields.down.sql *)
Definition replay_fields_down : list Ddl :=
  [DropIndex "idx_dead_letters_status";
   DropColumns "dead_letters" ["replayed_job_id"; "replayed_at"; "status"]].

(** A file is one transaction: its statements in order, or nothing. *)
Fixpoint exec_file (ds : list Ddl) (c : Catalog) : Res Catalog :=
  match ds with
  | [] => Ok c
  | d :: ds' => result_bind (exec d c) (exec_file ds')
  end.

(** The migrations, with what undoes each. *)
Definition migrations : list (list Ddl * list Ddl) :=
  [(init_up, init_down); (dead_letters_up, dead_letters_down);
   (replay_fields_up, replay_fields_down)].

Fixpoint exec_files (fs : list (list Ddl)) (c : Catalog) : Res Catalog :=
  match fs with
  | [] => Ok c
  | f :: fs' => result_bind (exec_file f c) (exec_files fs')
  end.

(** From version [n] up to version [m], and down again. *)
Definition migrate_up (n m : nat) : Catalog → Res Catalog :=
  exec_files (take (m - n) (drop n migrations.*1)).
Definition migrate_down (n m : nat) : Catalog → Res Catalog :=
  exec_files (reverse (take (m - n) (drop n migrations.*2))).

(** The schema of the program. *)
Definition schema : Catalog := ok_value empty_catalog (migrate_up 0 3 empty_catalog).

Example migrated : migrate_up 0 3 empty_catalog = Ok schema.
Proof. vm_compute. reflexivity. Qed.

(** ** What the tables of a catalogue ask of the rows *)

(** A row: the columns by name. A database: the rows of each table. *)
Abbreviation Row := (list (string * Cell)).
Abbreviation Database := (string → list Row).

Definition cell (r : Row) (k : string) : Cell :=
  match List.find (λ x, bool_decide (x.1 = k)) r with Some (_, v) => v | None => None end.

(** A value of a type. *)
Definition value_ok (c : Catalog) (t : ColType) (v : SqlValue) : Prop :=
  match t, v with
  | TUuid, VUuid _ | TTimestamptz, VTimestamptz _ => True
  | TText, VText s => utf8_valid s = true
  | TJsonb, VJsonb s => is_Some (whole_value s)
  | TSmallint, VSmallint n => int16_ok n = true
  | TInteger, VInteger n => int32_ok n = true
  | TNumeric p s, VNumeric x => f_exp x = s ∧ Z.abs (f_mant x) < 10 ^ Z.of_nat p
  | TUser t, VEnum t' l => t' = t ∧ ∃ labels, ct_types c !! t = Some labels ∧ l ∈ labels
  | _, _ => False
  end.

(** NOT NULL, the type, and REFERENCES. *)
Definition cell_ok (c : Catalog) (d : Database) (k : Column) (v : Cell) : Prop :=
  match v with
  | None => col_not_null k = false
  | Some x =>
      value_ok c (col_type k) x ∧
      match col_references k with
      | None => True
      | Some (t, k', _) => ∃ r, r ∈ d t ∧ cell r k' = Some x
      end
  end.

(** The row has the table's columns, each once, with what they ask. *)
Definition row_ok (c : Catalog) (d : Database) (cols : list Column) (r : Row) : Prop :=
  r.*1 ≡ₚ col_name <$> cols ∧ Forall (λ k, cell_ok c d k (cell r (col_name k))) cols.

(** PRIMARY KEY: no two rows agree on it. *)
Definition keys_ok (cols : list Column) (rs : list Row) : Prop :=
  NoDup ((λ r, (λ k, cell r (col_name k)) <$> filter (λ k, col_primary k = true) cols) <$> rs).

Definition integrity (c : Catalog) (d : Database) : Prop :=
  ∀ t cols, ct_tables c !! t = Some cols →
    Forall (row_ok c d cols) (d t) ∧ keys_ok cols (d t).

(** ** What a catalogue adds to an INSERT and to an UPDATE *)

(** The value of a default; [u] is what gen_random_uuid() draws. *)
Definition default_cell (now : Time) (u : uuid) (d : option Default) : Cell :=
  match d with
  | None => None
  | Some GenRandomUuid => Some (VUuid u)
  | Some DefaultNow => Some (VTimestamptz now)
  | Some (DefaultValue v) => Some v
  end.

(** INSERT INTO t (the names of [given]) VALUES (its cells) *)
Definition insert_row (c : Catalog) (t : string) (now : Time) (u : uuid) (given : Row) : Row :=
  (λ k, (col_name k,
         if bool_decide (col_name k ∈ given.*1) then cell given (col_name k)
         else default_cell now u (col_default k))) <$> default [] (ct_tables c !! t).

(** The BEFORE UPDATE triggers of a table, on the NEW row. *)
Definition set_cell (k : string) (v : Cell) (r : Row) : Row :=
  (λ x, if bool_decide (x.1 = k) then (k, v) else x) <$> r.
Definition fire_triggers (c : Catalog) (t : string) (now : Time) (r : Row) : Row :=
  map_fold (λ g f r, if bool_decide (g.1 = t)
                     then match ct_functions c !! f with
                          | Some k => set_cell k (Some (VTimestamptz now)) r
                          | None => r
                          end
                     else r) r (ct_triggers c).

(** UPDATE t SET (the names of [sets]) = (its cells), of one row that it selects. *)
Definition set_cells (sets r : Row) : Row :=
  (λ x, (x.1, if bool_decide (x.1 ∈ sets.*1) then cell sets x.1 else x.2)) <$> r.
Definition update_row (c : Catalog) (t : string) (now : Time) (sets r : Row) : Row :=
  fire_triggers c t now (set_cells sets r).

(** A table after an UPDATE: the rows that [selected] holds of are updated, the others are as they
    were, and no row comes or goes. *)
Definition table_updated {A} (columns : A → Row) (c : Catalog) (t : string) (now : Time)
    (selected : uuid → A → bool) (sets : A → Row) (m m' : gmap uuid A) : Prop :=
  ∀ id, columns <$> m' !! id =
    (λ r, if selected id r then update_row c t now (sets r) (columns r) else columns r) <$> m !! id.
