(* ===== verification/Migrations.v ===== *)
(** * Going up and down

    The migrations of src/migrations, run on a database that may hold anything else: each up
    file succeeds after those before it, and each down file undoes its up file. *)

From S2P Require Import Prelude GoStd Models Json World Sql Columns Schema.

(** ** The names of the program *)

Definition our_types : list string := ["job_status"; "worker_status"].
Definition our_tables : list string := ["jobs"; "workers"; "dead_letters"].
Definition our_indexes : list string :=
  ["idx_workers_status"; "idx_workers_last_heartbeat"; "idx_jobs_status_priority";
   "idx_jobs_worker_id"; "idx_jobs_type"; "idx_dead_letters_job_id";
   "idx_dead_letters_created_at"; "idx_dead_letters_status"].
Definition our_relations : list string := our_tables ++ our_indexes.

(** Nothing in the catalogue has one of the names, or depends on something that would. *)
Record unused (c : Catalog) : Prop := {
  un_types : Forall (λ t, ct_types c !! t = None) our_types;
  un_tables : Forall (λ t, ct_tables c !! t = None) our_relations;
  un_indexes : Forall (λ i, ct_indexes c !! i = None) our_relations;
  un_function : ct_functions c !! "set_updated_at" = None;
  un_columns : map_Forall (λ _ cols, Forall (λ k,
    Forall (λ t, uses_type t k = false) our_types ∧
    Forall (λ t, refers_to t k = false) our_tables) cols) (ct_tables c);
  un_indexed : map_Forall (λ _ x, x.1 ∉ our_tables) (ct_indexes c);
  un_triggers : map_Forall (λ g f, (g.1 ∉ our_tables) ∧ f ≠ "set_updated_at") (ct_triggers c);
}.

Lemma unused_empty : unused empty_catalog.
Proof.
  constructor; first [by apply (bool_decide_unpack _) | apply map_Forall_empty].
Qed.

(** The tables, as the files leave them. *)
Definition workers_cols : list Column := default [] (ct_tables schema !! "workers").
Definition jobs_cols : list Column := default [] (ct_tables schema !! "jobs").
Definition dead_letters_cols : list Column := default [] (ct_tables schema !! "dead_letters").

(** The catalogue after each migration. *)
Definition stage1 (c : Catalog) : Catalog :=
  {| ct_extensions := {["pgcrypto"]} ∪ ct_extensions c;
     ct_types := <["worker_status" := ["ACTIVE"; "IDLE"; "UNHEALTHY"; "OFFLINE"]]>
       (<["job_status" := ["QUEUED"; "RUNNING"; "COMPLETED"; "FAILED"; "RETRYING"; "DEAD"]]>
          (ct_types c));
     ct_tables := <["jobs" := jobs_cols]> (<["workers" := workers_cols]> (ct_tables c));
     ct_indexes := <["idx_jobs_type" := ("jobs", [asc "type"])]>
       (<["idx_jobs_worker_id" := ("jobs", [asc "worker_id"])]>
       (<["idx_jobs_status_priority" := ("jobs", [asc "status"; desc "priority"; asc "created_at"])]>
       (<["idx_workers_last_heartbeat" := ("workers", [asc "last_heartbeat"])]>
       (<["idx_workers_status" := ("workers", [asc "status"])]> (ct_indexes c)))));
     ct_functions := <["set_updated_at" := "updated_at"]> (ct_functions c);
     ct_triggers := <[("jobs", "trg_jobs_updated_at") := "set_updated_at"]> (ct_triggers c) |}.

Definition stage2 (c : Catalog) : Catalog :=
  set_indexes (<["idx_dead_letters_created_at" := ("dead_letters", [desc "created_at"])]>
    (<["idx_dead_letters_job_id" := ("dead_letters", [asc "job_id"])]> (ct_indexes (stage1 c))))
  (set_tables (<["dead_letters" := take 8 dead_letters_cols]> (ct_tables (stage1 c))) (stage1 c)).

Definition stage3 (c : Catalog) : Catalog :=
  set_indexes (<["idx_dead_letters_status" := ("dead_letters", [asc "status"])]>
                 (ct_indexes (stage2 c)))
  (set_tables (<["dead_letters" := dead_letters_cols]> (ct_tables (stage2 c))) (stage2 c)).

(** ** One statement *)

Section statements.
Implicit Types c : Catalog.

Lemma exec_CreateType c t labels :
  ct_types c !! t = None →
  exec (CreateType t labels) c = Ok (set_types (<[t := labels]> (ct_types c)) c).
Proof. intros Ht. cbn. rewrite bool_decide_false; [done|]. rewrite Ht. by intros []. Qed.

Lemma exec_CreateTable c t cols :
  ct_tables c !! t = None → ct_indexes c !! t = None → NoDup (col_name <$> cols) →
  forallb (col_known c t) cols = true →
  exec (CreateTable t cols) c = Ok (set_tables (<[t := cols]> (ct_tables c)) c).
Proof.
  intros Ht Hi Hn Hk. cbn. rewrite Ht, Hi, bool_decide_false by (by intros [[]|[]]).
  by rewrite bool_decide_true, Hk by done.
Qed.

Lemma exec_CreateIndex c i t keys cols :
  ct_tables c !! i = None → ct_indexes c !! i = None → ct_tables c !! t = Some cols →
  forallb (λ k, bool_decide (k.1 ∈ col_name <$> cols)) keys = true →
  exec (CreateIndex i t keys) c = Ok (set_indexes (<[i := (t, keys)]> (ct_indexes c)) c).
Proof.
  intros Ht Hi Hc Hk. cbn. rewrite Ht, Hi, bool_decide_false by (by intros [[]|[]]).
  by rewrite Hc, Hk.
Qed.

Lemma exec_CreateTrigger c g t f :
  is_Some (ct_tables c !! t) → is_Some (ct_functions c !! f) → ct_triggers c !! (t, g) = None →
  exec (CreateTrigger g t f) c = Ok (set_triggers (<[(t, g) := f]> (ct_triggers c)) c).
Proof.
  intros [? Ht] [? Hf] Hg. cbn. rewrite Ht, Hf, Hg, !bool_decide_false by (done || by intros []).
  done.
Qed.

Lemma exec_DropFunction c f :
  map_Forall (λ _ f', f' ≠ f) (ct_triggers c) →
  exec (DropFunction f) c = Ok (set_functions (delete f (ct_functions c)) c).
Proof. intros Hf. cbn. by rewrite bool_decide_true. Qed.

Lemma exec_DropTable c t :
  map_Forall (λ t' cols, t' = t ∨ forallb (negb ∘ refers_to t) cols = true) (ct_tables c) →
  exec (DropTable t) c =
    Ok (set_triggers (filter (λ x, x.1.1 ≠ t) (ct_triggers c))
          (set_indexes (filter (λ x, x.2.1 ≠ t) (ct_indexes c))
             (set_tables (delete t (ct_tables c)) c))).
Proof. intros Ht. cbn. by rewrite bool_decide_true. Qed.

Lemma exec_DropType c t :
  map_Forall (λ _ cols, forallb (negb ∘ uses_type t) cols = true) (ct_tables c) →
  exec (DropType t) c = Ok (set_types (delete t (ct_types c)) c).
Proof. intros Ht. cbn. by rewrite bool_decide_true. Qed.

Lemma exec_AddColumns c t cols new :
  ct_tables c !! t = Some cols → NoDup (col_name <$> cols ++ new) →
  forallb (col_known c t) new = true →
  exec (AddColumns t new) c = Ok (set_tables (<[t := cols ++ new]> (ct_tables c)) c).
Proof. intros Ht Hn Hk. cbn. by rewrite Ht, bool_decide_true, Hk by done. Qed.

Lemma exec_DropColumns c t names cols :
  ct_tables c !! t = Some cols →
  map_Forall (λ _ cols', forallb (negb ∘ refers_into t names) cols' = true) (ct_tables c) →
  exec (DropColumns t names) c =
    Ok (set_indexes (filter (λ x, ¬ (x.2.1 = t ∧ Exists (λ k, k.1 ∈ names) x.2.2)) (ct_indexes c))
          (set_tables (<[t := filter (λ col, col_name col ∉ names) cols]> (ct_tables c)) c)).
Proof. intros Ht Hr. cbn. by rewrite Ht, bool_decide_true. Qed.

(** What was added last is dropped again. *)
Lemma delete_inserted {A} `{Countable K} (m : gmap K A) k x : m !! k = None → delete k (<[k := x]> m) = m.
Proof. intros Hk. rewrite delete_insert_eq. by apply delete_id. Qed.

Lemma filter_kept {A} `{Countable K} (P : K * A → Prop) `{!∀ x, Decision (P x)} (m : gmap K A) :
  map_Forall (λ k x, P (k, x)) m → filter P m = m.
Proof. intros Hm. apply map_filter_id. intros k x. apply Hm. Qed.

Lemma filter_inserted {A} `{Countable K} (P : K * A → Prop) `{!∀ x, Decision (P x)}
    (m : gmap K A) k x :
  m !! k = None → ¬ P (k, x) → filter P (<[k := x]> m) = filter P m.
Proof. intros Hk HP. rewrite map_filter_insert_False by done. by rewrite delete_id. Qed.
End statements.

(** ** The files *)

(** Lookups under insertions of other names. *)
Ltac lookups := cbn; rewrite ?lookup_insert_ne by done; rewrite ?lookup_insert_eq; try done.

(** The catalogue's fields, after the statements so far. *)
Ltac reduced :=
  cbn [set_types set_tables set_indexes set_functions set_triggers with_extension
       ct_extensions ct_types ct_tables ct_indexes ct_functions ct_triggers].

Lemma exec_file_cons d ds c c' :
  exec d c = Ok c' → exec_file (d :: ds) c = exec_file ds c'.
Proof. intros Hd. cbn [exec_file]. by rewrite Hd. Qed.

Section files.
Context (c : Catalog) (Hc : unused c).

Lemma unused_type t : t ∈ our_types → ct_types c !! t = None.
Proof. apply (proj1 (Forall_forall _ _) (un_types _ Hc)). Qed.
Lemma unused_table t : t ∈ our_relations → ct_tables c !! t = None.
Proof. apply (proj1 (Forall_forall _ _) (un_tables _ Hc)). Qed.
Lemma unused_index t : t ∈ our_relations → ct_indexes c !! t = None.
Proof. apply (proj1 (Forall_forall _ _) (un_indexes _ Hc)). Qed.

Ltac named := apply (bool_decide_unpack _); exact I.
Ltac unused_names :=
  first [apply unused_type; named | apply unused_table; named | apply unused_index; named].
Ltac free := lookups; unused_names.
(** One statement of a file, by the lemma that applies. *)
Ltac next_stmt tac := erewrite exec_file_cons; [|tac]; reduced.
Ltac columns_known := cbn; unfold col_known; lookups.

Lemma unused_trigger g : g.1 ∈ our_tables → ct_triggers c !! g = None.
Proof.
  intros Hg. destruct (ct_triggers c !! g) eqn:Ht; [|done]. exfalso.
  by apply (un_triggers _ Hc) in Ht as [? _].
Qed.

Lemma init_up_exec : exec_file init_up c = Ok (stage1 c).
Proof.
  unfold init_up. next_stmt ltac:(reflexivity).
  do 2 next_stmt ltac:(apply exec_CreateType; free).
  next_stmt ltac:(apply exec_CreateTable; [free|free|named|columns_known]).
  do 2 next_stmt ltac:(eapply exec_CreateIndex; [free|free|lookups|reflexivity]).
  next_stmt ltac:(apply exec_CreateTable; [free|free|named|columns_known]).
  do 3 next_stmt ltac:(eapply exec_CreateIndex; [free|free|lookups|reflexivity]).
  next_stmt ltac:(reflexivity).
  next_stmt ltac:(apply exec_CreateTrigger; [lookups|lookups|by apply unused_trigger; named]).
  reflexivity.
Qed.

Lemma dead_letters_up_exec : exec_file dead_letters_up (stage1 c) = Ok (stage2 c).
Proof.
  unfold dead_letters_up.
  next_stmt ltac:(apply exec_CreateTable; [free|free|named|columns_known]).
  do 2 next_stmt ltac:(eapply exec_CreateIndex; [free|free|lookups|reflexivity]).
  reflexivity.
Qed.

Lemma replay_fields_up_exec : exec_file replay_fields_up (stage2 c) = Ok (stage3 c).
Proof.
  unfold replay_fields_up.
  next_stmt ltac:(eapply exec_AddColumns; [lookups|named|columns_known]).
  next_stmt ltac:(eapply exec_CreateIndex; [free|free|lookups|reflexivity]).
  reflexivity.
Qed.

(** What the catalogue held before has nothing to do with a table, or a type, of the program. *)
Lemma others_refer (f : Column → bool) t :
  t ∈ our_tables → (∀ k, refers_to t k = false → f k = false) →
  map_Forall (λ _ cols, forallb (negb ∘ f) cols = true) (ct_tables c).
Proof.
  intros Ht Hf t' cols Hcols. apply forallb_forall. intros k Hk%list_elem_of_In.
  pose proof (proj1 (Forall_forall _ _) (un_columns _ Hc t' cols Hcols) k Hk) as [_ Hr].
  cbn. apply negb_true_iff, Hf. exact (proj1 (Forall_forall _ _) Hr t Ht).
Qed.

Lemma others_droppable t :
  t ∈ our_tables →
  map_Forall (λ t' cols, t' = t ∨ forallb (negb ∘ refers_to t) cols = true) (ct_tables c).
Proof. intros Ht t' cols Hcols. right. by apply (others_refer (refers_to t) t Ht) with t'. Qed.

Lemma others_use t :
  t ∈ our_types → map_Forall (λ _ cols, forallb (negb ∘ uses_type t) cols = true) (ct_tables c).
Proof.
  intros Ht t' cols Hcols. apply forallb_forall. intros k Hk%list_elem_of_In.
  pose proof (proj1 (Forall_forall _ _) (un_columns _ Hc t' cols Hcols) k Hk) as [Hr _].
  cbn. apply negb_true_iff. exact (proj1 (Forall_forall _ _) Hr t Ht).
Qed.

Lemma others_indexed t : t ∈ our_tables → map_Forall (λ _ x, x.1 ≠ t) (ct_indexes c).
Proof. intros Ht i x Hx Heq. apply (un_indexed _ Hc i x Hx). by rewrite Heq. Qed.

Lemma others_triggered t : t ∈ our_tables → map_Forall (λ g _, g.1 ≠ t) (ct_triggers c).
Proof.
  intros Ht g f Hg Heq. destruct (un_triggers _ Hc g f Hg) as [Hn _]. apply Hn. by rewrite Heq.
Qed.

Lemma refers_into_to t names k : refers_to t k = false → refers_into t names k = false.
Proof.
  unfold refers_to, refers_into. destruct (col_references k) as [[[t' k'] a]|]; [|done].
  case_bool_decide; [done|]. done.
Qed.

Ltac each_table :=
  repeat (apply map_Forall_insert_2; [first [by left | by right | reflexivity]|]).

(** The entries that the program made, one by one. *)
Ltac each_entry :=
  repeat (apply map_Forall_insert_2; [cbn; first [named | done]|]).

Lemma replay_fields_down_exec : exec_file replay_fields_down (stage3 c) = Ok (stage2 c).
Proof.
  unfold replay_fields_down. next_stmt ltac:(reflexivity).
  next_stmt ltac:(eapply exec_DropColumns; [lookups|]).
  2: { cbn. each_table. apply (others_refer _ "dead_letters"); [named|]. intros k. apply refers_into_to. }
  cbn [exec_file]. f_equal. unfold stage3. reduced. rewrite delete_inserted by free.
  rewrite filter_kept.
  - unfold stage2. reduced. by rewrite !insert_insert_eq.
  - unfold stage2, stage1. reduced. each_entry. intros i x Hx [Ht _].
    by apply (others_indexed "dead_letters") in Hx; [|named].
Qed.

Lemma dead_letters_down_exec : exec_file dead_letters_down (stage2 c) = Ok (stage1 c).
Proof.
  unfold dead_letters_down. next_stmt ltac:(apply exec_DropTable).
  2: { cbn. each_table. apply others_droppable. named. }
  cbn [exec_file]. f_equal. unfold stage2. reduced. rewrite delete_inserted by free.
  rewrite !filter_inserted by (free || (cbn; tauto)).
  rewrite !filter_kept; [reflexivity|..]; unfold stage1; reduced; each_entry;
    [apply others_indexed; named|apply others_triggered; named].
Qed.

Lemma init_down_exec : exec_file init_down (stage1 c) = Ok (with_extension "pgcrypto" c).
Proof.
  unfold init_down, stage1. next_stmt ltac:(reflexivity).
  rewrite delete_inserted by (by apply unused_trigger; named).
  next_stmt ltac:(apply exec_DropFunction; intros g f Hg; apply (un_triggers _ Hc g f Hg)).
  rewrite delete_inserted by apply (un_function _ Hc).
  next_stmt ltac:(apply exec_DropTable; cbn; each_table; apply others_droppable; named).
  rewrite delete_inserted by free.
  rewrite !filter_inserted by (free || (cbn; tauto)).
  rewrite !filter_kept; [|each_entry..|]; [|apply others_indexed; named|apply others_triggered; named].
  next_stmt ltac:(apply exec_DropTable; cbn; each_table; apply others_droppable; named).
  rewrite delete_inserted by free.
  rewrite !filter_inserted by (free || (cbn; tauto)).
  rewrite !filter_kept; [|apply others_indexed; named|apply others_triggered; named].
  next_stmt ltac:(apply exec_DropType; cbn; apply others_use; named).
  next_stmt ltac:(apply exec_DropType; cbn; apply others_use; named).
  cbn [exec_file]. rewrite delete_insert_ne by done.
  rewrite (delete_inserted (ct_types c)) by free. rewrite delete_inserted by free. reflexivity.
Qed.
End files.

(** ** All of them *)

Section versions.
Context (c : Catalog) (Hc : unused c).

Definition at_version (n : nat) : Catalog :=
  match n with 0 => c | 1 => stage1 c | 2 => stage2 c | _ => stage3 c end%nat.

(** Down to version 0, the extension stays. *)
Definition back_at (n : nat) : Catalog :=
  match n with 0%nat => with_extension "pgcrypto" c | _ => at_version n end.

Lemma back_at_extended n : with_extension "pgcrypto" (back_at n) = back_at n.
Proof.
  destruct n as [|[|[|n]]]; unfold with_extension; cbn; f_equal;
    by rewrite (assoc_L (∪)), (idemp_L (∪)).
Qed.

(** One file up, and one down. *)
Lemma up_step n fs :
  migrations !! n = Some fs → exec_file fs.1 (at_version n) = Ok (at_version (S n)).
Proof.
  destruct n as [|[|[|n]]]; intros [= <-]; cbn [fst at_version];
    [by apply init_up_exec|by apply dead_letters_up_exec|by apply replay_fields_up_exec].
Qed.

Lemma down_step n fs :
  migrations !! n = Some fs → exec_file fs.2 (at_version (S n)) = Ok (back_at n).
Proof.
  destruct n as [|[|[|n]]]; intros [= <-]; cbn [snd at_version back_at];
    [by apply init_down_exec|by apply dead_letters_down_exec|by apply replay_fields_down_exec].
Qed.

Lemma migration_at n : (n < 3)%nat → is_Some (migrations !! n).
Proof. intros Hn. by apply lookup_lt_is_Some. Qed.

Lemma migrate_up_version k n :
  (n + k ≤ 3)%nat → migrate_up n (n + k) (at_version n) = Ok (at_version (n + k)).
Proof.
  unfold migrate_up. replace (n + k - n)%nat with k by lia.
  revert n. induction k as [|k IH]; intros n Hn; [by rewrite Nat.add_0_r|].
  destruct (migration_at n) as [fs Hfs]; [lia|].
  rewrite (drop_S _ fs.1) by (by rewrite list_lookup_fmap, Hfs).
  change (take (S k) (fs.1 :: drop (S n) migrations.*1))
    with (fs.1 :: take k (drop (S n) migrations.*1)).
  cbn [exec_files]. rewrite (up_step n fs Hfs). cbn [result_bind].
  rewrite IH by lia. by rewrite Nat.add_succ_comm.
Qed.

Lemma migrate_down_version k n :
  (n + k ≤ 3)%nat →
  migrate_down n (n + k) (at_version (n + k)) =
    Ok (if decide (k = 0%nat) then at_version n else back_at n).
Proof.
  unfold migrate_down. replace (n + k - n)%nat with k by lia.
  induction k as [|k IH]; intros Hn; [by rewrite Nat.add_0_r|].
  destruct (migration_at (n + k)) as [fs Hfs]; [lia|].
  rewrite (take_S_r _ _ fs.2) by (by rewrite lookup_drop, list_lookup_fmap, Hfs).
  rewrite reverse_app, Nat.add_succ_r. change (reverse [fs.2]) with [fs.2]. cbn [app exec_files].
  rewrite (down_step _ fs Hfs). cbn [result_bind]. destruct k as [|k].
  - by rewrite Nat.add_0_r.
  - replace (back_at (n + S k)) with (at_version (n + S k)) by (by rewrite Nat.add_succ_r).
    by rewrite IH by lia.
Qed.

(** Going from [c] to [c'] leaves what others have in the catalogue as it is, ... *)
Record others_kept (c' : Catalog) : Prop := {
  ok_extensions : ∀ e, e ≠ "pgcrypto" → e ∈ ct_extensions c' ↔ e ∈ ct_extensions c;
  ok_types : ∀ t, t ∉ our_types → ct_types c' !! t = ct_types c !! t;
  ok_tables : ∀ t, t ∉ our_tables → ct_tables c' !! t = ct_tables c !! t;
  ok_indexes : ∀ i, i ∉ our_indexes → ct_indexes c' !! i = ct_indexes c !! i;
  ok_functions : ∀ f, f ≠ "set_updated_at" → ct_functions c' !! f = ct_functions c !! f;
  ok_triggers : ∀ g, g ≠ ("jobs", "trg_jobs_updated_at") → ct_triggers c' !! g = ct_triggers c !! g;
}.

(** ... and makes what the program has in it what it is in the schema. *)
Record ours_made (c' : Catalog) : Prop := {
  om_extension : "pgcrypto" ∈ ct_extensions c';
  om_types : ∀ t, t ∈ our_types → ct_types c' !! t = ct_types schema !! t;
  om_tables : ∀ t, t ∈ our_tables → ct_tables c' !! t = ct_tables schema !! t;
  om_indexes : ∀ i, i ∈ our_indexes → ct_indexes c' !! i = ct_indexes schema !! i;
  om_function : ct_functions c' !! "set_updated_at" = ct_functions schema !! "set_updated_at";
  om_trigger : ct_triggers c' !! ("jobs", "trg_jobs_updated_at") =
               ct_triggers schema !! ("jobs", "trg_jobs_updated_at");
}.

(** Lookups of a name that is none of a list. *)
Ltac other_name := repeat (rewrite lookup_insert_ne by congruence); reflexivity.
Ltac not_ours := repeat match goal with
  | H : _ ∉ _ :: _ |- _ => apply not_elem_of_cons in H as [? H]
  end.

Lemma at_version_others n : others_kept (at_version n).
Proof.
  constructor.
  - intros e He. destruct n as [|[|[|n]]]; cbn; rewrite ?elem_of_union, ?elem_of_singleton; tauto.
  - intros t Ht. unfold our_types in Ht. not_ours.
    destruct n as [|[|[|n]]]; cbn; other_name.
  - intros t Ht. unfold our_tables in Ht. not_ours.
    destruct n as [|[|[|n]]]; cbn; other_name.
  - intros i Hi. unfold our_indexes in Hi. not_ours.
    destruct n as [|[|[|n]]]; cbn; other_name.
  - intros f Hf. destruct n as [|[|[|n]]]; cbn; other_name.
  - intros g Hg. destruct n as [|[|[|n]]]; cbn; other_name.
Qed.

(** Each name of a list. *)
Ltac each_name H := repeat (apply elem_of_cons in H as [->|H]); [..|by apply elem_of_nil in H].

Lemma version3_ours : ours_made (at_version 3).
Proof.
  constructor; cbn.
  - set_solver.
  - intros t Ht. each_name Ht; by lookups; vm_compute.
  - intros t Ht. each_name Ht; by lookups; vm_compute.
  - intros t Ht. each_name Ht; by lookups; vm_compute.
  - by lookups; vm_compute.
  - by lookups; vm_compute.
Qed.

(** C32: going up and coming back: in a database where nothing has the program's names or depends
    on them, the migrations run without error from any version to any later one; the last one
    leaves the extension, the types, tables, indexes, the function and the trigger of the
    schema; the down files, in the reverse order, bring back the catalogue as it was - but for
    the extension pgcrypto, which stays -; and on the way, at every version, every other
    extension, type, table, index, function and trigger is as it was at the beginning. *)
Theorem migrations_roundtrip n m :
  (n ≤ m ≤ 3)%nat →
  ∃ c1 c2 c3, migrate_up 0 n c = Ok c1 ∧ migrate_up n m c1 = Ok c2 ∧ migrate_down n m c2 = Ok c3 ∧
    with_extension "pgcrypto" c3 = with_extension "pgcrypto" c1 ∧
    others_kept c1 ∧ others_kept c2 ∧ others_kept c3 ∧
    (m = 3%nat → ours_made c2).
Proof.
  intros [Hnm Hm]. apply Nat.le_sum in Hnm as [k ->].
  exists (at_version n), (at_version (n + k)),
    (if decide (k = 0%nat) then at_version n else back_at n). split_and!.
  - apply (migrate_up_version n 0). lia.
  - by apply migrate_up_version.
  - by apply migrate_down_version.
  - destruct (decide (k = 0%nat)); [done|]. rewrite back_at_extended. destruct n as [|n]; [done|].
    exact (eq_sym (back_at_extended (S n))).
  - apply at_version_others.
  - apply at_version_others.
  - destruct (decide (k = 0%nat)); [apply at_version_others|].
    destruct n as [|n]; [|apply (at_version_others (S n))].
    constructor; try done. intros e He. cbn. rewrite elem_of_union, elem_of_singleton. tauto.
  - intros ->. apply version3_ours.
Qed.
End versions.
