(* ===== verification/Lifecycle.v ===== *)
(** * The life of a job: the abstract specification of the jobs table

    [job_next] is the state machine that one row of the table follows: what a single
    statement of any process may do to it. [JobsInv] is the well-formedness of the whole
    table. The repositories refine the machine and keep the invariant; the theorems about
    whole systems are consequences of these two. *)

From S2P Require Import Prelude GoStd Models Json World.

(** collector/result_collector.go: a failed job with this many attempts is dead. *)
Definition maxAttempts : Z := 3.

(** Jobs the dispatcher may hand out. *)
Definition pending (j : Job) : bool :=
  bool_decide (job_Status j = JobStatusQueued) || bool_decide (job_Status j = JobStatusRetrying).

(** Jobs that a client may cancel. *)
Definition cancellable (j : Job) : bool :=
  bool_decide (job_Status j = JobStatusQueued) || bool_decide (job_Status j = JobStatusRunning)
  || bool_decide (job_Status j = JobStatusRetrying).

(** What no statement changes. *)
Definition same_identity (j j' : Job) : Prop :=
  job_ID j' = job_ID j ∧ job_Type j' = job_Type j ∧ job_Payload j' = job_Payload j ∧
  job_Priority j' = job_Priority j ∧ job_CreatedAt j' = job_CreatedAt j.

(** One step of a job, when the workers are those of [ws]. *)
Inductive job_next (ws : gmap uuid Worker) (j j' : Job) : Prop :=
| next_same : j' = j → job_next ws j j'
| next_dispatch wid :
    same_identity j j' → pending j = true → is_Some (ws !! wid) →
    job_Status j' = JobStatusRunning → job_WorkerID j' = Some wid →
    job_Attempts j' = job_Attempts j + 1 → int32_ok (job_Attempts j') = true →
    job_next ws j j'
| next_requeue :
    same_identity j j' → job_Status j = JobStatusRunning →
    job_Status j' = JobStatusQueued → job_WorkerID j' = None →
    job_Attempts j' = job_Attempts j → job_next ws j j'
| next_cancel :
    same_identity j j' → cancellable j = true →
    job_Status j' = JobStatusDead → job_WorkerID j' = job_WorkerID j →
    job_Attempts j' = job_Attempts j → job_next ws j j'
| next_complete :
    same_identity j j' →
    job_Status j' = JobStatusCompleted → job_WorkerID j' = job_WorkerID j →
    job_Attempts j' = job_Attempts j → job_next ws j j'
| next_retry :
    same_identity j j' → job_Attempts j < maxAttempts →
    job_Status j' = JobStatusRetrying → job_WorkerID j' = job_WorkerID j →
    job_Attempts j' = job_Attempts j → job_next ws j j'
| next_give_up :
    same_identity j j' → maxAttempts ≤ job_Attempts j →
    job_Status j' = JobStatusDead → job_WorkerID j' = job_WorkerID j →
    job_Attempts j' = job_Attempts j → job_next ws j j'.

(** A row: absent, inserted as a new job, or moved by one step; never deleted. *)
Inductive row_next (ws : gmap uuid Worker) (id : uuid) : option Job → option Job → Prop :=
| row_absent : row_next ws id None None
| row_insert j :
    job_ID j = id → job_Status j = JobStatusQueued → job_Attempts j = 0 →
    job_WorkerID j = None → json_text (job_Payload j) → row_next ws id None (Some j)
| row_update j j' : job_next ws j j' → row_next ws id (Some j) (Some j').

(** Well-formed rows. *)
Record job_ok (ws : gmap uuid Worker) (id : uuid) (j : Job) : Prop := {
  ok_key : job_ID j = id;
  ok_payload : json_text (job_Payload j);
  ok_attempts : 0 ≤ job_Attempts j;
  ok_int32 : int32_ok (job_Attempts j) = true;
  ok_not_failed : job_Status j ≠ JobStatusFailed;
  ok_queued : job_Status j = JobStatusQueued → job_WorkerID j = None;
  ok_running : job_Status j = JobStatusRunning → is_Some (job_WorkerID j) ∧ 1 ≤ job_Attempts j;
  ok_retrying : job_Status j = JobStatusRetrying → job_Attempts j < maxAttempts;
  ok_worker : ∀ wid, job_WorkerID j = Some wid → is_Some (ws !! wid);
}.

(** A dead letter: inserted open, replayed (perhaps more than once), deleted. *)
Definition dl_same_identity (d d' : DeadLetter) : Prop :=
  dl_ID d' = dl_ID d ∧ dl_JobID d' = dl_JobID d ∧ dl_WorkerID d' = dl_WorkerID d ∧
  dl_JobType d' = dl_JobType d ∧ dl_Payload d' = dl_Payload d ∧
  dl_Attempts d' = dl_Attempts d ∧ dl_Error d' = dl_Error d ∧
  dl_CreatedAt d' = dl_CreatedAt d.

Inductive dl_next (id : uuid) : option DeadLetter → option DeadLetter → Prop :=
| dl_stays o : dl_next id o o
| dl_insert d :
    dl_ID d = id → dl_Status d = "OPEN" → dl_ReplayedAt d = None →
    dl_ReplayedJobID d = None → json_text (dl_Payload d) → dl_next id None (Some d)
| dl_replay d d' now jid :
    dl_same_identity d d' → dl_Status d' = "REPLAYED" → dl_ReplayedAt d' = Some now →
    dl_ReplayedJobID d' = Some jid → dl_next id (Some d) (Some d')
| dl_delete d : dl_next id (Some d) None.

Record dl_ok (id : uuid) (d : DeadLetter) : Prop := {
  dl_ok_key : dl_ID d = id;
  dl_ok_payload : json_text (dl_Payload d);
  dl_ok_status :
    (dl_Status d = "OPEN" ∧ dl_ReplayedAt d = None ∧ dl_ReplayedJobID d = None) ∨
    (dl_Status d = "REPLAYED" ∧ is_Some (dl_ReplayedAt d) ∧ is_Some (dl_ReplayedJobID d));
}.

(** A worker keeps its identifier and registration time. *)
Definition worker_ok (id : uuid) (x : Worker) : Prop :=
  worker_ID x = id ∧ int32_ok (worker_RunningJobs x) = true.

Section world.
Context `{E : Env}.

Definition JobsInv (w : World) : Prop :=
  ∀ id j, w_jobs w !! id = Some j → job_ok (w_workers w) id j.
Definition WorkersInv (w : World) : Prop :=
  ∀ id x, w_workers w !! id = Some x → worker_ok id x.
Definition DeadInv (w : World) : Prop :=
  ∀ id d, w_dead w !! id = Some d → dl_ok id d.

(** The three tables are well-formed. *)
Record Inv (w : World) : Prop := {
  inv_jobs : JobsInv w;
  inv_workers : WorkersInv w;
  inv_dead : DeadInv w;
}.

(** What one atomic action may do: every job and every dead letter makes at most one step
    of its machine, workers stay registered, and the log only grows. *)
Definition world_step (w w' : World) : Prop :=
  (∀ id, row_next (w_workers w) id (w_jobs w !! id) (w_jobs w' !! id)) ∧
  (∀ id, dl_next id (w_dead w !! id) (w_dead w' !! id)) ∧
  (∀ wid x, w_workers w !! wid = Some x →
     ∃ x', w_workers w' !! wid = Some x' ∧ worker_CreatedAt x' = worker_CreatedAt x) ∧
  w_log w `prefix_of` w_log w'.
End world.

(** What becomes of a row of the jobs table in any time. *)
Definition job_later (j j' : Job) : Prop :=
  same_identity j j' ∧ job_Attempts j ≤ job_Attempts j'.

(** What becomes of a dead letter as long as it is there: it keeps everything but its replay
    mark, and the mark, once set, stays. *)
Definition dl_later (d d' : DeadLetter) : Prop :=
  dl_same_identity d d' ∧ (dl_Status d = "REPLAYED" → dl_Status d' = "REPLAYED").

(** What becomes of the world in any time: jobs keep their identity and workers their
    registration, and nothing leaves the topics. *)
Definition world_later `{Env} (w w' : World) : Prop :=
  (∀ id j, w_jobs w !! id = Some j → ∃ j', w_jobs w' !! id = Some j' ∧ job_later j j') ∧
  (∀ wid, is_Some (w_workers w !! wid) → is_Some (w_workers w' !! wid)) ∧
  w_log w `prefix_of` w_log w'.

(** ** Lemmas *)

#[export] Instance dl_later_preorder : PreOrder dl_later.
Proof.
  split; [by intros d|].
  intros d1 d2 d3 [(? & ? & ? & ? & ? & ? & ? & ?) Hs] [(? & ? & ? & ? & ? & ? & ? & ?) Hs'].
  split; [|by auto]. unfold dl_same_identity. split_and!; congruence.
Qed.

(** A step of a letter's machine keeps the letter, or deletes it. *)
Lemma dl_next_later id d o :
  dl_next id (Some d) o → o = None ∨ ∃ d', o = Some d' ∧ dl_later d d'.
Proof.
  inversion 1; subst; [right; by eexists|right|by left].
  eexists. split; [done|]. by split.
Qed.

Lemma same_identity_refl j : same_identity j j.
Proof. by repeat split. Qed.
#[export] Hint Resolve same_identity_refl : sched.

Lemma row_next_refl ws id o : row_next ws id o o.
Proof. destruct o; constructor. by apply next_same. Qed.
#[export] Hint Resolve row_next_refl : sched.

Lemma int32_ok_0 : int32_ok 0 = true.
Proof. done. Qed.

(** The machine keeps rows well-formed. *)
Lemma job_next_ok ws id j j' : job_ok ws id j → job_next ws j j' → job_ok ws id j'.
Proof.
  intros [] Hn. unfold maxAttempts in *.
  destruct Hn as [->|wid (?&?&?&?&?)|(?&?&?&?&?)|(?&?&?&?&?)|(?&?&?&?&?)|(?&?&?&?&?)|(?&?&?&?&?)];
    [by constructor|..]; constructor; unfold maxAttempts;
    repeat match goal with
           | H : ?f j' = _ |- context [?f j'] => rewrite H
           end;
    first [done | congruence | lia | intros; simplify_eq; eauto].
  split; [done|lia].
Qed.

Lemma row_next_ok ws id o j' :
  (∀ j, o = Some j → job_ok ws id j) → row_next ws id o (Some j') → job_ok ws id j'.
Proof.
  intros Ho Hn. inversion Hn; simplify_eq.
  - constructor; try done; unfold maxAttempts; try congruence; try lia.
    by replace (job_Attempts j') with 0.
  - eapply job_next_ok; eauto.
Qed.

Lemma dl_next_ok id o d' :
  (∀ d, o = Some d → dl_ok id d) → dl_next id o (Some d') → dl_ok id d'.
Proof.
  intros Ho Hn. inversion Hn as [| |d ? ? ? Hs|]; simplify_eq.
  - by apply Ho.
  - constructor; eauto.
  - destruct (Ho d eq_refl) as [Hk Hp _]. destruct Hs as (? & ? & ? & ? & ? & ?).
    constructor; [congruence|congruence|]. right. split_and!; eauto.
Qed.

Lemma job_later_refl j : job_later j j.
Proof. split; [apply same_identity_refl|lia]. Qed.

Lemma job_next_later ws j j' : job_next ws j j' → job_later j j'.
Proof.
  intros [->|wid Hid|Hid|Hid|Hid|Hid|Hid]; [apply job_later_refl|..]; split; done || lia.
Qed.

Lemma job_later_trans j1 j2 j3 : job_later j1 j2 → job_later j2 j3 → job_later j1 j3.
Proof.
  intros [(?&?&?&?&?) ?] [(?&?&?&?&?) ?]. split; [|lia]. split_and!; congruence.
Qed.

Section world_lemmas.
Context `{E : Env}.

#[export] Instance world_later_preorder : PreOrder world_later.
Proof.
  split.
  - intros w. split_and!; [|done|done]. intros id j Hj. exists j.
    split; [done|apply job_later_refl].
  - intros w1 w2 w3 (Hj1 & Hw1 & Hl1) (Hj2 & Hw2 & Hl2). split_and!; [|auto|by etransitivity].
    intros id j Hj. destruct (Hj1 id j Hj) as (j2 & Hj' & H12).
    destruct (Hj2 id j2 Hj') as (j3 & Hj3 & H23). exists j3. split; [done|].
    by eapply job_later_trans.
Qed.

(** One step is a step in time. *)
Lemma world_step_later w w' : world_step w w' → world_later w w'.
Proof.
  intros (Hj & _ & Hw & Hl). split_and!; [| |done].
  - intros id j Hid. specialize (Hj id). rewrite Hid in Hj.
    inversion Hj as [| |? j' Hn Ho Ho']; subst. exists j'. split; [done|].
    by eapply job_next_later.
  - intros wid [x Hx]. destruct (Hw wid x Hx) as (x' & Hx' & _). by exists x'.
Qed.

#[export] Instance world_step_refl : Reflexive world_step.
Proof.
  intros w. split_and!; [|constructor| |done]; [|eauto].
  intros id. apply row_next_refl.
Qed.

(** A statement on the jobs table that follows the machine keeps the invariant. *)
Lemma jobs_update_safe w t :
  Inv w →
  (∀ id, row_next (w_workers w) id (w_jobs w !! id) (t !! id)) →
  Inv (set_jobs t w) ∧ world_step w (set_jobs t w).
Proof.
  intros [HJ HW HD] Hn. split; [|split_and!; [done|constructor|eauto|done]].
  constructor; [|done..].
  intros id j' Hj'. cbn in *. eapply row_next_ok; [|by rewrite <- Hj'].
  intros j Hj. by apply HJ.
Qed.

(** Registering or changing workers does not touch the jobs. *)
Lemma workers_update_safe w t :
  Inv w →
  (∀ wid x, w_workers w !! wid = Some x →
     ∃ x', t !! wid = Some x' ∧ worker_CreatedAt x' = worker_CreatedAt x) →
  (∀ wid x, t !! wid = Some x → worker_ok wid x) →
  Inv (set_workers t w) ∧ world_step w (set_workers t w).
Proof.
  intros [HJ HW HD] Ht Hok. split.
  - constructor; [|done..]. intros id j Hj. destruct (HJ id j Hj). constructor; try done.
    intros wid Hwid. destruct (ok_worker0 wid Hwid) as [x Hx].
    destruct (Ht wid x Hx) as (x' & Hx' & _). by exists x'.
  - split_and!; [|constructor|done|done]. intros id. apply row_next_refl.
Qed.

Lemma dead_update_safe w t :
  Inv w →
  (∀ id, dl_next id (w_dead w !! id) (t !! id)) →
  Inv (set_dead t w) ∧ world_step w (set_dead t w).
Proof.
  intros [HJ HW HD] Hn. split.
  - constructor; [done..|]. intros id d Hd. cbn in *.
    eapply dl_next_ok; [|by rewrite <- Hd]. intros d0 Hd0. by apply HD.
  - split_and!; [|done|eauto|done]. intros id. apply row_next_refl.
Qed.

(** Neither do the other parts of the world. *)
Lemma frame_safe w w' :
  Inv w → w_jobs w' = w_jobs w → w_workers w' = w_workers w → w_dead w' = w_dead w →
  w_log w `prefix_of` w_log w' → Inv w' ∧ world_step w w'.
Proof.
  intros [HJ HW HD] Hj Hw Hd Hl. split.
  - constructor.
    + intros id j. rewrite Hj, Hw. apply HJ.
    + intros id x. rewrite Hw. apply HW.
    + intros id d. rewrite Hd. apply HD.
  - split_and!; [| |rewrite Hw; eauto|done].
    + intros id. rewrite Hj. apply row_next_refl.
    + intros id. rewrite Hd. constructor.
Qed.
End world_lemmas.
#[export] Hint Resolve world_step_refl : sched.
