(* ===== verification/JobsRepo.v ===== *)
(** * The jobs repository: internal/repository/jobs.go

    The interface [JobsRepository], its SQL statements as atomic actions on the jobs table,
    and the PostgreSQL implementation [pgJobsRepo]. The interface's promise to its clients is
    [JobsRepositorySafe]; [pgJobsRepo_safe] discharges it. *)

From S2P Require Import Prelude GoStd Models Json World Sql Columns Lifecycle.

(** ListParams; the status is the raw text of the query string. *)
Record ListParams : Type := mkListParams {
  lp_Status : option string;
  lp_Type : option string;
  lp_Limit : Z;
  lp_Offset : Z;
}.

Class JobsRepository `{Env} : Type := {
  Jobs_Create : Job → Prog (Res Job);
  Jobs_Cancel : uuid → Prog (Res unit);
  Jobs_Get : uuid → Prog (Res Job);
  Jobs_List : ListParams → Prog (Res (list Job));
  Jobs_FetchPending : uuid → Z → Prog (Res (list Job));
  Jobs_RequeueStale : Z → Prog (Res Z);
  Jobs_MarkCompleted : uuid → Prog (Res unit);
  Jobs_MarkFailed : uuid → Z → Prog (Res JobStatus);
  Jobs_FetchAssigned : uuid → Prog (Res (list Job));
  Jobs_RollbackToQueued : uuid → Prog (Res unit);
}.

(** ** Statements *)

Section statements.
Context `{E : Env}.

(** BEFORE UPDATE trigger trg_jobs_updated_at: NEW.updated_at = now(). *)
Definition set_updated_at (now : Time) (f : Job → Job) : Job → Job :=
  λ j, job_set_updated now (f j).

(** INSERT INTO jobs (id, status, type, payload, priority) ... RETURNING ...: attempts,
    worker_id and the timestamps take the table's defaults; a nil payload is sent as NULL. *)
Definition sql_insert_job (j : Job) : action Job := λ inp w,
  match job_Payload j with
  | None => (Err not_null_violation, w)
  | Some p =>
      if negb (pg_text (job_Type j)) then (Err character_not_in_repertoire, w)
      else match jsonb p, w_jobs w !! job_ID j with
           | None, _ => (Err invalid_text_representation, w)
           | _, Some _ => (Err unique_violation, w)
           | Some doc, None =>
               let row := mkJob (job_ID j) JobStatusQueued (job_Type j) (Some doc)
                            (job_Priority j) 0 None (in_now inp) (in_now inp) in
               (Ok row, set_jobs (<[job_ID j := row]> (w_jobs w)) w)
           end
  end.

(** UPDATE jobs SET ... WHERE id = $1 AND p: the command tag's row count. *)
Definition sql_update_job (id : uuid) (p : Job → bool) (f : Job → Job) : action Z :=
  λ inp w,
    let '(t, n) := update_id id p (set_updated_at (in_now inp) f) (w_jobs w) in
    (Ok n, set_jobs t w).

Definition sql_select_job (id : uuid) : action Job := λ _ w,
  (match w_jobs w !! id with Some j => Ok j | None => Err ErrNoRows end, w).

(** ORDER BY priority DESC, created_at ASC *)
Definition dispatch_leb (a b : Job) : bool :=
  (job_Priority b <? job_Priority a)
  || ((job_Priority a =? job_Priority b) && (job_CreatedAt a <=? job_CreatedAt b)).

(** The CTE of FetchPending: the first rows of the queue that nobody holds locked. *)
Definition picked (locked : gset uuid) (limit : Z) (t : gmap uuid Job) : list Job :=
  take (Z.to_nat limit)
    (order_by dispatch_leb
      (List.filter (λ j, pending j && negb (bool_decide (job_ID j ∈ locked))) (rows t))).

(** SET status = 'RUNNING', worker_id = $2, attempts = jobs.attempts + 1 *)
Definition dispatch_row (wid : uuid) (j : Job) : Job :=
  job_set_status JobStatusRunning
    (job_set_worker (Some wid) (job_set_attempts (job_Attempts j + 1) j)).

Definition sql_fetch_pending (wid : uuid) (limit : Z) : action (list Job) := λ inp w,
  if limit <? 0 then (Err invalid_limit, w)
  else
    let ps := picked (in_locked inp) limit (w_jobs w) in
    let f := set_updated_at (in_now inp) (dispatch_row wid) in
    if negb (forallb (λ j, int32_ok (job_Attempts j + 1)) ps)
    then (Err numeric_value_out_of_range, w)
    else if negb (bool_decide (ps = [])) && bool_decide (w_workers w !! wid = None)
    then (Err foreign_key_violation, w)
    else
      (Ok (order_by (λ _ _, true) (f <$> ps)),
       set_jobs (update_where (λ j, bool_decide (job_ID j ∈ job_ID <$> ps)) f (w_jobs w)).1 w).

(** The subquery of RequeueStale: workers without a recent heartbeat, or marked. *)
Definition stale_worker (now : Time) (staleSeconds : Z) (x : Worker) : bool :=
  is_true (tri_or (sql_lt (worker_LastHeartBeat x) (ago now staleSeconds))
                  (Some (bool_decide (worker_Status x = WorkerStatusUnhealty)))).

Definition stale_workers (now : Time) (staleSeconds : Z) (t : gmap uuid Worker) : list uuid :=
  worker_ID <$> List.filter (stale_worker now staleSeconds) (rows t).

Definition requeue_row (j : Job) : Job :=
  job_set_status JobStatusQueued (job_set_worker None j).

Definition requeueable (dead : list uuid) (j : Job) : bool :=
  is_true (tri_and (Some (bool_decide (job_Status j = JobStatusRunning)))
                   (sql_in (job_WorkerID j) dead)).

Definition sql_requeue_stale (staleSeconds : Z) : action Z := λ inp w,
  let dead := stale_workers (in_now inp) staleSeconds (w_workers w) in
  let '(t, n) := update_where (requeueable dead) (set_updated_at (in_now inp) requeue_row)
                   (w_jobs w) in
  (Ok n, set_jobs t w).

(** CASE WHEN attempts >= $2 THEN 'DEAD' ELSE 'RETRYING' END *)
Definition failed_status (maxAtt : Z) (j : Job) : JobStatus :=
  if maxAtt <=? job_Attempts j then JobStatusDead else JobStatusRetrying.

Definition sql_mark_failed (id : uuid) (maxAtt : Z) : action JobStatus := λ inp w,
  match w_jobs w !! id with
  | None => (Err ErrNoRows, w)
  | Some j =>
      let row := set_updated_at (in_now inp) (job_set_status (failed_status maxAtt j)) j in
      (Ok (job_Status row), set_jobs (<[id := row]> (w_jobs w)) w)
  end.

Definition sql_select_assigned (wid : uuid) : action (list Job) := λ _ w,
  (Ok (order_by (λ _ _, true)
         (List.filter (λ j, bool_decide (job_WorkerID j = Some wid)
                            && bool_decide (job_Status j = JobStatusRunning))
            (rows (w_jobs w)))), w).

(** The query that List builds: each condition holds the number of its placeholder. *)
Inductive Arg : Type := ArgStatus (s : string) | ArgType (s : string) | ArgInt (n : Z).
Inductive Cond : Type := CondStatus (n : nat) | CondType (n : nat).
Record ListQuery : Type := mkListQuery {
  lq_conds : list Cond;
  lq_limit : nat;
  lq_offset : nat;
  lq_args : list Arg;
}.

(** [argN++; args = append(args, v); return "$argN"] *)
Definition addArg (v : Arg) (args : list Arg) : nat * list Arg :=
  (S (length args), args ++ [v]).

Definition list_query (p : ListParams) : ListQuery :=
  let '(c1, a1) :=
    match lp_Status p with
    | Some s => let '(n, a) := addArg (ArgStatus s) [] in ([CondStatus n], a)
    | None => ([], [])
    end in
  let '(c2, a2) :=
    match lp_Type p with
    | Some s => let '(n, a) := addArg (ArgType s) a1 in (c1 ++ [CondType n], a)
    | None => (c1, a1)
    end in
  let '(nl, a3) := addArg (ArgInt (lp_Limit p)) a2 in
  let '(no, a4) := addArg (ArgInt (lp_Offset p)) a3 in
  mkListQuery c2 nl no a4.

(** Placeholder $n is the n-th argument, counted from 1. *)
Definition placeholder (args : list Arg) (n : nat) : option Arg := args !! (n - 1)%nat.

(** A condition as the server reads it: a text that is no job_status is refused. *)
Definition cond_pred (args : list Arg) (c : Cond) : Res (Job → bool) :=
  match c with
  | CondStatus n =>
      match placeholder args n with
      | Some (ArgStatus s) =>
          match JobStatus_parse s with
          | Some st => Ok (λ j, bool_decide (job_Status j = st))
          | None => Err invalid_text_representation
          end
      | _ => Err invalid_text_representation
      end
  | CondType n =>
      match placeholder args n with
      | Some (ArgType s) =>
          if pg_text s then Ok (λ j, bool_decide (job_Type j = s))
          else Err character_not_in_repertoire
      | _ => Err invalid_text_representation
      end
  end.

Fixpoint where_pred (args : list Arg) (cs : list Cond) : Res (Job → bool) :=
  match cs with
  | [] => Ok (λ _, true)
  | c :: cs' =>
      result_bind (cond_pred args c) (λ f,
      result_bind (where_pred args cs') (λ g, Ok (λ j, f j && g j)))
  end.

(** ORDER BY created_at DESC *)
Definition newest_leb (a b : Job) : bool := job_CreatedAt b <=? job_CreatedAt a.

Definition sql_list_jobs (q : ListQuery) : action (list Job) := λ _ w,
  (result_bind (where_pred (lq_args q) (lq_conds q)) (λ f,
     match placeholder (lq_args q) (lq_limit q), placeholder (lq_args q) (lq_offset q) with
     | Some (ArgInt limit), Some (ArgInt offset) =>
         limit_offset limit offset (order_by newest_leb (List.filter f (rows (w_jobs w))))
     | _, _ => Err invalid_text_representation
     end), w).

(** ** The methods of pgJobsRepo *)

(** pgx.ErrNoRows becomes repository.ErrNotFound. *)
Definition not_found {A} (r : Res A) : Res A :=
  match r with
  | Err e => if errors_Is e ErrNoRows then Err ErrNotFound else Err e
  | Ok a => Ok a
  end.

(** An Exec: its error wrapped (with no message: returned as it is), ErrNotFound when it
    affects no row. *)
Definition exec_one (wrap : error → error) (tag : Res Z) : Res unit :=
  match tag with
  | Err e => Err (wrap e)
  | Ok n => if n =? 0 then Err ErrNotFound else Ok tt
  end.

Definition wrap_result {A} (msg : string) (r : Res A) : Res A :=
  match r with Err e => Err (Wrap msg e) | Ok a => Ok a end.

Definition Create (j : Job) : Prog (Res Job) :=
  let! row := call (sql_insert_job j) in Ret (scanJob row).

Definition Cancel (id : uuid) : Prog (Res unit) :=
  let! tag := call (sql_update_job id cancellable (job_set_status JobStatusDead)) in
  Ret (exec_one (Wrap "cancel job") tag).

Definition Get (id : uuid) : Prog (Res Job) :=
  let! row := call (sql_select_job id) in Ret (not_found (scanJob row)).

Definition List_ (p : ListParams) : Prog (Res (list Job)) :=
  let p' := if lp_Limit p <=? 0
            then mkListParams (lp_Status p) (lp_Type p) 50 (lp_Offset p) else p in
  let! rs := call (sql_list_jobs (list_query p')) in
  Ret (result_bind (wrap_result "list jobs" rs) (scan_rows scanJob)).

Definition FetchPending (workerID : uuid) (limit : Z) : Prog (Res (list Job)) :=
  let! rs := call (sql_fetch_pending workerID limit) in
  Ret (result_bind (wrap_result "fetch pending jobs" rs) (scan_rows scanJob)).

Definition RequeueStale (staleSeconds : Z) : Prog (Res Z) :=
  let! tag := call (sql_requeue_stale staleSeconds) in
  Ret (wrap_result "requeue stale jobs" tag).

Definition setStatus (id : uuid) (status : JobStatus) : Prog (Res unit) :=
  let! tag := call (sql_update_job id (λ _, true) (job_set_status status)) in
  Ret (exec_one (λ e, e) tag).

Definition MarkCompleted (id : uuid) : Prog (Res unit) := setStatus id JobStatusCompleted.

Definition MarkFailed (id : uuid) (maxAtt : Z) : Prog (Res JobStatus) :=
  let! r := call (sql_mark_failed id maxAtt) in Ret (not_found r).

Definition FetchAssigned (workerID : uuid) : Prog (Res (list Job)) :=
  let! rs := call (sql_select_assigned workerID) in
  Ret (result_bind (wrap_result "fetch assigned jobs" rs) (scan_rows scanJob)).

Definition RollbackToQueued (id : uuid) : Prog (Res unit) :=
  let! tag := call (sql_update_job id
                      (λ j, bool_decide (job_Status j = JobStatusRunning)) requeue_row) in
  Ret (exec_one (Wrap "rollback job to queued") tag).
End statements.

#[export] Instance pgJobsRepo `{Env} : JobsRepository := {|
  Jobs_Create := Create;
  Jobs_Cancel := Cancel;
  Jobs_Get := Get;
  Jobs_List := List_;
  Jobs_FetchPending := FetchPending;
  Jobs_RequeueStale := RequeueStale;
  Jobs_MarkCompleted := MarkCompleted;
  Jobs_MarkFailed := MarkFailed;
  Jobs_FetchAssigned := FetchAssigned;
  Jobs_RollbackToQueued := RollbackToQueued;
|}.

(** What every implementation of the interface promises: each method, under any
    interleaving and with any failure, moves jobs along their machine and keeps the table
    well-formed; the jobs that FetchPending returns are the worker's, running, at most
    [limit] of them and all different. *)
Definition fetched (wid : uuid) (limit : Z) (r : Res (list Job)) : Prop :=
  ∀ js, r = Ok js →
    Z.of_nat (length js) ≤ Z.max 0 limit ∧ NoDup (job_ID <$> js) ∧
    Forall (λ j, job_Status j = JobStatusRunning ∧ job_WorkerID j = Some wid ∧
                 1 ≤ job_Attempts j ∧ json_text (job_Payload j)) js.

Class JobsRepositorySafe `{E : Env} (J : JobsRepository) : Prop := {
  Create_safe j : prog_safe Inv world_step (Jobs_Create j);
  Cancel_safe id : prog_safe Inv world_step (Jobs_Cancel id);
  Get_safe id : prog_safe Inv world_step (Jobs_Get id);
  List_safe p : prog_safe Inv world_step (Jobs_List p);
  FetchPending_safe wid limit :
    prog_spec Inv world_step (Jobs_FetchPending wid limit) (fetched wid limit);
  RequeueStale_safe n : prog_safe Inv world_step (Jobs_RequeueStale n);
  MarkCompleted_safe id : prog_safe Inv world_step (Jobs_MarkCompleted id);
  MarkFailed_safe id : prog_safe Inv world_step (Jobs_MarkFailed id maxAttempts);
  FetchAssigned_safe wid : prog_safe Inv world_step (Jobs_FetchAssigned wid);
  RollbackToQueued_safe id : prog_safe Inv world_step (Jobs_RollbackToQueued id);
}.

#[export] Hint Resolve Create_safe Cancel_safe Get_safe List_safe RequeueStale_safe
  MarkCompleted_safe MarkFailed_safe FetchAssigned_safe RollbackToQueued_safe : sched.

(** ** Lemmas on the queue *)

Lemma dispatch_leb_total a b : dispatch_leb a b = true ∨ dispatch_leb b a = true.
Proof.
  unfold dispatch_leb. rewrite !orb_true_iff, !andb_true_iff, !Z.ltb_lt, !Z.eqb_eq, !Z.leb_le.
  lia.
Qed.

Lemma dispatch_leb_trans a b c :
  dispatch_leb a b = true → dispatch_leb b c = true → dispatch_leb a c = true.
Proof.
  unfold dispatch_leb. rewrite !orb_true_iff, !andb_true_iff, !Z.ltb_lt, !Z.eqb_eq, !Z.leb_le.
  lia.
Qed.

Lemma newest_leb_total a b : newest_leb a b = true ∨ newest_leb b a = true.
Proof. unfold newest_leb. rewrite !Z.leb_le. lia. Qed.

Lemma newest_leb_trans a b c :
  newest_leb a b = true → newest_leb b c = true → newest_leb a c = true.
Proof. unfold newest_leb. rewrite !Z.leb_le. lia. Qed.

Section queue.
Context `{E : Env, !OrderByLaws}.
Implicit Types w : World.

Lemma elem_of_order_by {A} (leb : A → A → bool) l x : x ∈ order_by leb l ↔ x ∈ l.
Proof. by rewrite (order_by_Permutation leb l). Qed.

Lemma length_order_by {A} (leb : A → A → bool) l : length (order_by leb l) = length l.
Proof. by rewrite (order_by_Permutation leb l). Qed.

(** ORDER BY sorts for any relation that its comparison decides. *)
Lemma order_by_sorted_by {A} (leb : A → A → bool) (R : A → A → Prop) l :
  (∀ x y, leb x y = true ∨ leb y x = true) →
  (∀ x y z, leb x y = true → leb y z = true → leb x z = true) →
  (∀ x y, leb x y = true → R x y) →
  StronglySorted R (order_by leb l).
Proof. intros Ht Htr HR. eapply StronglySorted_weaken, order_by_Sorted; done. Qed.

(** Keyed tables: a row is found under its own identifier. *)
Lemma rows_keyed w j : JobsInv w → j ∈ rows (w_jobs w) → w_jobs w !! job_ID j = Some j.
Proof. intros HI [k Hk]%elem_of_rows. by rewrite (ok_key _ _ _ (HI k j Hk)). Qed.

Lemma NoDup_rows_ID w : JobsInv w → NoDup (job_ID <$> rows (w_jobs w)).
Proof.
  intros HI. apply NoDup_rows_key. intros k j Hj. by apply (ok_key (w_workers w)), HI.
Qed.

Lemma elem_of_picked w locked limit j :
  JobsInv w → j ∈ picked locked limit (w_jobs w) →
  w_jobs w !! job_ID j = Some j ∧ pending j = true ∧ job_ID j ∉ locked.
Proof.
  intros HI Hj%elem_of_take_list.
  apply elem_of_order_by, elem_of_filter_bool in Hj as [Hp Hj].
  to_prop. split_and!; [by apply rows_keyed|done|done].
Qed.

Lemma NoDup_picked w locked limit :
  JobsInv w → NoDup (job_ID <$> picked locked limit (w_jobs w)).
Proof.
  intros HI. apply NoDup_fmap_take.
  rewrite (fmap_Permutation job_ID _ _ (order_by_Permutation dispatch_leb _)).
  apply NoDup_fmap_filter_bool. by apply NoDup_rows_ID.
Qed.

Lemma length_picked locked limit t :
  Z.of_nat (length (picked locked limit t)) ≤ Z.max 0 limit.
Proof. unfold picked. rewrite length_take. lia. Qed.

(** A row whose identifier was picked is the picked row. *)
Lemma picked_row w locked limit k j :
  JobsInv w → w_jobs w !! k = Some j →
  job_ID j ∈ job_ID <$> picked locked limit (w_jobs w) →
  j ∈ picked locked limit (w_jobs w).
Proof.
  intros HI Hk (j' & Heq & Hj')%list_elem_of_fmap.
  destruct (elem_of_picked w locked limit j' HI Hj') as [Hl' _].
  pose proof (ok_key _ _ _ (HI k j Hk)) as Hkey.
  rewrite <- Heq, Hkey, Hk in Hl'. by simplify_eq.
Qed.

(** The queue discipline: no job left pending and unlocked goes before a picked one. *)
Lemma picked_first locked limit t a b :
  a ∈ picked locked limit t →
  b ∈ rows t → pending b = true → job_ID b ∉ locked → b ∉ picked locked limit t →
  dispatch_leb a b = true.
Proof.
  intros Ha Hb Hp Hl Hn. unfold picked in *.
  set (q := order_by dispatch_leb _) in *.
  apply (sorted_take_drop (λ x y, dispatch_leb x y = true) (Z.to_nat limit) q); [|done|].
  - apply order_by_Sorted; [apply dispatch_leb_total|apply dispatch_leb_trans].
  - assert (b ∈ q) as Hq.
    { apply elem_of_order_by, elem_of_filter_bool. split; [|done].
      by rewrite Hp, bool_decide_false. }
    rewrite <- (take_drop (Z.to_nat limit) q) in Hq.
    by apply elem_of_app in Hq as [?|?].
Qed.
End queue.

(** ** The statements follow the machine *)

Section statements_safe.
Context `{E : Env}.
Implicit Types (w : World) (inp : Input).

Lemma sql_insert_job_safe `{!JsonbLaws} j inp w :
  Inv w →
  Inv (sql_insert_job j inp w).2 ∧ world_step w (sql_insert_job j inp w).2.
Proof.
  intros HI. unfold sql_insert_job.
  destruct (job_Payload j) as [p|]; [|by split].
  destruct (negb _); [by split|]. destruct (jsonb p) as [doc|] eqn:Hdoc; [|by split].
  destruct (w_jobs w !! job_ID j) eqn:Hfree; [by split|].
  apply jobs_update_safe; [done|]. intros id.
  destruct (decide (id = job_ID j)) as [->|Hne].
  - rewrite lookup_insert_eq, Hfree. constructor; try done. by eapply jsonb_json.
  - rewrite lookup_insert_ne by done. apply row_next_refl.
Qed.

Lemma sql_update_job_safe id p f inp w :
  Inv w →
  (∀ j, p j = true → job_next (w_workers w) j (set_updated_at (in_now inp) f j)) →
  Inv (sql_update_job id p f inp w).2 ∧ world_step w (sql_update_job id p f inp w).2.
Proof.
  intros HI Hf. unfold sql_update_job.
  destruct (update_id _ _ _ _) as [t n] eqn:Ht. apply jobs_update_safe; [done|].
  intros k. replace t with (update_id id p (set_updated_at (in_now inp) f) (w_jobs w)).1
    by (by rewrite Ht).
  rewrite lookup_update_id. destruct (decide _); [|apply row_next_refl].
  destruct (w_jobs w !! k) as [j|]; [|constructor].
  constructor. cbn. destruct (p j) eqn:Hp; [by apply Hf|by apply next_same].
Qed.

Lemma sql_mark_failed_safe id inp w :
  Inv w →
  Inv (sql_mark_failed id maxAttempts inp w).2 ∧
  world_step w (sql_mark_failed id maxAttempts inp w).2.
Proof.
  intros HI. unfold sql_mark_failed. destruct (w_jobs w !! id) as [j|] eqn:Hj; [|by split].
  apply jobs_update_safe; [done|]. intros k. destruct (decide (k = id)) as [->|Hne].
  - rewrite lookup_insert_eq, Hj. constructor. unfold failed_status.
    destruct (Z.leb_spec maxAttempts (job_Attempts j));
      [by apply next_give_up|by apply next_retry].
  - rewrite lookup_insert_ne by done. apply row_next_refl.
Qed.

Lemma sql_requeue_stale_safe n inp w :
  Inv w →
  Inv (sql_requeue_stale n inp w).2 ∧ world_step w (sql_requeue_stale n inp w).2.
Proof.
  intros HI. unfold sql_requeue_stale. cbn. apply jobs_update_safe; [done|].
  intros k. rewrite lookup_fmap. destruct (w_jobs w !! k) as [j|]; [|constructor].
  constructor. cbn. destruct (requeueable _ j) eqn:Hr; [|by apply next_same].
  apply next_requeue; try done. unfold requeueable in Hr.
  by destruct (bool_decide_reflect (job_Status j = JobStatusRunning));
    [|destruct (sql_in _ _) as [[]|]].
Qed.

Lemma sql_fetch_pending_safe `{!OrderByLaws} wid limit inp w :
  Inv w →
  Inv (sql_fetch_pending wid limit inp w).2 ∧
  world_step w (sql_fetch_pending wid limit inp w).2 ∧
  fetched wid limit (sql_fetch_pending wid limit inp w).1.
Proof.
  intros HI. unfold sql_fetch_pending.
  destruct (limit <? 0); [by split_and!|].
  set (ps := picked _ _ _). set (f := set_updated_at _ _).
  destruct (forallb _ ps) eqn:Hov; cbn; [|by split_and!].
  destruct (negb _ && _) eqn:Hfk; cbn; [by split_and!|].
  rewrite forallb_forall in Hov. apply and_assoc. split.
  - apply jobs_update_safe; [done|]. intros k. rewrite lookup_fmap.
    destruct (w_jobs w !! k) as [j|] eqn:Hj; [|constructor].
    constructor. cbn. destruct (bool_decide_reflect (job_ID j ∈ job_ID <$> ps)) as [Hin|];
      [|by apply next_same].
    pose proof (picked_row w _ _ _ _ (inv_jobs _ HI) Hj Hin) as Hp.
    destruct (elem_of_picked w _ _ _ (inv_jobs _ HI) Hp) as (_ & Hpend & _).
    apply (next_dispatch _ _ _ wid); try done.
    + destruct (w_workers w !! wid) eqn:Hw; [done|]. exfalso.
      apply andb_false_iff in Hfk as [Hfk|Hfk]; to_prop; [|done].
      fold ps in Hp. rewrite Hfk in Hp. by apply elem_of_nil in Hp.
    + apply Hov. by apply list_elem_of_In.
  - intros js [= <-]. split_and!.
    + rewrite length_order_by, length_fmap. apply length_picked.
    + rewrite (fmap_Permutation job_ID _ _ (order_by_Permutation _ _)).
      rewrite <- list_fmap_compose. by apply (NoDup_picked w), inv_jobs.
    + apply Forall_forall. intros j [j0 [-> Hj0]]%elem_of_order_by%list_elem_of_fmap.
      destruct (elem_of_picked w _ _ _ (inv_jobs _ HI) Hj0) as (Hk & _ & _).
      destruct (inv_jobs _ HI _ _ Hk). split_and!; try done. cbn. lia.
Qed.
End statements_safe.

(** The PostgreSQL implementation keeps the interface's promise. *)
#[export] Instance pgJobsRepo_safe `{E : Env, !OrderByLaws, !JsonbLaws} : JobsRepositorySafe pgJobsRepo.
Proof.
  constructor.
  - intros j. method_safe. by apply sql_insert_job_safe.
  - intros id. method_safe. apply sql_update_job_safe; [done|].
    intros j Hj. by apply next_cancel.
  - intros id. method_safe. by split.
  - intros p. method_safe. by split.
  - intros wid limit. eapply prog_spec_bind; [apply prog_spec_call; [apply _|..]|].
    + intros inp w HI. by apply sql_fetch_pending_safe.
    + by intros e js [=].
    + intros r Hf. cbn. scanned. destruct r; [done|]. by intros js [=].
  - intros n. method_safe. by apply sql_requeue_stale_safe.
  - intros id. method_safe. apply sql_update_job_safe; [done|].
    intros j Hj. by apply next_complete.
  - intros id. method_safe. by apply sql_mark_failed_safe.
  - intros wid. method_safe. by split.
  - intros id. method_safe. apply sql_update_job_safe; [done|].
    intros j Hj. to_prop. by apply next_requeue.
Qed.
