(* ===== verification/JobsSpec.v ===== *)
(** * What the jobs repository does

    The functional behaviour of the methods of pgJobsRepo: the post-state of each on every
    branch. The statements follow the SQL of internal/repository/jobs.go; a refused
    statement changes nothing. *)

From S2P Require Import Prelude GoStd Models Json World MemEnv Sql Columns Lifecycle JobsRepo.

(** The jobs a FetchPending may take. *)
Definition available (locked : gset uuid) (j : Job) : bool :=
  pending j && negb (bool_decide (job_ID j ∈ locked)).

Section post.
Context `{E : Env}.

(** Everything but the jobs table. *)
Definition same_but_jobs (w w' : World) : Prop :=
  w_workers w' = w_workers w ∧ w_dead w' = w_dead w ∧ w_redis w' = w_redis w ∧
  w_log w' = w_log w ∧ w_metrics w' = w_metrics w.

(** What FetchPending promises about the jobs it returns and the table it leaves. *)
Record fetch_post (wid : uuid) (limit : Z) (inp : Input) (w w' : World) (js : list Job)
    : Prop := {
  fp_length : length js =
    (Z.to_nat limit `min` length (List.filter (available (in_locked inp)) (rows (w_jobs w))))%nat;
  fp_NoDup : NoDup (job_ID <$> js);
  fp_taken : ∀ j', j' ∈ js → ∃ j,
    w_jobs w !! job_ID j' = Some j ∧ available (in_locked inp) j = true ∧
    j' = job_set_updated (in_now inp) (dispatch_row wid j) ∧
    w_jobs w' !! job_ID j' = Some j';
  fp_frame : ∀ id, id ∉ job_ID <$> js → w_jobs w' !! id = w_jobs w !! id;
  fp_first : ∀ j' id b, j' ∈ js → w_jobs w !! id = Some b →
    available (in_locked inp) b = true → id ∉ job_ID <$> js →
    job_Priority b < job_Priority j' ∨
    job_Priority b = job_Priority j' ∧ job_CreatedAt j' ≤ job_CreatedAt b;
  fp_rest : same_but_jobs w w';
}.

(** The filters of a listing. *)
Definition listed (p : ListParams) (j : Job) : Prop :=
  (∀ s, lp_Status p = Some s → JobStatus_string (job_Status j) = s) ∧
  (∀ s, lp_Type p = Some s → job_Type j = s).

(** Filters that the server refuses: a status that is none, a type that is no text. *)
Definition bad_filter (p : ListParams) : Prop :=
  (∃ s, lp_Status p = Some s ∧ JobStatus_parse s = None) ∨
  (∃ s, lp_Type p = Some s ∧ pg_text s = false).
End post.

(** ** Lemmas *)

Section lemmas.
Context `{E : Env}.
Implicit Types (w : World) (inp : Input).

Lemma same_but_jobs_set t w : same_but_jobs w (set_jobs t w).
Proof. done. Qed.

(** The run of a method of one statement. *)
Lemma run_method {B C} (f : action B) (g : Res B → C) inp ins w :
  in_outcome inp = Done →
  run (bind (call f) (λ r, Ret (g r))) (inp :: ins) w = (g (f inp w).1, (f inp w).2).
Proof.
  intros Hd. cbn. unfold perform. rewrite Hd. by destruct (f inp w).
Qed.

(** The same when the call fails: the statement may or may not have been applied. *)
Lemma run_method_err {B C} (f : action B) (g : Res B → C) inp ins w e :
  in_outcome inp = Lost e →
  run (bind (call f) (λ r, Ret (g r))) (inp :: ins) w = (g (Err e), w).
Proof. intros Hd. cbn. unfold perform. by rewrite Hd. Qed.

Context `{!OrderByLaws}.

Lemma picked_available locked limit t j : j ∈ picked locked limit t → available locked j = true.
Proof.
  intros Hj%elem_of_take_list. by apply elem_of_order_by, elem_of_filter_bool in Hj as [? _].
Qed.

Lemma length_picked_eq locked limit t :
  length (picked locked limit t) =
  (Z.to_nat limit `min` length (List.filter (available locked) (rows t)))%nat.
Proof. unfold picked. by rewrite length_take, length_order_by. Qed.

(** The statement of FetchPending, when the server accepts it. *)
Lemma sql_fetch_pending_post wid limit inp w js :
  Inv w → (sql_fetch_pending wid limit inp w).1 = Ok js →
  fetch_post wid limit inp w (sql_fetch_pending wid limit inp w).2 js.
Proof.
  intros HI. unfold sql_fetch_pending. destruct (limit <? 0); [done|].
  set (ps := picked _ _ _). set (f := set_updated_at _ _).
  destruct (negb _); [done|]. destruct (_ && _); [done|]. cbn [fst snd].
  intros [= <-].
  assert (Hids : job_ID <$> order_by (λ _ _, true) (f <$> ps) ≡ₚ job_ID <$> ps).
  { rewrite (fmap_Permutation job_ID _ _ (order_by_Permutation _ _)).
    by rewrite <- list_fmap_compose. }
  constructor.
  - rewrite length_order_by, length_fmap. apply length_picked_eq.
  - rewrite Hids. by apply (NoDup_picked w), inv_jobs.
  - intros j' [j [-> Hj]]%elem_of_order_by%list_elem_of_fmap. exists j.
    destruct (elem_of_picked w _ _ _ (inv_jobs _ HI) Hj) as (Hk & _ & _).
    split_and!; [done|by eapply picked_available|done|].
    change (job_ID (f j)) with (job_ID j). cbn. rewrite lookup_fmap, Hk. cbn.
    rewrite bool_decide_true; [done|]. by apply list_elem_of_fmap_2.
  - intros id. rewrite Hids. intros Hid. cbn. rewrite lookup_fmap.
    destruct (w_jobs w !! id) as [j|] eqn:Hj; [cbn|done].
    rewrite bool_decide_false; [done|]. by rewrite (ok_key _ _ _ (inv_jobs _ HI _ _ Hj)).
  - intros j' id b [j [-> Hj]]%elem_of_order_by%list_elem_of_fmap Hb Hav. rewrite Hids.
    intros Hid. unfold available in Hav. to_prop.
    pose proof (ok_key _ _ _ (inv_jobs _ HI _ _ Hb)) as Hkey.
    assert (Hd : dispatch_leb j b = true).
    { eapply picked_first; [done| |done|done|].
      - apply elem_of_rows. eauto.
      - intros Hin. apply Hid. rewrite <- Hkey. by apply list_elem_of_fmap_2. }
    unfold dispatch_leb in Hd. apply orb_prop in Hd as [Hd|Hd]; to_prop; cbn; lia.
  - apply same_but_jobs_set.
Qed.

(** The queue, first job first. *)
Definition queue w : list Job := order_by dispatch_leb (List.filter pending (rows (w_jobs w))).

(** With nothing locked, the jobs taken are the first ones of the queue. *)
Lemma sql_fetch_pending_ids wid limit inp w js :
  in_locked inp = ∅ → (sql_fetch_pending wid limit inp w).1 = Ok js →
  job_ID <$> js ≡ₚ job_ID <$> take (Z.to_nat limit) (queue w).
Proof.
  intros Hl. unfold sql_fetch_pending. destruct (limit <? 0); [done|]. rewrite Hl.
  destruct (negb _); [done|]. destruct (_ && _); [done|]. cbn [fst snd]. intros [= <-].
  rewrite (fmap_Permutation job_ID _ _ (order_by_Permutation _ _)), <- list_fmap_compose.
  unfold picked, queue. rewrite (List.filter_ext _ pending); [done|].
  intros j. rewrite bool_decide_false by apply not_elem_of_empty. apply andb_true_r.
Qed.

(** When the server accepts the statement. *)
Lemma sql_fetch_pending_accepts wid limit inp w :
  Inv w → 0 ≤ limit → is_Some (w_workers w !! wid) →
  (∀ id j, w_jobs w !! id = Some j → pending j = true →
     int32_ok (job_Attempts j + 1) = true) →
  ∃ js, (sql_fetch_pending wid limit inp w).1 = Ok js.
Proof.
  intros HI Hl [x Hx] Hatt.
  unfold sql_fetch_pending. rewrite (proj2 (Z.ltb_ge limit 0)) by done.
  set (ps := picked _ _ _).
  assert (Hov : forallb (λ j, int32_ok (job_Attempts j + 1)) ps = true).
  { apply forallb_forall. intros j Hj%list_elem_of_In.
    destruct (elem_of_picked w _ _ _ (inv_jobs _ HI) Hj) as (Hk & Hp & _). by eapply Hatt. }
  rewrite Hov, Hx. cbn [negb]. rewrite (bool_decide_false (Some x = None)), andb_false_r by done.
  by eexists.
Qed.

(** A refused statement changes nothing. *)
Lemma sql_fetch_pending_refused wid limit inp w e :
  (sql_fetch_pending wid limit inp w).1 = Err e → (sql_fetch_pending wid limit inp w).2 = w.
Proof. unfold sql_fetch_pending. by repeat case_match. Qed.

(** A job left available by a FetchPending shows that the limit was reached. *)
Lemma fetch_post_full wid limit inp w w' js id b :
  Inv w → fetch_post wid limit inp w w' js →
  w_jobs w !! id = Some b → available (in_locked inp) b = true → id ∉ job_ID <$> js →
  length js = Z.to_nat limit.
Proof.
  intros HI P Hb Hav Hid.
  assert (length (job_ID <$> js ++ [b]) ≤
          length (job_ID <$> List.filter (available (in_locked inp)) (rows (w_jobs w))))%nat as Hle.
  { apply submseteq_length, NoDup_submseteq.
    - rewrite fmap_app. apply NoDup_app. split_and!; [apply P| |apply NoDup_singleton].
      intros k Hk ->%list_elem_of_singleton. apply Hid.
      by rewrite <- (ok_key _ _ _ (inv_jobs _ HI _ _ Hb)).
    - intros k. rewrite fmap_app, elem_of_app. intros [Hk|Hk].
      + apply list_elem_of_fmap in Hk as (j' & -> & Hj').
        destruct (fp_taken _ _ _ _ _ _ P j' Hj') as (j & Hj & Ha & -> & _).
        change (job_ID (job_set_updated (in_now inp) (dispatch_row wid j))) with (job_ID j).
        apply list_elem_of_fmap_2, elem_of_filter_bool. split; [done|]. apply elem_of_rows. eauto.
      + apply list_elem_of_singleton in Hk as ->.
        apply list_elem_of_fmap_2, elem_of_filter_bool. split; [done|]. apply elem_of_rows. eauto. }
  rewrite !length_fmap, length_app in Hle. cbn in Hle. pose proof (fp_length _ _ _ _ _ _ P). lia.
Qed.
End lemmas.

(** ** The queue *)

Section queue.
Context `{E : Env, !OrderByLaws}.
Implicit Types (w : World) (inp : Input).

(** C13: FetchPending, on a registered worker and with no attempt counter at its limit, returns
    the first [limit] jobs of the queue (QUEUED or RETRYING, not locked by another
    transaction; by priority, then by age), all different, each with its row as it now
    stands: RUNNING, the worker's, one attempt more; every other row, and everything outside
    the table, is as it was. *)
Theorem FetchPending_spec wid limit inp ins w :
  Inv w → in_outcome inp = Done → 0 ≤ limit → is_Some (w_workers w !! wid) →
  (∀ id j, w_jobs w !! id = Some j → pending j = true →
     int32_ok (job_Attempts j + 1) = true) →
  ∃ js w', run (FetchPending wid limit) (inp :: ins) w = (Ok js, w') ∧
           fetch_post wid limit inp w w' js.
Proof.
  intros HI Hd Hl Hx Hatt. unfold FetchPending. rewrite run_method by done. scanned.
  destruct (sql_fetch_pending_accepts wid limit inp w HI Hl Hx Hatt) as [js Hjs].
  exists js, (sql_fetch_pending wid limit inp w).2. split; [by rewrite Hjs|].
  by apply sql_fetch_pending_post.
Qed.

(** C18: two FetchPending calls, one after the other and whatever becomes of their answers,
    never hand the same job to two callers. *)
Theorem FetchPending_exclusive wid1 wid2 l1 l2 ins w js1 js2 w1 w2 :
  Inv w →
  run (FetchPending wid1 l1) ins w = (Ok js1, w1) →
  run (FetchPending wid2 l2) (tl ins) w1 = (Ok js2, w2) →
  job_ID <$> js1 ## job_ID <$> js2.
Proof.
  intros HI H1 H2. unfold FetchPending in *. rewrite run_bind_call in H1, H2.
  destruct (perform (hd _ ins) _ w) as [r1 w1'] eqn:Hp1. cbn in H1.
  destruct r1 as [js1'|]; [|done]. simplify_eq/=.
  destruct (perform _ _ w1) as [r2 w2'] eqn:Hp2.
  destruct r2 as [js2'|]; [|done]. simplify_eq/=. scanned_hyps.
  pose proof (perform_ok _ _ _ js1 (f_equal fst Hp1)) as Ha1. rewrite Hp1 in Ha1.
  pose proof (perform_ok _ _ _ js2 (f_equal fst Hp2)) as Ha2. rewrite Hp2 in Ha2.
  set (inp1 := hd _ ins) in *. set (inp2 := hd _ (tl ins)) in *.
  pose proof (sql_fetch_pending_post wid1 l1 inp1 w js1 HI) as P1.
  rewrite <- Ha1 in P1. specialize (P1 eq_refl). cbn [snd] in P1.
  assert (Inv w1) as HI1.
  { replace w1 with (sql_fetch_pending wid1 l1 inp1 w).2 by (by rewrite <- Ha1).
    by apply sql_fetch_pending_safe. }
  pose proof (sql_fetch_pending_post wid2 l2 inp2 w1 js2 HI1) as P2.
  rewrite <- Ha2 in P2. specialize (P2 eq_refl). cbn [snd] in P2.
  intros id (a & Ha & Hin1)%list_elem_of_fmap (b & Hb & Hin2)%list_elem_of_fmap.
  destruct (fp_taken _ _ _ _ _ _ P1 a Hin1) as (a0 & _ & _ & Haeq & Hl1).
  destruct (fp_taken _ _ _ _ _ _ P2 b Hin2) as (b0 & Hl2 & Hav & _ & _).
  rewrite <- Ha, Hb in Hl1. rewrite Hl1 in Hl2. by simplify_eq.
Qed.
End queue.

(** ** Status changes *)

Section status.
Context `{E : Env}.
Implicit Types (w : World) (inp : Input).

Lemma set_jobs_same w : set_jobs (w_jobs w) w = w.
Proof. by destruct w. Qed.

(** An update by primary key followed by the row-count check. *)
Lemma run_exec_one id p f wrap inp ins w :
  in_outcome inp = Done →
  run (let! tag := call (sql_update_job id p f) in Ret (exec_one wrap tag)) (inp :: ins) w =
  match w_jobs w !! id with
  | Some j => if p j
              then (Ok tt, set_jobs (<[id := job_set_updated (in_now inp) (f j)]> (w_jobs w)) w)
              else (Err ErrNotFound, w)
  | None => (Err ErrNotFound, w)
  end.
Proof.
  intros Hd. rewrite run_method by done. unfold sql_update_job, update_id, set_updated_at.
  destruct (w_jobs w !! id) as [j|]; [destruct (p j)|]; cbn; by rewrite ?set_jobs_same.
Qed.

(** Cancel moves a QUEUED, RUNNING or RETRYING job to DEAD and leaves its worker and
    attempts; a job in a final status, or no job, gives ErrNotFound and changes nothing. *)
Theorem Cancel_spec id inp ins w :
  in_outcome inp = Done →
  match run (Cancel id) (inp :: ins) w with
  | (Ok _, w') => ∃ j j', w_jobs w !! id = Some j ∧
      job_Status j ∈ [JobStatusQueued; JobStatusRunning; JobStatusRetrying] ∧
      w' = set_jobs (<[id := j']> (w_jobs w)) w ∧ same_identity j j' ∧
      job_Status j' = JobStatusDead ∧ job_WorkerID j' = job_WorkerID j ∧
      job_Attempts j' = job_Attempts j
  | (Err e, w') => e = ErrNotFound ∧ w' = w ∧
      ∀ j, w_jobs w !! id = Some j →
        job_Status j ∈ [JobStatusCompleted; JobStatusFailed; JobStatusDead]
  end.
Proof.
  intros Hd. unfold Cancel. rewrite run_exec_one by done.
  destruct (w_jobs w !! id) as [j|]; [|done].
  destruct (cancellable j) eqn:Hc.
  - exists j, (job_set_updated (in_now inp) (job_set_status JobStatusDead j)).
    split_and!; try done. unfold cancellable in Hc. set_unfold.
    destruct (job_Status j); auto; discriminate Hc.
  - split_and!; [done..|]. intros j' [= <-]. unfold cancellable in Hc. set_unfold.
    destruct (job_Status j); auto; discriminate Hc.
Qed.

(** MarkFailed, on a job of any status, decides by the attempts used: RETRYING below the
    maximum, DEAD from it on; it returns the status it wrote, and ErrNotFound without a job. *)
Theorem MarkFailed_spec id maxAtt inp ins w :
  in_outcome inp = Done →
  match run (MarkFailed id maxAtt) (inp :: ins) w with
  | (Ok s, w') => ∃ j j', w_jobs w !! id = Some j ∧
      w' = set_jobs (<[id := j']> (w_jobs w)) w ∧ same_identity j j' ∧
      job_Status j' = s ∧ job_WorkerID j' = job_WorkerID j ∧
      job_Attempts j' = job_Attempts j ∧
      (s = JobStatusDead ∧ maxAtt ≤ job_Attempts j ∨
       s = JobStatusRetrying ∧ job_Attempts j < maxAtt)
  | (Err e, w') => e = ErrNotFound ∧ w' = w ∧ w_jobs w !! id = None
  end.
Proof.
  intros Hd. unfold MarkFailed. rewrite run_method by done. unfold sql_mark_failed.
  destruct (w_jobs w !! id) as [j|] eqn:Hj; cbn; [|done].
  eexists j, _. split_and!; try done. unfold failed_status.
  destruct (Z.leb_spec maxAtt (job_Attempts j)); cbn; auto.
Qed.

(** Sequential effect of setStatus. *)
Lemma run_setStatus id s inp ins w :
  in_outcome inp = Done →
  run (setStatus id s) (inp :: ins) w =
  match w_jobs w !! id with
  | Some j => (Ok tt, set_jobs (<[id := job_set_updated (in_now inp) (job_set_status s j)]>
                                  (w_jobs w)) w)
  | None => (Err ErrNotFound, w)
  end.
Proof. intros Hd. unfold setStatus. by rewrite run_exec_one. Qed.

Lemma run_RollbackToQueued id inp ins w :
  in_outcome inp = Done →
  run (RollbackToQueued id) (inp :: ins) w =
  match w_jobs w !! id with
  | Some j => if bool_decide (job_Status j = JobStatusRunning)
              then (Ok tt, set_jobs (<[id := job_set_updated (in_now inp) (requeue_row j)]>
                                       (w_jobs w)) w)
              else (Err ErrNotFound, w)
  | None => (Err ErrNotFound, w)
  end.
Proof. intros Hd. unfold RollbackToQueued. by rewrite run_exec_one. Qed.

(** ** Requeueing *)

(** The worker [wid] is marked unhealthy, or its last heartbeat is more than [n] seconds old. *)
Definition worker_lost (now : Time) (n : Z) (w : World) (wid : uuid) : Prop :=
  ∃ x, w_workers w !! wid = Some x ∧
    (worker_Status x = WorkerStatusUnhealty ∨
     ∃ t, worker_LastHeartBeat x = Some t ∧ t < now - n * 1000000).

Lemma stale_worker_lost now n x :
  stale_worker now n x = true ↔
  worker_Status x = WorkerStatusUnhealty ∨
  ∃ t, worker_LastHeartBeat x = Some t ∧ t < now - n * 1000000.
Proof.
  unfold stale_worker, sql_lt, ago, seconds.
  destruct (bool_decide_reflect (worker_Status x = WorkerStatusUnhealty)) as [->|Hne];
    destruct (worker_LastHeartBeat x) as [t|]; cbn.
  - destruct (t <? _); by split; auto.
  - by split; auto.
  - destruct (Z.ltb_spec t (now - n * 1000000)); cbn; split; try done.
    + intros _. right. by exists t.
    + intros [?|(t' & [= <-] & ?)]; [done|lia].
  - split; [done|]. intros [?|(t' & [=] & ?)]; done.
Qed.

Lemma elem_of_stale_workers now n w wid :
  WorkersInv w → wid ∈ stale_workers now n (w_workers w) ↔ worker_lost now n w wid.
Proof.
  intros HI. unfold stale_workers, worker_lost. rewrite list_elem_of_fmap. split.
  - intros (x & -> & [Hs [k Hk]%elem_of_rows]%elem_of_filter_bool).
    exists x. destruct (HI _ _ Hk) as [-> _]. split; [done|]. by apply stale_worker_lost.
  - intros (x & Hx & Hs). exists x. destruct (HI _ _ Hx) as [Hid _].
    split; [done|]. apply elem_of_filter_bool. split; [by apply stale_worker_lost|].
    apply elem_of_rows. eauto.
Qed.

Lemma requeueable_spec dead j :
  requeueable dead j = true ↔
  job_Status j = JobStatusRunning ∧ ∃ wid, job_WorkerID j = Some wid ∧ wid ∈ dead.
Proof.
  unfold requeueable. destruct (bool_decide_reflect (job_Status j = JobStatusRunning));
    [|by split; [|intros [? _]]].
  destruct dead as [|d ds].
  - cbn. split; [done|]. by intros (_ & wid & _ & ?%elem_of_nil).
  - unfold sql_in. destruct (job_WorkerID j) as [wid|].
    + cbn. destruct (bool_decide_reflect (wid ∈ d :: ds)); split; try done.
      * intros _. split; [done|]. by exists wid.
      * by intros (_ & wid' & [= <-] & ?).
    + split; [done|]. by intros (_ & wid & [=] & _).
Qed.

(** The post-state of RequeueStale. *)
Lemma RequeueStale_post n inp ins w :
  Inv w → in_outcome inp = Done →
  ∃ k w', run (RequeueStale n) (inp :: ins) w = (Ok k, w') ∧ same_but_jobs w w' ∧
    (∀ id, is_Some (w_jobs w' !! id) ↔ is_Some (w_jobs w !! id)) ∧
    (∀ id j, w_jobs w !! id = Some j →
       (∃ wid, job_Status j = JobStatusRunning ∧ job_WorkerID j = Some wid ∧
               worker_lost (in_now inp) n w wid ∧
               w_jobs w' !! id = Some (job_set_updated (in_now inp) (requeue_row j))) ∨
       (w_jobs w' !! id = Some j ∧
        ∀ wid, job_Status j = JobStatusRunning → job_WorkerID j = Some wid →
               ¬ worker_lost (in_now inp) n w wid)) ∧
    (k = 0 ↔ w_jobs w' = w_jobs w).
Proof.
  intros HI Hd. unfold RequeueStale. rewrite run_method by done. unfold sql_requeue_stale.
  set (dead := stale_workers _ _ _). set (f := set_updated_at _ _).
  destruct (update_where (requeueable dead) f (w_jobs w)) as [t k] eqn:Hu. cbn.
  assert (Ht : ∀ id, t !! id = (λ r, if requeueable dead r then f r else r) <$> w_jobs w !! id).
  { intros id. by rewrite <- lookup_update_where, Hu. }
  assert (Hk : k = 0 ↔ ∀ id r, w_jobs w !! id = Some r → requeueable dead r = false).
  { by rewrite <- update_where_zero, Hu. }
  exists k, (set_jobs t w). split_and!; [done|apply same_but_jobs_set|..].
  - intros id. cbn. rewrite Ht. by rewrite fmap_is_Some.
  - intros id j Hj. cbn. rewrite Ht, Hj. cbn. destruct (requeueable dead j) eqn:Hr.
    + left. apply requeueable_spec in Hr as (Hs & wid & Hw & Hin). exists wid.
      split_and!; try done. by apply elem_of_stale_workers, Hin; apply HI.
    + right. split; [done|]. intros wid Hs Hw Hl. apply not_true_iff_false in Hr.
      apply Hr, requeueable_spec. split; [done|]. exists wid. split; [done|].
      apply elem_of_stale_workers; [by apply HI|done].
  - rewrite Hk. cbn. split.
    + intros Hall. apply map_eq. intros id. rewrite Ht.
      destruct (w_jobs w !! id) as [j|] eqn:Hj; [|done]. cbn. by rewrite (Hall _ _ Hj).
    + intros Heq id j Hj. destruct (requeueable dead j) eqn:Hr; [|done].
      pose proof (Ht id) as Hid. rewrite Heq, Hj in Hid. cbn in Hid. rewrite Hr in Hid.
      apply requeueable_spec in Hr as (Hs & _). injection Hid as Hid.
      rewrite Hid in Hs. done.
Qed.

(** RequeueStale puts exactly the RUNNING jobs of lost workers back to the queue, without
    a worker and with their attempts kept; it changes no other job, and returns 0 exactly
    when it changed none. *)
Theorem RequeueStale_spec n inp ins w :
  Inv w → in_outcome inp = Done →
  ∃ k w', run (RequeueStale n) (inp :: ins) w = (Ok k, w') ∧ same_but_jobs w w' ∧
    (∀ id, is_Some (w_jobs w' !! id) ↔ is_Some (w_jobs w !! id)) ∧
    (∀ id j, w_jobs w !! id = Some j →
       (∃ wid, job_Status j = JobStatusRunning ∧ job_WorkerID j = Some wid ∧
               worker_lost (in_now inp) n w wid ∧
               w_jobs w' !! id = Some (job_set_updated (in_now inp) (requeue_row j))) ∨
       (w_jobs w' !! id = Some j ∧
        ∀ wid, job_Status j = JobStatusRunning → job_WorkerID j = Some wid →
               ¬ worker_lost (in_now inp) n w wid)) ∧
    (k = 0 ↔ w_jobs w' = w_jobs w).
Proof. apply RequeueStale_post. Qed.
End status.

(** ** Listings *)

Section listing.
Context `{E : Env, !OrderByLaws}.
Implicit Types (w : World) (inp : Input).

(** The condition that the placeholders of the query build. *)
Lemma list_query_pred p :
  match where_pred (lq_args (list_query p)) (lq_conds (list_query p)) with
  | Ok f => ∀ j, f j = true ↔ listed p j
  | Err _ => bad_filter p
  end.
Proof.
  assert (Hs : ∀ s st j, JobStatus_parse s = Some st →
    bool_decide (job_Status j = st) = true ↔ JobStatus_string (job_Status j) = s).
  { intros s st j Hp. pose proof (JobStatus_string_parse _ _ Hp) as <-.
    rewrite bool_decide_eq_true. split; [by intros ->|].
    intros Heq. pose proof (JobStatus_parse_string (job_Status j)) as H1.
    rewrite Heq, JobStatus_parse_string in H1. by simplify_eq. }
  unfold list_query, listed, bad_filter.
  destruct (lp_Status p) as [s|], (lp_Type p) as [t|]; cbn.
  - destruct (JobStatus_parse s) as [st|] eqn:Hst; cbn; [|eauto].
    destruct (pg_text t) eqn:Ht; cbn; [|eauto].
    intros j. rewrite andb_true_r, andb_true_iff, (Hs s st), bool_decide_eq_true by done.
    split; [intros [? ?]; split; by intros ? [= <-]|]. intros [H1 H2]. auto.
  - destruct (JobStatus_parse s) as [st|] eqn:Hst; cbn; [|eauto].
    intros j. rewrite andb_true_r, (Hs s st) by done.
    split; [intros ?; split; by intros ? [= <-]|]. intros [H1 _]. auto.
  - destruct (pg_text t) eqn:Ht; cbn; [|eauto].
    intros j. rewrite andb_true_r, bool_decide_eq_true.
    split; [intros ?; split; by intros ? [= <-]|]. intros [_ H2]. auto.
  - intros j. by split.
Qed.

Lemma list_query_limits p :
  placeholder (lq_args (list_query p)) (lq_limit (list_query p)) = Some (ArgInt (lp_Limit p)) ∧
  placeholder (lq_args (list_query p)) (lq_offset (list_query p)) = Some (ArgInt (lp_Offset p)).
Proof. unfold list_query. by destruct (lp_Status p), (lp_Type p). Qed.

(** List returns one page of the jobs that match the filters, newest first: the rows from
    the offset on, at most limit of them (50 for a limit that is not positive); a filter the
    server cannot read is an error. It changes nothing. *)
Theorem List_spec p inp ins w :
  Inv w → in_outcome inp = Done → 0 ≤ lp_Offset p →
  let limit := if lp_Limit p <=? 0 then 50 else lp_Limit p in
  match run (List_ p) (inp :: ins) w with
  | (Ok js, w') => w' = w ∧ ∃ all,
      js = take (Z.to_nat limit) (drop (Z.to_nat (lp_Offset p)) all) ∧
      StronglySorted (λ a b, job_CreatedAt b ≤ job_CreatedAt a) all ∧
      NoDup (job_ID <$> all) ∧
      (∀ j, j ∈ all ↔ w_jobs w !! job_ID j = Some j ∧ listed p j)
  | (Err e, w') => w' = w ∧ bad_filter p
  end.
Proof.
  intros HI Hd Hoff limit. unfold List_. rewrite run_method by done. scanned. cbn [fst snd sql_list_jobs].
  set (p' := if lp_Limit p <=? 0 then _ else p).
  assert (Hp' : lp_Status p' = lp_Status p ∧ lp_Type p' = lp_Type p ∧
                lp_Offset p' = lp_Offset p ∧ lp_Limit p' = limit).
  { unfold p', limit. by destruct (lp_Limit p <=? 0). }
  destruct Hp' as (Hps & Hpt & Hpo & Hpl).
  assert (0 ≤ limit) by (unfold limit; destruct (Z.leb_spec (lp_Limit p) 0); lia).
  pose proof (list_query_pred p') as Hpred. destruct (list_query_limits p') as [Hq1 Hq2].
  destruct (where_pred _ _) as [f|e]; cbn;
    [|split; [done|]; unfold bad_filter in *; by rewrite <- Hps, <- Hpt].
  rewrite Hq1, Hq2, Hpo, Hpl. unfold limit_offset.
  rewrite (proj2 (Z.ltb_ge limit 0)), (proj2 (Z.ltb_ge (lp_Offset p) 0)) by done. cbn.
  split; [done|]. eexists. split; [done|]. split_and!.
  - apply order_by_sorted_by; [apply newest_leb_total|apply newest_leb_trans|].
    intros a b Hab. by apply Z.leb_le in Hab.
  - rewrite (fmap_Permutation job_ID _ _ (order_by_Permutation _ _)).
    by apply NoDup_fmap_filter_bool, NoDup_rows_ID, inv_jobs.
  - intros j. rewrite elem_of_order_by, elem_of_filter_bool, Hpred.
    unfold listed. rewrite Hps, Hpt. split.
    + intros [? Hj]. split; [by apply rows_keyed, Hj; apply HI|done].
    + intros [Hj ?]. split; [done|]. apply elem_of_rows. eauto.
Qed.
End listing.

(** ** Creation *)

Section creation.
Context `{E : Env}.
Implicit Types (w : World) (inp : Input).

(** A job that Create accepts is found by Get: QUEUED, with no attempt and no worker, its
    payload as the column stores it; no other row changes. *)
Theorem Create_Get newID jobType payload priority i1 i2 w j w' :
  in_outcome i2 = Done →
  run (Create (NewJob newID jobType payload priority)) [i1] w = (Ok j, w') →
  run (Get newID) [i2] w' = (Ok j, w') ∧ w_jobs w !! newID = None ∧
  w' = set_jobs (<[newID := j]> (w_jobs w)) w ∧
  ∃ p d, payload = Some p ∧ jsonb p = Some d ∧
    j = mkJob newID JobStatusQueued jobType (Some d) priority 0 None (in_now i1) (in_now i1).
Proof.
  intros Hd2. unfold Create. cbn. destruct (perform i1 _ w) as [r w1] eqn:Hp. cbn. scanned.
  destruct r as [j1|]; [|done]. intros [= <- <-].
  pose proof (perform_ok _ _ _ j1 (f_equal fst Hp)) as Ha. rewrite Hp in Ha.
  unfold sql_insert_job in Ha. cbn in Ha.
  destruct payload as [p|]; [|done]. destruct (negb _); [done|].
  destruct (jsonb p) as [d|] eqn:Hdoc; [|done].
  destruct (w_jobs w !! newID) eqn:Hfree; [done|]. injection Ha as -> ->.
  split_and!; [|done|done|by exists p, d].
  unfold perform. rewrite Hd2. unfold sql_select_job. cbn. by rewrite lookup_insert_eq.
Qed.
End creation.
