(* ===== verification/WorkersRepo.v ===== *)
(** * The workers repository: internal/repository/workers.go

    The interface [WorkersRepository], its SQL statements on the workers table, the
    PostgreSQL implementation [pgWorkersRepo] and its promise [WorkersRepositorySafe]. *)

From S2P Require Import Prelude GoStd Models World Sql Columns Lifecycle.

Record WorkerListParams : Type := mkWorkerListParams {
  wlp_Status : option string;
  wlp_Limit : Z;
  wlp_Offset : Z;
}.

Class WorkersRepository `{Env} : Type := {
  Workers_Register : string → Prog (Res Worker);
  Workers_UpsertHeartbeat : uuid → string → float64 → float64 → Z → Prog (Res unit);
  Workers_FetchHealthy : Z → Prog (Res (list Worker));
  Workers_MarkUnhealthy : Z → Prog (Res Z);
  Workers_Get : uuid → Prog (Res Worker);
  Workers_List : WorkerListParams → Prog (Res (list Worker));
}.

Section statements.
Context `{E : Env}.

(** INSERT INTO workers (host, status, running_jobs, last_heartbeat) VALUES ($1, 'IDLE', 0,
    now()): id is gen_random_uuid(), cpu and memory are NULL. *)
Definition sql_register (host : string) : action Worker := λ inp w,
  if negb (pg_text host) then (Err character_not_in_repertoire, w)
  else match w_workers w !! in_uuid inp with
  | Some _ => (Err unique_violation, w)
  | None =>
      let row := mkWorker (in_uuid inp) host WorkerStatusIdle None None 0
                   (Some (in_now inp)) (in_now inp) in
      (Ok row, set_workers (<[in_uuid inp := row]> (w_workers w)) w)
  end.

(** CASE WHEN status = 'OFFLINE' OR status = 'UNHEALTHY' THEN 'IDLE' ELSE status END *)
Definition revived_status (s : WorkerStatus) : WorkerStatus :=
  match s with
  | WorkerStatusOffline | WorkerStatusUnhealty => WorkerStatusIdle
  | _ => s
  end.

(** INSERT ... ON CONFLICT (id) DO UPDATE: the values are stored in NUMERIC(5,2) and
    INTEGER columns, and a value out of range fails the statement. *)
Definition sql_upsert_heartbeat (id : uuid) (host : string) (cpu memory : float64)
    (runningJobs : Z) : action Z := λ inp w,
  if negb (pg_text host) then (Err character_not_in_repertoire, w)
  else match numeric_5_2 cpu, numeric_5_2 memory, int32_ok runningJobs with
  | Some c, Some m, true =>
      let row :=
        match w_workers w !! id with
        | None => mkWorker id host WorkerStatusIdle (Some c) (Some m) runningJobs
                    (Some (in_now inp)) (in_now inp)
        | Some x => mkWorker (worker_ID x) host (revived_status (worker_Status x))
                      (Some c) (Some m) runningJobs (Some (in_now inp)) (worker_CreatedAt x)
        end in
      (Ok 1, set_workers (<[id := row]> (w_workers w)) w)
  | _, _, _ => (Err numeric_value_out_of_range, w)
  end.

(** status NOT IN ('OFFLINE', 'UNHEALTHY') *)
Definition serving (x : Worker) : bool :=
  match worker_Status x with
  | WorkerStatusOffline | WorkerStatusUnhealty => false
  | _ => true
  end.

Definition healthy (now : Time) (staleSecond : Z) (x : Worker) : bool :=
  is_true (tri_and (Some (serving x))
                   (sql_gt (worker_LastHeartBeat x) (ago now staleSecond))).

(** ORDER BY running_jobs ASC, cpu ASC NULLS LAST *)
Definition cpu_leb (a b : option float64) : bool :=
  match a, b with
  | Some x, Some y => float_leb x y
  | _, None => true
  | None, Some _ => false
  end.
Definition load_leb (a b : Worker) : bool :=
  (worker_RunningJobs a <? worker_RunningJobs b)
  || ((worker_RunningJobs a =? worker_RunningJobs b)
      && cpu_leb (worker_CPU a) (worker_CPU b)).

Definition sql_fetch_healthy (staleSecond : Z) : action (list Worker) := λ inp w,
  (Ok (order_by load_leb
         (List.filter (healthy (in_now inp) staleSecond) (rows (w_workers w)))), w).

(** status NOT IN (...) AND (last_heartbeat IS NULL OR last_heartbeat < now() - ...) *)
Definition silent (now : Time) (staleSeconds : Z) (x : Worker) : bool :=
  is_true (tri_and (Some (serving x))
                   (tri_or (sql_is_null (worker_LastHeartBeat x))
                           (sql_lt (worker_LastHeartBeat x) (ago now staleSeconds)))).

Definition sql_mark_unhealthy (staleSeconds : Z) : action Z := λ inp w,
  let '(t, n) := update_where (silent (in_now inp) staleSeconds)
                   (worker_set_status WorkerStatusUnhealty) (w_workers w) in
  (Ok n, set_workers t w).

Definition sql_select_worker (id : uuid) : action Worker := λ _ w,
  (match w_workers w !! id with Some x => Ok x | None => Err ErrNoRows end, w).

(** The query that List builds: the placeholder numbers of status, LIMIT and OFFSET, and
    the arguments. *)
Inductive WArg : Type := WArgStatus (s : string) | WArgInt (n : Z).
Record WListQuery : Type := mkWListQuery {
  wq_status : option nat;
  wq_limit : nat;
  wq_offset : nat;
  wq_args : list WArg;
}.
Definition addWArg (v : WArg) (args : list WArg) : nat * list WArg :=
  (S (length args), args ++ [v]).
Definition workers_list_query (p : WorkerListParams) : WListQuery :=
  let '(c, a1) :=
    match wlp_Status p with
    | Some s => let '(n, a) := addWArg (WArgStatus s) [] in (Some n, a)
    | None => (None, [])
    end in
  let '(nl, a2) := addWArg (WArgInt (wlp_Limit p)) a1 in
  let '(no, a3) := addWArg (WArgInt (wlp_Offset p)) a2 in
  mkWListQuery c nl no a3.

Definition wplaceholder (args : list WArg) (n : nat) : option WArg := args !! (n - 1)%nat.

Definition wstatus_pred (args : list WArg) (c : option nat) : Res (Worker → bool) :=
  match c with
  | None => Ok (λ _, true)
  | Some n =>
      match wplaceholder args n with
      | Some (WArgStatus s) =>
          match WorkerStatus_parse s with
          | Some st => Ok (λ x, bool_decide (worker_Status x = st))
          | None => Err invalid_text_representation
          end
      | _ => Err invalid_text_representation
      end
  end.

(** ORDER BY last_heartbeat DESC NULLS LAST *)
Definition heartbeat_leb (a b : Worker) : bool :=
  match worker_LastHeartBeat a, worker_LastHeartBeat b with
  | Some x, Some y => y <=? x
  | _, None => true
  | None, Some _ => false
  end.

Definition sql_list_workers (q : WListQuery) : action (list Worker) := λ _ w,
  (result_bind (wstatus_pred (wq_args q) (wq_status q)) (λ f,
     match wplaceholder (wq_args q) (wq_limit q), wplaceholder (wq_args q) (wq_offset q) with
     | Some (WArgInt limit), Some (WArgInt offset) =>
         limit_offset limit offset (order_by heartbeat_leb (List.filter f (rows (w_workers w))))
     | _, _ => Err invalid_text_representation
     end), w).

(** ** The methods of pgWorkersRepo *)

Definition worker_not_found (r : Res Worker) : Res Worker :=
  match r with
  | Err e => if errors_Is e ErrNoRows then Err ErrNotFound else Err e
  | Ok x => Ok x
  end.

Definition wrap_error {A} (msg : string) (r : Res A) : Res A :=
  match r with Err e => Err (Wrap msg e) | Ok a => Ok a end.

Definition Register (host : string) : Prog (Res Worker) :=
  let! row := call (sql_register host) in Ret (scanWorker row).

Definition UpsertHeartbeat (id : uuid) (host : string) (cpu memory : float64)
    (runningJobs : Z) : Prog (Res unit) :=
  let! tag := call (sql_upsert_heartbeat id host cpu memory runningJobs) in
  Ret (result_map (λ _, tt) (wrap_error "upsert heartbeat" tag)).

Definition FetchHealthy (staleSecond : Z) : Prog (Res (list Worker)) :=
  let! rs := call (sql_fetch_healthy staleSecond) in
  Ret (result_bind (wrap_error "fetch healthy workers" rs) (scan_rows scanWorker)).

Definition MarkUnhealthy (staleSeconds : Z) : Prog (Res Z) :=
  let! tag := call (sql_mark_unhealthy staleSeconds) in
  Ret (wrap_error "mark unhealthy" tag).

Definition GetWorker (id : uuid) : Prog (Res Worker) :=
  let! row := call (sql_select_worker id) in Ret (worker_not_found (scanWorker row)).

Definition ListWorkers (p : WorkerListParams) : Prog (Res (list Worker)) :=
  let p' := if wlp_Limit p <=? 0
            then mkWorkerListParams (wlp_Status p) 50 (wlp_Offset p) else p in
  let! rs := call (sql_list_workers (workers_list_query p')) in
  Ret (result_bind (wrap_error "list workers" rs) (scan_rows scanWorker)).
End statements.

#[export] Instance pgWorkersRepo `{Env} : WorkersRepository := {|
  Workers_Register := Register;
  Workers_UpsertHeartbeat := UpsertHeartbeat;
  Workers_FetchHealthy := FetchHealthy;
  Workers_MarkUnhealthy := MarkUnhealthy;
  Workers_Get := GetWorker;
  Workers_List := ListWorkers;
|}.

(** The promise of the interface: jobs are never touched, workers stay registered; the
    workers FetchHealthy returns are serving ones, under their own identifiers. *)
Definition healthy_list (r : Res (list Worker)) : Prop :=
  ∀ xs, r = Ok xs →
    Forall (λ x, serving x = true ∧ int32_ok (worker_RunningJobs x) = true) xs.

Class WorkersRepositorySafe `{E : Env} (W : WorkersRepository) : Prop := {
  Register_safe host : prog_safe Inv world_step (Workers_Register host);
  UpsertHeartbeat_safe id host cpu mem n :
    prog_safe Inv world_step (Workers_UpsertHeartbeat id host cpu mem n);
  FetchHealthy_safe n : prog_spec Inv world_step (Workers_FetchHealthy n) healthy_list;
  MarkUnhealthy_safe n : prog_safe Inv world_step (Workers_MarkUnhealthy n);
  GetWorker_safe id : prog_safe Inv world_step (Workers_Get id);
  ListWorkers_safe p : prog_safe Inv world_step (Workers_List p);
}.
#[export] Hint Resolve Register_safe UpsertHeartbeat_safe MarkUnhealthy_safe GetWorker_safe
  ListWorkers_safe : sched.

(** ** Lemmas *)

Lemma load_leb_total a b : load_leb a b = true ∨ load_leb b a = true.
Proof.
  unfold load_leb. rewrite !orb_true_iff, !andb_true_iff, !Z.ltb_lt, !Z.eqb_eq.
  destruct (Z.lt_trichotomy (worker_RunningJobs a) (worker_RunningJobs b))
    as [?|[Heq|?]]; [by left; left| |by right; left].
  rewrite Heq. unfold cpu_leb, float_leb.
  destruct (worker_CPU a) as [x|], (worker_CPU b) as [y|]; rewrite ?Z.leb_le; lia || auto.
Qed.

Lemma float_leb_trans x y z :
  float_leb x y = true → float_leb y z = true → float_leb x z = true.
Proof.
  unfold float_leb. rewrite !Z.leb_le.
  set (a := 10 ^ Z.of_nat (f_exp x)). set (b := 10 ^ Z.of_nat (f_exp y)).
  set (c := 10 ^ Z.of_nat (f_exp z)).
  assert (0 < a ∧ 0 < b ∧ 0 < c) as (? & ? & ?)
    by (split_and!; apply Z.pow_pos_nonneg; lia).
  intros Hxy Hyz. apply (Z.mul_le_mono_pos_r _ _ b); [done|].
  assert (f_mant x * b * c ≤ f_mant y * a * c) by (by apply Z.mul_le_mono_pos_r).
  assert (f_mant y * c * a ≤ f_mant z * b * a) by (by apply Z.mul_le_mono_pos_r).
  lia.
Qed.

Lemma load_leb_trans a b c : load_leb a b = true → load_leb b c = true → load_leb a c = true.
Proof.
  unfold load_leb. rewrite !orb_true_iff, !andb_true_iff, !Z.ltb_lt, !Z.eqb_eq.
  intros [?|[Hab Hc1]] [?|[Hbc Hc2]]; try lia.
  right. split; [lia|]. unfold cpu_leb in *.
  destruct (worker_CPU a), (worker_CPU b), (worker_CPU c); try done.
  by eapply float_leb_trans.
Qed.

Section statements_safe.
Context `{E : Env}.
Implicit Types (w : World) (inp : Input).

Lemma sql_register_safe host inp w :
  Inv w → Inv (sql_register host inp w).2 ∧ world_step w (sql_register host inp w).2.
Proof.
  intros HI. unfold sql_register. destruct (negb _); [by split|]. destruct (w_workers w !! in_uuid inp) eqn:Hfree; [by split|].
  apply workers_update_safe; [done|..].
  - intros wid x Hx. exists x. split; [|done].
    rewrite lookup_insert_ne; [done|congruence].
  - intros wid x. rewrite lookup_insert. case_decide as Heq; intros Hx; simplify_eq/=.
    + by split.
    + by apply HI.
Qed.

Lemma sql_upsert_heartbeat_safe id host cpu mem n inp w :
  Inv w →
  Inv (sql_upsert_heartbeat id host cpu mem n inp w).2 ∧
  world_step w (sql_upsert_heartbeat id host cpu mem n inp w).2.
Proof.
  intros HI. unfold sql_upsert_heartbeat. destruct (negb _); [by split|].
  destruct (numeric_5_2 cpu) as [c|]; [|by split].
  destruct (numeric_5_2 mem) as [m|]; [|by split].
  destruct (int32_ok n) eqn:Hn; [|by split].
  apply workers_update_safe; [done|..]; intros wid x.
  - intros Hx. rewrite lookup_insert. case_decide as Heq; [subst id|by exists x].
    rewrite Hx. by eexists.
  - rewrite lookup_insert. case_decide as Heq; [subst id|by apply HI].
    intros [= <-]. destruct (w_workers w !! wid) as [y|] eqn:Hy; [|by split].
    split; [|done]. by destruct (inv_workers _ HI _ _ Hy).
Qed.

Lemma sql_mark_unhealthy_safe n inp w :
  Inv w →
  Inv (sql_mark_unhealthy n inp w).2 ∧ world_step w (sql_mark_unhealthy n inp w).2.
Proof.
  intros HI. unfold sql_mark_unhealthy. cbn.
  apply workers_update_safe; [done|..]; intros wid x; rewrite lookup_fmap.
  - intros ->. cbn. eexists. split; [done|]. by destruct (silent _ _ x).
  - destruct (w_workers w !! wid) as [y|] eqn:Hy; [|done]. intros [= <-].
    pose proof (inv_workers _ HI _ _ Hy). by destruct (silent _ _ y).
Qed.

Lemma sql_fetch_healthy_spec `{!OrderByLaws} n inp w :
  Inv w → healthy_list (sql_fetch_healthy n inp w).1.
Proof.
  intros HI xs [= <-]. apply Forall_forall. intros x.
  rewrite (order_by_Permutation load_leb _). intros [Hh Hx]%elem_of_filter_bool.
  split.
  - unfold healthy in Hh. by destruct (serving x); [|destruct (sql_gt _ _) as [[]|]].
  - apply elem_of_rows in Hx as [k Hk]. by destruct (inv_workers _ HI _ _ Hk).
Qed.
End statements_safe.

#[export] Instance pgWorkersRepo_safe `{E : Env, !OrderByLaws} :
  WorkersRepositorySafe pgWorkersRepo.
Proof.
  constructor.
  - intros host. method_safe. by apply sql_register_safe.
  - intros id host cpu mem n. method_safe. by apply sql_upsert_heartbeat_safe.
  - intros n. eapply prog_spec_bind; [apply prog_spec_call; [apply _|..]|].
    + intros inp w HI. split_and!; [done|apply world_step_refl|].
      by apply sql_fetch_healthy_spec.
    + by intros e xs [=].
    + intros r Hf. cbn. scanned. destruct r; [done|]. by intros ys [=].
  - intros n. method_safe. by apply sql_mark_unhealthy_safe.
  - intros id. method_safe. by split.
  - intros p. method_safe. by split.
Qed.
