(* ===== verification/WorkersSpec.v ===== *)
(** * What the workers repository does

    The post-states of the methods of pgWorkersRepo (internal/repository/workers.go): when a
    heartbeat is stored and when its numbers do not fit their columns, which workers are
    healthy, which are marked. *)

From S2P Require Import Prelude GoStd Models Json World MemEnv Sql Columns Lifecycle JobsRepo JobsSpec.
From S2P Require Import WorkersRepo.

(** The number fits NUMERIC(5,2): below 999.995 in magnitude. *)
Definition fits_5_2 (x : float64) : Prop :=
  200 * Z.abs (f_mant x) < 199999 * 10 ^ Z.of_nat (f_exp x).

(** [y] is [x] rounded to hundredths. *)
Definition rounded (x y : float64) : Prop :=
  f_exp y = 2%nat ∧
  2 * Z.abs (f_mant y * 10 ^ Z.of_nat (f_exp x) - f_mant x * 100) ≤ 10 ^ Z.of_nat (f_exp x).

Section post.
Context `{E : Env}.

(** Everything but the workers table. *)
Definition same_but_workers (w w' : World) : Prop :=
  w_jobs w' = w_jobs w ∧ w_dead w' = w_dead w ∧ w_redis w' = w_redis w ∧
  w_log w' = w_log w ∧ w_metrics w' = w_metrics w.

(** The row a heartbeat leaves. *)
Record heartbeat_row (w : World) (id : uuid) (host : string) (cpu memory : float64) (n : Z)
    (now : Time) (x : Worker) : Prop := {
  hb_host : worker_Host x = host;
  hb_id : worker_ID x = id;
  hb_cpu : ∃ c, worker_CPU x = Some c ∧ rounded cpu c;
  hb_memory : ∃ m, worker_Memory x = Some m ∧ rounded memory m;
  hb_running : worker_RunningJobs x = n;
  hb_healthy : ∀ s, 0 < s → healthy now s x = true;
  hb_created : ∀ y, w_workers w !! id = Some y → worker_CreatedAt x = worker_CreatedAt y;
}.
End post.

(** ** Rounding *)

Lemma round_half_away_bound num den :
  0 < den → 2 * Z.abs (round_half_away num den * den - num) ≤ den.
Proof.
  intros Hden. unfold round_half_away.
  set (k := (2 * Z.abs num + den) / (2 * den)).
  assert (k * (2 * den) ≤ 2 * Z.abs num + den < k * (2 * den) + 2 * den).
  { pose proof (Z.div_mod (2 * Z.abs num + den) (2 * den)).
    pose proof (Z.mod_pos_bound (2 * Z.abs num + den) (2 * den)). lia. }
  destruct (Z.sgn_spec num) as [[? ->]|[[? ->]|[? ->]]]; nia.
Qed.

Lemma round_half_away_abs num den :
  0 < den → Z.abs (round_half_away num den) = (2 * Z.abs num + den) / (2 * den).
Proof.
  intros Hden. unfold round_half_away.
  assert (0 ≤ (2 * Z.abs num + den) / (2 * den)) by (apply Z.div_pos; lia).
  destruct (Z.sgn_spec num) as [[? ->]|[[Hz ->]|[? ->]]]; [lia| |lia].
  rewrite Z.mul_0_l. cbn. symmetry. apply Z.div_small. lia.
Qed.

(** Storing succeeds exactly for the numbers that fit, and rounds them. *)
Lemma numeric_5_2_spec x :
  match numeric_5_2 x with
  | Some y => fits_5_2 x ∧ rounded x y
  | None => ¬ fits_5_2 x
  end.
Proof.
  unfold numeric_5_2, fits_5_2, rounded.
  set (d := 10 ^ Z.of_nat (f_exp x)).
  assert (0 < d) by (apply Z.pow_pos_nonneg; lia).
  rewrite round_half_away_abs by done.
  pose proof (round_half_away_bound (f_mant x * 100) d ltac:(done)) as Hb.
  set (k := (2 * Z.abs (f_mant x * 100) + d) / (2 * d)).
  assert (k * (2 * d) ≤ 2 * Z.abs (f_mant x * 100) + d < k * (2 * d) + 2 * d) as [Hl Hu].
  { pose proof (Z.div_mod (2 * Z.abs (f_mant x * 100) + d) (2 * d)).
    pose proof (Z.mod_pos_bound (2 * Z.abs (f_mant x * 100) + d) (2 * d)). lia. }
  rewrite Z.abs_mul in Hl, Hu. change (Z.abs 100) with 100 in *.
  destruct (Z.ltb_spec k 100000); [split; [nia|by split]|nia].
Qed.

Section spec.
Context `{E : Env}.
Implicit Types (w : World) (inp : Input).

Lemma revived_serving s : match revived_status s with
  | WorkerStatusOffline | WorkerStatusUnhealty => False | _ => True end.
Proof. by destruct s. Qed.

(** A heartbeat is stored exactly when its host is a text, its cpu and memory are below
    999.995 and its job count is a 32-bit integer: the worker then exists under its
    identifier, serving, with the heartbeat's values rounded to hundredths and a fresh
    timestamp, and keeps its creation time. Otherwise the call fails and changes nothing. *)
Lemma upsert_heartbeat_run id host cpu memory n inp ins w :
  Inv w → in_outcome inp = Done →
  match run (UpsertHeartbeat id host cpu memory n) (inp :: ins) w with
  | (Ok _, w') =>
      (pg_text host = true ∧ fits_5_2 cpu ∧ fits_5_2 memory ∧ int32_ok n = true) ∧
      same_but_workers w w' ∧
      ∃ x, heartbeat_row w id host cpu memory n (in_now inp) x ∧
           w_workers w' = <[id := x]> (w_workers w)
  | (Err _, w') =>
      w' = w ∧ ¬ (pg_text host = true ∧ fits_5_2 cpu ∧ fits_5_2 memory ∧ int32_ok n = true)
  end.
Proof.
  intros HI Hd. unfold UpsertHeartbeat. rewrite run_method by done.
  unfold sql_upsert_heartbeat.
  pose proof (numeric_5_2_spec cpu) as Hc. pose proof (numeric_5_2_spec memory) as Hm.
  destruct (pg_text host); cbn; [|split; [done|]; by intros []].
  destruct (numeric_5_2 cpu) as [c|]; cbn; [|split; [done|tauto]].
  destruct (numeric_5_2 memory) as [m|]; cbn; [|split; [done|tauto]].
  destruct (int32_ok n); cbn; [|split; [done|]; by intros (_ & _ & _ & ?)].
  destruct Hc as [Hc1 Hc2], Hm as [Hm1 Hm2].
  split; [done|]. split; [done|]. eexists. split; [|done].
  destruct (w_workers w !! id) as [y|] eqn:Hy; constructor; cbn; eauto.
  - by destruct (inv_workers _ HI _ _ Hy).
  - intros s Hs. unfold healthy, serving. cbn.
    assert (ago (in_now inp) s < in_now inp) as Hlt by (unfold ago, seconds; lia).
    apply Z.ltb_lt in Hlt. rewrite Hlt. by destruct (worker_Status y).
  - intros y1 Hy1. by rewrite Hy in Hy1; simplify_eq.
  - intros s Hs. unfold healthy. cbn.
    assert (ago (in_now inp) s < in_now inp) as Hlt by (unfold ago, seconds; lia).
    apply Z.ltb_lt in Hlt. by rewrite Hlt.
  - intros y1 Hy1. by rewrite Hy in Hy1.
Qed.

(** Without the word healthy: serving, and heard of in the last [n] seconds. *)
Lemma healthy_spec now n x :
  healthy now n x = true ↔
  worker_Status x ≠ WorkerStatusOffline ∧ worker_Status x ≠ WorkerStatusUnhealty ∧
  ∃ t, worker_LastHeartBeat x = Some t ∧ now - n * 1000000 < t.
Proof.
  unfold healthy, sql_gt, ago, seconds, serving.
  destruct (worker_LastHeartBeat x) as [t|]; cbn.
  - destruct (Z.ltb_spec (now - n * 1000000) t); destruct (worker_Status x);
      (split; [try done; eauto|]); intros (? & ? & t' & [= <-] & ?); done || lia.
  - destruct (worker_Status x); (split; [done|]); by intros (_ & _ & t' & [=] & _).
Qed.

Lemma silent_spec now n x :
  silent now n x = true ↔
  worker_Status x ≠ WorkerStatusOffline ∧ worker_Status x ≠ WorkerStatusUnhealty ∧
  ∀ t, worker_LastHeartBeat x = Some t → t < now - n * 1000000.
Proof.
  unfold silent, sql_lt, ago, seconds, serving.
  destruct (worker_LastHeartBeat x) as [t|]; cbn.
  - destruct (Z.ltb_spec t (now - n * 1000000)); destruct (worker_Status x);
      (split; [try done|]); first [by intros _; split_and!; [..|by intros ? [= <-]]
        | by intros (? & ? & ?) | intros (? & ? & Ht); specialize (Ht t eq_refl); lia].
  - destruct (worker_Status x); (split; [try done|]); by intros (? & ? & _).
Qed.

(** FetchHealthy returns exactly the workers that are neither OFFLINE nor UNHEALTHY and
    were heard of in the last [n] seconds, each once, the least loaded first: by running jobs,
    then by CPU. It changes nothing. *)
Theorem FetchHealthy_spec `{!OrderByLaws} n inp ins w :
  Inv w → in_outcome inp = Done →
  ∃ xs, run (FetchHealthy n) (inp :: ins) w = (Ok xs, w) ∧
    (∀ x, x ∈ xs ↔ w_workers w !! worker_ID x = Some x ∧
       worker_Status x ≠ WorkerStatusOffline ∧ worker_Status x ≠ WorkerStatusUnhealty ∧
       ∃ t, worker_LastHeartBeat x = Some t ∧ in_now inp - n * 1000000 < t) ∧
    NoDup (worker_ID <$> xs) ∧
    StronglySorted (λ a b, worker_RunningJobs a < worker_RunningJobs b ∨
       worker_RunningJobs a = worker_RunningJobs b ∧
       cpu_leb (worker_CPU a) (worker_CPU b) = true) xs.
Proof.
  intros HI Hd. unfold FetchHealthy. rewrite run_method by done. scanned. cbn [fst snd sql_fetch_healthy].
  eexists. split; [done|]. split_and!.
  - intros x. rewrite elem_of_order_by, elem_of_filter_bool, healthy_spec.
    rewrite elem_of_rows. split.
    + intros [Hh [k Hk]]. split; [|done]. by destruct (inv_workers _ HI _ _ Hk) as [-> _].
    + intros [Hk Hh]. eauto.
  - rewrite (fmap_Permutation worker_ID _ _ (order_by_Permutation _ _)).
    apply NoDup_fmap_filter_bool. apply NoDup_rows_key.
    intros k x Hx. by destruct (inv_workers _ HI _ _ Hx).
  - apply order_by_sorted_by; [apply load_leb_total|apply load_leb_trans|].
    intros a b Hab. unfold load_leb in Hab. apply orb_prop in Hab as [Hab|Hab]; to_prop; auto.
Qed.

(** However FetchHealthy ends, it changes nothing; its list is the statement's, and names
    each serving worker once. *)
Lemma run_FetchHealthy `{!OrderByLaws} n ins w :
  Inv w →
  ∃ r, run (FetchHealthy n) ins w = (r, w) ∧
    match r with
    | Ok xs => Ok xs = (sql_fetch_healthy n (hd default_input ins) w).1 ∧
               NoDup (worker_ID <$> xs) ∧
               ∀ x, x ∈ xs → w_workers w !! worker_ID x = Some x ∧ serving x = true
    | Err _ => in_outcome (hd default_input ins) ≠ Done
    end.
Proof.
  intros HI. unfold FetchHealthy. rewrite run_bind_call.
  destruct (perform _ _ w) as [r w1] eqn:Hp. cbn [run]. scanned.
  assert (w1 = w) as ->.
  { destruct (perform_world (hd default_input ins) (sql_fetch_healthy n) w) as [Hw|Hw];
      rewrite Hp in Hw; exact Hw. }
  eexists. split; [done|]. destruct r as [xs|e]; cbn [wrap_error].
  - pose proof (perform_ok _ _ _ xs (f_equal fst Hp)) as Hok. rewrite Hp in Hok.
    injection Hok as Hxs. cbn [fst]. rewrite Hxs. split_and!; [done|..].
    + rewrite (fmap_Permutation worker_ID _ _ (order_by_Permutation _ _)).
      apply NoDup_fmap_filter_bool, NoDup_rows_key.
      intros k x Hx. by destruct (inv_workers _ HI _ _ Hx).
    + intros x. rewrite elem_of_order_by, elem_of_filter_bool, elem_of_rows.
      intros [Hh [k Hk]]. destruct (inv_workers _ HI _ _ Hk) as [-> _]. split; [done|].
      unfold healthy in Hh. by destruct (serving x); [|destruct (sql_gt _ _) as [[]|]].
  - intros Hd. by rewrite (perform_done _ _ _ Hd) in Hp.
Qed.

(** Sequential effect of MarkUnhealthy. *)
Lemma run_MarkUnhealthy n inp ins w :
  in_outcome inp = Done →
  ∃ k, run (MarkUnhealthy n) (inp :: ins) w =
    (Ok k, set_workers ((λ x, if silent (in_now inp) n x
                              then worker_set_status WorkerStatusUnhealty x else x)
                          <$> w_workers w) w).
Proof.
  intros Hd. unfold MarkUnhealthy. rewrite run_method by done. eexists. done.
Qed.
End spec.
