(* ===== verification/DeadLettersRepo.v ===== *)
(** * The dead letters repository: internal/repository/dead_letters.go

    The interface [DeadLettersRepository], its SQL statements on the dead_letters table, the
    PostgreSQL implementation [pgDeadLettersRepo] and its promise. *)

From S2P Require Import Prelude GoStd Models Json World Sql Columns Lifecycle.

Class DeadLettersRepository `{Env} : Type := {
  DL_Insert : DeadLetter → Prog (Res unit);
  DL_List : Z → Z → Prog (Res (list DeadLetter));
  DL_Get : uuid → Prog (Res DeadLetter);
  DL_MarkReplayed : uuid → uuid → Prog (Res unit);
  DL_Delete : uuid → Prog (Res unit);
}.

Section statements.
Context `{E : Env}.

(** INSERT INTO dead_letters (job_id, worker_id, job_type, payload, attempts, error): id,
    status and created_at take the table's defaults. *)
Definition sql_insert_dead_letter (dl : DeadLetter) : action Z := λ inp w,
  match dl_Payload dl with
  | None => (Err not_null_violation, w)
  | Some p =>
      if negb (pg_text (dl_JobType dl) && pg_text (dl_Error dl))
      then (Err character_not_in_repertoire, w)
      else if negb (int32_ok (dl_Attempts dl)) then (Err numeric_value_out_of_range, w)
      else match jsonb p, w_dead w !! in_uuid inp with
           | None, _ => (Err invalid_text_representation, w)
           | _, Some _ => (Err unique_violation, w)
           | Some doc, None =>
               let row := mkDeadLetter (in_uuid inp) (dl_JobID dl) (dl_WorkerID dl)
                            (dl_JobType dl) (Some doc) (dl_Attempts dl) (dl_Error dl)
                            "OPEN" None None (in_now inp) in
               (Ok 1, set_dead (<[in_uuid inp := row]> (w_dead w)) w)
           end
  end.

Definition dl_newest_leb (a b : DeadLetter) : bool := dl_CreatedAt b <=? dl_CreatedAt a.

Definition sql_list_dead_letters (limit offset : Z) : action (list DeadLetter) := λ _ w,
  (limit_offset limit offset (order_by dl_newest_leb (rows (w_dead w))), w).

Definition sql_select_dead_letter (id : uuid) : action DeadLetter := λ _ w,
  (match w_dead w !! id with Some d => Ok d | None => Err ErrNoRows end, w).

(** SET status = 'REPLAYED', replayed_at = now(), replayed_job_id = $2 WHERE id = $1 *)
Definition replayed_row (now : Time) (jobID : uuid) (d : DeadLetter) : DeadLetter :=
  mkDeadLetter (dl_ID d) (dl_JobID d) (dl_WorkerID d) (dl_JobType d) (dl_Payload d)
    (dl_Attempts d) (dl_Error d) "REPLAYED" (Some now) (Some jobID) (dl_CreatedAt d).

Definition sql_mark_replayed (id jobID : uuid) : action Z := λ inp w,
  let '(t, n) := update_id id (λ _, true) (replayed_row (in_now inp) jobID) (w_dead w) in
  (Ok n, set_dead t w).

Definition sql_delete_dead_letter (id : uuid) : action Z := λ _ w,
  match w_dead w !! id with
  | Some _ => (Ok 1, set_dead (delete id (w_dead w)) w)
  | None => (Ok 0, w)
  end.

(** ** The methods of pgDeadLettersRepo *)

Definition dl_exec_one (msg : string) (tag : Res Z) : Res unit :=
  match tag with
  | Err e => Err (Wrap msg e)
  | Ok n => if n =? 0 then Err ErrNotFound else Ok tt
  end.

Definition Insert (dl : DeadLetter) : Prog (Res unit) :=
  let! tag := call (sql_insert_dead_letter dl) in
  Ret (match tag with Err e => Err (Wrap "insert dead letter" e) | Ok _ => Ok tt end).

Definition ListDeadLetters (limit offset : Z) : Prog (Res (list DeadLetter)) :=
  let limit' := if limit <=? 0 then 50 else limit in
  let! rs := call (sql_list_dead_letters limit' offset) in
  Ret (match rs with
       | Err e => Err (Wrap "list dead letters" e)
       | Ok l => scan_rows scanDeadLetter l
       end).

Definition GetDeadLetter (id : uuid) : Prog (Res DeadLetter) :=
  let! row := call (sql_select_dead_letter id) in
  Ret (match scanDeadLetter row with
       | Err e => if errors_Is e ErrNoRows then Err ErrNotFound else Err e
       | Ok d => Ok d
       end).

Definition MarkReplayed (id replayedJobID : uuid) : Prog (Res unit) :=
  let! tag := call (sql_mark_replayed id replayedJobID) in
  Ret (dl_exec_one "mark dead letter replayed" tag).

Definition Delete (id : uuid) : Prog (Res unit) :=
  let! tag := call (sql_delete_dead_letter id) in
  Ret (dl_exec_one "delete dead letter" tag).
End statements.

#[export] Instance pgDeadLettersRepo `{Env} : DeadLettersRepository := {|
  DL_Insert := Insert;
  DL_List := ListDeadLetters;
  DL_Get := GetDeadLetter;
  DL_MarkReplayed := MarkReplayed;
  DL_Delete := Delete;
|}.

Class DeadLettersRepositorySafe `{E : Env} (D : DeadLettersRepository) : Prop := {
  DL_Insert_safe dl : prog_safe Inv world_step (DL_Insert dl);
  DL_List_safe l o : prog_safe Inv world_step (DL_List l o);
  DL_Get_safe id : prog_safe Inv world_step (DL_Get id);
  DL_MarkReplayed_safe id jid : prog_safe Inv world_step (DL_MarkReplayed id jid);
  DL_Delete_safe id : prog_safe Inv world_step (DL_Delete id);
}.
#[export] Hint Resolve DL_Insert_safe DL_List_safe DL_Get_safe DL_MarkReplayed_safe
  DL_Delete_safe : sched.

(** ** Lemmas *)

Section statements_safe.
Context `{E : Env}.
Implicit Types (w : World) (inp : Input).

Lemma sql_insert_dead_letter_safe `{!JsonbLaws} dl inp w :
  Inv w →
  Inv (sql_insert_dead_letter dl inp w).2 ∧
  world_step w (sql_insert_dead_letter dl inp w).2.
Proof.
  intros HI. unfold sql_insert_dead_letter.
  destruct (dl_Payload dl) as [p|]; [|by split].
  destruct (negb (_ && _)); [by split|]. destruct (negb _); [by split|].
  destruct (jsonb p) as [doc|] eqn:Hdoc; [|by split].
  destruct (w_dead w !! in_uuid inp) eqn:Hfree; [by split|].
  apply dead_update_safe; [done|]. intros id. rewrite lookup_insert. case_decide as Heq.
  - subst id. rewrite Hfree. apply dl_insert; try done. by eapply jsonb_json.
  - constructor.
Qed.

Lemma sql_mark_replayed_safe id jid inp w :
  Inv w →
  Inv (sql_mark_replayed id jid inp w).2 ∧ world_step w (sql_mark_replayed id jid inp w).2.
Proof.
  intros HI. unfold sql_mark_replayed.
  destruct (update_id _ _ _ _) as [t n] eqn:Ht. apply dead_update_safe; [done|]. intros k.
  replace t with (update_id id (λ _, true) (replayed_row (in_now inp) jid) (w_dead w)).1
    by (by rewrite Ht).
  rewrite lookup_update_id. case_decide; [|constructor].
  destruct (w_dead w !! k) as [d|]; [|constructor].
  by apply (dl_replay _ _ _ (in_now inp) jid).
Qed.

Lemma sql_delete_dead_letter_safe id inp w :
  Inv w →
  Inv (sql_delete_dead_letter id inp w).2 ∧
  world_step w (sql_delete_dead_letter id inp w).2.
Proof.
  intros HI. unfold sql_delete_dead_letter.
  destruct (w_dead w !! id) as [d|] eqn:Hd; [|by split].
  apply dead_update_safe; [done|]. intros k. destruct (decide (k = id)) as [->|Hne].
  - rewrite lookup_delete_eq, Hd. constructor.
  - rewrite lookup_delete_ne by done. constructor.
Qed.
End statements_safe.

#[export] Instance pgDeadLettersRepo_safe `{E : Env, !JsonbLaws} :
  DeadLettersRepositorySafe pgDeadLettersRepo.
Proof.
  constructor.
  - intros dl. method_safe. by apply sql_insert_dead_letter_safe.
  - intros l o. method_safe. by split.
  - intros id. method_safe. by split.
  - intros id jid. method_safe. by apply sql_mark_replayed_safe.
  - intros id. method_safe. by apply sql_delete_dead_letter_safe.
Qed.
