(* ===== verification/Broker.v ===== *)
(** * The broker package: internal/broker

    The topics, the three messages with their JSON form, the producer, and the consumer's
    loop. *)

From S2P Require Import Prelude GoStd Models GoTime Json World Lifecycle.

(** ** Topics *)

Definition TopicJobs : string := "jobs".
Definition TopicResults : string := "results".
Definition TopicHeartbeats : string := "heartbeats".
Definition TopicDeadLetter : string := "dead-letters".

(** ** Messages *)

Record JobMessage : Type := mkJobMessage {
  jm_JobID : uuid;
  jm_WorkerID : uuid;
  jm_Type : string;
  jm_Payload : RawMessage;
  jm_Priority : Z;
  jm_Attempts : Z;
}.
#[export] Instance JobMessage_eq_dec : EqDecision JobMessage.
Proof. solve_decision. Defined.

Record ResultMessage : Type := mkResultMessage {
  rm_JobID : uuid;
  rm_WorkerID : uuid;
  rm_Success : bool;
  rm_Error : string;
  rm_JobType : string;
  rm_Payload : RawMessage;
  rm_Attempts : Z;
}.
#[export] Instance ResultMessage_eq_dec : EqDecision ResultMessage.
Proof. solve_decision. Defined.

Record HeartbeatMessage : Type := mkHeartbeatMessage {
  hm_WorkerID : uuid;
  hm_Hostname : string;
  hm_CPU : float64;
  hm_Memory : float64;
  hm_RunningJobs : Z;
  hm_Timestamp : WallTime;
}.
#[export] Instance HeartbeatMessage_eq_dec : EqDecision HeartbeatMessage.
Proof. solve_decision. Defined.

(** json.Marshal and json.Unmarshal at a type. *)
Class Json (T : Type) : Type := {
  json_Marshal : T → Res string;
  json_Unmarshal : string → Res T;
}.

Definition syntax_error : error := ErrText "invalid character in JSON input".

(** Unmarshal into a struct whose zero value is [zero]. *)
Definition decode_struct {T} (zero : T) (fields : list (string * string) → Res T)
    (v : string) : Res T :=
  match read_document v with
  | DocInvalid => Err syntax_error
  | DocNull => Ok zero
  | DocObject l => fields l
  | DocOther => Err type_error
  end.

Section codecs.
Context `{E : Env}.

Definition json_uuid (u : uuid) : string := json_string (uuid_String u).
Definition get_uuid : list string → Res uuid := get_text uuid_Nil uuid_Parse.

Definition JobMessage_names : list string :=
  ["job_id"; "worker_id"; "type"; "payload"; "priority"; "attempts"].

#[export] Instance JobMessage_Json : Json JobMessage := {|
  json_Marshal m :=
    result_bind (json_raw (jm_Payload m)) (λ p,
      Ok (render_object
        [("job_id", json_uuid (jm_JobID m)); ("worker_id", json_uuid (jm_WorkerID m));
         ("type", json_string (jm_Type m)); ("payload", p);
         ("priority", json_int (jm_Priority m)); ("attempts", json_int (jm_Attempts m))]));
  json_Unmarshal :=
    decode_struct (mkJobMessage uuid_Nil uuid_Nil EmptyString None 0 0) (λ l,
      let f := λ k, field JobMessage_names k l in
      result_bind (get_uuid (f "job_id")) (λ a,
      result_bind (get_uuid (f "worker_id")) (λ b,
      result_bind (get_string (f "type")) (λ c,
      result_bind (get_int int16_ok (f "priority")) (λ d,
      result_bind (get_int int64_ok (f "attempts")) (λ e,
      Ok (mkJobMessage a b c (get_raw (f "payload")) d e)))))));
|}.

Definition ResultMessage_names : list string :=
  ["job_id"; "worker_id"; "success"; "error"; "job_type"; "payload"; "attempts"].

(** The fields tagged omitempty are left out at their zero length or value. *)
Definition omit_if (b : bool) (m : string * string) : list (string * string) :=
  if b then [] else [m].

Definition raw_is_empty (p : RawMessage) : bool :=
  match p with None => true | Some s => string_is_empty s end.

#[export] Instance ResultMessage_Json : Json ResultMessage := {|
  json_Marshal m :=
    result_bind (if raw_is_empty (rm_Payload m) then Ok EmptyString
                 else json_raw (rm_Payload m)) (λ p,
      Ok (render_object
        ([("job_id", json_uuid (rm_JobID m)); ("worker_id", json_uuid (rm_WorkerID m));
          ("success", json_bool (rm_Success m))]
         ++ omit_if (string_is_empty (rm_Error m)) ("error", json_string (rm_Error m))
         ++ omit_if (string_is_empty (rm_JobType m)) ("job_type", json_string (rm_JobType m))
         ++ omit_if (raw_is_empty (rm_Payload m)) ("payload", p)
         ++ omit_if (rm_Attempts m =? 0) ("attempts", json_int (rm_Attempts m)))));
  json_Unmarshal :=
    decode_struct (mkResultMessage uuid_Nil uuid_Nil false EmptyString EmptyString None 0) (λ l,
      let f := λ k, field ResultMessage_names k l in
      result_bind (get_uuid (f "job_id")) (λ a,
      result_bind (get_uuid (f "worker_id")) (λ b,
      result_bind (get_bool (f "success")) (λ c,
      result_bind (get_string (f "error")) (λ d,
      result_bind (get_string (f "job_type")) (λ e,
      result_bind (get_int int64_ok (f "attempts")) (λ n,
      Ok (mkResultMessage a b c d e (get_raw (f "payload")) n))))))));
|}.

Definition HeartbeatMessage_names : list string :=
  ["worker_id"; "hostname"; "cpu"; "memory"; "running_jobs"; "timestamp"].

#[export] Instance HeartbeatMessage_Json : Json HeartbeatMessage := {|
  json_Marshal m :=
    if time_marshals (hm_Timestamp m) then
      Ok (render_object
        [("worker_id", json_uuid (hm_WorkerID m)); ("hostname", json_string (hm_Hostname m));
         ("cpu", json_float (hm_CPU m)); ("memory", json_float (hm_Memory m));
         ("running_jobs", json_int (hm_RunningJobs m));
         ("timestamp", json_string (format_rfc3339_nano (hm_Timestamp m)))])
    else Err (ErrText "json: error calling MarshalJSON for type time.Time");
  json_Unmarshal :=
    decode_struct (mkHeartbeatMessage uuid_Nil EmptyString (mkFloat 0 0) (mkFloat 0 0) 0 wall_zero)
      (λ l,
      let f := λ k, field HeartbeatMessage_names k l in
      result_bind (get_uuid (f "worker_id")) (λ a,
      result_bind (get_string (f "hostname")) (λ b,
      result_bind (get_float (f "cpu")) (λ c,
      result_bind (get_float (f "memory")) (λ d,
      result_bind (get_int int64_ok (f "running_jobs")) (λ e,
      result_bind (get_text wall_zero parse_rfc3339 (f "timestamp")) (λ t,
      Ok (mkHeartbeatMessage a b c d e t))))))));
|}.

(** broker.Decode *)
Definition Decode {T} `{Json T} (value : string) : Res T := json_Unmarshal value.

(** ** The producer *)

(** WriteMessages with one message, appended to its topic: once when it is applied, whatever
    the caller is told. The writer's own retries, which may append it again, are not in the
    log; consumers may be given any message of it any number of times, which is what such a
    copy would amount to. *)
Definition kafka_write (topic key value : string) : action unit := λ _ w,
  (Ok tt, set_log (w_log w ++ [mkKafkaMessage topic key value]) w).

(** The topics NewProducer makes a writer for. *)
Definition writers : list string := [TopicJobs; TopicResults; TopicHeartbeats; TopicDeadLetter].

Definition unknown_topic (topic : string) : error :=
  ErrText ("unknown topic " +:+ json_string topic).

Definition Publish {T} `{Json T} (topic key : string) (v : T) : Prog (Res unit) :=
  if bool_decide (topic ∈ writers) then
    match json_Marshal v with
    | Err e => Ret (Err e)
    | Ok body => call (kafka_write topic key body)
    end
  else Ret (Err (unknown_topic topic)).

(** JobPublisher.PublishJob *)
Definition PublishJob (msg : JobMessage) : Prog (Res unit) :=
  Publish TopicJobs (uuid_String (jm_WorkerID msg)) msg.

(** Producer.Close: the results of closing the writers, in the order the map is ranged
    over; the first error is kept. *)
Fixpoint Close (results : list (option error)) : option error :=
  match results with
  | [] => None
  | r :: rs => match r with Some e => Some e | None => Close rs end
  end.

(** ** The consumer *)

Definition isTemporary (e : error) : bool :=
  match errors_As_Temporary e with Some t => t | None => false end.

Definition ctx_ended (e : error) : bool :=
  errors_Is e ErrCanceled || errors_Is e ErrDeadlineExceeded.

(** What the reader does in one turn of the loop: the answer of FetchMessage, the answer of
    CommitMessages, and whether a sleep of this turn is cut short by the context. *)
Record Turn : Type := mkTurn {
  tn_fetch : Res KafkaMessage;
  tn_commit : Res unit;
  tn_interrupted : bool;
}.

(** How a run stands: returned with an error or nil, or waiting for the next message. *)
Inductive RunEnd : Type :=
| Returned (r : Res unit)
| Waiting.

(** The messages handled, with the handler's answer, and the messages committed. *)
Record Consumed : Type := mkConsumed {
  cs_handled : list (KafkaMessage * Res unit);
  cs_committed : list KafkaMessage;
}.
Definition nothing_consumed : Consumed := mkConsumed [] [].

Definition Handler : Type := string → string → Prog (Res unit).

(** Consumer.Run, one turn of the loop for each element of the list. *)
Fixpoint Consumer_Run (handler : Handler) (turns : list Turn) (cs : Consumed)
    : Prog (RunEnd * Consumed) :=
  match turns with
  | [] => Ret (Waiting, cs)
  | t :: ts =>
      match tn_fetch t with
      | Err e =>
          if ctx_ended e then Ret (Returned (Ok tt), cs)
          else if isTemporary e then
            if tn_interrupted t then Ret (Returned (Ok tt), cs)
            else Consumer_Run handler ts cs
          else Ret (Returned (Err e), cs)
      | Ok msg =>
          let! r := handler (km_key msg) (km_value msg) in
          let cs1 := mkConsumed (cs_handled cs ++ [(msg, r)]) (cs_committed cs) in
          match r with
          | Err e => Ret (Returned (Err e), cs1)
          | Ok _ =>
              match tn_commit t with
              | Ok _ =>
                  Consumer_Run handler ts
                    (mkConsumed (cs_handled cs1) (cs_committed cs1 ++ [msg]))
              | Err e =>
                  if isTemporary e then
                    if tn_interrupted t then Ret (Returned (Ok tt), cs1)
                    else Consumer_Run handler ts cs1
                  else Ret (Returned (Err e), cs1)
              end
          end
      end
  end.
End codecs.

(** ** Lemmas *)

Section safety.
Context `{E : Env}.

Lemma kafka_write_safe topic key value :
  prog_safe Inv world_step (call (kafka_write topic key value)).
Proof.
  apply prog_safe_call; [apply _|]. intros inp w HI.
  apply frame_safe; try done. cbn. by exists [mkKafkaMessage topic key value].
Qed.

Lemma Publish_safe {T} `{Json T} topic key (v : T) :
  prog_safe Inv world_step (Publish topic key v).
Proof.
  unfold Publish. case_bool_decide; [|done].
  destruct (json_Marshal v); [apply kafka_write_safe|done].
Qed.

Lemma PublishJob_safe msg : prog_safe Inv world_step (PublishJob msg).
Proof. apply Publish_safe. Qed.

Lemma Inc_safe c : prog_safe Inv world_step (Inc c).
Proof. apply prog_safe_local. intros inp w HI. by apply frame_safe. Qed.

(** A consumer is safe when its handler is. *)
Lemma Consumer_Run_safe handler turns cs :
  (∀ k v, prog_safe Inv world_step (handler k v)) →
  prog_safe Inv world_step (Consumer_Run handler turns cs).
Proof.
  intros Hh. revert cs. induction turns as [|t ts IH]; intros cs; cbn; [done|].
  destruct (tn_fetch t) as [msg|e].
  - apply prog_safe_bind; [apply Hh|]. intros [[]|e]; [|done].
    destruct (tn_commit t) as [[]|e]; [apply IH|].
    destruct (isTemporary e); [|done]. destruct (tn_interrupted t); [done|apply IH].
  - destruct (ctx_ended e); [done|]. destruct (isTemporary e); [|done].
    destruct (tn_interrupted t); [done|apply IH].
Qed.
End safety.
#[export] Hint Resolve kafka_write_safe Publish_safe PublishJob_safe Inc_safe : sched.

Lemma json_raw_text p : json_text p → ∃ s, json_raw p = Ok s.
Proof. intros (t & -> & [v Hv]). cbn. rewrite Hv. by eexists. Qed.

(** A message whose payload is a JSON text can be marshalled. *)
Lemma JobMessage_Marshal_ok `{E : Env} m :
  json_text (jm_Payload m) → ∃ body, json_Marshal m = Ok body.
Proof. intros [p Hp]%json_raw_text. cbn. rewrite Hp. by eexists. Qed.
