(* ===== verification/BrokerSpec.v ===== *)
(** * The messages of the broker: what is written is what is read

    Round trips of the message types through encoding/json, the fact that a message that was
    read can be written again, what the producer writes and what the consumer commits. *)

From S2P Require Import Prelude GoStd Decimal Models GoTime Json JsonFacts TimeFacts Floats.
From S2P Require Import Compact World MemEnv Lifecycle Broker.

(** What a RawMessage field holds after a trip: the compacted text, null for a nil slice. *)
Definition carried (p : RawMessage) : RawMessage :=
  match p with Some s => Some (compact false false s) | None => Some "null" end.

Lemma json_raw_carried p s : json_raw p = Ok s → Some s = carried p.
Proof.
  destruct p as [t|]; cbn; [|by intros [= <-]]. destruct (whole_value t); [|done].
  by intros [= <-].
Qed.

(** A payload is compacted once: a second trip does not change it. *)
Lemma carried_idem p : carried (carried p) = carried p.
Proof. destruct p as [s|]; [|done]. cbn. f_equal. by eapply compact_idem. Qed.

Lemma carried_json p : json_text p → json_text (carried p).
Proof.
  intros (s & -> & [v Hv]). cbn. eexists. split; [done|].
  rewrite (whole_value_ok _ (compact_value s v Hv)). by eexists.
Qed.

Section roundtrips.
Context `{E : Env, !UuidLaws}.

Lemma json_uuid_value u : value_ok (json_uuid u).
Proof. apply json_string_value. Qed.

Lemma get_uuid_printed u : get_uuid [json_uuid u] = Ok u.
Proof.
  apply get_text_printed; [apply uuid_String_utf8|apply uuid_Parse_String].
Qed.

#[local] Hint Resolve json_uuid_value : sched.

(** The values of a field, member by member. *)
Lemma field_omit names k b m l :
  field names k (omit_if b m ++ l) =
  (if negb b && names_match names k m.1 then [m.2] else []) ++ field names k l.
Proof. destruct b, m as [k' v]; cbn; [done|]. by destruct (names_match names k k'). Qed.

Lemma field_cons names k k' v l :
  field names k ((k', v) :: l) = (if names_match names k k' then [v] else []) ++ field names k l.
Proof. cbn. by destruct (names_match names k k'). Qed.

(** Evaluates the comparisons of constant field names. *)
Ltac eval_names :=
  repeat match goal with
  | |- context [names_match ?n ?k ?x] =>
      let b := eval vm_compute in (names_match n k x) in
      replace (names_match n k x) with b by (vm_compute; reflexivity)
  end.

Lemma get_string_optional s :
  get_string (if negb (string_is_empty s) then [json_string s] else []) = Ok (to_valid s).
Proof. destruct s as [|c s]; [done|]. apply get_string_any. Qed.

Lemma get_int_optional n :
  int64_ok n = true → get_int int64_ok (if negb (n =? 0) then [json_int n] else []) = Ok n.
Proof.
  intros Hn. destruct (Z.eqb_spec n 0) as [->|]; [done|]. by apply get_int_printed.
Qed.

(** A job message survives the topic: what the worker decodes is what the dispatcher
    published, with the payload in its compact form. *)
Lemma JobMessage_decode m s :
  utf8_valid (jm_Type m) = true → int16_ok (jm_Priority m) = true →
  int64_ok (jm_Attempts m) = true → json_Marshal m = Ok s →
  Decode s = Ok (mkJobMessage (jm_JobID m) (jm_WorkerID m) (jm_Type m) (carried (jm_Payload m))
                   (jm_Priority m) (jm_Attempts m)).
Proof.
  intros Ht Hp Ha. cbn [json_Marshal JobMessage_Json].
  destruct (json_raw (jm_Payload m)) as [p|e] eqn:Hraw; [|done]. intros [= <-].
  rewrite <- (json_raw_carried _ _ Hraw).
  unfold Decode. cbn [json_Unmarshal JobMessage_Json]. unfold decode_struct.
  rewrite read_render_object.
  2: { pose proof (json_raw_value _ _ Hraw). unfold members_ok. members_tac. }
  cbv zeta. rewrite !field_cons. eval_names. cbn [app field].
  by rewrite !get_uuid_printed, get_string_printed, !get_int_printed by done.
Qed.

Lemma members_omit b m l : (b = false → utf8_valid m.1 = true ∧ value_ok m.2) →
  members_ok l → members_ok (omit_if b m ++ l).
Proof. intros Hm Hl. destruct b; [done|]. constructor; [by apply Hm|done]. Qed.

(** The members of a result message whose payload is printed as [p]. *)
Definition result_members (m : ResultMessage) (p : string) : list (string * string) :=
  ("job_id", json_uuid (rm_JobID m)) :: ("worker_id", json_uuid (rm_WorkerID m)) ::
  ("success", json_bool (rm_Success m)) ::
  omit_if (string_is_empty (rm_Error m)) ("error", json_string (rm_Error m)) ++
  omit_if (string_is_empty (rm_JobType m)) ("job_type", json_string (rm_JobType m)) ++
  omit_if (raw_is_empty (rm_Payload m)) ("payload", p) ++
  omit_if (rm_Attempts m =? 0) ("attempts", json_int (rm_Attempts m)) ++ [].

Lemma ResultMessage_Marshal_members m :
  json_Marshal m =
  result_map (λ p, render_object (result_members m p))
    (if raw_is_empty (rm_Payload m) then Ok EmptyString else json_raw (rm_Payload m)).
Proof.
  unfold result_members. rewrite app_nil_r. cbn [json_Marshal ResultMessage_Json].
  by destruct (if raw_is_empty _ then _ else _).
Qed.

Lemma result_members_ok m p :
  (raw_is_empty (rm_Payload m) = false → value_ok p) → members_ok (result_members m p).
Proof.
  intros Hp. unfold result_members, members_ok.
  do 3 (apply Forall_cons; split; [cbn [fst snd]; split; [reflexivity|auto with sched]|]).
  repeat (apply members_omit; [intros; cbn [fst snd]; split; [reflexivity|auto with sched]|]).
  constructor.
Qed.

(** The values of each field. *)
Lemma result_fields m p k :
  field ResultMessage_names k (result_members m p) =
  (if names_match ResultMessage_names k "job_id" then [json_uuid (rm_JobID m)] else []) ++
  (if names_match ResultMessage_names k "worker_id" then [json_uuid (rm_WorkerID m)] else []) ++
  (if names_match ResultMessage_names k "success" then [json_bool (rm_Success m)] else []) ++
  (if negb (string_is_empty (rm_Error m)) && names_match ResultMessage_names k "error"
   then [json_string (rm_Error m)] else []) ++
  (if negb (string_is_empty (rm_JobType m)) && names_match ResultMessage_names k "job_type"
   then [json_string (rm_JobType m)] else []) ++
  (if negb (raw_is_empty (rm_Payload m)) && names_match ResultMessage_names k "payload"
   then [p] else []) ++
  (if negb (rm_Attempts m =? 0) && names_match ResultMessage_names k "attempts"
   then [json_int (rm_Attempts m)] else []).
Proof.
  unfold result_members. rewrite !field_cons, !field_omit. cbn [fst snd]. by rewrite !app_nil_r.
Qed.

(** A result message survives the topic: empty optional fields are left out and read back
    empty; a payload comes back compacted, and texts with their invalid bytes replaced. *)
Lemma ResultMessage_decode_any m s :
  int64_ok (rm_Attempts m) = true → json_Marshal m = Ok s →
  Decode s = Ok (mkResultMessage (rm_JobID m) (rm_WorkerID m) (rm_Success m)
                   (to_valid (rm_Error m)) (to_valid (rm_JobType m))
                   (if raw_is_empty (rm_Payload m) then None else carried (rm_Payload m))
                   (rm_Attempts m)).
Proof.
  intros Ha. rewrite ResultMessage_Marshal_members.
  destruct (if raw_is_empty _ then _ else _) as [p|e] eqn:Hraw; [|done].
  cbn [result_map]. intros Hs. injection Hs as <-.
  assert (Hpv : raw_is_empty (rm_Payload m) = false → value_ok p ∧ Some p = carried (rm_Payload m)).
  { intros Hem. rewrite Hem in Hraw. split; [by eapply json_raw_value|by apply json_raw_carried]. }
  unfold Decode. cbn [json_Unmarshal ResultMessage_Json]. unfold decode_struct.
  rewrite read_render_object by (apply result_members_ok; intros; by apply Hpv).
  cbv zeta. rewrite !result_fields. generalize (json_uuid (rm_JobID m)), (get_uuid_printed (rm_JobID m)).
  intros u1 Hu1. generalize (json_uuid (rm_WorkerID m)), (get_uuid_printed (rm_WorkerID m)).
  intros u2 Hu2. eval_names.
  rewrite !andb_false_r, !andb_true_r. cbn [app]. rewrite !app_nil_r.
  rewrite Hu1, Hu2, get_bool_printed, !get_string_optional, get_int_optional by done.
  cbn [result_bind]. do 2 f_equal.
  destruct (raw_is_empty (rm_Payload m)); [done|]. by apply Hpv.
Qed.

Lemma ResultMessage_decode m s :
  utf8_valid (rm_Error m) = true → utf8_valid (rm_JobType m) = true →
  int64_ok (rm_Attempts m) = true → json_Marshal m = Ok s →
  Decode s = Ok (mkResultMessage (rm_JobID m) (rm_WorkerID m) (rm_Success m) (rm_Error m)
                   (rm_JobType m)
                   (if raw_is_empty (rm_Payload m) then None else carried (rm_Payload m))
                   (rm_Attempts m)).
Proof.
  intros He Ht Ha Hs. rewrite (ResultMessage_decode_any m s Ha Hs).
  by rewrite !to_valid_id.
Qed.

(** A heartbeat survives the topic, to the microsecond; MarshalJSON refuses years of more
    than four digits. *)
Lemma HeartbeatMessage_decode wid host cpu mem n off t s :
  int64_ok n = true →
  json_Marshal (mkHeartbeatMessage wid host cpu mem n (wall_clock off t)) = Ok s →
  Decode s = Ok (mkHeartbeatMessage wid (to_valid host) cpu mem n (wall_clock off t)).
Proof.
  intros Hn. cbn [json_Marshal HeartbeatMessage_Json hm_WorkerID hm_Hostname hm_CPU hm_Memory
    hm_RunningJobs hm_Timestamp].
  destruct (time_marshals (wall_clock off t)) eqn:Ht; [|done]. intros [= <-].
  unfold Decode. cbn [json_Unmarshal HeartbeatMessage_Json]. unfold decode_struct.
  rewrite read_render_object by (unfold members_ok; members_tac).
  cbv zeta. rewrite !field_cons. eval_names. cbn [app field].
  rewrite get_uuid_printed, get_string_any, !get_float_printed, get_int_printed by done.
  cbn [result_bind].
  rewrite (get_text_printed wall_zero parse_rfc3339 _ (wall_clock off t));
    [done|apply format_rfc3339_utf8|by apply parse_wall_clock].
Qed.

(** ** What was read can be written *)

Lemma parse_members_values fuel s l :
  parse_members fuel s = Some l → Forall (λ kv, whole_value kv.2 = Some kv.2) l.
Proof.
  revert s l. induction fuel as [|fuel IH]; intros s l; [done|]. cbn [parse_members].
  destruct (take_value BeginValue [] (skip_ws s)) as [[rawk s1]|]; [|done].
  destruct (json_unquote rawk) as [k|]; [|done].
  destruct (skip_ws s1) as [|c s2]; [done|]. destruct (is_byte 58 c); [|done].
  destruct (take_value BeginValue [] (skip_ws s2)) as [[v s3]|] eqn:Hv; [|done].
  pose proof (next_value_whole s2 v s3 Hv) as Hw.
  destruct (skip_ws s3) as [|d s4]; [done|]. destruct (is_byte 125 d).
  - destruct (string_is_empty _); [|done]. intros [= <-]. by repeat constructor.
  - destruct (is_byte 44 d); [|done].
    destruct (parse_members fuel s4) as [l'|] eqn:Hl; [|done]. intros [= <-].
    constructor; [done|]. by eapply IH.
Qed.

Lemma read_document_values s l :
  read_document s = DocObject l → Forall (λ kv, whole_value kv.2 = Some kv.2) l.
Proof.
  unfold read_document. destruct (whole_value s) as [[|c t]|]; [done| |done].
  destruct (is_byte 123 c); [|by case_bool_decide].
  destruct (skip_ws t) as [|d t2]; [done|].
  destruct (_ && _); [intros [= <-]; constructor|].
  destruct (parse_members _ t) as [l'|] eqn:Hl; [|done]. intros [= <-].
  by eapply parse_members_values.
Qed.

Lemma field_values names k l :
  Forall (λ kv, whole_value kv.2 = Some kv.2) l →
  Forall (λ v, whole_value v = Some v) (field names k l).
Proof.
  induction 1 as [|[k' v] l Hv _ IH]; [constructor|]. cbn.
  destruct (names_match names k k'); [by constructor|done].
Qed.

(** A RawMessage that was read is nil or a JSON text. *)
Lemma get_raw_text vs : Forall (λ v, whole_value v = Some v) vs →
  get_raw vs = None ∨ json_text (get_raw vs).
Proof.
  unfold get_raw. intros Hv. destruct (last vs) as [v|] eqn:Hl; [|by left].
  right. exists v. split; [done|]. rewrite last_Some_elem_of in Hl || idtac.
  rewrite Forall_forall in Hv. rewrite (Hv v); [done|].
  apply last_Some in Hl as [l' ->]. apply elem_of_app. right. left.
Qed.

(** The payload of a decoded result. *)
Lemma ResultMessage_payload s m :
  Decode (T := ResultMessage) s = Ok m → rm_Payload m = None ∨ json_text (rm_Payload m).
Proof.
  unfold Decode. cbn [json_Unmarshal ResultMessage_Json]. unfold decode_struct.
  destruct (read_document s) as [| |l|] eqn:Hd; [done|intros [= <-]; by left| |done].
  cbv zeta. pose proof (field_values ResultMessage_names "payload" _ (read_document_values _ _ Hd))
    as Hf.
  destruct (get_uuid _); [cbn|done]. destruct (get_uuid _); [cbn|done].
  destruct (get_bool _); [cbn|done]. destruct (get_string _); [cbn|done].
  destruct (get_string _); [cbn|done]. destruct (get_int _ _); [cbn|done].
  intros [= <-]. cbn. by apply get_raw_text.
Qed.

Lemma ResultMessage_Marshal_ok m :
  rm_Payload m = None ∨ json_text (rm_Payload m) → ∃ s, json_Marshal m = Ok s.
Proof.
  intros Hp. cbn [json_Marshal ResultMessage_Json].
  assert (∃ p, (if raw_is_empty (rm_Payload m) then Ok EmptyString else json_raw (rm_Payload m))
               = Ok p) as [p ->].
  { destruct (raw_is_empty _) eqn:He; [by eexists|].
    destruct Hp as [Hp|Hp]; [by rewrite Hp in He|]. by apply json_raw_text. }
  by eexists.
Qed.

Lemma ResultMessage_again s m :
  Decode (T := ResultMessage) s = Ok m → ∃ s', json_Marshal m = Ok s'.
Proof. intros Hm. eapply ResultMessage_Marshal_ok, ResultMessage_payload, Hm. Qed.
End roundtrips.

(** ** What the producer writes *)

Section producing.
Context `{E : Env}.
Implicit Types w : World.

(** Publishing to one of the four topics, when the value has a JSON form. *)
Lemma run_Publish {T} `{Json T} topic key (v : T) body ins w :
  topic ∈ writers → json_Marshal v = Ok body → all_done ins →
  run (Publish topic key v) ins w =
    (Ok tt, set_log (w_log w ++ [mkKafkaMessage topic key body]) w).
Proof.
  intros Ht Hb Hd. unfold Publish. rewrite bool_decide_true, Hb by done.
  by rewrite run_call, perform_all_done.
Qed.

Context `{!UuidLaws}.

(** C33: a job that is published is appended to the jobs topic under its worker's identifier,
    and what a reader decodes from it is the job that was published, field by field, with its
    payload compacted (null for a nil one); a payload that is no JSON text is refused and
    nothing is written. *)
Theorem PublishJob_roundtrip m ins w :
  utf8_valid (jm_Type m) = true → int16_ok (jm_Priority m) = true →
  int64_ok (jm_Attempts m) = true → all_done ins →
  (jm_Payload m = None ∨ json_text (jm_Payload m) →
   ∃ body, run (PublishJob m) ins w =
       (Ok tt, set_log (w_log w ++
          [mkKafkaMessage TopicJobs (uuid_String (jm_WorkerID m)) body]) w) ∧
     Decode body = Ok (mkJobMessage (jm_JobID m) (jm_WorkerID m) (jm_Type m)
                         (carried (jm_Payload m)) (jm_Priority m) (jm_Attempts m))) ∧
  (∀ p, jm_Payload m = Some p → whole_value p = None →
   ∃ e, run (PublishJob m) ins w = (Err e, w)).
Proof.
  intros Ht Hp Ha Hd. split.
  - intros Hpay. assert (∃ s, json_raw (jm_Payload m) = Ok s) as [s Hs].
    { destruct Hpay as [Hn|Hj]; [rewrite Hn; by eexists|by apply json_raw_text]. }
    assert (∃ body, json_Marshal m = Ok body) as [body Hb] by (cbn; rewrite Hs; by eexists).
    exists body. split; [|by apply JobMessage_decode].
    apply run_Publish; [apply list_elem_of_In; cbn; auto|done|done].
  - intros p Hpay Hbad. unfold PublishJob, Publish.
    rewrite bool_decide_true by (apply list_elem_of_In; cbn; auto).
    cbn [json_Marshal JobMessage_Json]. rewrite Hpay. cbn [json_raw]. rewrite Hbad. by eexists.
Qed.
End producing.

(** ** What the consumer commits *)

(** The messages that the reader delivers. *)
Definition delivered (turns : list Turn) : list KafkaMessage :=
  omap (λ t, match tn_fetch t with Ok m => Some m | Err _ => None end) turns.

Section consuming.
Context `{E : Env}.

(** A run that has handled [cs] so far, all of it without an error. *)
Definition consuming_ok (cs : Consumed) : Prop :=
  Forall (λ h, h.2 = Ok tt) (cs_handled cs) ∧ cs_committed cs `sublist_of` (cs_handled cs).*1.

(** How a run may end that started with [cs] and was delivered [ms]. *)
Definition consumed_ok (cs : Consumed) (ms : list KafkaMessage) (e : RunEnd) (cs' : Consumed)
    : Prop :=
  ∃ hs tail, cs_handled cs' = hs ++ tail ∧ Forall (λ h, h.2 = Ok tt) hs ∧
    cs_committed cs' `sublist_of` hs.*1 ∧
    (tail = [] ∨ ∃ m err, tail = [(m, Err err)] ∧ e = Returned (Err err)) ∧
    (cs_handled cs').*1 `prefix_of` (cs_handled cs).*1 ++ ms.

Lemma consumed_ok_stop cs ms e : consuming_ok cs → consumed_ok cs ms e cs.
Proof.
  intros [Hok Hsub]. exists (cs_handled cs), []. rewrite app_nil_r.
  split_and!; [done..|by left|]. by apply prefix_app_r.
Qed.

Lemma consuming_ok_snoc cs m c :
  consuming_ok cs → c = cs_committed cs ∨ c = cs_committed cs ++ [m] →
  consuming_ok (mkConsumed (cs_handled cs ++ [(m, Ok tt)]) c).
Proof.
  intros [Hok Hsub] Hc. split; cbn.
  - apply Forall_app. by split; [|repeat constructor].
  - rewrite fmap_app. destruct Hc as [->| ->]; [by apply sublist_inserts_r|].
    by apply sublist_app.
Qed.

Lemma consumed_ok_app cs m c ms e cs' :
  consumed_ok (mkConsumed (cs_handled cs ++ [(m, Ok tt)]) c) ms e cs' →
  consumed_ok cs (m :: ms) e cs'.
Proof.
  intros (hs & tail & H1 & H2 & H3 & H4 & H5). exists hs, tail. split_and!; try done.
  cbn in H5. by rewrite fmap_app, <- app_assoc in H5.
Qed.

Lemma Consumer_Run_ok handler turns cs ins w :
  consuming_ok cs →
  consumed_ok cs (delivered turns) (run (Consumer_Run handler turns cs) ins w).1.1
    (run (Consumer_Run handler turns cs) ins w).1.2.
Proof.
  revert cs ins w. induction turns as [|t ts IH]; intros cs ins w Hcs; cbn [Consumer_Run];
    [by apply consumed_ok_stop|].
  destruct (tn_fetch t) as [msg|e] eqn:Hf.
  - unfold delivered. cbn [omap list_omap]. rewrite Hf. fold (delivered ts). rewrite run_bind.
    destruct (run (handler _ _) ins w).1 as [[]|e].
    + apply (consumed_ok_app _ _ (if bool_decide (tn_commit t = Ok tt)
        then cs_committed cs ++ [msg] else cs_committed cs)).
      destruct (tn_commit t) as [[]|e]; [apply IH, consuming_ok_snoc; auto|].
      cbn [cs_handled cs_committed].
      assert (consuming_ok (mkConsumed (cs_handled cs ++ [(msg, Ok tt)]) (cs_committed cs)))
        by auto using consuming_ok_snoc.
      destruct (isTemporary e); [destruct (tn_interrupted t); [|by apply IH]|];
        by apply consumed_ok_stop.
    + destruct Hcs as [Hok Hsub]. exists (cs_handled cs), [(msg, Err e)].
      split_and!; [done..|right; by eexists _, _|]. cbn.
      rewrite fmap_app. apply prefix_app. by exists (delivered ts).
  - assert (delivered (t :: ts) = delivered ts) as ->
      by (unfold delivered; cbn [omap list_omap]; by rewrite Hf).
    destruct (ctx_ended e); [by apply consumed_ok_stop|].
    destruct (isTemporary e); [|by apply consumed_ok_stop].
    destruct (tn_interrupted t); [by apply consumed_ok_stop|by apply IH].
Qed.

(** A consumer delivers at least once. However its reader, its handler and its commits
    end: the handler sees a prefix of the delivered messages, in order and without a gap; only
    messages it handled without an error are committed, in order; and a message whose handler
    fails is the last one handled, is not committed, and its error is what Run returns. *)
Theorem Consumer_at_least_once handler turns ins w :
  let '(e, cs) := (run (Consumer_Run handler turns nothing_consumed) ins w).1 in
  ∃ hs tail, cs_handled cs = hs ++ tail ∧ Forall (λ h, h.2 = Ok tt) hs ∧
    cs_committed cs `sublist_of` hs.*1 ∧
    (tail = [] ∨ ∃ m err, tail = [(m, Err err)] ∧ e = Returned (Err err)) ∧
    (cs_handled cs).*1 `prefix_of` delivered turns.
Proof.
  pose proof (Consumer_Run_ok handler turns nothing_consumed ins w) as H.
  destruct (run _ ins w) as [[e cs] w']. apply H. split; constructor.
Qed.
End consuming.
