(* ===== verification/Dispatcher.v ===== *)
(** * The dispatcher: internal/scheduler/dispatcher.go

    One tick gives every healthy worker with free capacity the first jobs of the queue, marks
    them RUNNING, and publishes one message per job; a job whose publication fails goes back
    to the queue. *)

From S2P Require Import Prelude GoStd Models GoTime Json World Sql Lifecycle JobsRepo WorkersRepo.
From S2P Require Import Broker MemEnv.

Definition maxJobsPerWorker : Z := 5.

(** The staleness that tick passes to FetchHealthy. *)
Definition dispatch_stale_seconds : Z := 15.

(** The interface JobPublisher. *)
Class JobPublisher `{Env} : Type := JobPublisher_PublishJob : JobMessage → Prog (Res unit).

#[export] Instance kafka_JobPublisher `{Env} : JobPublisher := PublishJob.

Class JobPublisherSafe `{E : Env} (P : JobPublisher) : Prop :=
  JobPublisher_PublishJob_safe msg :
    prog_safe Inv world_step (JobPublisher_PublishJob msg).

#[export] Instance kafka_JobPublisher_safe `{E : Env} : JobPublisherSafe kafka_JobPublisher.
Proof. intros msg. apply PublishJob_safe. Qed.

(** The message of job [j] for the worker [wid]. *)
Definition assignment (wid : uuid) (j : Job) : JobMessage :=
  {| jm_JobID := job_ID j;
     jm_WorkerID := wid;
     jm_Type := job_Type j;
     jm_Payload := job_Payload j;
     jm_Priority := job_Priority j;
     jm_Attempts := job_Attempts j |}.

(** What a tick sees of time: a tick of the ticker, or the end of the context. *)
Inductive LoopEvent : Type := Tick | CtxDone.

Section dispatcher.
Context `{E : Env} {J : JobsRepository} {W : WorkersRepository} {P : JobPublisher}.

(** The inner loop's body. *)
Definition publish_assigned (x : Worker) (j : Job) : Prog unit :=
  let! r := JobPublisher_PublishJob (assignment (worker_ID x) j) in
  match r with
  | Ok _ => Ret tt
  | Err _ => let! _ := Jobs_RollbackToQueued (job_ID j) in Ret tt
  end.

(** The outer loop's body: totalAssigned before and after it. *)
Definition assign_to (totalAssigned : Z) (x : Worker) : Prog Z :=
  let capacity := maxJobsPerWorker - worker_RunningJobs x in
  if capacity <=? 0 then Ret totalAssigned
  else
    let! r := Jobs_FetchPending (worker_ID x) capacity in
    match r with
    | Err _ => Ret totalAssigned
    | Ok jobs =>
        for_each jobs (publish_assigned x) ;;!
        Ret (totalAssigned + Z.of_nat (length jobs))
    end.

Definition dispatcher_tick : Prog (Res unit) :=
  let? workers := Workers_FetchHealthy dispatch_stale_seconds in
  match workers with
  | [] => Ret (Ok tt)
  | _ => let! _ := for_fold workers 0 assign_to in Ret (Ok tt)
  end.

(** Dispatcher.Run: a failed tick is logged. *)
Fixpoint dispatcher_Run (events : list LoopEvent) : Prog unit :=
  match events with
  | [] => Ret tt
  | CtxDone :: _ => Ret tt
  | Tick :: es => let! _ := dispatcher_tick in dispatcher_Run es
  end.
End dispatcher.

(** ** Safety, from the promises of the interfaces *)

Section safety.
Context `{E : Env} {J : JobsRepository} {W : WorkersRepository} {P : JobPublisher}.
Context `{!JobsRepositorySafe J, !WorkersRepositorySafe W, !JobPublisherSafe P}.

Lemma publish_assigned_safe x j : prog_safe Inv world_step (publish_assigned x j).
Proof.
  apply prog_safe_bind; [apply JobPublisher_PublishJob_safe|]. intros [[]|e]; [done|].
  by apply prog_safe_bind; [apply RollbackToQueued_safe|].
Qed.

Lemma assign_to_safe n x : prog_safe Inv world_step (assign_to n x).
Proof.
  unfold assign_to. destruct (_ <=? 0); [done|].
  eapply prog_spec_bind; [apply FetchPending_safe|]. intros [js|e] _; [|done].
  apply prog_safe_bind; [|done]. apply prog_safe_for_each. intros j _.
  apply publish_assigned_safe.
Qed.

Lemma dispatcher_tick_safe : prog_safe Inv world_step dispatcher_tick.
Proof.
  eapply prog_spec_bind; [apply FetchHealthy_safe|]. intros [[|x xs]|e] _; [done| |done].
  apply prog_safe_bind; [|done]. apply (prog_safe_for_fold _ _ (x :: xs)). intros n y _.
  apply assign_to_safe.
Qed.

Lemma dispatcher_Run_safe events : prog_safe Inv world_step (dispatcher_Run events).
Proof.
  induction events as [|[] es IH]; cbn; [done| |done].
  by apply prog_safe_bind; [apply dispatcher_tick_safe|].
Qed.
End safety.
#[export] Hint Resolve dispatcher_tick_safe dispatcher_Run_safe : sched.
