(* ===== verification/DispatcherSpec.v ===== *)
(** * What a dispatch tick does

    The capacity bound of a tick, under any failure of the services; the exact effect of a
    tick whose services answer; the way back to the queue of a job that was not published. *)

From S2P Require Import Prelude GoStd Models GoTime Json World MemEnv Sql Columns Lifecycle JobsRepo.
From S2P Require Import JobsSpec WorkersRepo WorkersSpec Broker Dispatcher.

Section relations.
Context `{E : Env}.

(** Between the two worlds the job [id] was handed to the worker [wid]: it has more attempts
    and is the worker's. *)
Definition dispatched_to (wid : uuid) (w w' : World) (id : uuid) : Prop :=
  ∃ j j', w_jobs w !! id = Some j ∧ w_jobs w' !! id = Some j' ∧
          job_WorkerID j' = Some wid ∧ job_Attempts j < job_Attempts j'.

(** A job's attempts only grow, and it gets a worker only with a new attempt. *)
Definition row_mono (o o' : option Job) : Prop :=
  ∀ j, o = Some j → ∃ j', o' = Some j' ∧ job_Attempts j ≤ job_Attempts j' ∧
    (job_Attempts j' = job_Attempts j →
     ∀ wid, job_WorkerID j' = Some wid → job_WorkerID j = Some wid).

(** At most [n] jobs were handed to [wid]. *)
Definition at_most (wid : uuid) (n : nat) (w w' : World) : Prop :=
  (∀ id, row_mono (w_jobs w !! id) (w_jobs w' !! id)) ∧
  ∃ l, (length l ≤ n)%nat ∧ ∀ id, dispatched_to wid w w' id → id ∈ l.

(** Nothing is handed out. *)
Definition no_dispatch (w w' : World) : Prop :=
  w_workers w' = w_workers w ∧
  ∀ id j, w_jobs w !! id = Some j → ∃ j', w_jobs w' !! id = Some j' ∧
    job_Attempts j' = job_Attempts j ∧
    ∀ wid, job_WorkerID j' = Some wid → job_WorkerID j = Some wid.

(** The message of an assignment, as it stands in the topic. *)
Definition message_of (a : uuid * Job) (m : KafkaMessage) : Prop :=
  km_topic m = TopicJobs ∧ km_key m = uuid_String a.1 ∧
  json_Marshal (assignment a.1 a.2) = Ok (km_value m).

(** What a tick leaves when it assigned the jobs [l]: they were pending, are now RUNNING on
    their workers with one attempt more, and each has its one message; nothing else changed. *)
Record assigned_post (w w' : World) (l : list (uuid * Job)) : Prop := {
  ap_log : ∃ ms, w_log w' = w_log w ++ ms ∧ Forall2 message_of l ms;
  ap_NoDup : NoDup ((λ a, job_ID a.2) <$> l);
  ap_rows : ∀ wid j', (wid, j') ∈ l → ∃ j,
    w_jobs w !! job_ID j' = Some j ∧ pending j = true ∧ w_jobs w' !! job_ID j' = Some j' ∧
    same_identity j j' ∧ job_Status j' = JobStatusRunning ∧ job_WorkerID j' = Some wid ∧
    job_Attempts j' = job_Attempts j + 1;
  ap_frame : ∀ id, id ∉ (λ a, job_ID a.2) <$> l → w_jobs w' !! id = w_jobs w !! id;
  ap_workers : w_workers w' = w_workers w;
}.
End relations.

(** ** Counting *)

Section counting.
Context `{E : Env}.
Implicit Types w : World.

Lemma row_mono_refl o : row_mono o o.
Proof. intros j ->. exists j. by split_and!. Qed.

Lemma row_mono_trans o1 o2 o3 : row_mono o1 o2 → row_mono o2 o3 → row_mono o1 o3.
Proof.
  intros H12 H23 j Hj. destruct (H12 j Hj) as (j2 & H2 & Hle2 & Hw2).
  destruct (H23 j2 H2) as (j3 & H3 & Hle3 & Hw3). exists j3. split_and!; [done|lia|].
  intros Heq wid Hwid. apply Hw2; [lia|]. apply Hw3; [lia|done].
Qed.

Lemma at_most_refl wid w : at_most wid 0 w w.
Proof.
  split; [intros; apply row_mono_refl|]. exists []. split; [done|].
  intros id (j & j' & H & H' & _ & Hlt). rewrite H in H'. simplify_eq. lia.
Qed.

Lemma at_most_trans wid n m w1 w2 w3 :
  at_most wid n w1 w2 → at_most wid m w2 w3 → at_most wid (n + m) w1 w3.
Proof.
  intros [M12 (l1 & L1 & H1)] [M23 (l2 & L2 & H2)]. split.
  { intros id. eapply row_mono_trans; [apply M12|apply M23]. }
  exists (l1 ++ l2). split; [rewrite length_app; lia|].
  intros id (j & j' & Hj & Hj' & Hw & Hlt). apply elem_of_app.
  destruct (M12 id j Hj) as (j2 & Hj2 & Hle & _).
  destruct (M23 id j2 Hj2) as (j3 & Hj3 & Hle' & Hw'). rewrite Hj' in Hj3. simplify_eq.
  destruct (decide (job_Attempts j2 = job_Attempts j3)) as [Heq|Hne].
  - left. apply H1. exists j, j2. split_and!; [done|done| |lia]. apply Hw'; [lia|done].
  - right. apply H2. exists j2, j3. split_and!; try done. lia.
Qed.

Lemma at_most_weaken wid n m w w' : (n ≤ m)%nat → at_most wid n w w' → at_most wid m w w'.
Proof. intros Hnm [? (l & ? & ?)]. split; [done|]. exists l. split; [lia|done]. Qed.

Lemma no_dispatch_at_most wid w w' : no_dispatch w w' → at_most wid 0 w w'.
Proof.
  intros [_ H]. split.
  - intros id j Hj. destruct (H id j Hj) as (j' & ? & Ha & Hw). exists j'.
    split_and!; [done|lia|auto].
  - exists []. split; [done|]. intros id (j & j' & Hj & Hj' & _ & Hlt).
    destruct (H id j Hj) as (j2 & Hj2 & Ha & _). rewrite Hj' in Hj2. simplify_eq. lia.
Qed.

#[export] Instance no_dispatch_refl : Reflexive no_dispatch.
Proof. intros w. split; [done|]. intros id j Hj. by exists j. Qed.

#[export] Instance no_dispatch_trans : Transitive no_dispatch.
Proof.
  intros w1 w2 w3 [Hx1 H12] [Hx2 H23]. split; [congruence|]. intros id j Hj.
  destruct (H12 id j Hj) as (j2 & Hj2 & Ha2 & Hw2).
  destruct (H23 id j2 Hj2) as (j3 & Hj3 & Ha3 & Hw3). exists j3.
  split_and!; [done|congruence|auto].
Qed.

Lemma same_jobs_no_dispatch w w' :
  w_jobs w' = w_jobs w → w_workers w' = w_workers w → no_dispatch w w'.
Proof. intros Hj Hw. split; [done|]. rewrite Hj. intros id j H. by exists j. Qed.
End counting.

Section capacity.
Context `{E : Env, !OrderByLaws, !JsonbLaws}.
Implicit Types w : World.

(** Publishing and rolling back hand nothing out. *)
Lemma publish_assigned_no_dispatch x j :
  prog_safe Inv no_dispatch (publish_assigned x j).
Proof.
  apply prog_safe_bind.
  { unfold JobPublisher_PublishJob, kafka_JobPublisher, PublishJob, Publish.
    case_bool_decide; [|done]. destruct (json_Marshal _); [|done].
    apply prog_safe_call; [apply _|]. intros inp w HI. split.
    - refine (proj1 (frame_safe w _ HI _ _ _ _)); try done. by eexists [_].
    - by apply same_jobs_no_dispatch. }
  intros [[]|e]; [done|]. apply prog_safe_bind; [|done].
  apply prog_safe_method; [apply _|]. intros inp w HI. split.
  - refine (proj1 (sql_update_job_safe _ _ _ inp w HI _)). intros j1 Hj1. to_prop.
    by apply next_requeue.
  - unfold sql_update_job. destruct (update_id _ _ _ _) as [t n] eqn:Hu. cbn. split; [done|].
    intros id j1 Hj1. cbn.
    replace t with (update_id (job_ID j) (λ r, bool_decide (job_Status r = JobStatusRunning))
                      (set_updated_at (in_now inp) requeue_row) (w_jobs w)).1 by (by rewrite Hu).
    rewrite lookup_update_id. case_decide; [|by exists j1]. rewrite Hj1. cbn.
    eexists. split; [done|]. by destruct (bool_decide _).
Qed.

(** FetchPending hands out at most [limit] jobs, all to its worker, however it ends. *)
Lemma FetchPending_at_most wid wid' limit ins w :
  Inv w →
  at_most wid (if decide (wid = wid') then Z.to_nat limit else 0) w
    (run (FetchPending wid' limit) ins w).2.
Proof.
  intros HI. unfold FetchPending. rewrite run_bind_call.
  destruct (perform _ _ w) as [r w'] eqn:Hp. cbn.
  set (inp := hd _ ins) in *.
  assert (Hw : w' = w ∨ w' = (sql_fetch_pending wid' limit inp w).2).
  { pose proof (perform_world inp (sql_fetch_pending wid' limit) w) as Hpw.
    by rewrite Hp in Hpw. }
  destruct Hw as [->| ->]; [eapply at_most_weaken, at_most_refl; lia|].
  destruct ((sql_fetch_pending wid' limit inp w).1) as [js|e] eqn:Hr.
  2: { rewrite (sql_fetch_pending_refused _ _ _ _ _ Hr).
       eapply at_most_weaken, at_most_refl; lia. }
  pose proof (sql_fetch_pending_post wid' limit inp w js HI Hr) as P.
  set (w2 := (sql_fetch_pending wid' limit inp w).2) in *.
  assert (Hrow : ∀ id j, w_jobs w !! id = Some j →
    (w_jobs w2 !! id = Some j) ∨
    (id ∈ job_ID <$> js ∧ ∃ j', w_jobs w2 !! id = Some j' ∧ job_WorkerID j' = Some wid' ∧
       job_Attempts j' = job_Attempts j + 1)).
  { intros id j Hj. destruct (decide (id ∈ job_ID <$> js)) as [Hin|Hout].
    - right. split; [done|]. apply list_elem_of_fmap in Hin as (j' & -> & Hj').
      destruct (fp_taken _ _ _ _ _ _ P j' Hj') as (j0 & Hj0 & _ & Heq & Hl).
      rewrite Hj in Hj0. simplify_eq. eexists. by split_and!.
    - left. by rewrite (fp_frame _ _ _ _ _ _ P id Hout). }
  split.
  - intros id j Hj. destruct (Hrow id j Hj) as [Hl|(_ & j' & Hl & _ & Ha)].
    + exists j. by split_and!.
    + exists j'. split_and!; [done|lia|lia].
  - exists (if decide (wid = wid') then job_ID <$> js else []). split.
    + destruct (decide (wid = wid')); [|done]. rewrite length_fmap.
      rewrite (fp_length _ _ _ _ _ _ P). lia.
    + intros id (j & j' & Hj & Hj' & Hwid & Hlt).
      destruct (Hrow id j Hj) as [Hl|(Hin & j2 & Hl & Hw2 & _)]; rewrite Hj' in Hl; simplify_eq.
      * lia.
      * rewrite decide_True by congruence. done.
Qed.

(** The free capacity of a worker, by its last heartbeat. *)
Definition capacity (x : Worker) : nat := Z.to_nat (maxJobsPerWorker - worker_RunningJobs x).

Lemma assign_to_at_most wid n x ins w :
  Inv w →
  at_most wid (if decide (wid = worker_ID x) then capacity x else 0) w
    (run (assign_to n x) ins w).2 ∧
  Inv (run (assign_to n x) ins w).2.
Proof.
  intros HI. split.
  2: { by eapply run_inv; [apply assign_to_safe|]. }
  unfold assign_to. destruct (_ <=? 0); [cbn; eapply at_most_weaken, at_most_refl; lia|].
  rewrite run_bind.
  pose proof (FetchPending_at_most wid (worker_ID x) (maxJobsPerWorker - worker_RunningJobs x)
                ins w HI) as HF.
  assert (HI' : Inv (run (FetchPending (worker_ID x) (maxJobsPerWorker - worker_RunningJobs x))
                       ins w).2).
  { by eapply run_inv; [apply (FetchPending_safe (J := pgJobsRepo))|]. }
  cbn [Jobs_FetchPending pgJobsRepo].
  set (w1 := (run (FetchPending _ _) ins w).2) in *.
  destruct ((run (FetchPending _ _) ins w).1) as [js|e]; [|done].
  set (ins1 := run_rest _ ins w). clearbody w1 ins1. rewrite run_bind. cbn [run fst snd].
  rewrite <- (Nat.add_0_r (if decide _ then _ else _)). eapply at_most_trans; [exact HF|].
  apply no_dispatch_at_most. apply (run_spec Inv no_dispatch _ (λ _, True)); [|done].
  apply prog_safe_for_each. intros j _. apply publish_assigned_no_dispatch.
Qed.

Lemma for_assign_at_most wid xs n ins w :
  Inv w → NoDup (worker_ID <$> xs) →
  at_most wid (list_max ((λ x, if decide (wid = worker_ID x) then capacity x else 0%nat) <$> xs))
    w (run (for_fold xs n assign_to) ins w).2.
Proof.
  intros HI HN. revert n ins w HI. induction xs as [|x xs IH]; intros n ins w HI.
  { apply at_most_refl. }
  cbn [for_fold fmap list_fmap] in *. apply NoDup_cons in HN as [Hx HN].
  rewrite run_bind. destruct (assign_to_at_most wid n x ins w HI) as [H1 HI1].
  specialize (IH HN (run (assign_to n x) ins w).1 (run_rest (assign_to n x) ins w) _ HI1).
  destruct (decide (wid = worker_ID x)) as [Hw|Hne].
  - eapply at_most_weaken; [|eapply at_most_trans; [exact H1|exact IH]].
    assert (list_max ((λ y, if decide (wid = worker_ID y) then capacity y else 0%nat) <$> xs)
            = 0%nat) as ->; [|cbn; lia].
    clear -Hx Hw. induction xs as [|y ys IH]; [done|]. cbn in *.
    apply not_elem_of_cons in Hx as [Hxy Hx]. rewrite decide_False by congruence. by apply IH.
  - eapply at_most_weaken; [|eapply at_most_trans; [exact H1|exact IH]].
    done.
Qed.
End capacity.

Section capacity_theorem.
Context `{E : Env, !OrderByLaws, !JsonbLaws}.

(** C15: in one tick, whatever fails and whenever, a worker gets at most the jobs its last
    heartbeat left it room for (five less the running ones); and a worker that is not
    registered, that is OFFLINE or UNHEALTHY, or that has not been heard of in the fifteen
    seconds before the tick read the workers gets none. *)
Theorem tick_capacity wid ins w :
  Inv w →
  let w' := (run dispatcher_tick ins w).2 in
  ∃ l, (∀ id, dispatched_to wid w w' id → id ∈ l) ∧
    ∀ id, id ∈ l → ∃ x t, w_workers w !! wid = Some x ∧
      worker_Status x ≠ WorkerStatusOffline ∧ worker_Status x ≠ WorkerStatusUnhealty ∧
      worker_LastHeartBeat x = Some t ∧ in_now (hd default_input ins) - 15 * 1000000 < t ∧
      (length l ≤ Z.to_nat (5 - worker_RunningJobs x))%nat.
Proof.
  intros HI w'. set (now := in_now (hd default_input ins)).
  assert (Hgoal : at_most wid (match w_workers w !! wid with
      | Some x => if healthy now dispatch_stale_seconds x then capacity x else 0
      | None => 0 end) w w').
  { subst w'. unfold dispatcher_tick, bind_ok. cbn [Workers_FetchHealthy pgWorkersRepo].
    rewrite run_bind. destruct (run_FetchHealthy dispatch_stale_seconds ins w HI) as (r & -> & Hr).
    cbn [fst snd]. set (ins1 := run_rest _ ins w). clearbody ins1.
    destruct r as [xs|e]; [|eapply at_most_weaken, at_most_refl; lia].
    destruct Hr as ([= Hxs] & HN & Hin).
    assert (Hh : ∀ x, x ∈ xs → w_workers w !! worker_ID x = Some x ∧
                                healthy now dispatch_stale_seconds x = true).
    { intros x Hx. split; [by apply Hin|].
      rewrite Hxs, elem_of_order_by, elem_of_filter_bool in Hx. apply Hx. }
    clear Hxs Hin. destruct xs as [|x0 xs0]; [cbn; eapply at_most_weaken, at_most_refl; lia|].
    set (xs := x0 :: xs0) in *. clearbody xs. rewrite run_bind. cbn [run fst snd].
    eapply at_most_weaken; [|by apply for_assign_at_most].
    clear -Hh. induction xs as [|x xs IH]; [cbn; lia|].
    cbn. apply Nat.max_lub; [|apply IH; intros y Hy; apply Hh; by right].
    destruct (decide (wid = worker_ID x)) as [->|]; [|lia].
    destruct (Hh x) as [-> ->]; [left|done]. }
  destruct Hgoal as [_ (l & Hl & Hd)]. exists l. split; [done|]. intros id Hid.
  destruct (w_workers w !! wid) as [x|]; [|by destruct l; [apply elem_of_nil in Hid|cbn in Hl; lia]].
  destruct (healthy now dispatch_stale_seconds x) eqn:Hh;
    [|by destruct l; [apply elem_of_nil in Hid|cbn in Hl; lia]].
  apply healthy_spec in Hh as (? & ? & t & ? & ?). by exists x, t.
Qed.
End capacity_theorem.

(** ** The effect of a tick *)

Section composition.
Context `{E : Env}.
Implicit Types w : World.

Lemma assigned_post_refl w : assigned_post w w [].
Proof.
  constructor; try done.
  - exists []. by rewrite app_nil_r.
  - constructor.
  - by intros wid j' ?%elem_of_nil.
Qed.

(** A job that the first part assigned is no longer pending for the second. *)
Lemma assigned_post_disjoint w1 w2 w3 l1 l2 :
  assigned_post w1 w2 l1 → assigned_post w2 w3 l2 →
  (λ a, job_ID a.2) <$> l1 ## (λ a, job_ID a.2) <$> l2.
Proof.
  intros P1 P2 id ([x1 j1] & -> & H1)%list_elem_of_fmap ([x2 j2] & Heq & H2)%list_elem_of_fmap.
  cbn in Heq. destruct (ap_rows _ _ _ P1 _ _ H1) as (? & _ & _ & Hrow & _ & Hs & _).
  destruct (ap_rows _ _ _ P2 _ _ H2) as (j0 & Hj0 & Hp & _).
  rewrite <- Heq, Hrow in Hj0. simplify_eq. unfold pending in Hp. by rewrite Hs in Hp.
Qed.

Lemma assigned_post_trans w1 w2 w3 l1 l2 :
  assigned_post w1 w2 l1 → assigned_post w2 w3 l2 → assigned_post w1 w3 (l1 ++ l2).
Proof.
  intros P1 P2. pose proof (assigned_post_disjoint _ _ _ _ _ P1 P2) as Hdis. constructor.
  - destruct (ap_log _ _ _ P1) as (m1 & E1 & F1), (ap_log _ _ _ P2) as (m2 & E2 & F2).
    exists (m1 ++ m2). split; [by rewrite E2, E1, app_assoc|by apply Forall2_app].
  - rewrite fmap_app. apply NoDup_app. split_and!; [apply P1|exact Hdis|apply P2].
  - intros wid j' [Hin|Hin]%elem_of_app.
    + destruct (ap_rows _ _ _ P1 _ _ Hin) as (j & Hj & Hp & Hj' & Hrest). exists j.
      split_and!; try apply Hrest; try done. rewrite (ap_frame _ _ _ P2); [done|].
      intros Hin2. apply (Hdis (job_ID j')); [|done].
      by apply (list_elem_of_fmap_2 (λ a, job_ID a.2)) in Hin.
    + destruct (ap_rows _ _ _ P2 _ _ Hin) as (j & Hj & Hp & Hj' & Hrest). exists j.
      split_and!; try apply Hrest; try done. rewrite <- (ap_frame _ _ _ P1); [done|].
      intros Hin1. apply (Hdis (job_ID j')); [done|].
      by apply (list_elem_of_fmap_2 (λ a, job_ID a.2)) in Hin.
  - intros id. rewrite fmap_app, not_elem_of_app. intros [H1 H2].
    by rewrite (ap_frame _ _ _ P2), (ap_frame _ _ _ P1).
  - by rewrite (ap_workers _ _ _ P2), (ap_workers _ _ _ P1).
Qed.

(** A job still pending at the end was pending, and the same, before. *)
Lemma assigned_post_pending w w' l id b :
  Inv w → assigned_post w w' l → w_jobs w' !! id = Some b → pending b = true →
  w_jobs w !! id = Some b ∧ id ∉ (λ a, job_ID a.2) <$> l.
Proof.
  intros HI P Hb Hp.
  assert (id ∉ (λ a, job_ID a.2) <$> l) as Hid.
  { intros ([x j] & -> & Hin)%list_elem_of_fmap.
    destruct (ap_rows _ _ _ P _ _ Hin) as (? & _ & _ & Hrow & _ & Hs & _). cbn in Hb.
    rewrite Hb in Hrow. simplify_eq. unfold pending in Hp. by rewrite Hs in Hp. }
  split; [|done]. by rewrite <- (ap_frame _ _ _ P).
Qed.
End composition.

Section publish.
Context `{E : Env}.
Implicit Types w : World.

(** The log with one more message, or several. *)
Lemma run_publish x j ins w :
  all_done ins → json_text (job_Payload j) →
  ∃ m, message_of (worker_ID x, j) m ∧
    run (publish_assigned x j) ins w = (tt, set_log (w_log w ++ [m]) w).
Proof.
  intros Hd Hp.
  destruct (JobMessage_Marshal_ok (assignment (worker_ID x) j) Hp) as [body Hbody].
  exists (mkKafkaMessage TopicJobs (uuid_String (worker_ID x)) body).
  split; [done|]. unfold publish_assigned, JobPublisher_PublishJob, kafka_JobPublisher,
    PublishJob, Publish. rewrite bool_decide_true by (unfold writers; set_solver).
  rewrite Hbody. rewrite run_bind_call, perform_all_done by done. done.
Qed.

Lemma run_publish_all x js ins w :
  all_done ins → Forall (λ j, json_text (job_Payload j)) js →
  ∃ ms, Forall2 message_of (pair (worker_ID x) <$> js) ms ∧
    run (for_each js (publish_assigned x)) ins w = (tt, set_log (w_log w ++ ms) w).
Proof.
  revert ins w. induction js as [|j js IH]; intros ins w Hd Hp.
  - exists []. split; [done|]. cbn. rewrite app_nil_r. by destruct w.
  - apply Forall_cons in Hp as [Hj Hp]. cbn [for_each].
    destruct (run_publish x j ins w Hd Hj) as (m & Hm & Hrun).
    rewrite run_bind, Hrun. cbn [fst snd].
    destruct (IH (run_rest (publish_assigned x j) ins w) (set_log (w_log w ++ [m]) w)) as
      (ms & Hms & ->); [auto with sched|done|].
    exists (m :: ms). split; [by constructor|]. cbn. by rewrite <- app_assoc.
Qed.
End publish.

Section tick.
Context `{E : Env, !OrderByLaws, !JsonbLaws}.
Implicit Types w : World.

(** What is known of the jobs [l] that the worker [x] got. *)
Definition got (x : Worker) (w w' : World) (l : list (uuid * Job)) : Prop :=
  assigned_post w w' l ∧ Forall (λ a, a.1 = worker_ID x) l ∧
  ((∀ id j, w_jobs w !! id = Some j → pending j = true → int32_ok (job_Attempts j + 1) = true) →
   is_Some (w_workers w !! worker_ID x) →
   ∀ id b locked, w_jobs w' !! id = Some b → available locked b = true →
     locked = ∅ → length l = capacity x) ∧
  ((∀ id j, w_jobs w !! id = Some j → pending j = true → int32_ok (job_Attempts j + 1) = true) →
   is_Some (w_workers w !! worker_ID x) →
   (λ a, job_ID a.2) <$> l ≡ₚ job_ID <$> take (capacity x) (queue w)).

(** The jobs that a worker fetched, once their messages are published. *)
Lemma fetched_assigned wid limit inp w w1 js ms :
  fetch_post wid limit inp w w1 js → Forall2 message_of (pair wid <$> js) ms →
  assigned_post w (set_log (w_log w1 ++ ms) w1) (pair wid <$> js).
Proof.
  intros P Hms. destruct (fp_rest _ _ _ _ _ _ P) as (Hw & _ & _ & Hlog & _).
  assert (Hids : (λ a : uuid * Job, job_ID a.2) <$> (pair wid <$> js) = job_ID <$> js).
  { by rewrite <- list_fmap_compose. }
  constructor.
  - exists ms. cbn. by rewrite Hlog.
  - rewrite Hids. apply P.
  - intros wid' j' (j2 & [= -> ->] & Hin)%list_elem_of_fmap.
    destruct (fp_taken _ _ _ _ _ _ P j2 Hin) as (j & Hj & Hav & Heq & Hj').
    unfold available in Hav. to_prop. exists j.
    split_and!; [done|done|exact Hj'|by rewrite Heq..].
  - intros id. rewrite Hids. apply P.
  - done.
Qed.

(** A program that begins with FetchPending, when the call is answered. *)
Lemma run_FetchPending_then {C} wid limit (k : Res (list Job) → Prog C) ins w :
  all_done ins →
  run (bind (FetchPending wid limit) k) ins w =
  run (k (wrap_result "fetch pending jobs"
            (sql_fetch_pending wid limit (hd default_input ins) w).1))
    (tl ins) (sql_fetch_pending wid limit (hd default_input ins) w).2.
Proof.
  intros Hd. unfold FetchPending. cbn. unfold perform. rewrite all_done_hd by done.
  destruct (sql_fetch_pending _ _ _ w). by scanned.
Qed.

(** The body of the outer loop, when the services answer and nothing is locked. *)
Lemma run_assign_to n x ins w :
  Inv w → all_done ins → Forall (λ i, in_locked i = ∅) ins →
  ∃ l w', run (assign_to n x) ins w = (n + Z.of_nat (length l), w') ∧ got x w w' l.
Proof.
  intros HI Hd Hlk. unfold assign_to.
  destruct (Z.leb_spec (maxJobsPerWorker - worker_RunningJobs x) 0) as [Hc|Hc].
  { exists [], w. split; [cbn; by rewrite Z.add_0_r|]. split_and!; [apply assigned_post_refl|by constructor|..].
    - intros _ _ id b locked _ _ _. unfold capacity. cbn. lia.
    - intros _ _. unfold capacity. by rewrite Z2Nat.nonpos. }
  cbn [Jobs_FetchPending pgJobsRepo].
  set (limit := maxJobsPerWorker - worker_RunningJobs x) in *.
  set (inp := hd default_input ins).
  assert (Hl0 : in_locked inp = ∅) by (unfold inp; by destruct Hlk).
  rewrite run_FetchPending_then by done. fold inp.
  destruct ((sql_fetch_pending (worker_ID x) limit inp w).1) as [js|e] eqn:Hr; cbn [wrap_result].
  2: { exists [], w. rewrite (sql_fetch_pending_refused _ _ _ _ _ Hr).
       split; [cbn; by rewrite Z.add_0_r|]. split_and!; [apply assigned_post_refl|by constructor|..].
       all: intros Hatt Hreg; exfalso.
       all: destruct (sql_fetch_pending_accepts (worker_ID x) limit inp w HI) as [js Hjs];
         [lia|done|done|by rewrite Hjs in Hr]. }
  pose proof (sql_fetch_pending_post _ _ _ _ _ HI Hr) as P.
  destruct (sql_fetch_pending_safe (worker_ID x) limit inp w HI) as (HI1 & _ & Hf).
  specialize (Hf js Hr). destruct Hf as (_ & _ & Hall).
  set (w1 := (sql_fetch_pending (worker_ID x) limit inp w).2) in *.
  destruct (run_publish_all x js (tl ins) w1) as (ms & Hms & Hpub).
  { by apply all_done_tl. }
  { eapply Forall_impl; [exact Hall|]. by intros j (_ & _ & _ & ?). }
  rewrite run_bind, Hpub. cbn [run fst snd].
  exists (pair (worker_ID x) <$> js), (set_log (w_log w1 ++ ms) w1).
  split; [by rewrite length_fmap|]. split_and!.
  - by apply (fetched_assigned _ _ _ _ _ _ _ P).
  - apply Forall_fmap, Forall_true. done.
  - intros _ _ id b locked Hb Hav ->. rewrite length_fmap. unfold capacity. fold limit.
    destruct (decide (id ∈ job_ID <$> js)) as [Hin|Hout].
    + apply list_elem_of_fmap in Hin as (j' & -> & Hin).
      destruct (fp_taken _ _ _ _ _ _ P j' Hin) as (j & _ & _ & Heq & Hj'). cbn in Hb.
      rewrite Hj' in Hb. injection Hb as <-. rewrite Heq in Hav. done.
    + eapply (fetch_post_full _ _ _ _ _ _ id b); [exact HI|exact P| |by rewrite Hl0|done].
      by rewrite <- (fp_frame _ _ _ _ _ _ P id Hout).
  - intros _ _. rewrite <- list_fmap_compose.
    by apply (sql_fetch_pending_ids (worker_ID x) limit inp w js).
Qed.

Lemma locked_rest {A} (p : Prog A) ins w :
  Forall (λ i, in_locked i = ∅) ins → Forall (λ i, in_locked i = ∅) (run_rest p ins w).
Proof.
  assert (∀ l : list Input, Forall (λ i, in_locked i = ∅) l →
                            Forall (λ i, in_locked i = ∅) (tl l)) by (by intros ? []).
  revert ins w. induction p as [a|C f k IH|C f k IH]; intros ins w Hl; cbn; [done|..].
  - destruct (perform _ f w) as [r w']. auto.
  - destruct (f _ w) as [r w']. auto.
Qed.

(** The whole loop: the assignments of the workers one after the other. *)
Lemma run_assign_all xs n ins w :
  Inv w → all_done ins → Forall (λ i, in_locked i = ∅) ins →
  ∃ l w', (run (for_fold xs n assign_to) ins w).2 = w' ∧ assigned_post w w' l ∧
    Forall (λ a, a.1 ∈ worker_ID <$> xs) l ∧
    ((∀ id j, w_jobs w !! id = Some j → pending j = true → int32_ok (job_Attempts j + 1) = true) →
     Forall (λ x, is_Some (w_workers w !! worker_ID x)) xs → NoDup (worker_ID <$> xs) →
     ∀ id b, w_jobs w' !! id = Some b → pending b = true →
       Forall (λ x, length (List.filter (λ a, bool_decide (a.1 = worker_ID x)) l) = capacity x) xs).
Proof.
  revert n ins w. induction xs as [|x xs IH]; intros n ins w HI Hd Hlk.
  { exists [], w. split; [done|]. split_and!; [apply assigned_post_refl|by constructor|].
    intros. constructor. }
  cbn [for_fold]. rewrite run_bind.
  destruct (run_assign_to n x ins w HI Hd Hlk) as (l1 & w1 & Hrun & P1 & Hx & Hfull & _).
  rewrite Hrun. cbn [fst snd].
  assert (HI1 : Inv w1).
  { change w1 with (n + Z.of_nat (length l1), w1).2. rewrite <- Hrun.
    by eapply run_inv; [apply assign_to_safe|]. }
  destruct (IH (n + Z.of_nat (length l1)) _ w1 HI1 (all_done_rest (assign_to n x) ins w Hd)
              (locked_rest (assign_to n x) ins w Hlk)) as (l2 & w2 & Hw2 & P2 & Hxs & Hfull2).
  exists (l1 ++ l2), w2. split; [done|]. split_and!.
  - by eapply assigned_post_trans.
  - apply Forall_app. split; (eapply Forall_impl; [eassumption|]); cbn; intros a Ha.
    + rewrite Ha. left.
    + by right.
  - intros Hatt Hreg HN id b Hb Hp. apply Forall_cons in Hreg as [Hr Hreg].
    apply NoDup_cons in HN as [Hnx HN].
    destruct (assigned_post_pending w1 w2 l2 id b HI1 P2 Hb Hp) as [Hb1 _].
    constructor.
    + rewrite List.filter_app, (filter_all_true _ l1), (filter_all_false _ l2), length_app; cbn.
      * rewrite (Hfull Hatt Hr id b ∅ Hb1); [lia| |done]. unfold available. by rewrite Hp.
      * intros a Ha. apply bool_decide_false. intros Heq. apply Hnx. rewrite <- Heq.
        rewrite Forall_forall in Hxs. by apply Hxs.
      * intros a Ha. apply bool_decide_true. rewrite Forall_forall in Hx. by apply Hx.
    + assert (Hatt1 : ∀ id j, w_jobs w1 !! id = Some j → pending j = true →
                       int32_ok (job_Attempts j + 1) = true).
      { intros k j Hj Hpj. destruct (assigned_post_pending w w1 l1 k j HI P1 Hj Hpj) as [Hj0 _].
        by eapply Hatt. }
      rewrite (ap_workers _ _ _ P1) in Hfull2.
      specialize (Hfull2 Hatt1 Hreg HN id b Hb Hp). rewrite Forall_forall in Hfull2 |- *.
      intros y Hy. rewrite List.filter_app, (filter_all_false _ l1).
      * by apply Hfull2.
      * intros a Ha. apply bool_decide_false. rewrite Forall_forall in Hx. rewrite (Hx a Ha).
        intros Heq. apply Hnx. rewrite Heq. by apply list_elem_of_fmap_2.
Qed.

(** A tick whose services answer: what it assigned, to whom, and that no capacity is left when
    a pending job is. *)
Lemma run_tick ins w :
  Inv w → all_done ins → Forall (λ i, in_locked i = ∅) ins →
  ∃ l w', run dispatcher_tick ins w = (Ok tt, w') ∧ assigned_post w w' l ∧
    Forall (λ a, ∃ x, w_workers w !! a.1 = Some x ∧
              healthy (in_now (hd default_input ins)) dispatch_stale_seconds x = true) l ∧
    ((∀ id j, w_jobs w !! id = Some j → pending j = true →
        int32_ok (job_Attempts j + 1) = true) →
     ∀ id b, w_jobs w' !! id = Some b → pending b = true →
     ∀ wid x, w_workers w !! wid = Some x →
       healthy (in_now (hd default_input ins)) dispatch_stale_seconds x = true →
       length (List.filter (λ a, bool_decide (a.1 = wid)) l) = capacity x).
Proof.
  intros HI Hd Hlk. unfold dispatcher_tick, bind_ok. rewrite run_bind.
  cbn [Workers_FetchHealthy pgWorkersRepo].
  destruct (run_FetchHealthy dispatch_stale_seconds ins w HI) as (r & Hrun & Hr).
  rewrite Hrun. cbn [fst snd]. set (ins1 := run_rest _ ins w).
  assert (all_done ins1) by (by apply all_done_rest).
  assert (Forall (λ i, in_locked i = ∅) ins1) by (by apply locked_rest).
  destruct r as [xs|e]; [|by destruct Hr; apply all_done_hd].
  destruct Hr as ([= Hxs] & HN & Hin).
  assert (Hall : ∀ wid x, w_workers w !! wid = Some x →
    healthy (in_now (hd default_input ins)) dispatch_stale_seconds x = true →
    x ∈ xs ∧ wid = worker_ID x).
  { intros wid x Hx Hh. destruct (inv_workers _ HI _ _ Hx) as [Hid _]. split; [|done].
    rewrite Hxs, elem_of_order_by, elem_of_filter_bool, elem_of_rows. eauto. }
  destruct xs as [|x0 xs0].
  { exists [], w. split; [done|]. split_and!; [apply assigned_post_refl|by constructor|].
    intros _ id b _ _ wid x Hx Hh. by destruct (Hall wid x Hx Hh) as [?%elem_of_nil _]. }
  set (xs := x0 :: xs0) in *. clearbody xs. rewrite run_bind.
  destruct (run_assign_all xs 0 ins1 w) as (l & w' & Hw' & P & Hl & Hfull); try done.
  exists l, w'. cbn [run]. rewrite Hw'. split_and!; [done|done|..].
  - eapply Forall_impl; [exact Hl|]. intros [wid j] (x & Heq & Hx)%list_elem_of_fmap.
    cbn in *. exists x. rewrite Heq. split; [by apply Hin|].
    rewrite Hxs, elem_of_order_by, elem_of_filter_bool in Hx. apply Hx.
  - intros Hatt id b Hb Hp wid x Hx Hh. destruct (Hall wid x Hx Hh) as [Hinx ->].
    assert (Hreg : Forall (λ y, is_Some (w_workers w !! worker_ID y)) xs).
    { apply Forall_forall. intros y Hy. destruct (Hin y Hy) as [-> _]. done. }
    specialize (Hfull Hatt Hreg HN id b Hb Hp). rewrite Forall_forall in Hfull. by apply Hfull.
Qed.

(** A tick whose services answer succeeds. The jobs it assigned were pending, are all
    different, are RUNNING on a healthy worker with one attempt more, and each has exactly one
    message in the jobs topic, under the worker's key and with the row's data; no other row
    and no other message changes. *)
Theorem tick_publishes ins w :
  Inv w → all_done ins → Forall (λ i, in_locked i = ∅) ins →
  ∃ l w', run dispatcher_tick ins w = (Ok tt, w') ∧ assigned_post w w' l ∧
    Forall (λ a, ∃ x, w_workers w !! a.1 = Some x ∧
              healthy (in_now (hd default_input ins)) dispatch_stale_seconds x = true) l.
Proof.
  intros HI Hd Hlk. destruct (run_tick ins w HI Hd Hlk) as (l & w' & Hrun & P & Hl & _).
  by exists l, w'.
Qed.

(** A tick is work-conserving: when a pending job is left over, every healthy worker was
    given its full free capacity. *)
Theorem tick_work_conserving ins w id b :
  Inv w → all_done ins → Forall (λ i, in_locked i = ∅) ins →
  (∀ id j, w_jobs w !! id = Some j → pending j = true →
     int32_ok (job_Attempts j + 1) = true) →
  let w' := (run dispatcher_tick ins w).2 in
  w_jobs w' !! id = Some b → pending b = true →
  ∃ l, assigned_post w w' l ∧ ∀ wid x, w_workers w !! wid = Some x →
    healthy (in_now (hd default_input ins)) dispatch_stale_seconds x = true →
    length (List.filter (λ a, bool_decide (a.1 = wid)) l) = capacity x.
Proof.
  intros HI Hd Hlk Hatt w' Hb Hp.
  destruct (run_tick ins w HI Hd Hlk) as (l & w1 & Hrun & P & _ & Hfull).
  unfold w' in *. rewrite Hrun in *. exists l. split; [done|]. by apply (Hfull Hatt id b).
Qed.
End tick.

(** ** A publication that fails *)

Section failure.
Context `{E : Env}.

(** When the publication of an assigned job reports an error and the rollback succeeds, the
    job is QUEUED again without a worker, but the attempt stays counted; the message is in the
    topic or not, as the broker decided before the error. *)
Theorem publish_failure x j i1 i2 ins w e :
  in_outcome i1 = Lost e ∨ in_outcome i1 = Applied e → in_outcome i2 = Done →
  json_text (job_Payload j) → w_jobs w !! job_ID j = Some j →
  job_Status j = JobStatusRunning →
  ∃ j' w', run (publish_assigned x j) (i1 :: i2 :: ins) w = (tt, w') ∧
    w_jobs w' = <[job_ID j := j']> (w_jobs w) ∧ same_identity j j' ∧
    job_Status j' = JobStatusQueued ∧ job_WorkerID j' = None ∧
    job_Attempts j' = job_Attempts j ∧
    match in_outcome i1 with
    | Applied _ => ∃ m, message_of (worker_ID x, j) m ∧ w_log w' = w_log w ++ [m]
    | _ => w_log w' = w_log w
    end.
Proof.
  intros H1 H2 Hp Hj Hs.
  destruct (JobMessage_Marshal_ok (assignment (worker_ID x) j) Hp) as [body Hbody].
  unfold publish_assigned, JobPublisher_PublishJob, kafka_JobPublisher, PublishJob, Publish.
  rewrite (bool_decide_true (TopicJobs ∈ writers)) by (clear; unfold writers; set_solver). rewrite Hbody, run_bind_call.
  cbn [hd tl]. unfold perform.
  assert (Hroll : ∀ w1, w_jobs w1 = w_jobs w →
    run (let! _ := Jobs_RollbackToQueued (job_ID j) in Ret tt) (i2 :: ins) w1 =
    (tt, set_jobs (<[job_ID j := job_set_updated (in_now i2) (requeue_row j)]> (w_jobs w)) w1)).
  { intros w1 Hw1. rewrite run_bind. cbn [Jobs_RollbackToQueued pgJobsRepo].
    rewrite run_RollbackToQueued by done. rewrite Hw1, Hj, bool_decide_true by done. done. }
  exists (job_set_updated (in_now i2) (requeue_row j)).
  destruct H1 as [Ho|Ho]; rewrite Ho; (rewrite Hroll by done; eexists; split; [done|]; split_and!; try done).
  exists (mkKafkaMessage TopicJobs (uuid_String (worker_ID x)) body). by split.
Qed.
End failure.
