(* ===== verification/Assignment.v ===== *)
(** * A tick as one allocation

    The dispatcher asks for jobs worker by worker, in transactions of their own, each of which
    sorts what is left of the queue again. Together these transactions compute one allocation:
    the queue, sorted once, is dealt to the free seats of the workers, the workers sorted by
    their load ([allocation], the reference definition). *)

From S2P Require Import Prelude GoStd Models World Sql Lifecycle JobsRepo JobsSpec WorkersRepo.
From S2P Require Import WorkersSpec Broker Dispatcher DispatcherSpec.

Section allocation.
Context `{E : Env}.
Implicit Types w : World.

(** The healthy workers, least loaded first. *)
Definition staff (now : Time) w : list Worker :=
  order_by load_leb (List.filter (healthy now dispatch_stale_seconds) (rows (w_workers w))).

(** A seat for each job that a worker has room for. *)
Definition seats (xs : list Worker) : list uuid := xs ≫= λ x, replicate (capacity x) (worker_ID x).

(** The n-th job of the queue takes the n-th seat, for as long as there are both. *)
Definition allocation (xs : list Worker) (q : list Job) : list (uuid * uuid) :=
  zip (seats xs) (job_ID <$> q).

(** [q] is a dispatch order of the pending jobs: priority first, then age; the order of equals
    is the server's. *)
Definition queued w (q : list Job) : Prop :=
  q ≡ₚ List.filter pending (rows (w_jobs w)) ∧
  StronglySorted (λ a b, dispatch_leb a b = true) q.
End allocation.

Section facts.
Context `{E : Env, !OrderByLaws}.
Implicit Types w : World.

Lemma queue_queued w : queued w (queue w).
Proof.
  split; [apply order_by_Permutation|].
  apply order_by_Sorted; [apply dispatch_leb_total|apply dispatch_leb_trans].
Qed.

(** The row of a job in a dispatch order. *)
Lemma queued_row w q j :
  JobsInv w → queued w q → j ∈ q ↔ w_jobs w !! job_ID j = Some j ∧ pending j = true.
Proof.
  intros HI [Hq _]. rewrite Hq, elem_of_filter_bool. split.
  - intros [Hp Hj]. split; [by apply rows_keyed|done].
  - intros [Hj Hp]. split; [done|]. apply elem_of_rows. eauto.
Qed.

Lemma queued_NoDup_ID w q : JobsInv w → queued w q → NoDup (job_ID <$> q).
Proof.
  intros HI [Hq _]. rewrite (fmap_Permutation job_ID _ _ Hq).
  by apply NoDup_fmap_filter_bool, NoDup_rows_ID.
Qed.

(** The pairs of one worker, then those of the rest. *)
Lemma zip_seats {A} (c : nat) (x : uuid) (s : list uuid) (a b : list A) :
  (length a ≤ c)%nat → ((length a < c)%nat → b = []) →
  zip (replicate c x ++ s) (a ++ b) = (pair x <$> a) ++ zip s b.
Proof.
  revert a. induction c as [|c IH]; intros [|y a] Hle Hb; cbn in *; [done|lia| |].
  - rewrite Hb by lia. by destruct s.
  - f_equal. apply IH; [lia|]. intros. apply Hb. lia.
Qed.

Lemma allocation_cons x xs a b :
  (length a ≤ capacity x)%nat → ((length a < capacity x)%nat → b = []) →
  allocation (x :: xs) (a ++ b) = (pair (worker_ID x) <$> (job_ID <$> a)) ++ allocation xs b.
Proof.
  intros Hle Hb. unfold allocation, seats. cbn. rewrite fmap_app.
  apply zip_seats; rewrite length_fmap; [done|]. intros Hlt. by rewrite Hb.
Qed.

(** When the first [c] jobs of the queue are assigned, the others make the queue. *)
Lemma assigned_post_queue w w' l c :
  Inv w → Inv w' → assigned_post w w' l →
  (λ a, job_ID a.2) <$> l ≡ₚ job_ID <$> take c (queue w) →
  List.filter pending (rows (w_jobs w')) ≡ₚ drop c (queue w).
Proof.
  intros HI HI' P Hl. pose proof (queue_queued w) as Hq. pose proof (queue_queued w') as Hq'.
  pose proof (queued_NoDup_ID _ _ (inv_jobs _ HI) Hq) as HN.
  pose proof (queued_NoDup_ID _ _ (inv_jobs _ HI') Hq') as HN'.
  rewrite <- (take_drop c (queue w)) in HN. rewrite fmap_app in HN.
  apply NoDup_app in HN as (_ & Hdis & HN).
  destruct Hq' as [<- _]. pose proof (queue_queued w') as Hq'.
  apply NoDup_Permutation; [by eapply NoDup_fmap_1|by eapply NoDup_fmap_1|]. intros j.
  rewrite (queued_row w' _ j (inv_jobs _ HI') Hq'). split.
  - intros [Hj Hp]. destruct (assigned_post_pending w w' l _ j HI P Hj Hp) as [Hj0 Hout].
    assert (Hin : j ∈ queue w) by (by apply (queued_row w _ j (inv_jobs _ HI))).
    rewrite <- (take_drop c) in Hin. apply elem_of_app in Hin as [Hin|Hin]; [|done].
    destruct Hout. rewrite Hl. by apply list_elem_of_fmap_2.
  - intros Hin. assert (Hj : j ∈ queue w).
    { rewrite <- (take_drop c). apply elem_of_app. by right. }
    apply (queued_row w _ j (inv_jobs _ HI) Hq) in Hj as [Hj Hp]. split; [|done].
    rewrite (ap_frame _ _ _ P); [done|]. rewrite Hl. intros Hin2.
    apply (Hdis _ Hin2). by apply list_elem_of_fmap_2.
Qed.

(** The first [c] jobs of the queue, followed by a dispatch order of the others. *)
Lemma queued_app w w' c q :
  List.filter pending (rows (w_jobs w')) ≡ₚ drop c (queue w) → queued w' q →
  queued w (take c (queue w) ++ q).
Proof.
  intros Hd [Hq Hs]. destruct (queue_queued w) as [Hp Hsort]. split.
  - by rewrite Hq, Hd, take_drop.
  - rewrite <- (take_drop c (queue w)) in Hsort.
    apply StronglySorted_app in Hsort as (Hcross & Htake & _).
    apply StronglySorted_app_2; [|done|done].
    intros a b Ha Hb. apply Hcross; [done|]. by rewrite <- Hd, <- Hq.
Qed.
End facts.

Section tick.
Context `{E : Env, !OrderByLaws, !JsonbLaws}.
Implicit Types w : World.

(** No pending job has used up the range of the attempts column. *)
Definition attempts_fit w : Prop :=
  ∀ id j, w_jobs w !! id = Some j → pending j = true → int32_ok (job_Attempts j + 1) = true.

(** Who got which job. *)
Definition who_got (l : list (uuid * Job)) : list (uuid * uuid) := (λ a, (a.1, job_ID a.2)) <$> l.

Lemma who_got_one wid l :
  Forall (λ a : uuid * Job, a.1 = wid) l →
  who_got l = pair wid <$> ((λ a, job_ID a.2) <$> l).
Proof.
  intros Hl. unfold who_got. rewrite <- list_fmap_compose. apply list_fmap_ext.
  intros i [y j] Hi. cbn. f_equal. by apply (Forall_lookup_1 _ _ _ _ Hl Hi).
Qed.

Lemma who_got_app l1 l2 : who_got (l1 ++ l2) = who_got l1 ++ who_got l2.
Proof. apply fmap_app. Qed.

Lemma attempts_fit_later w w' l : Inv w → assigned_post w w' l → attempts_fit w → attempts_fit w'.
Proof.
  intros HI P Hatt k j Hj Hp. destruct (assigned_post_pending w w' l k j HI P Hj Hp) as [Hj0 _].
  by eapply Hatt.
Qed.

(** The loop over the workers deals the queue out. *)
Lemma run_assign_all_allocation xs n ins w :
  Inv w → all_done ins → Forall (λ i, in_locked i = ∅) ins → attempts_fit w →
  Forall (λ x, is_Some (w_workers w !! worker_ID x)) xs →
  ∃ l w' q, (run (for_fold xs n assign_to) ins w).2 = w' ∧ assigned_post w w' l ∧
    queued w q ∧ who_got l ≡ₚ allocation xs q.
Proof.
  revert n ins w. induction xs as [|x xs IH]; intros n ins w HI Hd Hlk Hatt Hreg.
  { exists [], w, (queue w). split_and!; [done|apply assigned_post_refl|apply queue_queued|done]. }
  cbn [for_fold]. rewrite run_bind. apply Forall_cons in Hreg as [Hr Hreg].
  destruct (run_assign_to n x ins w HI Hd Hlk) as (l1 & w1 & Hrun & P1 & Hx & _ & Hids).
  specialize (Hids Hatt Hr). rewrite Hrun. cbn [fst snd].
  assert (HI1 : Inv w1).
  { change w1 with (n + Z.of_nat (length l1), w1).2. rewrite <- Hrun.
    by eapply run_inv; [apply assign_to_safe|]. }
  pose proof (attempts_fit_later _ _ _ HI P1 Hatt) as Hatt1.
  destruct (IH (n + Z.of_nat (length l1)) _ w1 HI1 (all_done_rest (assign_to n x) ins w Hd)
              (locked_rest (assign_to n x) ins w Hlk) Hatt1) as (l2 & w2 & q & Hw2 & P2 & Hq & Hl2).
  { by rewrite (ap_workers _ _ _ P1). }
  pose proof (assigned_post_queue w w1 l1 (capacity x) HI HI1 P1 Hids) as Hdrop.
  exists (l1 ++ l2), w2, (take (capacity x) (queue w) ++ q). split_and!.
  - done.
  - by eapply assigned_post_trans.
  - by apply (queued_app w w1).
  - rewrite allocation_cons.
    + rewrite who_got_app, Hl2, (who_got_one (worker_ID x) l1) by done. by rewrite Hids.
    + rewrite length_take. lia.
    + rewrite length_take. intros Hlt. destruct Hq as [Hq _].
      rewrite Hdrop, drop_ge in Hq by lia. by apply Permutation_nil.
Qed.

(** C11: a tick whose services answer succeeds, and what it did is one allocation computed at
    its start: for some order of the pending jobs by priority and age, the jobs go one by one
    to the seats of the healthy workers, least loaded worker first, until jobs or seats run
    out. Exactly these jobs are RUNNING at the end on exactly these workers, with one attempt
    more and one message each in the jobs topic; no other row or message changed. The
    transaction per worker, each of which reads and sorts the queue again, makes no
    difference. *)
Theorem tick_equivalent ins w :
  Inv w → all_done ins → Forall (λ i, in_locked i = ∅) ins → attempts_fit w →
  ∃ l w' q, run dispatcher_tick ins w = (Ok tt, w') ∧ assigned_post w w' l ∧ queued w q ∧
    who_got l ≡ₚ allocation (staff (in_now (hd default_input ins)) w) q.
Proof.
  intros HI Hd Hlk Hatt. unfold dispatcher_tick, bind_ok. rewrite run_bind.
  cbn [Workers_FetchHealthy pgWorkersRepo].
  destruct (run_FetchHealthy dispatch_stale_seconds ins w HI) as (r & Hrun & Hr).
  rewrite Hrun. cbn [fst snd]. set (ins1 := run_rest _ ins w).
  assert (Hd1 : all_done ins1) by (by apply all_done_rest).
  assert (Hlk1 : Forall (λ i, in_locked i = ∅) ins1) by (by apply locked_rest).
  destruct r as [xs|e]; [|by destruct Hr; apply all_done_hd].
  destruct Hr as ([= Hxs] & _ & Hin).
  change (xs = staff (in_now (hd default_input ins)) w) in Hxs. rewrite <- Hxs. clear Hxs.
  assert (Hreg : Forall (λ y, is_Some (w_workers w !! worker_ID y)) xs).
  { apply Forall_forall. intros y Hy. destruct (Hin y Hy) as [-> _]. done. }
  destruct xs as [|x0 xs0].
  { exists [], w, (queue w).
    split_and!; [done|apply assigned_post_refl|apply queue_queued|done]. }
  set (xs := x0 :: xs0) in *. clearbody xs ins1. rewrite run_bind.
  destruct (run_assign_all_allocation xs 0 ins1 w) as (l & w' & q & Hw' & P & Hq & Hl); try done.
  exists l, w', q. cbn [run]. by rewrite Hw'.
Qed.
(** C37: the capacity is that of the last heartbeat, not of the last tick: two ticks between two
    heartbeats of a worker (the dispatcher ticks every two seconds, a worker beats every five)
    each fill its free capacity anew, as long as the queue lasts, so it gets twice what it has
    room for: an idle worker is given ten jobs, all RUNNING on it at once in the table. *)
Theorem ticks_overcommit ins1 ins2 w id b wid x :
  Inv w → attempts_fit w →
  all_done ins1 → Forall (λ i, in_locked i = ∅) ins1 →
  all_done ins2 → Forall (λ i, in_locked i = ∅) ins2 →
  w_workers w !! wid = Some x →
  healthy (in_now (hd default_input ins1)) dispatch_stale_seconds x = true →
  healthy (in_now (hd default_input ins2)) dispatch_stale_seconds x = true →
  let w1 := (run dispatcher_tick ins1 w).2 in let w2 := (run dispatcher_tick ins2 w1).2 in
  w_jobs w2 !! id = Some b → pending b = true →
  ∃ ids : list uuid, NoDup ids ∧ length ids = (2 * capacity x)%nat ∧
    ∀ k, k ∈ ids → ∃ j, w_jobs w2 !! k = Some j ∧ job_Status j = JobStatusRunning ∧
                        job_WorkerID j = Some wid.
Proof.
  intros HI Hatt Hd1 Hl1 Hd2 Hl2 Hx Hh1 Hh2 w1 w2 Hb Hp. unfold w2, w1 in *.
  destruct (run_tick ins1 w HI Hd1 Hl1) as (l1 & w1' & Hrun1 & P1 & _ & Hfull1).
  rewrite Hrun1 in *. cbn [snd] in *.
  assert (HI1 : Inv w1').
  { change w1' with (@Ok error unit tt, w1').2. rewrite <- Hrun1.
    by eapply run_inv; [apply dispatcher_tick_safe|]. }
  destruct (run_tick ins2 w1' HI1 Hd2 Hl2) as (l2 & w2' & Hrun2 & P2 & _ & Hfull2).
  rewrite Hrun2 in *. cbn [snd] in *.
  destruct (assigned_post_pending w1' w2' l2 id b HI1 P2 Hb Hp) as [Hb1 _].
  pose proof (Hfull1 Hatt id b Hb1 Hp wid x Hx Hh1) as Hn1.
  assert (Hx1 : w_workers w1' !! wid = Some x) by (by rewrite (ap_workers _ _ _ P1)).
  pose proof (Hfull2 (attempts_fit_later _ _ _ HI P1 Hatt) id b Hb Hp wid x Hx1 Hh2) as Hn2.
  pose proof (assigned_post_trans _ _ _ _ _ P1 P2) as P.
  set (mine := List.filter (λ a : uuid * Job, bool_decide (a.1 = wid)) (l1 ++ l2)).
  exists ((λ a, job_ID a.2) <$> mine). split_and!.
  - apply NoDup_fmap_filter_bool, P.
  - rewrite length_fmap. unfold mine. rewrite List.filter_app, length_app, Hn1, Hn2. lia.
  - intros k ([y j] & -> & Hin)%list_elem_of_fmap. unfold mine in Hin.
    apply elem_of_filter_bool in Hin as [Hy Hin]. apply bool_decide_eq_true in Hy. cbn in Hy. subst y.
    destruct (ap_rows _ _ _ P wid j Hin) as (_ & _ & _ & Hj & _ & Hs & Hw & _). by exists j.
Qed.
End tick.
