(* ===== verification/Monitor.v ===== *)
(** * The heartbeat monitor and the heartbeat consumer: internal/scheduler

    heartbeat_monitor.go sweeps for silent workers and requeues their jobs;
    heartbeat_consumer.go stores what the workers report. *)

From S2P Require Import Prelude GoStd Models GoTime Json World MemEnv Sql Lifecycle JobsRepo.
From S2P Require Import JobsSpec WorkersRepo WorkersSpec Broker Dispatcher.

Definition staleSeconds : Z := 15.

Section monitor.
Context `{E : Env} {J : JobsRepository} {W : WorkersRepository}.

(** HearbeatMonitor.tick *)
Definition monitor_tick : Prog (Res unit) :=
  let? unhealthy := Workers_MarkUnhealthy staleSeconds in
  let? requeued := Jobs_RequeueStale staleSeconds in
  Ret (Ok tt).

(** HearbeatMonitor.Run: a failed tick is logged. *)
Fixpoint monitor_Run (events : list LoopEvent) : Prog unit :=
  match events with
  | [] => Ret tt
  | CtxDone :: _ => Ret tt
  | Tick :: es => let! _ := monitor_tick in monitor_Run es
  end.

(** HeartbeatConsumer.Handle *)
Definition heartbeat_Handle (key value : string) : Prog (Res unit) :=
  match Decode (T := HeartbeatMessage) value with
  | Err e => Ret (Err e)
  | Ok msg =>
      let? _ := Workers_UpsertHeartbeat (hm_WorkerID msg) (hm_Hostname msg) (hm_CPU msg)
                  (hm_Memory msg) (hm_RunningJobs msg) in
      Ret (Ok tt)
  end.
End monitor.

Section safety.
Context `{E : Env} {J : JobsRepository} {W : WorkersRepository}.
Context `{!JobsRepositorySafe J, !WorkersRepositorySafe W}.

Lemma monitor_tick_safe : prog_safe Inv world_step monitor_tick.
Proof.
  apply prog_safe_bind_ok; [apply MarkUnhealthy_safe|]. intros _.
  by apply prog_safe_bind_ok; [apply RequeueStale_safe|].
Qed.

Lemma monitor_Run_safe events : prog_safe Inv world_step (monitor_Run events).
Proof.
  induction events as [|[] es IH]; cbn; [done| |done].
  by apply prog_safe_bind; [apply monitor_tick_safe|].
Qed.

Lemma heartbeat_Handle_safe key value : prog_safe Inv world_step (heartbeat_Handle key value).
Proof.
  unfold heartbeat_Handle. destruct (Decode value); [|done].
  by apply prog_safe_bind_ok; [apply UpsertHeartbeat_safe|].
Qed.
End safety.
#[export] Hint Resolve monitor_tick_safe monitor_Run_safe heartbeat_Handle_safe : sched.

(** ** The sweep *)

Section sweep.
Context `{E : Env}.
Implicit Types w : World.

(** A worker is gone for the monitor at [t]: marked, or silent for [staleSeconds]. A worker
    that never sent a heartbeat is silent. *)
Definition gone (t : Time) (x : Worker) : Prop :=
  worker_Status x = WorkerStatusUnhealty ∨
  (worker_Status x ≠ WorkerStatusOffline ∧
   ∀ h, worker_LastHeartBeat x = Some h → h < t - staleSeconds * 1000000).

(** What the first statement does to a worker. *)
Definition marked (t : Time) (x : Worker) : Worker :=
  if silent t staleSeconds x then worker_set_status WorkerStatusUnhealty x else x.

Lemma gone_marked t x : gone t x ↔ worker_Status (marked t x) = WorkerStatusUnhealty.
Proof.
  unfold gone, marked. pose proof (silent_spec t staleSeconds x) as Hs. destruct (silent _ _ x).
  - destruct Hs as [Hs _]. destruct (Hs eq_refl) as (? & ? & ?). cbn. tauto.
  - destruct (decide (worker_Status x = WorkerStatusUnhealty)) as [Hu|Hu]; [tauto|].
    split; [|done]. intros [?|[Ho Hh]]; [done|]. exfalso.
    by discriminate (proj2 Hs (conj Ho (conj Hu Hh))).
Qed.

(** A marked worker is UNHEALTHY, any other one as it was. *)
Lemma marked_cases t x :
  (gone t x ∧ marked t x = worker_set_status WorkerStatusUnhealty x) ∨
  (¬ gone t x ∧ marked t x = x).
Proof.
  rewrite gone_marked. unfold marked. destruct (silent t staleSeconds x); [by left|].
  destruct (decide (worker_Status x = WorkerStatusUnhealty)) as [Hu|Hu]; [left|by right].
  split; [done|]. destruct x. cbn in *. by subst.
Qed.

(** A worker heard of within the window is not lost after the marking. *)
Lemma marked_heard t t' x h :
  worker_Status x ≠ WorkerStatusUnhealty → worker_LastHeartBeat x = Some h → t ≤ t' →
  t' - staleSeconds * 1000000 ≤ h →
  worker_Status (marked t x) ≠ WorkerStatusUnhealty ∧ worker_LastHeartBeat (marked t x) = Some h.
Proof.
  intros Hun Hh Hmono Hle. destruct (marked_cases t x) as [[Hg _]|[_ ->]]; [exfalso|done].
  destruct Hg as [?|[_ Ht]]; [done|]. specialize (Ht h Hh). lia.
Qed.

(** The world after the first statement. *)
Lemma run_mark i1 ins w :
  Inv w → in_outcome i1 = Done →
  ∃ k, run (MarkUnhealthy staleSeconds) (i1 :: ins) w =
      (Ok k, set_workers (marked (in_now i1) <$> w_workers w) w) ∧
    run_rest (MarkUnhealthy staleSeconds) (i1 :: ins) w = ins ∧
    Inv (set_workers (marked (in_now i1) <$> w_workers w) w).
Proof.
  intros HI H1. destruct (run_MarkUnhealthy staleSeconds i1 ins w H1) as [k Hk]. exists k.
  assert (HI1 : Inv (run (MarkUnhealthy staleSeconds) (i1 :: ins) w).2).
  { apply (run_inv Inv world_step _ (λ _, True)); [|done].
    apply prog_safe_method; [apply _|]. intros inp w0 HI0. by apply sql_mark_unhealthy_safe. }
  rewrite Hk in HI1. split_and!; [done| |done]. cbn. unfold perform. by rewrite H1.
Qed.

Lemma bind_ok_run {A B} (p : Prog (Res A)) (k : A → Prog (Res B)) ins w :
  run (bind_ok p k) ins w =
  match (run p ins w).1 with
  | Ok a => run (k a) (run_rest p ins w) (run p ins w).2
  | Err e => (Err e, (run p ins w).2)
  end.
Proof. unfold bind_ok. rewrite run_bind. by destruct (run p ins w).1. Qed.

(** The two statements of a sweep, one after the other. *)
Lemma run_monitor_tick i1 i2 ins w :
  Inv w → in_outcome i1 = Done → in_outcome i2 = Done →
  let w1 := set_workers (marked (in_now i1) <$> w_workers w) w in
  ∃ w', run monitor_tick (i1 :: i2 :: ins) w = (Ok tt, w') ∧ w_workers w' = w_workers w1 ∧
    (∀ id, is_Some (w_jobs w' !! id) ↔ is_Some (w_jobs w !! id)) ∧
    (∀ id j, w_jobs w !! id = Some j →
       (∃ wid, job_Status j = JobStatusRunning ∧ job_WorkerID j = Some wid ∧
               worker_lost (in_now i2) staleSeconds w1 wid ∧
               w_jobs w' !! id = Some (job_set_updated (in_now i2) (requeue_row j))) ∨
       (w_jobs w' !! id = Some j ∧
        ∀ wid, job_Status j = JobStatusRunning → job_WorkerID j = Some wid →
               ¬ worker_lost (in_now i2) staleSeconds w1 wid)).
Proof.
  intros HI H1 H2 w1. unfold monitor_tick. rewrite bind_ok_run.
  cbn [Workers_MarkUnhealthy pgWorkersRepo].
  destruct (run_mark i1 (i2 :: ins) w HI H1) as (k & -> & -> & HI1). cbn [fst snd].
  fold w1 in HI1 |- *. rewrite bind_ok_run. cbn [Jobs_RequeueStale pgJobsRepo].
  destruct (RequeueStale_post staleSeconds i2 ins w1 HI1 H2)
    as (n & w' & -> & (Hws & _) & Hdom & Hrows & _). cbn [fst snd run].
  by exists w'.
Qed.

(** C17: after a sweep whose two statements succeed, every worker that was silent is UNHEALTHY
    and every other row is as it was; no RUNNING job is held by a worker marked unhealthy; a
    job that moved was RUNNING on a lost worker and is now QUEUED, without a worker, with its
    attempts; a job of a worker heard of within the window is untouched. *)
Theorem monitor_tick_spec i1 i2 ins w :
  Inv w → in_outcome i1 = Done → in_outcome i2 = Done → in_now i1 ≤ in_now i2 →
  ∃ w', run monitor_tick (i1 :: i2 :: ins) w = (Ok tt, w') ∧
    (∀ wid x, w_workers w !! wid = Some x →
       (gone (in_now i1) x ∧ w_workers w' !! wid = Some (worker_set_status WorkerStatusUnhealty x)) ∨
       (¬ gone (in_now i1) x ∧ w_workers w' !! wid = Some x)) ∧
    (∀ id j wid x, w_jobs w' !! id = Some j → job_Status j = JobStatusRunning →
       job_WorkerID j = Some wid → w_workers w' !! wid = Some x →
       worker_Status x ≠ WorkerStatusUnhealty) ∧
    (∀ id j, w_jobs w !! id = Some j →
       w_jobs w' !! id = Some j ∨
       ∃ j', w_jobs w' !! id = Some j' ∧ same_identity j j' ∧
         job_Status j = JobStatusRunning ∧ job_Status j' = JobStatusQueued ∧
         job_WorkerID j' = None ∧ job_Attempts j' = job_Attempts j) ∧
    (∀ id j wid x h, w_jobs w !! id = Some j → job_WorkerID j = Some wid →
       w_workers w !! wid = Some x → worker_Status x ≠ WorkerStatusUnhealty →
       worker_LastHeartBeat x = Some h → in_now i2 - staleSeconds * 1000000 ≤ h →
       w_jobs w' !! id = Some j).
Proof.
  intros HI H1 H2 Hmono.
  destruct (run_monitor_tick i1 i2 ins w HI H1 H2) as (w' & -> & Hws & Hdom & Hrows).
  set (w1 := set_workers _ w) in *.
  assert (Hw : ∀ wid x, w_workers w !! wid = Some x →
                        w_workers w' !! wid = Some (marked (in_now i1) x)).
  { intros wid x Hx. rewrite Hws. cbn. by rewrite lookup_fmap, Hx. }
  exists w'. split; [done|]. split_and!.
  - intros wid x Hx. rewrite (Hw wid x Hx).
    destruct (marked_cases (in_now i1) x) as [[? ->]|[? ->]]; auto.
  - intros id j wid x Hj Hs Hwid Hx Hun.
    destruct (w_jobs w !! id) as [j0|] eqn:Hj0.
    2: { destruct (proj1 (Hdom id)) as [? ?]; [by rewrite Hj|congruence]. }
    destruct (Hrows id j0 Hj0) as [(wid0 & _ & _ & _ & Hj')|[Hj' Hkeep]];
      rewrite Hj in Hj'; [by simplify_eq|injection Hj' as <-].
    apply (Hkeep wid Hs Hwid). exists x. rewrite <- Hws. auto.
  - intros id j Hj. destruct (Hrows id j Hj) as [(wid0 & Hs & _ & _ & Hj')|[Hj' _]]; [right|by left].
    eexists. split; [exact Hj'|]. by split_and!.
  - intros id j wid x h Hj Hwid Hx Hun Hh Hle.
    destruct (Hrows id j Hj) as [(wid0 & _ & Hwid0 & Hlost & _)|[Hj' _]]; [exfalso|done].
    rewrite Hwid in Hwid0. simplify_eq. destruct Hlost as (x1 & Hx1 & Hl).
    rewrite <- Hws, (Hw _ x Hx) in Hx1. injection Hx1 as <-.
    destruct (marked_heard (in_now i1) (in_now i2) x h Hun Hh Hmono Hle) as [Hm Hmh].
    destruct Hl as [?|(t & Ht & Hlt)]; [done|]. rewrite Hmh in Ht. simplify_eq. lia.
Qed.

(** A sweep whose first statement fails leaves the jobs alone; one whose second statement
    fails has marked the workers only. Either error is returned. *)
Theorem monitor_tick_error i1 i2 ins w e :
  in_outcome i1 = Lost e ∨ in_outcome i1 = Done ∧ in_outcome i2 = Lost e →
  ∃ e' w', run monitor_tick (i1 :: i2 :: ins) w = (Err e', w') ∧ errors_Is e' e = true ∧
    w_jobs w' = w_jobs w ∧ (in_outcome i1 = Lost e → w' = w).
Proof.
  intros H. unfold monitor_tick. rewrite bind_ok_run.
  cbn [Workers_MarkUnhealthy pgWorkersRepo]. unfold MarkUnhealthy.
  destruct H as [H1|[H1 H2]].
  - rewrite (run_method_err _ _ _ _ _ e H1). cbn [fst snd wrap_error].
    eexists _, _. split_and!; try done. cbn. rewrite orb_true_iff. right. destruct e; cbn;
      by rewrite bool_decide_true.
  - rewrite run_method by done. cbn [fst snd wrap_error sql_mark_unhealthy update_where].
    rewrite bind_ok_run. cbn [Jobs_RequeueStale pgJobsRepo]. unfold RequeueStale.
    assert (Hr : ∀ w, run_rest (let! tag := call (sql_mark_unhealthy staleSeconds) in
               Ret (wrap_error "mark unhealthy" tag)) (i1 :: i2 :: ins) w = i2 :: ins).
    { intros w0. cbn. unfold perform. by rewrite H1. }
    rewrite Hr, (run_method_err _ _ _ _ _ e H2). cbn [fst snd wrap_result].
    eexists _, _. split_and!; try done.
    + cbn. rewrite orb_true_iff. right. destruct e; cbn; by rewrite bool_decide_true.
    + congruence.
Qed.
End sweep.
