(* ===== verification/Leader.v ===== *)
(** * Leader election: internal/scheduler/leader.go

    A scheduler is the leader while it keeps a connection whose session holds PostgreSQL's
    advisory lock [schedulerLockID]. The pool hands a connection to one holder at a time. *)

From S2P Require Import Prelude GoStd World.

Definition schedulerLockID : Z := 851001.

(** A server session, by its connection. *)
Abbreviation Conn := nat.

(** The advisory lock of the key [schedulerLockID]: the session that holds it and how often. *)
Abbreviation Lock := (option (Conn * nat)).

(** pg_try_advisory_lock, from the session [c]: a session may take its own lock again. *)
Definition pg_try_advisory_lock (c : Conn) (lk : Lock) : bool * Lock :=
  match lk with
  | None => (true, Some (c, 1%nat))
  | Some (d, n) => if decide (c = d) then (true, Some (d, S n)) else (false, lk)
  end.

(** pg_advisory_unlock: false, and nothing, for a lock the session does not hold. *)
Definition pg_advisory_unlock (c : Conn) (lk : Lock) : bool * Lock :=
  match lk with
  | Some (d, n) =>
      if decide (c = d) then (true, match n with S (S m) => Some (d, S m) | _ => None end)
      else (false, lk)
  | None => (false, None)
  end.

(** The end of a session frees its locks. *)
Definition pg_session_end (c : Conn) (lk : Lock) : Lock :=
  match lk with
  | Some (d, _) => if decide (c = d) then None else lk
  | None => None
  end.

(** LeaderElector: the connection it keeps. *)
Record LeaderElector : Type := mkElector { le_conn : option Conn }.

Definition NewLeaderElector : LeaderElector := mkElector None.

Definition Isleader (l : LeaderElector) : bool :=
  match le_conn l with Some _ => true | None => false end.

(** Campaign, given what pool.Acquire answers and how the query ends. *)
Definition Campaign (l : LeaderElector) (acquired : Res Conn) (query : Outcome) (lk : Lock)
    : Res bool * LeaderElector * Lock :=
  match le_conn l with
  | Some _ => (Ok true, l, lk)
  | None =>
      match acquired with
      | Err e => (Err (Wrap "acquire conn" e), l, lk)
      | Ok c =>
          match query with
          | Lost e => (Err (Wrap "try advisory lock" e), l, lk)
          | Applied e => (Err (Wrap "try advisory lock" e), l, (pg_try_advisory_lock c lk).2)
          | Done =>
              let '(got, lk') := pg_try_advisory_lock c lk in
              if got then (Ok true, mkElector (Some c), lk') else (Ok false, l, lk')
          end
      end
  end.

(** Resign: the connection goes back to the pool whatever the unlock answers. *)
Definition Resign (l : LeaderElector) (exec : Outcome) (lk : Lock)
    : Res unit * LeaderElector * Lock :=
  match le_conn l with
  | None => (Ok tt, l, lk)
  | Some c =>
      match exec with
      | Done => (Ok tt, mkElector None, (pg_advisory_unlock c lk).2)
      | Lost e => (Err e, mkElector None, lk)
      | Applied e => (Err e, mkElector None, (pg_advisory_unlock c lk).2)
      end
  end.

(** ** A cluster of schedulers on one server *)

Record Cluster : Type := mkCluster {
  cl_electors : gmap nat LeaderElector;
  cl_lock : Lock;
}.

(** Nobody holds the connection [c]. *)
Definition idle (c : Conn) (cl : Cluster) : Prop :=
  ∀ i l, cl_electors cl !! i = Some l → le_conn l ≠ Some c.

(** The steps. With [faults], a session may end while a scheduler keeps its connection; without
    them only the sessions of idle connections end. *)
Inductive cluster_step (faults : bool) (cl : Cluster) : Cluster → Prop :=
| cl_start i :
    cl_electors cl !! i = None →
    cluster_step faults cl (mkCluster (<[i := NewLeaderElector]> (cl_electors cl)) (cl_lock cl))
| cl_campaign i l acquired query :
    cl_electors cl !! i = Some l →
    (∀ c, acquired = Ok c → idle c cl) →
    let r := Campaign l acquired query (cl_lock cl) in
    cluster_step faults cl (mkCluster (<[i := r.1.2]> (cl_electors cl)) r.2)
| cl_resign i l exec :
    cl_electors cl !! i = Some l →
    let r := Resign l exec (cl_lock cl) in
    cluster_step faults cl (mkCluster (<[i := r.1.2]> (cl_electors cl)) r.2)
| cl_exit i l c :
    cl_electors cl !! i = Some l → le_conn l = Some c →
    cluster_step faults cl
      (mkCluster (delete i (cl_electors cl)) (pg_session_end c (cl_lock cl)))
| cl_session_end c :
    faults = true ∨ idle c cl →
    cluster_step faults cl (mkCluster (cl_electors cl) (pg_session_end c (cl_lock cl))).

Definition empty_cluster : Cluster := mkCluster ∅ None.

(** The schedulers that take themselves for the leader. *)
Definition leader (cl : Cluster) (i : nat) : Prop :=
  ∃ l, cl_electors cl !! i = Some l ∧ Isleader l = true.

(** Every leader's session holds the lock, and no two electors share a connection. *)
Definition cluster_ok (cl : Cluster) : Prop :=
  (∀ i l c, cl_electors cl !! i = Some l → le_conn l = Some c →
     ∃ n, cl_lock cl = Some (c, S n)) ∧
  (∀ i k l m c, cl_electors cl !! i = Some l → cl_electors cl !! k = Some m →
     le_conn l = Some c → le_conn m = Some c → i = k).

(** ** Lemmas *)

(** Trying for the lock keeps it with the session that holds it. *)
Lemma try_keeps c d n lk :
  lk = Some (d, S n) → ∃ m, (pg_try_advisory_lock c lk).2 = Some (d, S m).
Proof. intros ->. cbn. case_decide; by eexists. Qed.

Lemma cluster_ok_lock cl lk :
  cluster_ok cl → (∀ d n, cl_lock cl = Some (d, S n) → (∃ i l, cl_electors cl !! i = Some l ∧
    le_conn l = Some d) → ∃ m, lk = Some (d, S m)) →
  cluster_ok (mkCluster (cl_electors cl) lk).
Proof.
  intros [Hlock Hinj] Hlk. split; [|exact Hinj]. intros i l d Hi Hd.
  destruct (Hlock i l d Hi Hd) as [n Hn]. eauto.
Qed.

(** Only one elector of a good cluster has a connection. *)
Lemma one_holder cl i k l m c d :
  cluster_ok cl → cl_electors cl !! i = Some l → cl_electors cl !! k = Some m →
  le_conn l = Some c → le_conn m = Some d → i = k.
Proof.
  intros [Hlock Hinj] Hi Hk Hc Hd.
  destruct (Hlock i l c Hi Hc) as [n Hn]. destruct (Hlock k m d Hk Hd) as [n' Hn'].
  rewrite Hn in Hn'. simplify_eq. by eapply Hinj.
Qed.

Lemma campaign_ok cl i l acquired query :
  cluster_ok cl → cl_electors cl !! i = Some l →
  (∀ c, acquired = Ok c → idle c cl) →
  let r := Campaign l acquired query (cl_lock cl) in
  cluster_ok (mkCluster (<[i := r.1.2]> (cl_electors cl)) r.2).
Proof.
  intros Hok Hi Hidle r.
  assert (Htry : ∀ c, cluster_ok
    (mkCluster (<[i := l]> (cl_electors cl)) (pg_try_advisory_lock c (cl_lock cl)).2)).
  { intros c. rewrite insert_id by done. apply cluster_ok_lock; [done|].
    intros d n Hn _. by eapply try_keeps. }
  assert (Hsame : cluster_ok (mkCluster (<[i := l]> (cl_electors cl)) (cl_lock cl))).
  { rewrite insert_id by done. by apply cluster_ok_lock; eauto. }
  unfold r, Campaign. destruct (le_conn l) as [c0|] eqn:Hl; [exact Hsame|].
  destruct acquired as [c|e]; [|exact Hsame]. specialize (Hidle c eq_refl).
  destruct query as [|e|e]; [|exact Hsame|apply Htry].
  specialize (Htry c). destruct (pg_try_advisory_lock c (cl_lock cl)) as [[] lk'] eqn:Ht;
    [|exact Htry].
  assert (Hfree : ∀ k m d, cl_electors cl !! k = Some m → le_conn m = Some d → False).
  { intros k m d Hk Hd. destruct (proj1 Hok k m d Hk Hd) as [n Hn].
    unfold pg_try_advisory_lock in Ht. rewrite Hn in Ht. case_decide; [|done]. subst.
    by apply (Hidle k m). }
  assert (Hl' : ∃ n, lk' = Some (c, S n)).
  { unfold pg_try_advisory_lock in Ht. destruct (cl_lock cl) as [[d n]|].
    - case_decide; simplify_eq. by exists n.
    - simplify_eq. by exists 0%nat. }
  split; cbn.
  - intros k m d. rewrite lookup_insert. case_decide; [by intros [= <-] [= <-]|].
    intros Hk Hd. by destruct (Hfree k m d).
  - intros k k' m m' d. rewrite !lookup_insert. case_decide; case_decide; [congruence|..];
      intros Hk Hk' Hd Hd'; exfalso; eauto.
Qed.

Lemma resign_ok cl i l exec :
  cluster_ok cl → cl_electors cl !! i = Some l →
  let r := Resign l exec (cl_lock cl) in
  cluster_ok (mkCluster (<[i := r.1.2]> (cl_electors cl)) r.2).
Proof.
  intros Hok Hi r. unfold r, Resign. destruct (le_conn l) as [c0|] eqn:Hl.
  2: { cbn. rewrite insert_id by done. by apply cluster_ok_lock; eauto. }
  assert (Hnone : ∀ lk', cluster_ok (mkCluster (<[i := mkElector None]> (cl_electors cl)) lk')).
  { intros lk'. split; cbn.
    - intros k m d. rewrite lookup_insert. case_decide; [by intros [= <-]|].
      intros Hk Hd. by destruct (one_holder cl i k l m c0 d).
    - intros k k' m m' d. rewrite !lookup_insert. case_decide; [by intros [= <-]|].
      intros Hk _ Hd. by destruct (one_holder cl i k l m c0 d). }
  destruct exec; apply Hnone.
Qed.

Lemma cluster_ok_step cl cl' : cluster_ok cl → cluster_step false cl cl' → cluster_ok cl'.
Proof.
  intros Hok Hs. destruct Hs as
    [i Hi|i l acquired query Hi Hidle r|i l exec Hi r|i l c Hi Hc|c Hc].
  - destruct Hok as [Hlock Hinj]. split; cbn.
    + intros k l c. rewrite lookup_insert. case_decide; [by intros [= <-]|]. apply Hlock.
    + intros k k' l m c. rewrite !lookup_insert.
      case_decide; [by intros [= <-]|]. case_decide; [by intros _ [= <-]|]. apply Hinj.
  - by apply campaign_ok.
  - by apply resign_ok.
  - assert (Hnone : ∀ k m d, delete i (cl_electors cl) !! k = Some m → le_conn m = Some d →
                      False).
    { intros k m d [Hne Hk]%lookup_delete_Some Hd. by destruct (one_holder cl i k l m c d). }
    split; cbn; intros; exfalso; eauto.
  - destruct Hc as [|Hc]; [done|]. apply cluster_ok_lock; [done|].
    intros d n Hn (i & l & Hi & Hl). exists n. rewrite Hn. cbn. case_decide; [|done].
    subst. by destruct (Hc i l Hi).
Qed.

Lemma cluster_reachable_ok cl : rtc (cluster_step false) empty_cluster cl → cluster_ok cl.
Proof.
  intros Hsteps. assert (Hinit : cluster_ok empty_cluster) by done.
  revert Hinit. induction Hsteps as [|x y z Hxy _ IH]; [done|].
  intros Hx. by eapply IH, cluster_ok_step.
Qed.

(** As long as no session ends under a scheduler that keeps its connection, at most one
    scheduler of a cluster takes itself for the leader, in every reachable state: whatever the
    order of campaigns, resignations and exits, and whatever queries fail. *)
Theorem leader_unique cl i k :
  rtc (cluster_step false) empty_cluster cl → leader cl i → leader cl k → i = k.
Proof.
  intros Hok%cluster_reachable_ok (l & Hl & Hi) (m & Hm & Hk). unfold Isleader in *.
  destruct (le_conn l) as [c|] eqn:Hc; [|done]. destruct (le_conn m) as [d|] eqn:Hd; [|done].
  by eapply one_holder.
Qed.

(** When the session of the leader ends (a lost connection, a server restart), the elector
    does not notice: its Campaign keeps answering true without asking the server, and a second
    scheduler becomes leader beside it. *)
Theorem leader_not_fenced :
  ∃ cl, rtc (cluster_step true) empty_cluster cl ∧ leader cl 0 ∧ leader cl 1 ∧
    ∀ l acquired query, cl_electors cl !! 0%nat = Some l →
      (Campaign l acquired query (cl_lock cl)).1.1 = Ok true.
Proof.
  set (lead := λ c, mkElector (Some c)).
  exists (mkCluster (<[1%nat := lead 20%nat]> (<[1%nat := NewLeaderElector]>
            (<[0%nat := lead 10%nat]> (<[0%nat := NewLeaderElector]> ∅)))) (Some (20, 1)%nat)).
  split_and!.
  - assert (Hidle : ∀ els lk c, (∀ i l, els !! i = Some l → le_conn l = None ∨ le_conn l = Some 10%nat) →
      c = 20%nat ∨ els = <[0%nat := NewLeaderElector]> ∅ → idle c (mkCluster els lk)).
    { intros els lk c Hels Hc i l Hl Heq. cbn in Hl. destruct (Hels i l Hl) as [Hn|Hn].
      - by rewrite Heq in Hn.
      - destruct Hc as [->| ->]; [by rewrite Heq in Hn|].
        apply lookup_insert_Some in Hl as [[_ <-]|[_ Hl]]; [done|discriminate Hl]. }
    eapply rtc_l; [by apply (cl_start _ _ 0%nat)|].
    eapply rtc_l; [apply (cl_campaign _ _ 0%nat NewLeaderElector (Ok 10%nat) Done); [done|]|].
    { intros c _. apply Hidle; [|by right]. intros i l Hl.
      apply lookup_insert_Some in Hl as [[_ <-]|[_ Hl]]; [by left|discriminate Hl]. }
    eapply rtc_l; [apply (cl_session_end _ _ 10%nat); by left|].
    eapply rtc_l; [by apply (cl_start _ _ 1%nat)|].
    eapply rtc_l; [apply (cl_campaign _ _ 1%nat NewLeaderElector (Ok 20%nat) Done); [done|]|].
    { intros c [= <-]. apply Hidle; [|by left]. intros i l Hl. cbn in Hl.
      repeat (apply lookup_insert_Some in Hl as [[_ <-]|[_ Hl]]; [by auto|]).
      discriminate Hl. }
    cbn. by apply reflexive_eq.
  - by exists (lead 10%nat).
  - by exists (lead 20%nat).
  - intros l acquired query Hl. vm_compute in Hl. by injection Hl as <-.
Qed.
