(* ===== verification/Cache.v ===== *)
(** * The cache package: internal/cache

    The idempotency store, the rate limiter and the status cache, over the commands of a Redis
    server. Their promise to the tables is that they never touch them. *)

From S2P Require Import Prelude GoStd Decimal Models Json JsonFacts World MemEnv Lifecycle Sha256.
From S2P Require Import Broker.

Section redis.
Context `{E : Env}.

(** ** The commands, as the client sees them *)

Definition redis_Get (k : string) : action string := λ inp w,
  (match redis_get (in_now inp) k (w_redis w) with
   | Some v => Ok v
   | None => Err ErrRedisNil
   end, w).

Definition redis_SetNX (k v : string) (ttl : Z) : action bool := λ inp w,
  let '(b, r) := redis_setnx (in_now inp) k v ttl (w_redis w) in (Ok b, set_redis r w).

Definition redis_Set (k v : string) (ttl : Z) : action unit := λ inp w,
  (Ok tt, set_redis (redis_set (in_now inp) k v ttl (w_redis w)) w).

Definition redis_Del (k : string) : action unit := λ inp w,
  (Ok tt, set_redis (redis_del (in_now inp) k (w_redis w)) w).

Definition redis_Incr (k : string) : action Z := λ inp w,
  let '(n, r) := redis_incr (in_now inp) k (w_redis w) in (n, set_redis r w).

Definition redis_Expire (k : string) (ttl : Z) : action unit := λ inp w,
  (Ok tt, set_redis (redis_expire (in_now inp) k ttl (w_redis w)) w).

(** ** The idempotency store *)

Definition idempotencyTTL : Z := seconds (24 * 3600).

Record idemEntry : Type := mkIdemEntry {
  ie_JobID : string;
  ie_PayloadHash : string;
}.

Definition idemEntry_names : list string := ["job_id"; "payload_hash"].

#[export] Instance idemEntry_Json : Json idemEntry := {|
  json_Marshal e :=
    Ok (render_object [("job_id", json_string (ie_JobID e));
                       ("payload_hash", json_string (ie_PayloadHash e))]);
  json_Unmarshal :=
    decode_struct (mkIdemEntry EmptyString EmptyString) (λ l,
      result_bind (get_string (field idemEntry_names "job_id" l)) (λ a,
      result_bind (get_string (field idemEntry_names "payload_hash" l)) (λ b,
      Ok (mkIdemEntry a b))));
|}.

(** The bytes of a RawMessage; a nil slice has none. *)
Definition raw_bytes (p : RawMessage) : string :=
  match p with Some s => s | None => EmptyString end.

Definition ContentKey (jobType : string) (payload : RawMessage) : string :=
  "auto:" +:+ hex_EncodeToString (sha256 (jobType +:+ raw_bytes payload)).

Definition PayloadHash (jobType : string) (payload : RawMessage) : string :=
  hex_EncodeToString (sha256 (jobType +:+ raw_bytes payload)).

Definition idem_key (key : string) : string := "idem:" +:+ key.

(** IdempotencyStore.Check: the job an earlier request with the key left, if any. *)
Definition Check_ (key : string) (jobID : uuid) (pHash : string) : Prog (Res (uuid * bool)) :=
  let redisKey := idem_key key in
  match json_Marshal (mkIdemEntry (uuid_String jobID) pHash) with
  | Err e => Ret (Err (Wrap "marshal idem entry" e))
  | Ok data =>
      let! r := call (redis_SetNX redisKey data idempotencyTTL) in
      match r with
      | Err e => Ret (Err (Wrap "redis setnx" e))
      | Ok set =>
          if set then Ret (Ok (uuid_Nil, false))
          else
            let! g := call (redis_Get redisKey) in
            match g with
            | Err e => Ret (Err (Wrap "redis get" e))
            | Ok existing =>
                match json_Unmarshal (T := idemEntry) existing with
                | Err e => Ret (Err (Wrap "unmarshal idem entry" e))
                | Ok existingEntry =>
                    if negb (bool_decide (ie_PayloadHash existingEntry = pHash))
                    then Ret (Err ErrPayloadMismatch)
                    else match uuid_Parse (ie_JobID existingEntry) with
                         | None => Ret (Err (Wrap "parse existing job id"
                                               (ErrText "invalid UUID")))
                         | Some existingID => Ret (Ok (existingID, true))
                         end
                end
            end
      end
  end.

(** ** The rate limiter *)

(** The limit, and the window in microseconds. *)
Record RateLimiter : Type := mkRateLimiter { rl_limit : Z; rl_window : Z }.

(** The key of the window that [now] lies in: Unix seconds over the window's seconds, both
    whole. (A window below one second makes the Go division panic; every limiter the program
    makes has a window of a minute.) *)
Definition rate_key (rl : RateLimiter) (key : string) (now : Time) : string :=
  "rate:" +:+ key +:+ ":" +:+ pretty (Z.quot (now / 1000000) (Z.quot (rl_window rl) 1000000)).

(** RateLimiter.Allow: is the request allowed, and how many remain. *)
Definition Allow (rl : RateLimiter) (key : string) : Prog (Res (bool * Z)) :=
  let! now := time_Now in
  let redisKey := rate_key rl key now in
  let! r := call (redis_Incr redisKey) in
  match r with
  | Err e => Ret (Err (Wrap "redis incr" e))
  | Ok count =>
      (if count =? 1
       then let! _ := call (redis_Expire redisKey (rl_window rl)) in Ret tt
       else Ret tt) ;;!
      Ret (Ok (count <=? rl_limit rl, Z.max 0 (rl_limit rl - count)))
  end.

(** ** The status cache *)

Definition statusCacheTTL : Z := seconds (5 * 60).

Definition jobKey (id : uuid) : string := "job: " +:+ uuid_String id.

(** StatusCache.Get: a missing key is a nil slice and no error. *)
Definition StatusCache_Get (id : uuid) : Prog (Res (option string)) :=
  let! r := call (redis_Get (jobKey id)) in
  Ret (match r with
       | Ok data => Ok (Some data)
       | Err e => if bool_decide (e = ErrRedisNil) then Ok None else Err e
       end).

Definition StatusCache_Set (id : uuid) (jobJSON : string) : Prog (Res unit) :=
  call (redis_Set (jobKey id) jobJSON statusCacheTTL).

Definition StatusCache_Invalidate (id : uuid) : Prog (Res unit) :=
  call (redis_Del (jobKey id)).
End redis.

(** ** Safety: the cache never touches the tables or the topics *)

Section safety.
Context `{E : Env}.

(** An action that only changes the keyspace. *)
Definition redis_only {B} (f : action B) : Prop :=
  ∀ inp w, ∃ r, (f inp w).2 = set_redis r w.

Lemma redis_only_safe {B} (f : action B) :
  redis_only f → prog_safe Inv world_step (call f).
Proof.
  intros Hf. apply prog_safe_call; [apply _|]. intros inp w HI.
  destruct (Hf inp w) as [r ->]. by apply frame_safe.
Qed.

Lemma redis_commands_only k v ttl :
  redis_only (redis_Get k) ∧ redis_only (redis_SetNX k v ttl) ∧ redis_only (redis_Set k v ttl) ∧
  redis_only (redis_Del k) ∧ redis_only (redis_Incr k) ∧ redis_only (redis_Expire k ttl).
Proof.
  split_and!; intros inp w.
  - exists (w_redis w). by destruct w.
  - unfold redis_SetNX. destruct (redis_setnx _ _ _ _ _) as [b r]. by exists r.
  - by eexists.
  - by eexists.
  - unfold redis_Incr. destruct (redis_incr _ _ _) as [b r]. by exists r.
  - by eexists.
Qed.

Lemma Check_safe key id h : prog_safe Inv world_step (Check_ key id h).
Proof.
  unfold Check_. cbn [json_Marshal idemEntry_Json].
  apply prog_safe_bind; [apply redis_only_safe, (redis_commands_only _ _ _)|].
  intros [[]|e]; [done| |done].
  apply prog_safe_bind; [apply redis_only_safe, (redis_commands_only _ EmptyString 0)|].
  intros [v|e]; [|done]. destruct (json_Unmarshal v); [|done].
  destruct (negb _); [done|]. by destruct (uuid_Parse _).
Qed.

Lemma Allow_safe rl key : prog_safe Inv world_step (Allow rl key).
Proof.
  apply prog_safe_bind.
  { apply prog_safe_local. intros inp w HI. split; [done|apply world_step_refl]. }
  intros now.
  apply prog_safe_bind; [apply redis_only_safe, (redis_commands_only _ EmptyString 0)|].
  intros [n|e]; [|done]. apply prog_safe_bind; [|done]. destruct (n =? 1); [|done].
  apply prog_safe_bind; [apply redis_only_safe, (redis_commands_only _ EmptyString _)|done].
Qed.

(** The limiter changes the keyspace only, whatever fails. *)
Lemma Allow_frame rl key ins w :
  let w' := (run (Allow rl key) ins w).2 in
  w_jobs w' = w_jobs w ∧ w_workers w' = w_workers w ∧ w_dead w' = w_dead w ∧ w_log w' = w_log w.
Proof.
  assert (Hr : ∀ B (f : action B) inp w0, redis_only f →
    ∃ r, (perform inp f w0).2 = set_redis r w0).
  { intros B f inp w0 Hf. destruct (perform_world inp f w0) as [-> | ->]; [|apply Hf].
    exists (w_redis w0). by destruct w0. }
  unfold Allow, time_Now. rewrite run_bind_local. rewrite run_bind_call.
  set (k := rate_key _ _ _). cbv zeta.
  destruct (Hr _ (redis_Incr k) (hd default_input (tl ins)) w) as [r1 H1];
    [apply (redis_commands_only _ EmptyString 0)|].
  destruct (perform _ (redis_Incr k) w) as [[n|e] w1]; cbn in H1; subst w1; [|done].
  rewrite run_bind. destruct (n =? 1); [|done]. rewrite run_bind_call.
  set (inp2 := hd _ _).
  destruct (Hr _ (redis_Expire k (rl_window rl)) inp2 (set_redis r1 w)) as [r2 H2];
    [apply (redis_commands_only _ EmptyString _)|].
  destruct (perform _ (redis_Expire _ _) _) as [r w2]. cbn in H2. by subst w2.
Qed.

Lemma StatusCache_Get_safe id : prog_safe Inv world_step (StatusCache_Get id).
Proof.
  apply prog_safe_bind; [apply redis_only_safe, (redis_commands_only _ EmptyString 0)|done].
Qed.

Lemma StatusCache_Set_safe id v : prog_safe Inv world_step (StatusCache_Set id v).
Proof. apply redis_only_safe, (redis_commands_only _ _ _). Qed.

Lemma StatusCache_Invalidate_safe id : prog_safe Inv world_step (StatusCache_Invalidate id).
Proof. apply redis_only_safe, (redis_commands_only _ EmptyString 0). Qed.
End safety.
#[export] Hint Resolve Check_safe Allow_safe StatusCache_Get_safe StatusCache_Set_safe
  StatusCache_Invalidate_safe : sched.
