(* ===== verification/CacheSpec.v ===== *)
(** * What the cache package does

    The first request with a key wins; the n-th request of a window is allowed when n is at
    most the limit; a cached status is what was last stored, until it is dropped. *)

From S2P Require Import Prelude GoStd Decimal Models Json JsonFacts World MemEnv Lifecycle Sha256.
From S2P Require Import Broker Cache.

Section idempotency.
Context `{E : Env, !UuidLaws, !RedisLaws}.
Implicit Types w : World.

(** The stored text of an entry. *)
Definition idem_text (jobID : uuid) (pHash : string) : string :=
  render_object [("job_id", json_string (uuid_String jobID));
                 ("payload_hash", json_string pHash)].

(** The key holds the entry of [jobID] and [pHash] from [t] on, before [t']. *)
Definition holds (key : string) (jobID : uuid) (pHash : string) (t t' : Time) (w : World) : Prop :=
  ∀ t1, t ≤ t1 → t1 < t' →
    redis_get t1 (idem_key key) (w_redis w) = Some (idem_text jobID pHash).

(** A stored entry is read back. *)
Lemma idemEntry_roundtrip e :
  utf8_valid (ie_JobID e) = true → utf8_valid (ie_PayloadHash e) = true →
  ∃ s, json_Marshal e = Ok s ∧ json_Unmarshal s = Ok e.
Proof.
  intros H1 H2. eexists. split; [done|]. destruct e as [a b]. cbn [json_Unmarshal idemEntry_Json].
  unfold decode_struct. rewrite read_render_object.
  2: { unfold members_ok. members_tac. }
  cbn [ie_JobID ie_PayloadHash] in *.
  change (field idemEntry_names "job_id" _) with [json_string a].
  change (field idemEntry_names "payload_hash" _) with [json_string b].
  rewrite !get_string_printed by done. done.
Qed.

Lemma idem_text_read jobID pHash :
  utf8_valid pHash = true →
  json_Unmarshal (idem_text jobID pHash) = Ok (mkIdemEntry (uuid_String jobID) pHash).
Proof.
  intros Hh.
  destruct (idemEntry_roundtrip (mkIdemEntry (uuid_String jobID) pHash)) as (s & [= <-] & Hs);
    [apply uuid_String_utf8|done|exact Hs].
Qed.

(** The first request with a key. *)
Lemma run_Check_fresh key jobID pHash inp ins w :
  in_outcome inp = Done → redis_get (in_now inp) (idem_key key) (w_redis w) = None →
  ∃ r, run (Check_ key jobID pHash) (inp :: ins) w = (Ok (uuid_Nil, false), set_redis r w) ∧
       run_rest (Check_ key jobID pHash) (inp :: ins) w = ins ∧
       holds key jobID pHash (in_now inp) (in_now inp + idempotencyTTL) (set_redis r w) ∧
       ∀ t' k', in_now inp ≤ t' → k' ≠ idem_key key →
         redis_get t' k' r = redis_get t' k' (w_redis w).
Proof.
  intros Hd Hfree. unfold Check_. cbn [json_Marshal idemEntry_Json].
  cbn [bind call run run_rest hd tl]. unfold perform. rewrite Hd. unfold redis_SetNX.
  destruct (redis_setnx_free (in_now inp) (idem_key key)
              (render_object [("job_id", json_string (uuid_String jobID));
                              ("payload_hash", json_string pHash)])
              idempotencyTTL (w_redis w) Hfree) as [Hb Hr].
  cbn [ie_JobID ie_PayloadHash].
  destruct (redis_setnx _ _ _ _ _) as [b r]. cbn in Hb, Hr. subst b. cbn.
  exists r. split_and!; [done|done|..].
  - intros t1 Ht1 Ht2. cbn. rewrite Hr, redis_get_set by done.
    by rewrite (proj2 (Z.ltb_lt _ _)).
  - intros t' k' Ht Hk. rewrite Hr by done. by apply redis_get_set_ne.
Qed.

(** A later request with the key, while the entry is there. *)
Lemma run_Check_taken key jobID pHash id0 h0 t t' i1 i2 ins w :
  holds key id0 h0 t t' w → utf8_valid h0 = true →
  in_outcome i1 = Done → in_outcome i2 = Done →
  t ≤ in_now i1 → in_now i1 ≤ in_now i2 → in_now i2 < t' →
  ∃ r, run (Check_ key jobID pHash) (i1 :: i2 :: ins) w =
         (if bool_decide (h0 = pHash) then Ok (id0, true) else Err ErrPayloadMismatch,
          set_redis r w) ∧
       run_rest (Check_ key jobID pHash) (i1 :: i2 :: ins) w = ins ∧
       holds key id0 h0 (in_now i1) t' (set_redis r w) ∧
       ∀ t1 k', in_now i1 ≤ t1 → redis_get t1 k' r = redis_get t1 k' (w_redis w).
Proof.
  intros Hh Hv H1 H2 Ht1 Ht12 Ht2. unfold Check_. cbn [json_Marshal idemEntry_Json].
  cbn [ie_JobID ie_PayloadHash].
  destruct (redis_setnx_taken (in_now i1) (idem_key key) (idem_text jobID pHash)
              idempotencyTTL (w_redis w) (idem_text id0 h0)) as [Hb Hr]; [apply Hh; lia|].
  destruct (redis_setnx (in_now i1) (idem_key key) (idem_text jobID pHash) idempotencyTTL
              (w_redis w)) as [b r] eqn:Hset.
  cbn in Hb, Hr. subst b. exists r.
  assert (Hp1 : perform i1 (redis_SetNX (idem_key key) (idem_text jobID pHash) idempotencyTTL) w
                = (Ok false, set_redis r w)).
  { unfold perform, redis_SetNX. by rewrite H1, Hset. }
  assert (Hp2 : perform i2 (redis_Get (idem_key key)) (set_redis r w)
                = (Ok (idem_text id0 h0), set_redis r w)).
  { unfold perform, redis_Get. rewrite H2. cbn. rewrite Hr by done. by rewrite Hh by lia. }
  fold (idem_text jobID pHash).
  cbn [bind call run run_rest hd tl]. rewrite !Hp1. cbn [bind call run run_rest hd tl].
  rewrite !Hp2, !idem_text_read by done. cbn [ie_JobID ie_PayloadHash].
  rewrite uuid_Parse_String.
  assert (Hkeep : holds key id0 h0 (in_now i1) t' (set_redis r w)).
  { intros t3 Hle Hlt. cbn. rewrite Hr by done. apply Hh; lia. }
  destruct (bool_decide_reflect (h0 = pHash)); cbn; by split_and!.
Qed.

(** Of two requests with one key inside a day, the first is new and the second is told
    the job of the first when the content is the same, and that the key was reused when it
    is not; the entry stays the first one's. *)
Theorem Check_first_wins key id1 h1 id2 h2 i1 i2 i3 w :
  utf8_valid h1 = true →
  in_outcome i1 = Done → in_outcome i2 = Done → in_outcome i3 = Done →
  in_now i1 ≤ in_now i2 → in_now i2 ≤ in_now i3 → in_now i3 < in_now i1 + idempotencyTTL →
  redis_get (in_now i1) (idem_key key) (w_redis w) = None →
  ∃ w1 w2,
    run (Check_ key id1 h1) [i1] w = (Ok (uuid_Nil, false), w1) ∧
    run (Check_ key id2 h2) [i2; i3] w1 =
      (if bool_decide (h1 = h2) then Ok (id1, true) else Err ErrPayloadMismatch, w2) ∧
    holds key id1 h1 (in_now i2) (in_now i1 + idempotencyTTL) w2 ∧
    w_jobs w2 = w_jobs w ∧ w_log w2 = w_log w.
Proof.
  intros Hv H1 H2 H3 H12 H23 Httl Hfree.
  destruct (run_Check_fresh key id1 h1 i1 [] w H1 Hfree) as (r1 & Hr1 & _ & Hh1 & _).
  destruct (run_Check_taken key id2 h2 id1 h1 _ _ i2 i3 [] _ Hh1 Hv H2 H3 H12 H23 Httl)
    as (r2 & Hr2 & _ & Hh2 & _).
  eexists _, _. split_and!; [exact Hr1|exact Hr2|exact Hh2|done|done].
Qed.

(** The content key and the payload hash do not separate the type from the payload: what
    moves from the end of one to the front of the other leaves both unchanged. *)
Theorem content_collision t s p :
  ContentKey (t +:+ s) (Some p) = ContentKey t (Some (s +:+ p)) ∧
  PayloadHash (t +:+ s) (Some p) = PayloadHash t (Some (s +:+ p)).
Proof. unfold ContentKey, PayloadHash. cbn. by rewrite append_assoc. Qed.
End idempotency.

(** ** The rate limiter *)

Section limiter.
Context `{E : Env, !RedisLaws}.
Implicit Types w : World.

(** The answers to requests, of any clients at any instants, one after the other. *)
Fixpoint allow_all (rl : RateLimiter) (reqs : list (string * Time)) (w : World)
    : list (Res (bool * Z)) :=
  match reqs with
  | [] => []
  | (key, t) :: reqs' =>
      let inp := mkInput t 0%N ∅ Done in
      let '(r, w') := run (Allow rl key) [inp; inp; inp] w in
      r :: allow_all rl reqs' w'
  end.

(** The answer to the n-th request of a window. *)
Definition nth_answer (rl : RateLimiter) (n : Z) : Res (bool * Z) :=
  Ok (n <=? rl_limit rl, Z.max 0 (rl_limit rl - n)).

(** The instants of a window: same number of whole windows since 1970. *)
Definition window_index (rl : RateLimiter) (t : Time) : Z :=
  Z.quot (t / 1000000) (Z.quot (rl_window rl) 1000000).

(** The reference: a fixed-window counter that remembers all requests it has seen. *)
Definition same_window (rl : RateLimiter) (a b : string * Time) : bool :=
  bool_decide (a.1 = b.1) && (window_index rl a.2 =? window_index rl b.2).

Definition seen_in_window (rl : RateLimiter) (seen : list (string * Time)) (a : string * Time)
    : nat := length (List.filter (same_window rl a) seen).

Fixpoint fixed_window (rl : RateLimiter) (seen reqs : list (string * Time))
    : list (Res (bool * Z)) :=
  match reqs with
  | [] => []
  | a :: reqs' =>
      nth_answer rl (Z.of_nat (S (seen_in_window rl seen a))) :: fixed_window rl (a :: seen) reqs'
  end.

(** ** Keys *)

(** The last colon of a text separates. *)
Lemma colon_inj k k' s s' :
  has_byte ":" s = false → has_byte ":" s' = false →
  k +:+ String ":" s = k' +:+ String ":" s' → k = k' ∧ s = s'.
Proof.
  intros Hs Hs'. revert k'. induction k as [|c k IH]; intros [|c' k']; rewrite ?append_nil, ?append_cons.
  - by intros [= ->].
  - intros [= <- ->]. rewrite has_byte_app in Hs. cbn in Hs. by rewrite orb_true_r in Hs.
  - intros [= -> <-]. rewrite has_byte_app in Hs'. cbn in Hs'. by rewrite orb_true_r in Hs'.
  - intros [= <- Hk]. by destruct (IH k' Hk) as [-> ->].
Qed.

Lemma rate_key_inj rl k k' t t' :
  rate_key rl k t = rate_key rl k' t' → k = k' ∧ window_index rl t = window_index rl t'.
Proof.
  unfold rate_key. fold (window_index rl t) (window_index rl t').
  intros [= [Hk Hs]%colon_inj]; [|apply pretty_no_colon..]. split; [done|].
  apply (inj Some). by rewrite <- !signed_value_pretty, Hs.
Qed.

(** ** One request *)

(** How the store changes: [new] is what the key holds from [t] on. *)
Definition counted (t : Time) (key : string) (new : Time → option string) (r r' : redis) : Prop :=
  ∀ t' k, t ≤ t' → redis_get t' k r' = if decide (k = key) then new t' else redis_get t' k r.

Lemma run_Allow_first rl key t w :
  redis_get t (rate_key rl key t) (w_redis w) = None →
  let inp := mkInput t 0%N ∅ Done in
  ∃ r, run (Allow rl key) [inp; inp; inp] w = (nth_answer rl 1, set_redis r w) ∧
    counted t (rate_key rl key t) (λ t', if t' <? t + rl_window rl then Some "1" else None)
      (w_redis w) r.
Proof.
  intros Hfree inp. unfold Allow, time_Now. rewrite run_bind_local. cbn [hd tl in_now inp].
  rewrite run_bind_call. cbn [hd tl]. unfold perform. cbn [in_outcome inp]. unfold redis_Incr.
  destruct (redis_incr_new t (rate_key rl key t) (w_redis w) Hfree) as [Hn Hr].
  pose proof (λ t' k' H, redis_incr_ne t t' (rate_key rl key t) k' (w_redis w) H) as Hne.
  cbn [in_now]. destruct (redis_incr _ _ _) as [n r]. cbn in Hn, Hr, Hne. subst n. cbn.
  eexists. split; [done|]. intros t' k Hle. case_decide as Hk.
  - subst k. rewrite redis_get_expire, Hr by done. done.
  - rewrite redis_get_expire_ne by done. by apply Hne.
Qed.

Lemma run_Allow_next rl key t n w :
  redis_get t (rate_key rl key t) (w_redis w) = Some (pretty n) → 1 ≤ n →
  int64_ok (n + 1) = true →
  let inp := mkInput t 0%N ∅ Done in
  ∃ r, run (Allow rl key) [inp; inp; inp] w = (nth_answer rl (n + 1), set_redis r w) ∧
    counted t (rate_key rl key t)
      (λ t', (λ _, pretty (n + 1)) <$> redis_get t' (rate_key rl key t) (w_redis w)) (w_redis w) r.
Proof.
  intros Hg Hn1 Hok inp. unfold Allow, time_Now. rewrite run_bind_local. cbn [hd tl in_now inp].
  rewrite run_bind_call. cbn [hd tl]. unfold perform. cbn [in_outcome inp]. unfold redis_Incr.
  destruct (redis_incr_old t (rate_key rl key t) (w_redis w) (pretty n) n) as [Hn Hr];
    [done| |done|].
  { apply Atoi_pretty. unfold int64_ok, in_range in *. to_prop.
    rewrite (proj2 (Z.leb_le _ _)), (proj2 (Z.leb_le _ _)) by lia. done. }
  pose proof (λ t' k' H, redis_incr_ne t t' (rate_key rl key t) k' (w_redis w) H) as Hne.
  cbn [in_now]. destruct (redis_incr _ _ _) as [n' r]. cbn in Hn, Hr, Hne. subst n'. cbn.
  rewrite (proj2 (Z.eqb_neq (n + 1) 1)) by lia. cbn. eexists. split; [done|].
  intros t' k Hle. case_decide; [subst; by apply Hr|by apply Hne].
Qed.

(** The instants of one window are closer to each other than its length. *)
Lemma window_span rl t t' m :
  rl_window rl = seconds m → 0 < m → 0 ≤ t → t ≤ t' →
  window_index rl t = window_index rl t' → t' < t + rl_window rl.
Proof.
  unfold window_index, seconds. intros -> Hm Ht Hle.
  rewrite (Z.quot_div_nonneg (m * 1000000)) by lia. rewrite Z.div_mul by lia.
  assert (0 ≤ t / 1000000 ≤ t' / 1000000).
  { split; [apply Z.div_pos; lia|apply Z.div_le_mono; lia]. }
  rewrite !Z.quot_div_nonneg by lia. intros Heq.
  pose proof (Z.div_mod t 1000000). pose proof (Z.mod_pos_bound t 1000000).
  pose proof (Z.div_mod t' 1000000). pose proof (Z.mod_pos_bound t' 1000000).
  pose proof (Z.div_mod (t / 1000000) m). pose proof (Z.mod_pos_bound (t / 1000000) m).
  pose proof (Z.div_mod (t' / 1000000) m). pose proof (Z.mod_pos_bound (t' / 1000000) m).
  nia.
Qed.

(** What the store holds for the requests that were [seen], from [now] on. *)
Definition holds_counts (rl : RateLimiter) (now : Time) (seen : list (string * Time)) (w : World)
    : Prop :=
  ∀ k t, now ≤ t → redis_get t (rate_key rl k t) (w_redis w) =
    match seen_in_window rl seen (k, t) with O => None | S n => Some (pretty (Z.of_nat (S n))) end.

Lemma same_window_key rl k t k' t' :
  same_window rl (k', t') (k, t) = bool_decide (rate_key rl k' t' = rate_key rl k t).
Proof.
  unfold same_window. cbn. destruct (decide (rate_key rl k' t' = rate_key rl k t)) as [Heq|Hne].
  - rewrite (bool_decide_true (rate_key _ _ _ = _)) by done.
    apply rate_key_inj in Heq as [-> Hw]. rewrite bool_decide_true by done. cbn. by apply Z.eqb_eq.
  - rewrite (bool_decide_false (rate_key _ _ _ = _)) by done. apply andb_false_iff.
    destruct (decide (k' = k)) as [->|Hk]; [right|left; by apply bool_decide_false].
    apply Z.eqb_neq. intros Hw. apply Hne. unfold rate_key.
    by fold (window_index rl t') (window_index rl t); rewrite Hw.
Qed.

Lemma seen_same rl seen k t k' t' :
  rate_key rl k' t' = rate_key rl k t → seen_in_window rl seen (k', t') = seen_in_window rl seen (k, t).
Proof.
  intros Heq. unfold seen_in_window. f_equal. apply List.filter_ext. intros [k0 t0].
  by rewrite !same_window_key, Heq.
Qed.

(** One request: the reference's answer, and the counts with it. *)
Lemma Allow_counts rl m now seen key t w :
  rl_window rl = seconds m → 0 < m → 0 ≤ t → now ≤ t →
  Z.of_nat (S (length seen)) ≤ 9223372036854775807 → holds_counts rl now seen w →
  let inp := mkInput t 0%N ∅ Done in
  ∃ w', run (Allow rl key) [inp; inp; inp] w =
          (nth_answer rl (Z.of_nat (S (seen_in_window rl seen (key, t)))), w') ∧
        holds_counts rl t ((key, t) :: seen) w'.
Proof.
  intros Hwin Hm Ht Hle Hlen Hh inp. pose proof (Hh key t Hle) as Hg.
  set (n := seen_in_window rl seen (key, t)) in *.
  assert (Hn : (n ≤ length seen)%nat) by apply List.filter_length_le.
  assert (Hcount : ∀ k' t', seen_in_window rl ((key, t) :: seen) (k', t') =
    if decide (rate_key rl k' t' = rate_key rl key t) then S n else seen_in_window rl seen (k', t')).
  { intros k' t'. unfold seen_in_window at 1. cbn. rewrite same_window_key. case_decide as Hk.
    - rewrite bool_decide_true by done. cbn. f_equal. by apply seen_same.
    - by rewrite bool_decide_false. }
  assert (Hspan : ∀ k' t', t ≤ t' → rate_key rl k' t' = rate_key rl key t →
                           t' < t + rl_window rl).
  { intros k' t' Ht' [_ Hw]%rate_key_inj. by apply (window_span rl t t' m). }
  destruct n as [|n'] eqn:Hn0.
  - destruct (run_Allow_first rl key t w Hg) as (r & Hrun & Hr).
    eexists. split; [exact Hrun|]. intros k' t' Ht'. cbn [w_redis set_redis]. rewrite Hr, Hcount by done.
    case_decide as Hk; [|apply Hh; lia]. by rewrite (proj2 (Z.ltb_lt _ _)) by (by eapply Hspan).
  - destruct (run_Allow_next rl key t (Z.of_nat (S n')) w Hg) as (r & Hrun & Hr); [lia| |].
    { unfold int64_ok, in_range. apply andb_true_iff. split; apply Z.leb_le; lia. }
    eexists. replace (Z.of_nat (S (S n'))) with (Z.of_nat (S n') + 1) by lia.
    split; [exact Hrun|]. intros k' t' Ht'. cbn [w_redis set_redis]. rewrite Hr, Hcount by done.
    case_decide as Hk; [|apply Hh; lia]. rewrite <- Hk, Hh, (seen_same _ _ _ _ _ _ Hk) by lia.
    fold n. rewrite Hn0. cbn -[pretty Z.of_nat]. do 2 f_equal. lia.
Qed.

(** C30: the limiter over Redis is a fixed-window counter: on any requests of any clients in the
    order of their instants, its answers - allowed or not, and how many remain - are exactly
    those of the reference that remembers every request and counts, for each one, the earlier
    ones of the same client in the same window. No counter expires before its window ends, and
    no two clients or windows share one, whatever characters a client's address has. *)
Theorem limiter_equivalent rl m reqs w :
  rl_window rl = seconds m → 0 < m →
  StronglySorted (λ a b, a.2 ≤ b.2) ((EmptyString, 0) :: reqs) →
  Z.of_nat (length reqs) ≤ 9223372036854775807 →
  (∀ k t t', redis_get t' (rate_key rl k t) (w_redis w) = None) →
  allow_all rl reqs w = fixed_window rl [] reqs.
Proof.
  intros Hwin Hm Hs Hlen Hfree.
  assert (Hgen : ∀ seen now w', StronglySorted (λ a b, a.2 ≤ b.2) ((EmptyString, now) :: reqs) → 0 ≤ now →
    Z.of_nat (length seen + length reqs) ≤ 9223372036854775807 →
    holds_counts rl now seen w' → allow_all rl reqs w' = fixed_window rl seen reqs).
  2: { apply (Hgen [] 0 w); [done|done|done|]. intros k t _. apply Hfree. }
  clear Hs Hlen Hfree. induction reqs as [|[key t] reqs IH]; intros seen now w' Hs H0 Hlen Hh; [done|].
  apply StronglySorted_inv in Hs as [Hs [Hle _]%Forall_cons]. cbn in Hle, Hlen.
  destruct (Allow_counts rl m now seen key t w') as (w2 & Hrun & Hh2); [done..|lia|lia|lia|done|].
  cbn [allow_all fixed_window]. rewrite Hrun. f_equal.
  apply (IH _ t); [|lia|cbn; lia|done].
  apply StronglySorted_inv in Hs as [Hs Hall]. by constructor.
Qed.
End limiter.
