(* ===== verification/Collector.v ===== *)
(** * The result collector: internal/collector

    result_collector.go decides what becomes of a job when a worker reports;
    dead_letter_consumer.go stores the dead letters. *)

From S2P Require Import Prelude GoStd Decimal Models GoTime Json JsonFacts Compact World MemEnv.
From S2P Require Import Sql Lifecycle JobsRepo JobsSpec DeadLettersRepo Broker BrokerSpec Cache.
From S2P Require Import CacheSpec.

Section collector.
Context `{E : Env} {J : JobsRepository} {D : DeadLettersRepository}.

(** The part of HandleResult after the deferred call is set up. *)
Definition apply_result (msg : ResultMessage) : Prog (Res unit) :=
  if rm_Success msg then
    let? _ := Jobs_MarkCompleted (rm_JobID msg) in
    Inc CCompleted ;;! Ret (Ok tt)
  else
    Inc CFailed ;;!
    let? status := Jobs_MarkFailed (rm_JobID msg) maxAttempts in
    if bool_decide (status = JobStatusDead) then
      let? _ := Publish TopicDeadLetter (uuid_String (rm_JobID msg)) msg in
      Inc CDead ;;! Ret (Ok tt)
    else Inc CRetried ;;! Ret (Ok tt).

(** ResultCollector.HandleResult; [has_cache] says whether StatusCache is non-nil. The deferred
    invalidation runs on every return after a successful decode, and its error is dropped. *)
Definition HandleResult (has_cache : bool) (key value : string) : Prog (Res unit) :=
  match Decode (T := ResultMessage) value with
  | Err e => Ret (Err e)
  | Ok msg =>
      let! r := apply_result msg in
      (if has_cache then let! _ := StatusCache_Invalidate (rm_JobID msg) in Ret tt else Ret tt) ;;!
      Ret r
  end.

(** The row that DeadLetterConsumer.Handle inserts: an empty payload becomes an empty object;
    the fields it leaves out have their zero values. *)
Definition dead_letter_of (msg : ResultMessage) : DeadLetter :=
  {| dl_ID := uuid_Nil;
     dl_JobID := rm_JobID msg;
     dl_WorkerID := Some (rm_WorkerID msg);
     dl_JobType := rm_JobType msg;
     dl_Payload := if raw_is_empty (rm_Payload msg) then Some "{}" else rm_Payload msg;
     dl_Attempts := rm_Attempts msg;
     dl_Error := rm_Error msg;
     dl_Status := EmptyString;
     dl_ReplayedAt := None;
     dl_ReplayedJobID := None;
     dl_CreatedAt := 0 |}.

(** DeadLetterConsumer.Handle *)
Definition dead_letter_Handle (key value : string) : Prog (Res unit) :=
  match Decode (T := ResultMessage) value with
  | Err e => Ret (Err e)
  | Ok msg =>
      let? _ := DL_Insert (dead_letter_of msg) in
      Inc CDeadLetters ;;! Ret (Ok tt)
  end.
End collector.

Section safety.
Context `{E : Env} {J : JobsRepository} {D : DeadLettersRepository}.
Context `{!JobsRepositorySafe J, !DeadLettersRepositorySafe D}.

Lemma apply_result_safe msg : prog_safe Inv world_step (apply_result msg).
Proof.
  assert (Hinc : ∀ c, prog_safe Inv world_step (Inc c ;;! Ret (Ok tt : Res unit))).
  { intros c. apply prog_safe_bind; [apply Inc_safe|done]. }
  unfold apply_result. destruct (rm_Success msg).
  - apply prog_safe_bind_ok; [apply MarkCompleted_safe|]. intros _. apply Hinc.
  - apply prog_safe_bind; [apply Inc_safe|]. intros _.
    apply prog_safe_bind_ok; [apply MarkFailed_safe|]. intros s. case_bool_decide; [|apply Hinc].
    apply prog_safe_bind_ok; [apply Publish_safe|]. intros _. apply Hinc.
Qed.

Lemma HandleResult_safe has_cache key value :
  prog_safe Inv world_step (HandleResult has_cache key value).
Proof.
  unfold HandleResult. destruct (Decode value) as [msg|]; [|done].
  apply prog_safe_bind; [apply apply_result_safe|]. intros r.
  apply prog_safe_bind; [|done]. destruct has_cache; [|done].
  apply prog_safe_bind; [apply StatusCache_Invalidate_safe|done].
Qed.

Lemma dead_letter_Handle_safe key value :
  prog_safe Inv world_step (dead_letter_Handle key value).
Proof.
  unfold dead_letter_Handle. destruct (Decode value) as [msg|]; [|done].
  apply prog_safe_bind_ok; [apply DL_Insert_safe|]. intros _.
  apply prog_safe_bind; [apply Inc_safe|done].
Qed.
End safety.
#[export] Hint Resolve HandleResult_safe dead_letter_Handle_safe : sched.

(** ** What a result does *)

Section results.
Context `{E : Env}.
Implicit Types w : World.

(** The status a result gives a job with [n] attempts. *)
Definition result_status (success : bool) (n : Z) : JobStatus :=
  if success then JobStatusCompleted
  else if maxAttempts <=? n then JobStatusDead else JobStatusRetrying.

(** The row after a result. *)
Definition result_row (success : bool) (now : Time) (j : Job) : Job :=
  job_set_updated now (job_set_status (result_status success (job_Attempts j)) j).

(** The messages a result publishes. *)
Definition result_messages (msg : ResultMessage) (j : Job) (ms : list KafkaMessage) : Prop :=
  if bool_decide (result_status (rm_Success msg) (job_Attempts j) = JobStatusDead)
  then ∃ body, json_Marshal msg = Ok body ∧
         ms = [mkKafkaMessage TopicDeadLetter (uuid_String (rm_JobID msg)) body]
  else ms = [].

(** The body of HandleResult: one statement, and a message for a job that is given up. *)
Lemma run_apply_result msg j ins w :
  all_done ins → w_jobs w !! rm_JobID msg = Some j →
  (rm_Payload msg = None ∨ json_text (rm_Payload msg)) →
  ∃ w' ms t, run (apply_result msg) ins w = (Ok tt, w') ∧
    w_jobs w' = <[rm_JobID msg := result_row (rm_Success msg) t j]> (w_jobs w) ∧
    w_log w' = w_log w ++ ms ∧ result_messages msg j ms ∧
    w_redis w' = w_redis w ∧ w_workers w' = w_workers w ∧ w_dead w' = w_dead w.
Proof.
  intros Hd Hj Hp. unfold apply_result, result_row, result_status, result_messages.
  destruct (rm_Success msg).
  - unfold bind_ok. rewrite run_bind. cbn [Jobs_MarkCompleted pgJobsRepo]. unfold MarkCompleted.
    destruct ins as [|inp ins].
    + change (run (setStatus _ _) [] w) with
        (run (setStatus (rm_JobID msg) JobStatusCompleted) [default_input] w).
      rewrite run_setStatus, Hj by done. cbn.
      eexists _, [], _. split_and!; try done. cbn. by rewrite app_nil_r.
    + apply Forall_cons in Hd as [Hd1 Hd]. rewrite run_setStatus, Hj by done. cbn.
      eexists _, [], _. split_and!; try done. cbn. by rewrite app_nil_r.
  - unfold Inc at 1. rewrite run_bind_local. cbn [hd tl]. set (w1 := set_metrics _ w).
    unfold bind_ok. rewrite run_bind. cbn [Jobs_MarkFailed pgJobsRepo].
    set (ins1 := tl ins). assert (Hd1 : all_done ins1) by (by apply all_done_tl).
    set (inp := hd default_input ins1).
    assert (Hm : run (MarkFailed (rm_JobID msg) maxAttempts) ins1 w1 =
      (Ok (failed_status maxAttempts j),
       set_jobs (<[rm_JobID msg := job_set_updated (in_now inp)
                     (job_set_status (failed_status maxAttempts j) j)]> (w_jobs w)) w1)).
    { unfold MarkFailed. rewrite run_bind_call, perform_all_done by done. fold inp.
      unfold sql_mark_failed. cbn [w_jobs w1 set_metrics]. by rewrite Hj. }
    rewrite Hm. cbn [fst snd]. set (ins2 := run_rest _ ins1 w1).
    assert (Hd2 : all_done ins2) by (by apply all_done_rest). clearbody ins2.
    unfold failed_status. destruct (maxAttempts <=? job_Attempts j) eqn:Hatt.
    + rewrite (bool_decide_true (JobStatusDead = JobStatusDead)) by done.
      destruct (ResultMessage_Marshal_ok msg Hp) as [body Hbody].
      rewrite run_bind. unfold Publish.
      rewrite bool_decide_true by (clear; unfold writers; set_solver). rewrite Hbody.
      rewrite run_call, perform_all_done by done. cbn.
      eexists _, _, _. split_and!; try done. rewrite Hatt. by exists body.
    + rewrite (bool_decide_false (JobStatusRetrying = JobStatusDead)) by done. cbn. eexists _, [], _. split_and!; try done.
      * cbn. by rewrite app_nil_r.
      * by rewrite Hatt.
Qed.

Lemma run_apply_result_unknown msg ins w :
  all_done ins → w_jobs w !! rm_JobID msg = None →
  ∃ m, run (apply_result msg) ins w = (Err ErrNotFound, set_metrics m w).
Proof.
  intros Hd Hj. unfold apply_result. destruct (rm_Success msg).
  - exists (w_metrics w). unfold bind_ok. rewrite run_bind.
    cbn [Jobs_MarkCompleted pgJobsRepo]. unfold MarkCompleted, setStatus.
    rewrite run_bind_call, perform_all_done by done. unfold sql_update_job, update_id.
    rewrite Hj. cbn. by destruct w.
  - exists (metrics_Inc CFailed (w_metrics w)). unfold Inc at 1. rewrite run_bind_local.
    unfold bind_ok. rewrite run_bind. cbn [Jobs_MarkFailed pgJobsRepo]. unfold MarkFailed.
    rewrite run_bind_call, perform_all_done by (by apply all_done_tl).
    unfold sql_mark_failed. cbn [w_jobs set_metrics]. by rewrite Hj.
Qed.

Context `{!RedisLaws}.

(** The deferred invalidation: from then on the status is not cached. *)
Lemma run_invalidate {A} id (r : A) ins w :
  all_done ins →
  ∃ rd t, run ((let! _ := StatusCache_Invalidate id in Ret tt) ;;! Ret r) ins w
          = (r, set_redis rd w) ∧ t = in_now (hd default_input ins) ∧
    ∀ t', t ≤ t' → redis_get t' (jobKey id) rd = None.
Proof.
  intros Hd. eexists _, _. split_and!; [|done|].
  - rewrite !run_bind. unfold StatusCache_Invalidate. rewrite run_call, perform_all_done by done.
    done.
  - intros t' Ht. by apply redis_get_del.
Qed.

(** A result for a stored job, when the services answer. *)
Lemma run_HandleResult key value msg j ins w :
  all_done ins → Decode value = Ok msg → w_jobs w !! rm_JobID msg = Some j →
  ∃ w' ms t, run (HandleResult true key value) ins w = (Ok tt, w') ∧
    w_jobs w' = <[rm_JobID msg := result_row (rm_Success msg) t j]> (w_jobs w) ∧
    w_log w' = w_log w ++ ms ∧ result_messages msg j ms ∧
    (∃ t0, ∀ t', t0 ≤ t' → redis_get t' (jobKey (rm_JobID msg)) (w_redis w') = None) ∧
    w_workers w' = w_workers w ∧ w_dead w' = w_dead w.
Proof.
  intros Hd Hmsg Hj. unfold HandleResult. rewrite Hmsg, run_bind.
  destruct (run_apply_result msg j ins w Hd Hj (ResultMessage_payload _ _ Hmsg))
    as (w1 & ms & t & -> & Hjobs & Hlog & Hms & _ & Hw & Hdl). cbn [fst snd].
  destruct (run_invalidate (rm_JobID msg) (Ok tt : Res unit) (run_rest (apply_result msg) ins w) w1)
    as (rd & t0 & -> & _ & Hr); [by apply all_done_rest|].
  eexists _, ms, t. split_and!; try done. by exists t0.
Qed.

(** C16: a result for a stored job, when the services answer: the job becomes COMPLETED on
    success, and on failure RETRYING while it has fewer than three attempts and DEAD from
    three on; a job given up is published to the dead letters with the result that ended it,
    any other publishes nothing; the job's cached status is dropped; no other job changes. *)
Theorem HandleResult_spec key value msg j ins w :
  all_done ins → Decode value = Ok msg → w_jobs w !! rm_JobID msg = Some j →
  ∃ w' ms t, run (HandleResult true key value) ins w = (Ok tt, w') ∧
    w_jobs w' = <[rm_JobID msg := result_row (rm_Success msg) t j]> (w_jobs w) ∧
    w_log w' = w_log w ++ ms ∧ result_messages msg j ms ∧
    (∃ t0, ∀ t', t0 ≤ t' → redis_get t' (jobKey (rm_JobID msg)) (w_redis w') = None) ∧
    w_workers w' = w_workers w ∧ w_dead w' = w_dead w.
Proof. apply run_HandleResult. Qed.

(** A result for a job that does not exist is an error, so the message is not committed;
    the tables and the topics stay as they are, and the cache entry is still dropped. *)
Theorem HandleResult_unknown key value msg ins w :
  all_done ins → Decode value = Ok msg → w_jobs w !! rm_JobID msg = None →
  ∃ w', run (HandleResult true key value) ins w = (Err ErrNotFound, w') ∧
    w_jobs w' = w_jobs w ∧ w_workers w' = w_workers w ∧ w_dead w' = w_dead w ∧
    w_log w' = w_log w ∧
    ∃ t0, ∀ t', t0 ≤ t' → redis_get t' (jobKey (rm_JobID msg)) (w_redis w') = None.
Proof.
  intros Hd Hmsg Hj. unfold HandleResult. rewrite Hmsg, run_bind.
  destruct (run_apply_result_unknown msg ins w Hd Hj) as [m ->]. cbn [fst snd].
  destruct (run_invalidate (rm_JobID msg) (Err ErrNotFound : Res unit)
              (run_rest (apply_result msg) ins w) (set_metrics m w))
    as (rd & t0 & -> & _ & Hr); [by apply all_done_rest|].
  eexists. split_and!; try done. by exists t0.
Qed.

(** C35: a result is not checked against the job's status: a success that arrives after the
    job was cancelled (or given up) makes a DEAD job COMPLETED, and a failure puts a cancelled
    job with fewer than three attempts back into the queue. *)
Theorem late_result_resurrects key value msg j ins w :
  all_done ins → Decode value = Ok msg → w_jobs w !! rm_JobID msg = Some j →
  job_Status j = JobStatusDead →
  let w' := (run (HandleResult true key value) ins w).2 in
  (rm_Success msg = true →
     ∃ j', w_jobs w' !! rm_JobID msg = Some j' ∧ job_Status j' = JobStatusCompleted) ∧
  (rm_Success msg = false → job_Attempts j < 3 →
     ∃ j', w_jobs w' !! rm_JobID msg = Some j' ∧ pending j' = true).
Proof.
  intros Hd Hmsg Hj Hs w'. unfold w', HandleResult. rewrite Hmsg, run_bind.
  destruct (run_apply_result msg j ins w Hd Hj (ResultMessage_payload _ _ Hmsg))
    as (w1 & ms & t & -> & Hjobs & _). cbn [fst snd].
  destruct (run_invalidate (rm_JobID msg) (Ok tt : Res unit) (run_rest (apply_result msg) ins w) w1)
    as (rd & t0 & -> & _ & _); [by apply all_done_rest|].
  cbn [w_jobs set_redis snd]. rewrite Hjobs. split.
  - intros Hok. eexists. rewrite lookup_insert_eq. split; [done|].
    unfold result_row, result_status. by rewrite Hok.
  - intros Hok Hlt. eexists. rewrite lookup_insert_eq. split; [done|].
    unfold result_row, result_status, maxAttempts. rewrite Hok.
    by rewrite (proj2 (Z.leb_gt 3 (job_Attempts j))).
Qed.

(** The row that a dead letter's message is stored as. *)
Definition stored_letter (msg : ResultMessage) (doc : string) (inp : Input) : DeadLetter :=
  mkDeadLetter (in_uuid inp) (rm_JobID msg) (Some (rm_WorkerID msg)) (rm_JobType msg) (Some doc)
    (rm_Attempts msg) (rm_Error msg) "OPEN" None None (in_now inp).

(** What the table accepts. *)
Record storable (msg : ResultMessage) (doc : string) : Prop := {
  sb_payload :
    jsonb (if raw_is_empty (rm_Payload msg) then "{}" else raw_bytes (rm_Payload msg)) = Some doc;
  sb_type : pg_text (rm_JobType msg) = true;
  sb_error : pg_text (rm_Error msg) = true;
  sb_attempts : int32_ok (rm_Attempts msg) = true;
}.

Lemma run_dead_letter_Handle key value msg d inp ins w :
  in_outcome inp = Done → Decode value = Ok msg → storable msg d →
  w_dead w !! in_uuid inp = None →
  ∃ w', run (dead_letter_Handle key value) (inp :: ins) w = (Ok tt, w') ∧
    w_dead w' = <[in_uuid inp := stored_letter msg d inp]> (w_dead w) ∧
    w_jobs w' = w_jobs w ∧ w_workers w' = w_workers w ∧ w_log w' = w_log w ∧
    DeadLettersPersistedTotal (w_metrics w') = DeadLettersPersistedTotal (w_metrics w) + 1.
Proof.
  intros Hd Hmsg [Hdoc Ht He Ha] Hfree. unfold dead_letter_Handle. rewrite Hmsg. unfold bind_ok.
  rewrite run_bind. cbn [DL_Insert pgDeadLettersRepo]. unfold Insert.
  rewrite run_method by done. unfold sql_insert_dead_letter, dead_letter_of. cbn [dl_Payload].
  assert ((if raw_is_empty (rm_Payload msg) then Some "{}" else rm_Payload msg) =
    Some (if raw_is_empty (rm_Payload msg) then "{}" else raw_bytes (rm_Payload msg))) as ->.
  { destruct (rm_Payload msg) as [[|c p]|]; done. }
  cbn [dl_JobType dl_Error dl_Attempts]. rewrite Ht, He, Ha. cbn [negb andb].
  rewrite Hdoc, Hfree. cbn. eexists. split_and!; try done.
  by destruct (w_metrics w).
Qed.

(** Handling a dead-letter message inserts one OPEN row under a new identifier, with the
    result's job, worker, type, attempts and error, and the stored form of its payload (of an
    empty object when it has none); no other row changes. *)
Theorem dead_letter_Handle_spec key value msg d inp ins w :
  in_outcome inp = Done → Decode value = Ok msg → storable msg d →
  w_dead w !! in_uuid inp = None →
  ∃ w', run (dead_letter_Handle key value) (inp :: ins) w = (Ok tt, w') ∧
    w_dead w' = <[in_uuid inp := stored_letter msg d inp]> (w_dead w) ∧
    w_jobs w' = w_jobs w ∧ w_workers w' = w_workers w ∧ w_log w' = w_log w ∧
    DeadLettersPersistedTotal (w_metrics w') = DeadLettersPersistedTotal (w_metrics w) + 1.
Proof. apply run_dead_letter_Handle. Qed.
End results.
