(* ===== verification/Redelivery.v ===== *)
(** * A result that is delivered twice

    The consumers commit a message after its handler has returned, so a process that ends in
    between, or a commit that fails, lets the message come again. The collector's handlers do
    not remember what they have handled: what is the same after the second time, and what is
    not. *)

From S2P Require Import Prelude GoStd Models Json JsonFacts World Sql Lifecycle JobsRepo.
From S2P Require Import DeadLettersRepo.
From S2P Require Import Broker BrokerSpec CacheSpec Collector.

Section redelivery.
Context `{E : Env, !UuidLaws, !RedisLaws}.
Implicit Types w : World.

(** The second result finds the row of the first one: the same status, a later time. *)
Lemma result_row_again s t1 t2 j : result_row s t2 (result_row s t1 j) = result_row s t2 j.
Proof. by destruct j. Qed.

(** The messages of a result do not depend on when it is handled. *)
Lemma result_messages_again msg j j' ms ms' :
  job_Attempts j' = job_Attempts j → result_messages msg j ms → result_messages msg j' ms' →
  ms' = ms.
Proof.
  unfold result_messages. intros ->. destruct (bool_decide _); [|by intros -> ->].
  intros (b & Hb & ->) (b' & Hb' & ->). rewrite Hb in Hb'. by simplify_eq.
Qed.

(** A result is handled twice: the tables are as if it had come once, at the later time, and
    its messages are published again. *)
Lemma run_HandleResult_twice key value msg j ins1 ins2 w :
  all_done ins1 → all_done ins2 → Decode value = Ok msg → w_jobs w !! rm_JobID msg = Some j →
  ∃ w1 w2 ms t1 t2,
    run (HandleResult true key value) ins1 w = (Ok tt, w1) ∧
    run (HandleResult true key value) ins2 w1 = (Ok tt, w2) ∧
    w_jobs w1 = <[rm_JobID msg := result_row (rm_Success msg) t1 j]> (w_jobs w) ∧
    w_jobs w2 = <[rm_JobID msg := result_row (rm_Success msg) t2 j]> (w_jobs w) ∧
    result_messages msg j ms ∧ w_log w1 = w_log w ++ ms ∧ w_log w2 = w_log w ++ ms ++ ms ∧
    w_workers w2 = w_workers w ∧ w_dead w2 = w_dead w.
Proof.
  intros Hd1 Hd2 Hmsg Hj.
  destruct (run_HandleResult key value msg j ins1 w Hd1 Hmsg Hj)
    as (w1 & ms & t1 & H1 & Hj1 & Hl1 & Hms & _ & Hw1 & Hdl1).
  set (j1 := result_row (rm_Success msg) t1 j) in *.
  destruct (run_HandleResult key value msg j1 ins2 w1 Hd2 Hmsg)
    as (w2 & ms2 & t2 & H2 & Hj2 & Hl2 & Hms2 & _ & Hw2 & Hdl2).
  { rewrite Hj1. apply lookup_insert_eq. }
  exists w1, w2, ms, t1, t2.
  assert (ms2 = ms) as -> by (by eapply (result_messages_again msg j j1)).
  split_and!; try done; try congruence.
  - rewrite Hj2, Hj1, insert_insert_eq. unfold j1. by rewrite result_row_again.
  - by rewrite Hl2, Hl1, app_assoc.
Qed.

(** What a result's message gives its reader. *)
Definition reread (m : ResultMessage) : ResultMessage :=
  mkResultMessage (rm_JobID m) (rm_WorkerID m) (rm_Success m) (to_valid (rm_Error m))
    (to_valid (rm_JobType m)) (if raw_is_empty (rm_Payload m) then None else carried (rm_Payload m))
    (rm_Attempts m).

Lemma given_up msg j :
  rm_Success msg = false → maxAttempts ≤ job_Attempts j →
  result_status (rm_Success msg) (job_Attempts j) = JobStatusDead.
Proof. intros -> Ha. unfold result_status. by rewrite (proj2 (Z.leb_le _ _) Ha). Qed.

(** C36: a result that is delivered again is handled again: the job's row only gets a new time,
    but when the result gave the job up, its dead letter is published a second time, and the
    second copy is stored as a second row: two OPEN letters for one failure, each of which can
    be replayed. *)
Theorem redelivery_duplicates key value msg doc j ins1 ins2 i3 i4 w :
  all_done ins1 → all_done ins2 → in_outcome i3 = Done → in_outcome i4 = Done →
  Decode value = Ok msg → w_jobs w !! rm_JobID msg = Some j →
  rm_Success msg = false → maxAttempts ≤ job_Attempts j → storable (reread msg) doc →
  in_uuid i3 ≠ in_uuid i4 → w_dead w !! in_uuid i3 = None → w_dead w !! in_uuid i4 = None →
  ∃ m w1 w2 w3 w4 t,
    run (HandleResult true key value) ins1 w = (Ok tt, w1) ∧
    run (HandleResult true key value) ins2 w1 = (Ok tt, w2) ∧
    w_jobs w2 = <[rm_JobID msg := result_row false t j]> (w_jobs w) ∧
    km_topic m = TopicDeadLetter ∧ w_log w2 = w_log w ++ [m; m] ∧
    run (dead_letter_Handle (km_key m) (km_value m)) [i3] w2 = (Ok tt, w3) ∧
    run (dead_letter_Handle (km_key m) (km_value m)) [i4] w3 = (Ok tt, w4) ∧
    w_dead w4 = <[in_uuid i4 := stored_letter (reread msg) doc i4]>
                 (<[in_uuid i3 := stored_letter (reread msg) doc i3]> (w_dead w)).
Proof.
  intros Hd1 Hd2 Hd3 Hd4 Hmsg Hj Hf Ha Hst Hne Hn3 Hn4.
  destruct (run_HandleResult_twice key value msg j ins1 ins2 w Hd1 Hd2 Hmsg Hj)
    as (w1 & w2 & ms & t1 & t & H1 & H2 & _ & Hjobs & Hms & _ & Hlog & _ & Hdl).
  unfold result_messages in Hms. rewrite (bool_decide_true _ (given_up _ _ Hf Ha)) in Hms.
  destruct Hms as (body & Hbody & ->). rewrite Hf in Hjobs.
  pose proof (ResultMessage_decode_any msg body) as Hdec.
  rewrite Hbody in Hdec. specialize (Hdec (int32_int64 _ (sb_attempts _ _ Hst)) eq_refl).
  destruct (run_dead_letter_Handle (uuid_String (rm_JobID msg)) body (reread msg) doc i3 [] w2)
    as (w3 & H3 & Hdl3 & _); [done|exact Hdec|done|by rewrite Hdl|].
  destruct (run_dead_letter_Handle (uuid_String (rm_JobID msg)) body (reread msg) doc i4 [] w3)
    as (w4 & H4 & Hdl4 & _); [done|exact Hdec|done|by rewrite Hdl3, lookup_insert_ne, Hdl|].
  exists (mkKafkaMessage TopicDeadLetter (uuid_String (rm_JobID msg)) body), w1, w2, w3, w4, t.
  split_and!; [done|done|done|done|exact Hlog|exact H3|exact H4|].
  by rewrite Hdl4, Hdl3, Hdl.
Qed.
End redelivery.
