(* ===== verification/Http.v ===== *)
(** * Requests, responses and the API's bodies

    What net/http and chi hand to a handler and take from it, the request and response
    structs of internal/api/http/dto with their JSON form, writeJSON and writeError. *)

From S2P Require Import Prelude GoStd Decimal Models GoTime Json World JobsRepo WorkersRepo.
From S2P Require Import DeadLettersRepo Broker Cache.

(** ** Requests and responses *)

(** A request as the handlers see it: [rq_header] is Header.Get, [rq_query] is Query().Get and
    [rq_param] is chi.URLParam; each is empty for a name that is absent. *)
Record Request : Type := mkRequest {
  rq_method : string;
  rq_path : string;
  rq_remote : string;
  rq_header : string → string;
  rq_query : string → string;
  rq_param : string → string;
  rq_body : string;
}.

Record Response : Type := mkResponse {
  rs_status : Z;
  rs_headers : list (string * string);
  rs_body : string;
}.

Definition StatusOK : Z := 200.
Definition StatusCreated : Z := 201.
Definition StatusNoContent : Z := 204.
Definition StatusBadRequest : Z := 400.
Definition StatusUnauthorized : Z := 401.
Definition StatusNotFound : Z := 404.
Definition StatusConflict : Z := 409.
Definition StatusTooManyRequests : Z := 429.
Definition StatusInternalServerError : Z := 500.

(** Headers set before the handler that writes the response. *)
Definition with_headers (hs : list (string * string)) (r : Response) : Response :=
  mkResponse (rs_status r) (hs ++ rs_headers r) (rs_body r).

Definition newline : string := chr 10.

(** json.NewEncoder(w).Encode(v): the text and a newline; nothing when it cannot be encoded. *)
Definition encode_body {T} `{Json T} (v : T) : string :=
  match json_Marshal v with Ok s => s +:+ newline | Err _ => EmptyString end.

Definition writeJSON {T} `{Json T} (status : Z) (v : T) : Response :=
  mkResponse status [("Content-Type", "application/json")] (encode_body v).

(** ** dto *)

Record ErrorResponse : Type := mkErrorResponse { er_Error : string }.

#[export] Instance ErrorResponse_Json : Json ErrorResponse := {|
  json_Marshal e := Ok (render_object [("error", json_string (er_Error e))]);
  json_Unmarshal :=
    decode_struct (mkErrorResponse EmptyString) (λ l,
      result_map mkErrorResponse (get_string (field ["error"] "error" l)));
|}.

Definition writeError (status : Z) (msg : string) : Response :=
  writeJSON status (mkErrorResponse msg).

Record SubmitJobRequest : Type := mkSubmitJobRequest {
  sr_Type : string;
  sr_Payload : RawMessage;
  sr_Priority : Z;
  sr_IdempotencyKey : string;
}.

Definition SubmitJobRequest_names : list string :=
  ["type"; "payload"; "priority"; "idempotency_key"].

(** The fields of a SubmitJobRequest. *)
Definition SubmitJobRequest_fields (l : list (string * string)) : Res SubmitJobRequest :=
  let f := λ k, field SubmitJobRequest_names k l in
  result_bind (get_string (f "type")) (λ a,
  result_bind (get_int int16_ok (f "priority")) (λ b,
  result_bind (get_string (f "idempotency_key")) (λ c,
  Ok (mkSubmitJobRequest a (get_raw (f "payload")) b c)))).

(** json.NewDecoder(r.Body).Decode(&req): the first value of the body; what follows is not
    read. *)
Definition decode_SubmitJobRequest (body : string) : Res SubmitJobRequest :=
  match next_value body with
  | None => Err syntax_error
  | Some (v, _) =>
      decode_struct (mkSubmitJobRequest EmptyString None 0 EmptyString) SubmitJobRequest_fields v
  end.

Record JobResponse : Type := mkJobResponse {
  jr_ID : string;
  jr_Status : string;
  jr_Type : string;
  jr_Payload : RawMessage;
  jr_Priority : Z;
  jr_Attempts : Z;
  jr_WorkerID : option string;
  jr_CreatedAt : WallTime;
  jr_UpdatedAt : WallTime;
}.

(** A timestamp of a row: the server's now() is within the years that MarshalJSON accepts. *)
Definition json_time (t : WallTime) : string := json_string (format_rfc3339_nano t).

(** A field tagged omitempty whose pointer may be nil. *)
Definition optional (k : string) (v : option string) : list (string * string) :=
  match v with Some s => [(k, s)] | None => [] end.

Definition render_JobResponse (r : JobResponse) : Res string :=
  result_map (λ p, render_object
    ([("id", json_string (jr_ID r)); ("status", json_string (jr_Status r));
      ("type", json_string (jr_Type r)); ("payload", p);
      ("priority", json_int (jr_Priority r)); ("attempts", json_int (jr_Attempts r))]
     ++ optional "worker_id" (json_string <$> jr_WorkerID r)
     ++ [("created_at", json_time (jr_CreatedAt r)); ("updated_at", json_time (jr_UpdatedAt r))]))
  (json_raw (jr_Payload r)).

(** The elements of a slice, printed one after the other; the first error ends it. *)
Fixpoint render_all {T} (f : T → Res string) (l : list T) : Res (list string) :=
  match l with
  | [] => Ok []
  | x :: l' => result_bind (f x) (λ s, result_map (cons s) (render_all f l'))
  end.

Fixpoint render_elements (l : list string) : string :=
  match l with
  | [] => EmptyString
  | [s] => s
  | s :: l' => s +:+ "," +:+ render_elements l'
  end.
Definition render_array (l : list string) : string := "[" +:+ render_elements l +:+ "]".

Record ListJobsResponse : Type := mkListJobsResponse {
  lj_Jobs : list JobResponse;
  lj_Limit : Z;
  lj_Offset : Z;
}.

Definition render_ListJobsResponse (r : ListJobsResponse) : Res string :=
  result_map (λ js, render_object
    [("jobs", render_array js); ("limit", json_int (lj_Limit r)); ("offset", json_int (lj_Offset r))])
  (render_all render_JobResponse (lj_Jobs r)).

Record WorkerResponse : Type := mkWorkerResponse {
  wr_ID : string;
  wr_Host : string;
  wr_Status : string;
  wr_CPU : option float64;
  wr_Memory : option float64;
  wr_RunningJobs : Z;
  wr_LastHeartbeat : option string;
  wr_CreatedAt : WallTime;
}.

Definition json_null_or (v : option string) : string :=
  match v with Some s => s | None => "null" end.

Definition render_WorkerResponse (r : WorkerResponse) : Res string :=
  Ok (render_object
    ([("id", json_string (wr_ID r)); ("host", json_string (wr_Host r));
      ("status", json_string (wr_Status r)); ("cpu", json_null_or (json_float <$> wr_CPU r));
      ("memory", json_null_or (json_float <$> wr_Memory r));
      ("running_jobs", json_int (wr_RunningJobs r))]
     ++ optional "last_heartbeat" (json_string <$> wr_LastHeartbeat r)
     ++ [("created_at", json_time (wr_CreatedAt r))])).

Record ListWorkersResponse : Type := mkListWorkersResponse {
  lw_Workers : list WorkerResponse;
  lw_Limit : Z;
  lw_Offset : Z;
}.

Definition render_ListWorkersResponse (r : ListWorkersResponse) : Res string :=
  result_map (λ xs, render_object
    [("workers", render_array xs); ("limit", json_int (lw_Limit r));
     ("offset", json_int (lw_Offset r))])
  (render_all render_WorkerResponse (lw_Workers r)).

(** writeJSON of a value by its printer. *)
Definition write_rendered (status : Z) (s : Res string) : Response :=
  mkResponse status [("Content-Type", "application/json")]
    (match s with Ok t => t +:+ newline | Err _ => EmptyString end).

(** ** Query parameters *)

(** limit and offset, with 50 and 0 for what is missing, malformed or out of range. *)
Definition query_limit (r : Request) : Z :=
  let v := rq_query r "limit" in
  if string_is_empty v then 50
  else match Atoi v with Some n => if 0 <? n then n else 50 | None => 50 end.

Definition query_offset (r : Request) : Z :=
  let v := rq_query r "offset" in
  if string_is_empty v then 0
  else match Atoi v with Some n => if 0 <=? n then n else 0 | None => 0 end.

Definition query_text (r : Request) (k : string) : option string :=
  let v := rq_query r k in if string_is_empty v then None else Some v.

(** ** Lemmas *)

Lemma query_limit_pos r : 0 < query_limit r.
Proof.
  unfold query_limit. destruct (string_is_empty _); [lia|]. destruct (Atoi _) as [n|]; [|lia].
  destruct (Z.ltb_spec 0 n); lia.
Qed.

Lemma query_offset_nonneg r : 0 ≤ query_offset r.
Proof.
  unfold query_offset. destruct (string_is_empty _); [lia|]. destruct (Atoi _) as [n|]; [|lia].
  destruct (Z.leb_spec 0 n); lia.
Qed.
