(* ===== verification/JobHandler.v ===== *)
(** * The job handlers: internal/api/http/handler/job_handler.go *)

From S2P Require Import Prelude GoStd Decimal Models GoTime Json JsonFacts Compact World MemEnv.
From S2P Require Import Sql Lifecycle JobsRepo JobsSpec WorkersRepo DeadLettersRepo Broker.
From S2P Require Import BrokerSpec Cache CacheSpec Http.

Section handler.
Context `{E : Env} {J : JobsRepository}.

(** A timestamp as the driver gives it: in the process's zone. *)
Definition local_time (t : Time) : WallTime := wall_clock (local_offset t) t.

Definition toJobResponse (j : Job) : JobResponse :=
  {| jr_ID := uuid_String (job_ID j);
     jr_Status := JobStatus_string (job_Status j);
     jr_Type := job_Type j;
     jr_Payload := job_Payload j;
     jr_Priority := job_Priority j;
     jr_Attempts := job_Attempts j;
     jr_WorkerID := uuid_String <$> job_WorkerID j;
     jr_CreatedAt := local_time (job_CreatedAt j);
     jr_UpdatedAt := local_time (job_UpdatedAt j) |}.

Definition writeJob (status : Z) (j : Job) : Response :=
  write_rendered status (render_JobResponse (toJobResponse j)).

(** The end of SubmitJob: the insert and its answer. *)
Definition create_job (job : Job) : Prog Response :=
  let! created := Jobs_Create job in
  match created with
  | Err _ => Ret (writeError StatusInternalServerError "failed to create job")
  | Ok c => Inc CSubmitted ;;! Ret (writeJob StatusCreated c)
  end.

(** JobHandler.SubmitJob; [has_idem] says whether Idempotency is non-nil. *)
Definition SubmitJob (has_idem : bool) (r : Request) : Prog Response :=
  match decode_SubmitJobRequest (rq_body r) with
  | Err _ => Ret (writeError StatusBadRequest "invalid JSON body")
  | Ok req =>
      if string_is_empty (sr_Type req)
      then Ret (writeError StatusBadRequest "type is required")
      else
        let! newID := uuid_New in
        let job := NewJob newID (sr_Type req) (sr_Payload req) (sr_Priority req) in
        if has_idem then
          let pHash := PayloadHash (job_Type job) (job_Payload job) in
          let idemKey := if string_is_empty (rq_header r "Idempotency-Key")
                         then ContentKey (job_Type job) (job_Payload job)
                         else rq_header r "Idempotency-Key" in
          let! checked := Check_ idemKey (job_ID job) pHash in
          match checked with
          | Err e =>
              if errors_Is e ErrPayloadMismatch
              then Ret (writeError StatusConflict (error_Error e))
              else Ret (writeError StatusInternalServerError "idempotency check failed")
          | Ok (existingID, true) =>
              let! existing := Jobs_Get existingID in
              match existing with
              | Err _ => Ret (writeError StatusInternalServerError "failed to fetch existing job")
              | Ok j => Ret (writeJob StatusOK j)
              end
          | Ok (_, false) => create_job job
          end
        else create_job job
  end.

(** What GetJobStatus does on a cache miss. *)
Definition get_from_table (has_cache : bool) (id : uuid) : Prog Response :=
  let! job := Jobs_Get id in
  match job with
  | Err e =>
      if errors_Is e ErrNotFound
      then Ret (writeError StatusNotFound "job not found")
      else Ret (writeError StatusInternalServerError "failed to get job")
  | Ok j =>
      let resp := render_JobResponse (toJobResponse j) in
      (if has_cache then
         match resp with
         | Ok data => let! _ := StatusCache_Set id data in Ret tt
         | Err _ => Ret tt
         end
       else Ret tt) ;;!
      Ret (with_headers [("X-Cache", "MISS")] (write_rendered StatusOK resp))
  end.

(** JobHandler.GetJobStatus; [has_cache] says whether StatusCache is non-nil. *)
Definition GetJobStatus (has_cache : bool) (r : Request) : Prog Response :=
  match uuid_Parse (rq_param r "id") with
  | None => Ret (writeError StatusBadRequest "invalid job id")
  | Some id =>
      if has_cache then
        let! cached := StatusCache_Get id in
        match cached with
        | Ok (Some body) =>
            Ret (mkResponse StatusOK [("Content-Type", "application/json"); ("X-Cache", "HIT")] body)
        | _ => get_from_table has_cache id
        end
      else get_from_table has_cache id
  end.

Definition CancelJob (r : Request) : Prog Response :=
  match uuid_Parse (rq_param r "id") with
  | None => Ret (writeError StatusBadRequest "invalid job id")
  | Some id =>
      let! res := Jobs_Cancel id in
      match res with
      | Err e =>
          if errors_Is e ErrNotFound
          then Ret (writeError StatusNotFound "job not found or not cancellable")
          else Ret (writeError StatusInternalServerError "failed to cancel job")
      | Ok _ => Ret (mkResponse StatusNoContent [] EmptyString)
      end
  end.

Definition ListJobs (r : Request) : Prog Response :=
  let params := mkListParams (query_text r "status") (query_text r "type")
                  (query_limit r) (query_offset r) in
  let! jobs := Jobs_List params in
  match jobs with
  | Err _ => Ret (writeError StatusInternalServerError "failed to list jobs")
  | Ok js =>
      Ret (write_rendered StatusOK (render_ListJobsResponse
             (mkListJobsResponse (toJobResponse <$> js) (lp_Limit params) (lp_Offset params))))
  end.
End handler.

Section safety.
Context `{E : Env} {J : JobsRepository} `{!JobsRepositorySafe J}.

Lemma uuid_New_safe : prog_safe Inv world_step uuid_New.
Proof.
  apply prog_safe_local. intros inp w HI. split; [done|apply world_step_refl].
Qed.

Lemma create_job_safe j : prog_safe Inv world_step (create_job j).
Proof.
  apply prog_safe_bind; [apply Create_safe|]. intros [c|e]; [|done].
  by apply prog_safe_bind; [apply Inc_safe|].
Qed.

Lemma SubmitJob_safe has_idem r : prog_safe Inv world_step (SubmitJob has_idem r).
Proof.
  unfold SubmitJob. destruct (decode_SubmitJobRequest _) as [req|]; [|done].
  destruct (string_is_empty _); [done|].
  apply prog_safe_bind; [apply uuid_New_safe|]. intros newID.
  destruct has_idem; [|apply create_job_safe].
  apply prog_safe_bind; [apply Check_safe|]. intros [[existingID []]|e].
  - apply prog_safe_bind; [apply Get_safe|]. by intros [j|e].
  - apply create_job_safe.
  - by destruct (errors_Is _ _).
Qed.

Lemma GetJobStatus_safe has_cache r : prog_safe Inv world_step (GetJobStatus has_cache r).
Proof.
  unfold GetJobStatus. destruct (uuid_Parse _) as [id|]; [|done].
  assert (prog_safe Inv world_step (get_from_table has_cache id)).
  { apply prog_safe_bind; [apply Get_safe|]. intros [j|e]; [|by destruct (errors_Is _ _)].
    apply prog_safe_bind; [|done]. destruct has_cache; [|done].
    destruct (render_JobResponse _); [|done].
    by apply prog_safe_bind; [apply StatusCache_Set_safe|]. }
  destruct has_cache; [|done].
  apply prog_safe_bind; [apply StatusCache_Get_safe|]. by intros [[body|]|e].
Qed.

Lemma CancelJob_safe r : prog_safe Inv world_step (CancelJob r).
Proof.
  unfold CancelJob. destruct (uuid_Parse _) as [id|]; [|done].
  apply prog_safe_bind; [apply Cancel_safe|]. intros [u|e]; [done|by destruct (errors_Is _ _)].
Qed.

Lemma ListJobs_safe r : prog_safe Inv world_step (ListJobs r).
Proof. apply prog_safe_bind; [apply List_safe|]. by intros [js|e]. Qed.
End safety.
#[export] Hint Resolve SubmitJob_safe GetJobStatus_safe CancelJob_safe ListJobs_safe : sched.
