(* ===== verification/OtherHandlers.v ===== *)
(** * The worker and dead-letter handlers: internal/api/http/handler

    worker_handler.go and dead_letter_handler.go. *)

From S2P Require Import Prelude GoStd Decimal Models GoTime Json JsonFacts World MemEnv Sql.
From S2P Require Import Lifecycle JobsRepo JobsSpec WorkersRepo DeadLettersRepo Broker Cache Http.
From S2P Require Import JobHandler.

Section workers.
Context `{E : Env} {W : WorkersRepository}.

Definition toWorkerResponse (x : Worker) : WorkerResponse :=
  {| wr_ID := uuid_String (worker_ID x);
     wr_Host := worker_Host x;
     wr_Status := WorkerStatus_string (worker_Status x);
     wr_CPU := worker_CPU x;
     wr_Memory := worker_Memory x;
     wr_RunningJobs := worker_RunningJobs x;
     wr_LastHeartbeat := (λ t, format_rfc3339 (local_time t)) <$> worker_LastHeartBeat x;
     wr_CreatedAt := local_time (worker_CreatedAt x) |}.

(** WorkerHandler.ListWorkers *)
Definition handle_ListWorkers (r : Request) : Prog Response :=
  let params := mkWorkerListParams (query_text r "status") (query_limit r) (query_offset r) in
  let! workers := Workers_List params in
  match workers with
  | Err _ => Ret (writeError StatusInternalServerError "failed to list workers")
  | Ok xs =>
      Ret (write_rendered StatusOK (render_ListWorkersResponse
             (mkListWorkersResponse (toWorkerResponse <$> xs) (wlp_Limit params)
                (wlp_Offset params))))
  end.

(** WorkerHandler.GetWorker *)
Definition handle_GetWorker (r : Request) : Prog Response :=
  match uuid_Parse (rq_param r "id") with
  | None => Ret (writeError StatusBadRequest "invalid worker id")
  | Some id =>
      let! worker := Workers_Get id in
      match worker with
      | Err e =>
          if errors_Is e ErrNotFound
          then Ret (writeError StatusNotFound "worker not found")
          else Ret (writeError StatusInternalServerError "failed to get worker")
      | Ok x => Ret (write_rendered StatusOK (render_WorkerResponse (toWorkerResponse x)))
      end
  end.
End workers.

Section dead_letters.
Context `{E : Env} {J : JobsRepository} {D : DeadLettersRepository}.

(** The JSON form of a DeadLetter, by its struct tags. *)
Definition render_DeadLetter (d : DeadLetter) : Res string :=
  result_map (λ p, render_object
    ([("id", json_uuid (dl_ID d)); ("job_id", json_uuid (dl_JobID d))]
     ++ optional "worker_id" (json_uuid <$> dl_WorkerID d)
     ++ [("job_type", json_string (dl_JobType d)); ("payload", p);
         ("attempts", json_int (dl_Attempts d)); ("error", json_string (dl_Error d));
         ("status", json_string (dl_Status d))]
     ++ optional "replayed_at" ((λ t, json_time (local_time t)) <$> dl_ReplayedAt d)
     ++ optional "replayed_job_id" (json_uuid <$> dl_ReplayedJobID d)
     ++ [("created_at", json_time (local_time (dl_CreatedAt d)))]))
  (json_raw (dl_Payload d)).

(** The list that the repository leaves nil without rows is printed as null. *)
Definition render_DeadLetters (ds : list DeadLetter) : Res string :=
  match ds with
  | [] => Ok "null"
  | _ => result_map render_array (render_all render_DeadLetter ds)
  end.

(** DeadLetterHandler.List: a map, printed with its keys in order. *)
Definition dlq_List (r : Request) : Prog Response :=
  let limit := query_limit r in
  let offset := query_offset r in
  let! items := DL_List limit offset in
  match items with
  | Err _ => Ret (writeError StatusInternalServerError "failed to list dead letters")
  | Ok ds =>
      Ret (write_rendered StatusOK (result_map (λ l, render_object
             [("dead_letters", l); ("limit", json_int limit); ("offset", json_int offset)])
           (render_DeadLetters ds)))
  end.

(** DeadLetterHandler.Get *)
Definition dlq_Get (r : Request) : Prog Response :=
  match uuid_Parse (rq_param r "id") with
  | None => Ret (writeError StatusBadRequest "invalid dead letter id")
  | Some id =>
      let! deadLetter := DL_Get id in
      match deadLetter with
      | Err e =>
          if errors_Is e ErrNotFound
          then Ret (writeError StatusNotFound "dead letter not found")
          else Ret (writeError StatusInternalServerError "failed to get dead letter")
      | Ok d => Ret (write_rendered StatusOK (render_DeadLetter d))
      end
  end.

(** DeadLetterHandler.Delete *)
Definition dlq_Delete (r : Request) : Prog Response :=
  match uuid_Parse (rq_param r "id") with
  | None => Ret (writeError StatusBadRequest "invalid dead letter id")
  | Some id =>
      let! res := DL_Delete id in
      match res with
      | Err e =>
          if errors_Is e ErrNotFound
          then Ret (writeError StatusNotFound "dead letter not found")
          else Ret (writeError StatusInternalServerError "failed to delete dead letter")
      | Ok _ => Ret (mkResponse StatusNoContent [] EmptyString)
      end
  end.

(** The part of Replay after the letter was found open: a new job with the letter's type and
    payload and priority 0, then the mark. *)
Definition replay_letter (id : uuid) (d : DeadLetter) : Prog Response :=
  let! newID := uuid_New in
  let! created := Jobs_Create (NewJob newID (dl_JobType d) (dl_Payload d) 0) in
  match created with
  | Err _ => Ret (writeError StatusInternalServerError "failed to replay dead letter")
  | Ok c =>
      let! res := DL_MarkReplayed id (job_ID c) in
      match res with
      | Err _ => Ret (writeError StatusInternalServerError "failed to mark dead letter replayed")
      | Ok _ =>
          Inc CReplayed ;;!
          Ret (write_rendered StatusCreated
                 (Ok (render_object [("replayed_job_id", json_uuid (job_ID c))])))
      end
  end.

(** DeadLetterHandler.Replay *)
Definition dlq_Replay (r : Request) : Prog Response :=
  match uuid_Parse (rq_param r "id") with
  | None => Ret (writeError StatusBadRequest "invalid dead letter id")
  | Some id =>
      let! deadLetter := DL_Get id in
      match deadLetter with
      | Err e =>
          if errors_Is e ErrNotFound
          then Ret (writeError StatusNotFound "dead letter not found")
          else Ret (writeError StatusInternalServerError "failed to get dead letter")
      | Ok d =>
          if bool_decide (dl_Status d = "REPLAYED")
          then Ret (writeError StatusConflict "dead letter already replayed")
          else replay_letter id d
      end
  end.
End dead_letters.

Section safety.
Context `{E : Env} {J : JobsRepository} {W : WorkersRepository} {D : DeadLettersRepository}.
Context `{!JobsRepositorySafe J, !WorkersRepositorySafe W, !DeadLettersRepositorySafe D}.

Lemma handle_ListWorkers_safe r : prog_safe Inv world_step (handle_ListWorkers r).
Proof. apply prog_safe_bind; [apply ListWorkers_safe|]. by intros [xs|e]. Qed.

Lemma handle_GetWorker_safe r : prog_safe Inv world_step (handle_GetWorker r).
Proof.
  unfold handle_GetWorker. destruct (uuid_Parse _) as [id|]; [|done].
  apply prog_safe_bind; [apply GetWorker_safe|]. intros [x|e]; [done|by destruct (errors_Is _ _)].
Qed.

Lemma dlq_List_safe r : prog_safe Inv world_step (dlq_List r).
Proof. apply prog_safe_bind; [apply DL_List_safe|]. by intros [ds|e]. Qed.

Lemma dlq_Get_safe r : prog_safe Inv world_step (dlq_Get r).
Proof.
  unfold dlq_Get. destruct (uuid_Parse _) as [id|]; [|done].
  apply prog_safe_bind; [apply DL_Get_safe|]. intros [d|e]; [done|by destruct (errors_Is _ _)].
Qed.

Lemma dlq_Delete_safe r : prog_safe Inv world_step (dlq_Delete r).
Proof.
  unfold dlq_Delete. destruct (uuid_Parse _) as [id|]; [|done].
  apply prog_safe_bind; [apply DL_Delete_safe|]. intros [u|e]; [done|by destruct (errors_Is _ _)].
Qed.

Lemma dlq_Replay_safe r : prog_safe Inv world_step (dlq_Replay r).
Proof.
  unfold dlq_Replay. destruct (uuid_Parse _) as [id|]; [|done].
  apply prog_safe_bind; [apply DL_Get_safe|]. intros [d|e]; [|by destruct (errors_Is _ _)].
  case_bool_decide; [done|]. apply prog_safe_bind; [apply uuid_New_safe|]. intros newID.
  apply prog_safe_bind; [apply Create_safe|]. intros [c|e]; [|done].
  apply prog_safe_bind; [apply DL_MarkReplayed_safe|]. intros [u|e]; [|done].
  by apply prog_safe_bind; [apply Inc_safe|].
Qed.
End safety.
#[export] Hint Resolve handle_ListWorkers_safe handle_GetWorker_safe dlq_List_safe dlq_Get_safe
  dlq_Delete_safe dlq_Replay_safe : sched.
