(* ===== verification/Router.v ===== *)
(** * Middleware and routes: internal/api/http

    middleware/auth.go, middleware/ratelimit.go and router.go. The routing tree is chi's: the
    model takes from it which of the program's routes a request matches. *)

From S2P Require Import Prelude GoStd Decimal Models GoTime Json JsonFacts World MemEnv Sql.
From S2P Require Import Lifecycle JobsRepo JobsSpec WorkersRepo DeadLettersRepo Broker Cache.
From S2P Require Import CacheSpec Http JobHandler OtherHandlers.

(** ** Authentication *)

(** The two texts of writeAuthError. *)
Definition missing_key_msg : string :=
  "missing API key: provide Authorization: Bearer <key> or X-API-Key header".
Definition invalid_key_msg : string := "invalid API key".

Definition writeAuthError (msg : string) : Response :=
  mkResponse StatusUnauthorized
    [("Content-Type", "application/json");
     ("WWW-Authenticate",
      "Bearer realm=" +:+ String quote "distributed-job-scheduler" +:+ String quote EmptyString)]
    ("{" +:+ q +:+ "error" +:+ q +:+ ":" +:+ q +:+ msg +:+ q +:+ "}").

(** extractAPIKey: the Bearer token, else the X-API-Key header. *)
Definition extractAPIKey (r : Request) : string :=
  let auth := rq_header r "Authorization" in
  let fallback := TrimSpace (rq_header r "X-API-Key") in
  if string_is_empty auth then fallback
  else match SplitN2 " " auth with
       | [scheme; token] =>
           if EqualFold_ascii scheme "bearer" then TrimSpace token else fallback
       | _ => fallback
       end.

Section middleware.
Context `{E : Env}.

Definition APIKeyAuth (key : string) (next : Request → Prog Response) (r : Request)
    : Prog Response :=
  if string_is_empty key then next r
  else
    let provided := extractAPIKey r in
    if string_is_empty provided then Ret (writeAuthError missing_key_msg)
    else if negb (bool_decide (provided = key)) then Ret (writeAuthError invalid_key_msg)
    else next r.

(** ** Rate limiting *)

(** extractIP: the first address of X-Forwarded-For, else the host of the connection. *)
Definition extractIP (r : Request) : string :=
  let xff := rq_header r "X-Forwarded-For" in
  if negb (string_is_empty xff) then TrimSpace (hd EmptyString (Split "," xff))
  else match SplitHostPort (rq_remote r) with
       | Some (ip, _) => ip
       | None => rq_remote r
       end.

(** http.Error: the text with a newline, as plain text. *)
Definition http_Error (msg : string) (status : Z) : Response :=
  mkResponse status
    [("Content-Type", "text/plain; charset=utf-8"); ("X-Content-Type-Options", "nosniff")]
    (msg +:+ newline).

(** A body {"error":"msg"}, as the middleware writes it. *)
Definition error_text (msg : string) : string :=
  "{" +:+ q +:+ "error" +:+ q +:+ ":" +:+ q +:+ msg +:+ q +:+ "}".

Definition RateLimit (rl : RateLimiter) (next : Request → Prog Response) (r : Request)
    : Prog Response :=
  let! res := Allow rl (extractIP r) in
  match res with
  | Err _ => Ret (http_Error (error_text "rate limit check failed") StatusInternalServerError)
  | Ok (allowed, remaining) =>
      let hs := [("X-RateLimit-Remaining", json_int remaining)] in
      if negb allowed
      then Ret (mkResponse StatusTooManyRequests
                  (hs ++ [("Content-Type", "application/json"); ("Retry-After", "60")])
                  (error_text "rate limit exceeded"))
      else let! resp := next r in Ret (with_headers hs resp)
  end.

(** ** Routes *)

(** The endpoints that NewRouter registers. *)
Inductive Endpoint : Type :=
| Health | MetricsPage
| PostJobs | GetJobs | GetJob | DeleteJob
| GetDeadLetters | GetDeadLetter_ | PostReplay | DeleteDeadLetter
| GetWorkers | GetWorker_.
#[export] Instance Endpoint_eq_dec : EqDecision Endpoint.
Proof. solve_decision. Defined.

(** The routes, with the method (empty: any) and the pattern each is registered under. *)
Definition routes : list (string * string * Endpoint) :=
  [("GET", "/health", Health); (EmptyString, "/metrics", MetricsPage);
   ("POST", "/jobs/", PostJobs); ("GET", "/jobs/", GetJobs);
   ("GET", "/jobs/{id}", GetJob); ("DELETE", "/jobs/{id}", DeleteJob);
   ("GET", "/dead-letters/", GetDeadLetters); ("GET", "/dead-letters/{id}", GetDeadLetter_);
   ("POST", "/dead-letters/{id}/replay", PostReplay);
   ("DELETE", "/dead-letters/{id}", DeleteDeadLetter);
   ("GET", "/workers/", GetWorkers); ("GET", "/workers/{id}", GetWorker_)].

(** Endpoints outside the group that APIKeyAuth guards. *)
Definition public (ep : Endpoint) : bool :=
  match ep with Health | MetricsPage => true | _ => false end.

(** chi's tree and its answer to a request that no route takes (404 or 405); the page that
    promhttp.Handler serves. *)
Class Mux : Type := {
  mux_match : list (string * string * Endpoint) → Request → option Endpoint;
  mux_unmatched : Request → Response;
  promhttp_page : Request → Response;
}.

(** A pool of settings for NewRouter: which caches are there, the limiter and the key. *)
Record RouterConfig : Type := mkRouterConfig {
  rc_idem : bool;
  rc_cache : bool;
  rc_limiter : RateLimiter;
  rc_apiKey : string;
}.

Context {X : Mux} {J : JobsRepository} {W : WorkersRepository} {D : DeadLettersRepository}.

(** The handler of each endpoint. *)
Definition handle (rc : RouterConfig) (ep : Endpoint) (r : Request) : Prog Response :=
  match ep with
  | Health => Ret (mkResponse StatusOK [] "ok")
  | MetricsPage => Ret (promhttp_page r)
  | PostJobs => SubmitJob (rc_idem rc) r
  | GetJobs => ListJobs r
  | GetJob => GetJobStatus (rc_cache rc) r
  | DeleteJob => CancelJob r
  | GetDeadLetters => dlq_List r
  | GetDeadLetter_ => dlq_Get r
  | PostReplay => dlq_Replay r
  | DeleteDeadLetter => dlq_Delete r
  | GetWorkers => handle_ListWorkers r
  | GetWorker_ => handle_GetWorker r
  end.

(** NewRouter: the limiter guards every request, the key every endpoint of the group. The other
    middlewares (request identifiers, logging, panics, the timeout) do not touch the
    response's meaning: a timeout is an outcome of the calls, a lost answer. *)
Definition NewRouter (rc : RouterConfig) (r : Request) : Prog Response :=
  RateLimit (rc_limiter rc) (λ r,
    match mux_match routes r with
    | None => Ret (mux_unmatched r)
    | Some ep =>
        if public ep then handle rc ep r
        else APIKeyAuth (rc_apiKey rc) (handle rc ep) r
    end) r.
End middleware.

Section safety.
Context `{E : Env} {X : Mux} {J : JobsRepository} {W : WorkersRepository}
  {D : DeadLettersRepository}.
Context `{!JobsRepositorySafe J, !WorkersRepositorySafe W, !DeadLettersRepositorySafe D}.

Lemma APIKeyAuth_safe key next r :
  (∀ r, prog_safe Inv world_step (next r)) → prog_safe Inv world_step (APIKeyAuth key next r).
Proof.
  intros Hn. unfold APIKeyAuth. destruct (string_is_empty key); [done|].
  destruct (string_is_empty _); [done|]. by destruct (negb _).
Qed.

Lemma RateLimit_safe rl next r :
  (∀ r, prog_safe Inv world_step (next r)) → prog_safe Inv world_step (RateLimit rl next r).
Proof.
  intros Hn. apply prog_safe_bind; [apply Allow_safe|]. intros [[[] n]|e]; [|done..].
  by apply prog_safe_bind.
Qed.

Lemma handle_safe rc ep r : prog_safe Inv world_step (handle rc ep r).
Proof. destruct ep; cbn [handle]; auto with sched; done. Qed.

Lemma NewRouter_safe rc r : prog_safe Inv world_step (NewRouter rc r).
Proof.
  apply RateLimit_safe. intros r'. destruct (mux_match routes r') as [ep|]; [|done].
  destruct (public ep); [apply handle_safe|]. apply APIKeyAuth_safe. apply handle_safe.
Qed.
End safety.
#[export] Hint Resolve NewRouter_safe : sched.
