(* ===== verification/HttpSpec.v ===== *)
(** * What the API does

    Submission under idempotency, the status cache, cancelling, replaying dead letters,
    authentication and the limit, as the responses and the tables they leave. *)

From S2P Require Import Prelude GoStd Decimal Models GoTime Json JsonFacts Compact World MemEnv.
From S2P Require Import Sql Columns Lifecycle JobsRepo JobsSpec WorkersRepo DeadLettersRepo Broker.
From S2P Require Import BrokerSpec Cache CacheSpec Http JobHandler OtherHandlers Router.

Section submission.
Context `{E : Env, !UuidLaws, !RedisLaws}.
Implicit Types w : World.

(** A request to submit a job of type [t] with the payload [p] and the priority [n]. *)
Definition submits (r : Request) (t p : string) (n : Z) : Prop :=
  ∃ k, decode_SubmitJobRequest (rq_body r) = Ok (mkSubmitJobRequest t (Some p) n k) ∧
       string_is_empty t = false ∧ pg_text t = true.

(** The key a submission is recorded under. *)
Definition submit_key (r : Request) (t p : string) : string :=
  if string_is_empty (rq_header r "Idempotency-Key") then ContentKey t (Some p)
  else rq_header r "Idempotency-Key".

Lemma PayloadHash_utf8 t p : utf8_valid (PayloadHash t p) = true.
Proof. apply all_ascii_valid, hex_ascii. Qed.

(** The new job of a submission. *)
Definition submitted (id : uuid) (t d : string) (n : Z) (now : Time) : Job :=
  mkJob id JobStatusQueued t (Some d) n 0 None now now.

(** A submission whose key is free. *)
Lemma run_Submit_new r t p n d i1 i2 i3 ins w :
  submits r t p n → jsonb p = Some d →
  all_done [i1; i2; i3] →
  redis_get (in_now i2) (idem_key (submit_key r t p)) (w_redis w) = None →
  w_jobs w !! in_uuid i1 = None →
  let j := submitted (in_uuid i1) t d n (in_now i3) in
  ∃ w', run (SubmitJob true r) (i1 :: i2 :: i3 :: ins) w = (writeJob StatusCreated j, w') ∧
    w_jobs w' = <[in_uuid i1 := j]> (w_jobs w) ∧
    holds (submit_key r t p) (in_uuid i1) (PayloadHash t (Some p)) (in_now i2)
      (in_now i2 + idempotencyTTL) w' ∧
    w_workers w' = w_workers w ∧ w_dead w' = w_dead w ∧ w_log w' = w_log w.
Proof.
  intros (k & Hdec & Hne & Htext) Hdoc Hd Hfree Hnew j.
  assert (in_outcome i1 = Done ∧ in_outcome i2 = Done ∧ in_outcome i3 = Done) as (_ & Hd2 & Hd3).
  { unfold all_done in Hd. rewrite !Forall_cons in Hd. tauto. }
  unfold SubmitJob. rewrite Hdec. cbn [sr_Type sr_Payload sr_Priority]. rewrite Hne.
  unfold uuid_New. rewrite run_bind_local. cbn [hd tl]. cbv zeta.
  cbn [job_Type job_Payload job_ID NewJob]. fold (submit_key r t p). rewrite run_bind.
  destruct (run_Check_fresh (submit_key r t p) (in_uuid i1) (PayloadHash t (Some p)) i2
              (i3 :: ins) w Hd2 Hfree) as (rd & -> & -> & Hh & _). cbn [fst snd].
  unfold create_job. rewrite run_bind. cbn [Jobs_Create pgJobsRepo]. unfold Create.
  rewrite run_method by done. scanned. unfold sql_insert_job. cbn [job_Payload job_Type job_ID NewJob].
  rewrite Htext, Hdoc. cbn [negb w_jobs set_redis]. rewrite Hnew.
  cbn. eexists. split_and!; try done.
Qed.

(** A submission whose key is taken. *)
Lemma run_Submit_taken r t p n id0 h0 t0 t1 i1 i2 i3 i4 ins w :
  submits r t p n → all_done [i1; i2; i3; i4] →
  holds (submit_key r t p) id0 h0 t0 t1 w → utf8_valid h0 = true →
  t0 ≤ in_now i2 → in_now i2 ≤ in_now i3 → in_now i3 < t1 →
  ∃ w', run (SubmitJob true r) (i1 :: i2 :: i3 :: i4 :: ins) w =
    (if bool_decide (h0 = PayloadHash t (Some p))
     then match w_jobs w !! id0 with
          | Some j => writeJob StatusOK j
          | None => writeError StatusInternalServerError "failed to fetch existing job"
          end
     else writeError StatusConflict "idempotency key reused with different payload", w') ∧
    holds (submit_key r t p) id0 h0 (in_now i2) t1 w' ∧
    w_jobs w' = w_jobs w ∧ w_workers w' = w_workers w ∧ w_dead w' = w_dead w ∧
    w_log w' = w_log w.
Proof.
  intros (k & Hdec & Hne & Htext) Hd Hh Hv H12 H23 Httl.
  assert (in_outcome i1 = Done ∧ in_outcome i2 = Done ∧ in_outcome i3 = Done ∧
          in_outcome i4 = Done) as (_ & Hd2 & Hd3 & Hd4).
  { unfold all_done in Hd. rewrite !Forall_cons in Hd. tauto. }
  unfold SubmitJob. rewrite Hdec. cbn [sr_Type sr_Payload sr_Priority]. rewrite Hne.
  unfold uuid_New. rewrite run_bind_local. cbn [hd tl]. cbv zeta.
  cbn [job_Type job_Payload job_ID NewJob]. fold (submit_key r t p). rewrite run_bind.
  destruct (run_Check_taken (submit_key r t p) (in_uuid i1) (PayloadHash t (Some p)) id0 h0 t0 t1
              i2 i3 (i4 :: ins) w Hh Hv Hd2 Hd3 H12 H23 Httl) as (rd & -> & -> & Hh' & _).
  cbn [fst snd]. destruct (bool_decide (h0 = PayloadHash t (Some p))).
  - rewrite run_bind. cbn [Jobs_Get pgJobsRepo]. unfold Get. rewrite run_method by done.
    scanned. unfold sql_select_job. cbn [w_jobs set_redis fst snd].
    destruct (w_jobs w !! id0); cbn; eexists; by split_and!.
  - cbn. eexists. by split_and!.
Qed.

(** C28: submitting the same request twice inside a day makes one job: the first answer is 201
    with the new QUEUED job, the second 200 with that same job, and the table is not touched
    again. *)
Theorem submit_idempotent r t p n d i1 i2 i3 k1 k2 k3 k4 w :
  submits r t p n → jsonb p = Some d → all_done [i1; i2; i3] → all_done [k1; k2; k3; k4] →
  redis_get (in_now i2) (idem_key (submit_key r t p)) (w_redis w) = None →
  w_jobs w !! in_uuid i1 = None →
  in_now i2 ≤ in_now k2 → in_now k2 ≤ in_now k3 → in_now k3 < in_now i2 + idempotencyTTL →
  let j := submitted (in_uuid i1) t d n (in_now i3) in
  ∃ w1 w2,
    run (SubmitJob true r) [i1; i2; i3] w = (writeJob StatusCreated j, w1) ∧
    run (SubmitJob true r) [k1; k2; k3; k4] w1 = (writeJob StatusOK j, w2) ∧
    w_jobs w1 = <[in_uuid i1 := j]> (w_jobs w) ∧ w_jobs w2 = w_jobs w1.
Proof.
  intros Hs Hdoc Hd1 Hd2 Hfree Hnew H12 H23 Httl j.
  destruct (run_Submit_new r t p n d i1 i2 i3 [] w Hs Hdoc Hd1 Hfree Hnew)
    as (w1 & Hr1 & Hj1 & Hh & _).
  destruct (run_Submit_taken r t p n _ _ _ _ k1 k2 k3 k4 [] w1 Hs Hd2 Hh (PayloadHash_utf8 _ _)
              H12 H23 Httl) as (w2 & Hr2 & _ & Hj2 & _).
  exists w1, w2. split_and!; [done| |done|done].
  rewrite Hr2, bool_decide_true, Hj1, lookup_insert_eq by done. done.
Qed.

(** When the insert of a submission fails, its key stays recorded: the client sees 500, and
    for the rest of the day every retry of the same request sees 500 as well, while no job is
    ever created. *)
Theorem submit_poisoned r t p n e i1 i2 i3 k1 k2 k3 k4 w :
  submits r t p n → all_done [i1; i2] → in_outcome i3 = Lost e → all_done [k1; k2; k3; k4] →
  redis_get (in_now i2) (idem_key (submit_key r t p)) (w_redis w) = None →
  w_jobs w !! in_uuid i1 = None →
  in_now i2 ≤ in_now k2 → in_now k2 ≤ in_now k3 → in_now k3 < in_now i2 + idempotencyTTL →
  ∃ w1 w2,
    run (SubmitJob true r) [i1; i2; i3] w =
      (writeError StatusInternalServerError "failed to create job", w1) ∧
    run (SubmitJob true r) [k1; k2; k3; k4] w1 =
      (writeError StatusInternalServerError "failed to fetch existing job", w2) ∧
    w_jobs w1 = w_jobs w ∧ w_jobs w2 = w_jobs w.
Proof.
  intros Hs Hd1 Hd3 Hdk Hfree Hnew H12 H23 Httl.
  assert (∃ w1, run (SubmitJob true r) [i1; i2; i3] w =
      (writeError StatusInternalServerError "failed to create job", w1) ∧
      w_jobs w1 = w_jobs w ∧
      holds (submit_key r t p) (in_uuid i1) (PayloadHash t (Some p)) (in_now i2)
        (in_now i2 + idempotencyTTL) w1) as (w1 & Hr1 & Hj1 & Hh).
  { destruct Hs as (k & Hdec & Hne & _).
    assert (in_outcome i2 = Done) as Hd2.
    { unfold all_done in Hd1. rewrite !Forall_cons in Hd1. tauto. }
    unfold SubmitJob. rewrite Hdec. cbn [sr_Type sr_Payload sr_Priority]. rewrite Hne.
    unfold uuid_New. rewrite run_bind_local. cbn [hd tl]. cbv zeta.
    cbn [job_Type job_Payload job_ID NewJob]. fold (submit_key r t p). rewrite run_bind.
    destruct (run_Check_fresh (submit_key r t p) (in_uuid i1) (PayloadHash t (Some p)) i2
                [i3] w Hd2 Hfree) as (rd & -> & -> & Hh & _). cbn [fst snd].
    unfold create_job. rewrite run_bind. cbn [Jobs_Create pgJobsRepo]. unfold Create.
    rewrite (run_method_err _ _ _ _ _ e) by done. cbn. eexists. by split_and!. }
  destruct (run_Submit_taken r t p n _ _ _ _ k1 k2 k3 k4 [] w1 Hs Hdk Hh (PayloadHash_utf8 _ _)
              H12 H23 Httl) as (w2 & Hr2 & _ & Hj2 & _).
  exists w1, w2. split_and!; [done| |done|congruence].
  rewrite Hr2, bool_decide_true by done. by rewrite Hj1, Hnew.
Qed.

(** Two different submissions without an Idempotency-Key header can be taken for one: when
    the type of the second ends with what the payload of the first begins with, its client is
    answered 200 with the other job, and its own job is never created. *)
Theorem submit_collision r1 r2 t s p n1 n2 d i1 i2 i3 k1 k2 k3 k4 w :
  submits r1 t (s +:+ p) n1 → submits r2 (t +:+ s) p n2 →
  rq_header r1 "Idempotency-Key" = EmptyString → rq_header r2 "Idempotency-Key" = EmptyString →
  jsonb (s +:+ p) = Some d → all_done [i1; i2; i3] → all_done [k1; k2; k3; k4] →
  redis_get (in_now i2) (idem_key (submit_key r1 t (s +:+ p))) (w_redis w) = None →
  w_jobs w !! in_uuid i1 = None →
  in_now i2 ≤ in_now k2 → in_now k2 ≤ in_now k3 → in_now k3 < in_now i2 + idempotencyTTL →
  let j := submitted (in_uuid i1) t d n1 (in_now i3) in
  ∃ w1 w2,
    run (SubmitJob true r1) [i1; i2; i3] w = (writeJob StatusCreated j, w1) ∧
    run (SubmitJob true r2) [k1; k2; k3; k4] w1 = (writeJob StatusOK j, w2) ∧
    w_jobs w2 = w_jobs w1.
Proof.
  intros Hs1 Hs2 Hh1 Hh2 Hdoc Hd1 Hd2 Hfree Hnew H12 H23 Httl j.
  assert (Hkey : submit_key r2 (t +:+ s) p = submit_key r1 t (s +:+ p)).
  { unfold submit_key, ContentKey. rewrite Hh1, Hh2. cbn. by rewrite append_assoc. }
  assert (Hhash : PayloadHash (t +:+ s) (Some p) = PayloadHash t (Some (s +:+ p))).
  { unfold PayloadHash. cbn. by rewrite append_assoc. }
  destruct (run_Submit_new r1 t (s +:+ p) n1 d i1 i2 i3 [] w Hs1 Hdoc Hd1 Hfree Hnew)
    as (w1 & Hr1 & Hj1 & Hh & _).
  rewrite <- Hkey in Hh.
  destruct (run_Submit_taken r2 (t +:+ s) p n2 _ _ _ _ k1 k2 k3 k4 [] w1 Hs2 Hd2 Hh
              (PayloadHash_utf8 _ _) H12 H23 Httl) as (w2 & Hr2 & _ & Hj2 & _).
  exists w1, w2. split_and!; [done| |done].
  rewrite Hr2, Hhash, bool_decide_true, Hj1, lookup_insert_eq by done. done.
Qed.

(** A submission that is no JSON object of the right shape, or has no type, is answered 400
    and reaches no service. *)
Theorem submit_rejects r has_idem ins w :
  (∀ t p n k, decode_SubmitJobRequest (rq_body r) = Ok (mkSubmitJobRequest t p n k) →
     t = EmptyString) →
  ∃ resp, run (SubmitJob has_idem r) ins w = (resp, w) ∧ rs_status resp = StatusBadRequest.
Proof.
  intros Hbad. unfold SubmitJob.
  destruct (decode_SubmitJobRequest (rq_body r)) as [[t p n k]|e]; [|by eexists].
  rewrite (Hbad t p n k eq_refl). by eexists.
Qed.
End submission.

(** ** The status cache *)

Section status.
Context `{E : Env, !UuidLaws, !RedisLaws}.
Implicit Types w : World.

(** A miss that finds the job: the answer, and what is cached from then on. *)
Lemma run_GetJobStatus_miss r id j data i1 i2 i3 ins w :
  uuid_Parse (rq_param r "id") = Some id → all_done [i1; i2; i3] →
  redis_get (in_now i1) (jobKey id) (w_redis w) = None → w_jobs w !! id = Some j →
  render_JobResponse (toJobResponse j) = Ok data →
  ∃ w', run (GetJobStatus true r) (i1 :: i2 :: i3 :: ins) w =
    (mkResponse StatusOK [("X-Cache", "MISS"); ("Content-Type", "application/json")]
       (data +:+ newline), w') ∧
    w_jobs w' = w_jobs w ∧
    ∀ t, in_now i3 ≤ t → t < in_now i3 + statusCacheTTL →
      redis_get t (jobKey id) (w_redis w') = Some data.
Proof.
  intros Hid Hd Hmiss Hj Hdata.
  assert (in_outcome i1 = Done ∧ in_outcome i2 = Done ∧ in_outcome i3 = Done) as (Hd1 & Hd2 & Hd3).
  { unfold all_done in Hd. rewrite !Forall_cons in Hd. tauto. }
  unfold GetJobStatus. rewrite Hid. unfold StatusCache_Get. cbn [bind call run hd tl].
  unfold perform. rewrite Hd1. unfold redis_Get. rewrite Hmiss. cbn [bind run].
  rewrite bool_decide_true by done. unfold get_from_table.
  rewrite run_bind. cbn [Jobs_Get pgJobsRepo]. unfold Get. rewrite run_method by done.
  unfold sql_select_job. rewrite Hj. cbn [fst snd]. scanned. cbn [not_found].
  rewrite Hdata. cbn [run_rest bind call hd tl]. unfold perform. rewrite Hd2.
  cbn [run_rest]. unfold StatusCache_Set. cbn [bind call run hd tl].
  unfold perform. rewrite Hd3. cbn.
  eexists. split_and!; [done|done|].
  intros t Hle Hlt. cbn. rewrite redis_get_set by done. by rewrite (proj2 (Z.ltb_lt _ _)).
Qed.

(** A hit. *)
Lemma run_GetJobStatus_hit r id data i1 ins w :
  uuid_Parse (rq_param r "id") = Some id → in_outcome i1 = Done →
  redis_get (in_now i1) (jobKey id) (w_redis w) = Some data →
  run (GetJobStatus true r) (i1 :: ins) w =
    (mkResponse StatusOK [("Content-Type", "application/json"); ("X-Cache", "HIT")] data, w).
Proof.
  intros Hid Hd Hhit. unfold GetJobStatus. rewrite Hid. unfold StatusCache_Get.
  cbn [bind call run hd tl]. unfold perform. rewrite Hd. unfold redis_Get. by rewrite Hhit.
Qed.

(** The first status request reads the table, answers the job's JSON and caches it; for
    five minutes later requests are answered from the cache with the same JSON (without the
    newline), whatever has become of the row: only the cached entry matters. *)
Theorem GetJobStatus_cached r id j data i1 i2 i3 k w w2 :
  uuid_Parse (rq_param r "id") = Some id → all_done [i1; i2; i3] → in_outcome k = Done →
  redis_get (in_now i1) (jobKey id) (w_redis w) = None → w_jobs w !! id = Some j →
  render_JobResponse (toJobResponse j) = Ok data →
  in_now i3 ≤ in_now k → in_now k < in_now i3 + statusCacheTTL →
  ∃ w1, run (GetJobStatus true r) [i1; i2; i3] w =
      (mkResponse StatusOK [("X-Cache", "MISS"); ("Content-Type", "application/json")]
         (data +:+ newline), w1) ∧
    w_jobs w1 = w_jobs w ∧
    (w_redis w2 = w_redis w1 →
     run (GetJobStatus true r) [k] w2 =
       (mkResponse StatusOK [("Content-Type", "application/json"); ("X-Cache", "HIT")] data, w2)).
Proof.
  intros Hid Hd Hdk Hmiss Hj Hdata Hle Hlt.
  destruct (run_GetJobStatus_miss r id j data i1 i2 i3 [] w Hid Hd Hmiss Hj Hdata)
    as (w1 & Hr1 & Hj1 & Hc). exists w1. split_and!; [done|done|].
  intros Hr. apply (run_GetJobStatus_hit r id); [done|done|]. rewrite Hr. by apply Hc.
Qed.

(** CancelJob on a job that can be cancelled. *)
Lemma run_CancelJob r id j inp ins w :
  uuid_Parse (rq_param r "id") = Some id → in_outcome inp = Done →
  w_jobs w !! id = Some j → cancellable j = true →
  run (CancelJob r) (inp :: ins) w =
    (mkResponse StatusNoContent [] EmptyString,
     set_jobs (<[id := job_set_updated (in_now inp) (job_set_status JobStatusDead j)]>
                 (w_jobs w)) w).
Proof.
  intros Hid Hd Hj Hc. unfold CancelJob. rewrite Hid, run_bind. cbn [Jobs_Cancel pgJobsRepo].
  unfold Cancel. rewrite run_exec_one, Hj, Hc by done. done.
Qed.

(** Cancelling through the API leaves the cached status: after a status request and a
    successful DELETE, status requests keep answering 200 with the status from before the
    cancellation, for up to five minutes, although the row is DEAD. *)
Theorem cancel_leaves_stale_status r id j data i1 i2 i3 c k w :
  uuid_Parse (rq_param r "id") = Some id → all_done [i1; i2; i3; c; k] →
  redis_get (in_now i1) (jobKey id) (w_redis w) = None → w_jobs w !! id = Some j →
  cancellable j = true → render_JobResponse (toJobResponse j) = Ok data →
  in_now i3 ≤ in_now k → in_now k < in_now i3 + statusCacheTTL →
  ∃ w1 w2 j', run (GetJobStatus true r) [i1; i2; i3] w =
      (mkResponse StatusOK [("X-Cache", "MISS"); ("Content-Type", "application/json")]
         (data +:+ newline), w1) ∧
    run (CancelJob r) [c] w1 = (mkResponse StatusNoContent [] EmptyString, w2) ∧
    w_jobs w2 !! id = Some j' ∧ job_Status j' = JobStatusDead ∧
    run (GetJobStatus true r) [k] w2 =
      (mkResponse StatusOK [("Content-Type", "application/json"); ("X-Cache", "HIT")] data, w2).
Proof.
  intros Hid Hd Hmiss Hj Hc Hdata Hle Hlt.
  assert (all_done [i1; i2; i3] ∧ in_outcome c = Done ∧ in_outcome k = Done) as (Hd3 & Hdc & Hdk).
  { unfold all_done in *. rewrite !Forall_cons in *. tauto. }
  destruct (run_GetJobStatus_miss r id j data i1 i2 i3 [] w Hid Hd3 Hmiss Hj Hdata)
    as (w1 & Hr1 & Hj1 & Hcache).
  eexists w1, _, _. split_and!; [done|apply (run_CancelJob r id j)| | |]; try done.
  - by rewrite Hj1.
  - cbn. by rewrite lookup_insert_eq.
  - done.
  - apply (run_GetJobStatus_hit r id); [done|done|]. cbn. by apply Hcache.
Qed.

(** The status codes of DELETE /jobs/{id}: 204 exactly when the job could be cancelled and
    was, 404 when there is none or it is final, 400 for a text that is no identifier. *)
Theorem CancelJob_status r inp ins w :
  in_outcome inp = Done →
  let '(resp, w') := run (CancelJob r) (inp :: ins) w in
  match uuid_Parse (rq_param r "id") with
  | None => rs_status resp = StatusBadRequest ∧ w' = w
  | Some id =>
      (rs_status resp = StatusNoContent ∧ ∃ j j', w_jobs w !! id = Some j ∧ cancellable j = true ∧
         w_jobs w' = <[id := j']> (w_jobs w) ∧ job_Status j' = JobStatusDead) ∨
      (rs_status resp = StatusNotFound ∧ w' = w ∧
         ∀ j, w_jobs w !! id = Some j → cancellable j = false)
  end.
Proof.
  intros Hd. unfold CancelJob. destruct (uuid_Parse (rq_param r "id")) as [id|]; [|done].
  rewrite run_bind. cbn [Jobs_Cancel pgJobsRepo]. unfold Cancel. rewrite run_exec_one by done.
  destruct (w_jobs w !! id) as [j|] eqn:Hj.
  - destruct (cancellable j) eqn:Hc; cbn.
    + left. split; [done|]. eexists j, _. by split_and!.
    + right. split_and!; [done|done|]. by intros ? [= <-].
  - cbn. right. by split_and!.
Qed.
End status.

(** ** Replaying dead letters *)

Section replay.
Context `{E : Env}.
Implicit Types w : World.

(** The job of a replayed letter. *)
Definition replayed_job (id : uuid) (d : DeadLetter) (doc : string) (now : Time) : Job :=
  mkJob id JobStatusQueued (dl_JobType d) (Some doc) 0 0 None now now.

Lemma run_Replay_created r id d p doc i1 i2 i3 ins w :
  uuid_Parse (rq_param r "id") = Some id → in_outcome i1 = Done → in_outcome i3 = Done →
  w_dead w !! id = Some d → dl_Status d ≠ "REPLAYED" → dl_Payload d = Some p →
  jsonb p = Some doc → pg_text (dl_JobType d) = true → w_jobs w !! in_uuid i2 = None →
  let c := replayed_job (in_uuid i2) d doc (in_now i3) in
  let w1 := set_jobs (<[in_uuid i2 := c]> (w_jobs w)) w in
  run (dlq_Replay r) (i1 :: i2 :: i3 :: ins) w =
  run (let! res := DL_MarkReplayed id (in_uuid i2) in
       match res with
       | Err _ => Ret (writeError StatusInternalServerError "failed to mark dead letter replayed")
       | Ok _ =>
           Inc CReplayed ;;!
           Ret (write_rendered StatusCreated
                  (Ok (render_object [("replayed_job_id", json_uuid (in_uuid i2))])))
       end) ins w1.
Proof.
  intros Hid Hd1 Hd3 Hdl Hst Hp Hdoc Ht Hnew c w1. unfold dlq_Replay. rewrite Hid.
  cbn [DL_Get pgDeadLettersRepo]. unfold GetDeadLetter. cbn [bind call run hd tl].
  unfold perform at 1. rewrite Hd1. unfold sql_select_dead_letter. rewrite Hdl.
  cbn [bind run]. scanned. cbn. rewrite bool_decide_false by done.
  unfold replay_letter, uuid_New. cbn [bind local run hd tl Jobs_Create pgJobsRepo].
  unfold Create. cbn [bind call run hd tl]. unfold perform at 1. rewrite Hd3.
  unfold sql_insert_job. cbn [job_Payload job_Type job_ID NewJob]. rewrite Hp, Ht, Hdoc, Hnew.
  done.
Qed.

(** C29: replaying an open dead letter answers 201 with a new QUEUED job of its type and payload
    at priority 0, and marks the letter with it; replaying it again answers 409 and changes
    nothing. *)
Theorem Replay_once r id d p doc i1 i2 i3 i4 k w :
  uuid_Parse (rq_param r "id") = Some id → all_done [i1; i3; i4; k] →
  w_dead w !! id = Some d → dl_Status d ≠ "REPLAYED" → dl_Payload d = Some p →
  jsonb p = Some doc → pg_text (dl_JobType d) = true → w_jobs w !! in_uuid i2 = None →
  ∃ w1 resp, run (dlq_Replay r) [i1; i2; i3; i4] w = (resp, w1) ∧ rs_status resp = StatusCreated ∧
    w_jobs w1 = <[in_uuid i2 := replayed_job (in_uuid i2) d doc (in_now i3)]> (w_jobs w) ∧
    w_dead w1 = <[id := replayed_row (in_now i4) (in_uuid i2) d]> (w_dead w) ∧
    run (dlq_Replay r) [k] w1 =
      (writeError StatusConflict "dead letter already replayed", w1).
Proof.
  intros Hid Hd Hdl Hst Hp Hdoc Ht Hnew.
  assert (in_outcome i1 = Done ∧ in_outcome i3 = Done ∧ in_outcome i4 = Done ∧
          in_outcome k = Done) as (Hd1 & Hd3 & Hd4 & Hdk).
  { unfold all_done in Hd. rewrite !Forall_cons in Hd. tauto. }
  rewrite (run_Replay_created r id d p doc i1 i2 i3 [i4] w) by done.
  cbn [DL_MarkReplayed pgDeadLettersRepo]. unfold MarkReplayed. cbn [bind call run hd tl].
  unfold perform at 1. rewrite Hd4. unfold sql_mark_replayed, update_id. cbn [w_dead set_jobs].
  rewrite Hdl. cbn. eexists _, _. split; [done|]. split_and!; try done.
  unfold dlq_Replay. rewrite Hid. cbn [DL_Get pgDeadLettersRepo]. unfold GetDeadLetter.
  cbn [bind call run hd tl]. unfold perform. rewrite Hdk. unfold sql_select_dead_letter.
  cbn [w_dead set_dead set_jobs set_metrics]. rewrite lookup_insert_eq. by scanned.
Qed.

(** When the mark fails after the job was created, the client sees 500, the letter stays
    open, and a retry creates a second job from it. *)
Theorem Replay_duplicates r id d p doc e i1 i2 i3 i4 k1 k2 k3 k4 w :
  uuid_Parse (rq_param r "id") = Some id → all_done [i1; i3; k1; k3; k4] →
  in_outcome i4 = Lost e →
  w_dead w !! id = Some d → dl_Status d ≠ "REPLAYED" → dl_Payload d = Some p →
  jsonb p = Some doc → pg_text (dl_JobType d) = true →
  w_jobs w !! in_uuid i2 = None → w_jobs w !! in_uuid k2 = None → in_uuid i2 ≠ in_uuid k2 →
  ∃ w1 w2 resp1 resp2, run (dlq_Replay r) [i1; i2; i3; i4] w = (resp1, w1) ∧
    rs_status resp1 = StatusInternalServerError ∧ w_dead w1 = w_dead w ∧
    run (dlq_Replay r) [k1; k2; k3; k4] w1 = (resp2, w2) ∧ rs_status resp2 = StatusCreated ∧
    w_jobs w2 = <[in_uuid k2 := replayed_job (in_uuid k2) d doc (in_now k3)]>
                  (<[in_uuid i2 := replayed_job (in_uuid i2) d doc (in_now i3)]> (w_jobs w)).
Proof.
  intros Hid Hd He Hdl Hst Hp Hdoc Ht Hn1 Hn2 Hne.
  assert (in_outcome i1 = Done ∧ in_outcome i3 = Done ∧ in_outcome k1 = Done ∧
          in_outcome k3 = Done ∧ in_outcome k4 = Done) as (Hd1 & Hd3 & Hk1 & Hk3 & Hk4).
  { unfold all_done in Hd. rewrite !Forall_cons in Hd. tauto. }
  rewrite (run_Replay_created r id d p doc i1 i2 i3 [i4] w) by done.
  cbn [DL_MarkReplayed pgDeadLettersRepo]. unfold MarkReplayed. cbn [bind call run hd tl].
  unfold perform at 1. rewrite He. cbn [run bind dl_exec_one].
  eexists _, _, _, _. split; [done|]. split; [done|]. split; [done|]. split.
  { rewrite (run_Replay_created r id d p doc k1 k2 k3 [k4] _); try done.
    { cbn [DL_MarkReplayed pgDeadLettersRepo]. unfold MarkReplayed. cbn [bind call run hd tl].
      unfold perform at 1. rewrite Hk4. unfold sql_mark_replayed, update_id.
      cbn [w_dead set_jobs]. rewrite Hdl. cbn. done. }
    cbn. by rewrite lookup_insert_ne. }
  by split.
Qed.
End replay.

(** ** Authentication and the limit *)

Section guards.
Context `{E : Env, X : Mux}.
Implicit Types w : World.

(** With a key configured, a request for a protected endpoint that does not carry the key
    is answered 401 (or, by the limiter, 429 or 500), and no table and no topic changes; with
    the right key, or without a configured one, the endpoint's handler answers. *)
Theorem router_auth rc ep r ins w :
  mux_match routes r = Some ep → public ep = false →
  (rc_apiKey rc ≠ EmptyString → extractAPIKey r ≠ rc_apiKey rc →
   let '(resp, w') := run (NewRouter rc r) ins w in
   rs_status resp ∈ [StatusUnauthorized; StatusTooManyRequests; StatusInternalServerError] ∧
   w_jobs w' = w_jobs w ∧ w_workers w' = w_workers w ∧ w_dead w' = w_dead w ∧
   w_log w' = w_log w) ∧
  (rc_apiKey rc = EmptyString ∨ extractAPIKey r = rc_apiKey rc →
   ∀ w1, run (APIKeyAuth (rc_apiKey rc) (handle rc ep) r) ins w1 = run (handle rc ep r) ins w1).
Proof.
  intros Hm Hp. split.
  - intros Hkey Hne.
    assert (Hauth : ∃ msg, ∀ h : Request → Prog Response,
      APIKeyAuth (rc_apiKey rc) h r = Ret (writeAuthError msg)).
    { unfold APIKeyAuth. destruct (rc_apiKey rc) as [|c k] eqn:Hk; [done|]. cbn.
      destruct (string_is_empty (extractAPIKey r)); [by eexists|].
      rewrite bool_decide_false by done. by eexists. }
    destruct Hauth as [msg Hauth]. unfold NewRouter, RateLimit. rewrite Hm, Hp.
    rewrite Hauth, run_bind.
    assert (Hframe : w_jobs (run (Allow (rc_limiter rc) (extractIP r)) ins w).2 = w_jobs w ∧
      w_workers (run (Allow (rc_limiter rc) (extractIP r)) ins w).2 = w_workers w ∧
      w_dead (run (Allow (rc_limiter rc) (extractIP r)) ins w).2 = w_dead w ∧
      w_log (run (Allow (rc_limiter rc) (extractIP r)) ins w).2 = w_log w) by apply Allow_frame.
    destruct (run (Allow (rc_limiter rc) (extractIP r)) ins w) as [res w1]. cbn [fst snd] in *.
    destruct res as [[[] n]|e]; cbn; (split; [|exact Hframe]); apply list_elem_of_In; cbn; auto.
  - intros Hk w1. unfold APIKeyAuth. destruct (string_is_empty (rc_apiKey rc)) eqn:Hs; [done|].
    destruct Hk as [Hk|Hk]; [by rewrite Hk in Hs|]. rewrite Hk, Hs, bool_decide_true by done. done.
Qed.
End guards.
