(* ===== verification/Rendered.v ===== *)
(** * What the API writes is JSON

    The arrays and objects that dto and the handlers print are values of JSON, whatever they
    hold; only a payload that is none itself cannot be printed. *)

From S2P Require Import Prelude GoStd Decimal Models GoTime Json JsonFacts Compact Floats World.
From S2P Require Import Broker BrokerSpec JobsRepo WorkersRepo DeadLettersRepo Http JobHandler.
From S2P Require Import OtherHandlers.

(** ** Arrays *)

(** A value may be the first of an array. *)
Lemma scan_first_element v st :
  value_ok v → ∃ m, scan_run BeginValueOrEmpty (FArr :: st) v = Some (m, FArr :: st) ∧
                    closes m (FArr :: st).
Proof.
  intros [Hf Hv]. destruct (Hv (FArr :: st)) as (m & Hrun & Hm). exists m. split; [|done].
  destruct v as [|c v]; [done|]. rewrite <- Hrun. cbn [scan_run].
  replace (scan_step BeginValueOrEmpty (FArr :: st) c) with (scan_step BeginValue (FArr :: st) c);
    [done|].
  clear Hv. revert Hrun. cbn [scan_run scan_step]. rewrite Hf.
  destruct (is_byte 93 c) eqn:H93; [|done]. by destruct c as [[] [] [] [] [] [] [] []].
Qed.

(** The rest of them, each after a comma. *)
Lemma scan_elements m st v l :
  closes m (FArr :: st) → Forall value_ok (v :: l) →
  ∃ m', scan_run m (FArr :: st) ("," +:+ render_elements (v :: l)) = Some (m', FArr :: st) ∧
        closes m' (FArr :: st).
Proof.
  revert m v. induction l as [|v2 l IH]; intros m v Hm [[_ Hv] Hl]%Forall_cons;
    rewrite append_cons, append_nil;
    rewrite (scan_run_cons m _ _ _ BeginValue (FArr :: st)) by (by rewrite delimiter_step);
    destruct (Hv (FArr :: st)) as (m1 & H1 & Hm1); [by exists m1|].
  destruct (IH m1 v2 Hm1 Hl) as (m2 & H2 & Hm2). exists m2. split; [|done].
  change (render_elements (v :: v2 :: l)) with (v +:+ ("," +:+ render_elements (v2 :: l))).
  by rewrite scan_run_app, H1.
Qed.

Lemma render_array_value l : Forall value_ok l → value_ok (render_array l).
Proof.
  intros Hl. unfold render_array. rewrite append_cons, append_nil. split; [done|]. intros st.
  exists (after_value st). split; [|by left].
  rewrite (scan_run_cons _ _ _ _ BeginValueOrEmpty (FArr :: st)) by done.
  assert (Hend : ∀ m, closes m (FArr :: st) →
    scan_run m (FArr :: st) "]" = Some (after_value st, st)).
  { intros m Hm. by rewrite (scan_run_cons m _ _ _ (after_value st) st) by
      (by rewrite delimiter_step). }
  destruct l as [|v l]; [by destruct st|].
  apply Forall_cons in Hl as [Hv Hl]. destruct (scan_first_element v st Hv) as (m & Hm & Hc).
  rewrite scan_run_app. destruct l as [|v2 l].
  { cbn [render_elements]. rewrite Hm. by apply Hend. }
  change (render_elements (v :: v2 :: l)) with (v +:+ ("," +:+ render_elements (v2 :: l))).
  rewrite scan_run_app, Hm. destruct (scan_elements m st v2 l Hc Hl) as (m2 & H2 & Hc2).
  rewrite H2. by apply Hend.
Qed.

(** ** Results of printers *)

(** A text of JSON, or the error of a payload that is none. *)
Definition printed (s : Res string) : Prop :=
  match s with Ok t => value_ok t | Err e => ∃ p, json_raw p = Err e end.

Lemma printed_raw p f :
  (∀ s, json_raw p = Ok s → value_ok (f s)) → printed (result_map f (json_raw p)).
Proof. intros Hf. destruct (json_raw p) as [s|e] eqn:Hp; cbn; [by apply Hf|by exists p]. Qed.

Lemma printed_all {T} (f : T → Res string) (l : list T) g :
  (∀ x, printed (f x)) → (∀ vs, Forall value_ok vs → value_ok (g vs)) →
  printed (result_map g (render_all f l)).
Proof.
  intros Hf. revert g. induction l as [|x l IH]; intros g Hg; cbn; [by apply Hg|].
  pose proof (Hf x) as Hx. destruct (f x) as [s|e]; cbn in *; [|done].
  specialize (IH (λ vs, g (s :: vs))).
  destruct (render_all f l) as [vs|e]; cbn in *; apply IH; intros vs' Hvs; apply Hg; by constructor.
Qed.

Lemma members_optional k v l :
  utf8_valid k = true → (∀ s, v = Some s → value_ok s) → members_ok l →
  members_ok (optional k v ++ l).
Proof. intros Hk Hv Hl. destruct v as [s|]; [|done]. constructor; [split; [done|by apply Hv]|done]. Qed.

Lemma json_null_or_value v : (∀ s, v = Some s → value_ok s) → value_ok (json_null_or v).
Proof. intros Hv. destruct v; cbn; [by apply Hv|apply null_value]. Qed.

#[export] Hint Resolve json_float_value render_array_value json_uuid_value : sched.

(** [members_ok] of constant keys with optional members between. *)
Ltac all_members :=
  repeat first
    [ apply members_optional; [reflexivity|intros ? (? & _ & ->)%fmap_Some; unfold json_time; auto with sched|]
    | apply Forall_cons; split;
        [cbn [fst snd]; split; [reflexivity|unfold json_time; auto with sched]|]
    | apply Forall_nil_2 ].

(** ** The DTOs *)

Lemma JobResponse_printed r : printed (render_JobResponse r).
Proof.
  apply printed_raw. intros s Hs%json_raw_value. apply render_object_value.
  unfold members_ok. cbn [app]. all_members.
Qed.

Lemma ListJobsResponse_printed r : printed (render_ListJobsResponse r).
Proof.
  apply printed_all; [apply JobResponse_printed|]. intros vs Hvs.
  apply render_object_value. unfold members_ok. all_members.
Qed.

Lemma WorkerResponse_printed r : printed (render_WorkerResponse r).
Proof.
  apply render_object_value. unfold members_ok. cbn [app]. all_members;
    apply json_null_or_value; intros ? (? & _ & ->)%fmap_Some; auto with sched.
Qed.

Lemma ListWorkersResponse_printed r : printed (render_ListWorkersResponse r).
Proof.
  apply printed_all; [apply WorkerResponse_printed|]. intros vs Hvs.
  apply render_object_value. unfold members_ok. all_members.
Qed.

Section dead_letters.
Context `{E : Env}.

Lemma DeadLetter_printed d : printed (render_DeadLetter d).
Proof.
  apply printed_raw. intros s Hs%json_raw_value. apply render_object_value.
  unfold members_ok. cbn [app]. all_members.
Qed.

Lemma DeadLetters_printed ds f :
  (∀ s, value_ok s → value_ok (f s)) → printed (result_map f (render_DeadLetters ds)).
Proof.
  intros Hf. unfold render_DeadLetters. destruct ds as [|d ds]; [apply Hf, null_value|].
  pose proof (printed_all render_DeadLetter (d :: ds) (λ vs, f (render_array vs))
    DeadLetter_printed) as Hp.
  destruct (render_all render_DeadLetter (d :: ds)) as [vs|e]; cbn in *; apply Hp;
    intros vs' Hvs; by apply Hf, render_array_value.
Qed.

(** The two maps that the dead letters' handlers print. *)
Lemma dead_letters_page ds limit offset :
  printed (result_map (λ l, render_object
    [("dead_letters", l); ("limit", json_int limit); ("offset", json_int offset)])
    (render_DeadLetters ds)).
Proof.
  apply DeadLetters_printed. intros s Hs. apply render_object_value. unfold members_ok. all_members.
Qed.

Lemma replayed_printed u : printed (Ok (render_object [("replayed_job_id", json_uuid u)])).
Proof. apply render_object_value. unfold members_ok. all_members. Qed.
End dead_letters.

#[export] Hint Resolve JobResponse_printed ListJobsResponse_printed WorkerResponse_printed
  ListWorkersResponse_printed DeadLetter_printed dead_letters_page replayed_printed : sched.

(** An error's body, too. *)
Lemma writeError_body status msg :
  ∃ v, value_ok v ∧ rs_body (writeError status msg) = v +:+ newline.
Proof.
  eexists. split; [|reflexivity]. apply render_object_value. unfold members_ok. all_members.
Qed.
