(* ===== verification/Answers.v ===== *)
(** * What the API answers, and what it logs

    The answers that a request can get, whatever the stores do: a table of statuses and messages
    for every endpoint, proved of the handlers against the interfaces of the repositories; and
    middleware/logging.go, which writes the access log. *)

From S2P Require Import Prelude GoStd Decimal Models Json World Sql Lifecycle JobsRepo WorkersRepo.
From S2P Require Import JsonFacts DeadLettersRepo Broker Cache Http JobHandler OtherHandlers Router.
From S2P Require Import Rendered.

(** ** Every end of a program *)

(** An answer of a service or a driver: its errors are not the program's own sentinel
    cache.ErrPayloadMismatch, nor wrap it. *)
Definition foreign {A} (r : Res A) : Prop :=
  ∀ e, r = Err e → errors_Is e ErrPayloadMismatch = false.

(** Whatever its calls answer, the program returns a value of [Q]. *)
Fixpoint ends_with `{Env} {A} (Q : A → Prop) (p : Prog A) : Prop :=
  match p with
  | Ret a => Q a
  | Call f k => ∀ r, foreign r → ends_with Q (k r)
  | Local f k => ∀ b, ends_with Q (k b)
  end.

(** The calls of this run are answered so. *)
Fixpoint answers_foreign `{Env} {A} (p : Prog A) (ins : list Input) (w : World) : Prop :=
  match p with
  | Ret _ => True
  | Call f k => let '(r, w') := perform (hd default_input ins) f w in
                foreign r ∧ answers_foreign (k r) (tl ins) w'
  | Local f k => let '(b, w') := f (hd default_input ins) w in answers_foreign (k b) (tl ins) w'
  end.

Section ends.
Context `{E : Env}.

Lemma ends_bind {A B} (Q : B → Prop) (p : Prog A) (q : A → Prog B) :
  (∀ a, ends_with Q (q a)) → ends_with Q (bind p q).
Proof. intros Hq. induction p as [a|C f k IH|C f k IH]; cbn; auto. Qed.

Lemma ends_bind_with {A B} (P : A → Prop) (Q : B → Prop) (p : Prog A) (q : A → Prog B) :
  ends_with P p → (∀ a, P a → ends_with Q (q a)) → ends_with Q (bind p q).
Proof. intros Hp Hq. induction p as [a|C f k IH|C f k IH]; cbn in *; auto. Qed.


Lemma ends_run {A} (Q : A → Prop) (p : Prog A) ins w :
  ends_with Q p → answers_foreign p ins w → Q (run p ins w).1.
Proof.
  revert ins w. induction p as [a|C f k IH|C f k IH]; intros ins w Hp; cbn in *; [done|..].
  - destruct (perform _ f w) as [r w']. intros [Hr Hf]. by apply IH; [apply Hp|].
  - destruct (f _ w) as [b w']. by apply IH.
Qed.

(** ** The one error whose text is shown *)






End ends.

(** ** The contract of the endpoints *)






Section answers.
Context `{E : Env} {X : Mux} {J : JobsRepository} {W : WorkersRepository}
  {D : DeadLettersRepository}.
Implicit Types (r : Request) (rc : RouterConfig).








End answers.

(** ** The access log *)

Section logging.
Context `{E : Env} (GetReqID : Request → string).     (* chi's request identifier *)

(** The line that Logging writes of a request. *)
Record AccessLine : Type := mkAccessLine {
  al_request_id : string;
  al_method : string;
  al_path : string;
  al_status : Z;
  al_bytes : Z;
  al_duration : Z;
}.

(** Logging: next serves with a writer that remembers the status and counts the bytes of the
    body. *)
Definition Logging (next : Request → Prog Response) (r : Request) : Prog (Response * AccessLine) :=
  let! start := time_Now in
  let! resp := next r in
  let! now := time_Now in
  Ret (resp, {| al_request_id := GetReqID r;
                al_method := rq_method r;
                al_path := rq_path r;
                al_status := rs_status resp;
                al_bytes := Z.of_nat (String.length (rs_body resp));
                al_duration := now - start |}).

(** It changes nothing: the handler runs as without it, and gets the next inputs. *)
Lemma run_Logging next r i ins w :
  run (Logging next r) (i :: ins) w =
  let '(resp, w') := run (next r) ins w in
  ((resp, mkAccessLine (GetReqID r) (rq_method r) (rq_path r) (rs_status resp)
            (Z.of_nat (String.length (rs_body resp)))
            (in_now (hd default_input (run_rest (next r) ins w)) - in_now i)), w').
Proof.
  unfold Logging, time_Now. rewrite run_bind_local. cbn [hd tl]. rewrite run_bind.
  by destruct (run (next r) ins w).
Qed.

Lemma Logging_safe next r :
  prog_safe Inv world_step (next r) → prog_safe Inv world_step (Logging next r).
Proof.
  intros Hn. apply prog_safe_bind; [apply prog_safe_local; intros inp w HI; by split; [|apply world_step_refl]|].
  intros start. apply prog_safe_bind; [done|]. intros resp. apply prog_safe_bind; [|done].
  apply prog_safe_local. intros inp w HI. by split; [|apply world_step_refl].
Qed.

(** What the line says is what the client got: the statuses of the contract. *)
Lemma Logging_answers Q next r :
  ends_with Q (next r) →
  ends_with (λ x, Q x.1 ∧ al_status x.2 = rs_status x.1 ∧
                  al_bytes x.2 = Z.of_nat (String.length (rs_body x.1))) (Logging next r).
Proof.
  intros Hn. apply ends_bind. intros start. eapply ends_bind_with; [exact Hn|].
  intros resp HQ. by apply ends_bind.
Qed.
End logging.
