(* ===== verification/Worker.v ===== *)
(** * The worker: internal/worker and cmd/worker

    What a worker does with one message and with one job: the consumer's handler, the
    executor's [execute] and [fail], the reporter, the two runners. The executor's loop and
    its goroutines are in Executor.v. *)

From Stdlib Require Import SpecFloat.
From S2P Require Import Prelude GoStd Decimal Models GoTime Json JsonFacts World Lifecycle Broker.

(** ** The interfaces *)

(** JobRunner: Run on a payload. *)
Definition JobRunner `{Env} : Type := RawMessage → Prog (Res unit).

(** ResultReporter *)
Class ResultReporter `{Env} : Type :=
  ReportResult : Job → bool → string → Prog (Res string).

Section worker.
Context `{E : Env}.

(** ** KafkaReporter, for the worker [workerID] *)

Definition result_of (workerID : uuid) (job : Job) (success : bool) (errMsg : string)
    : ResultMessage :=
  {| rm_JobID := job_ID job;
     rm_WorkerID := workerID;
     rm_Success := success;
     rm_Error := errMsg;
     rm_JobType := job_Type job;
     rm_Payload := job_Payload job;
     rm_Attempts := job_Attempts job |}.

(** KafkaReporter.ReportResult *)
Definition kafka_ReportResult (workerID : uuid) : ResultReporter :=
  λ job success errMsg,
    let! r := Publish TopicResults (uuid_String (job_ID job))
                (result_of workerID job success errMsg) in
    Ret (match r with
         | Err e => Err e
         | Ok _ => Ok (if success then "COMPLETED" else "REPORTED")
         end).

(** KafkaReporter.SendHeartbeat *)
Definition SendHeartbeat (workerID : uuid) (hostname : string) (cpu memory : float64)
    (runningJobs : Z) : Prog (Res unit) :=
  let! now := time_Now in
  Publish TopicHeartbeats (uuid_String workerID)
    (mkHeartbeatMessage workerID hostname cpu memory runningJobs
       (wall_clock (local_offset now) now)).

(** ** KafkaJobConsumer *)

(** The job that handle sends to the executor. *)
Definition received_job (msg : JobMessage) : Job :=
  {| job_ID := jm_JobID msg;
     job_Status := JobStatusQueued;      (* the zero value: never read by the executor *)
     job_Type := jm_Type msg;
     job_Payload := jm_Payload msg;
     job_Priority := jm_Priority msg;
     job_Attempts := jm_Attempts msg;
     job_WorkerID := None;
     job_CreatedAt := 0;
     job_UpdatedAt := 0 |}.

(** What handle makes of a message: it is refused, skipped (another worker's), or a job for
    the channel. *)
Inductive Delivery : Type :=
| Refused (e : error)
| Skipped
| Deliver (j : Job).

Definition kafka_handle (workerID : uuid) (value : string) : Delivery :=
  match Decode (T := JobMessage) value with
  | Err e => Refused e
  | Ok msg =>
      if bool_decide (jm_WorkerID msg = workerID) then Deliver (received_job msg) else Skipped
  end.

(** KafkaJobConsumer.handle: its answer, and the job that went to the channel. [select] says
    how the select ends for a job: it is sent, or the context's error comes first. *)
Definition handle_message (workerID : uuid) (select : Job → option error) (value : string)
    : Res unit * option Job :=
  match kafka_handle workerID value with
  | Refused e => (Err e, None)
  | Skipped => (Ok tt, None)
  | Deliver j => match select j with None => (Ok tt, Some j) | Some e => (Err e, None) end
  end.

(** ** Executor.execute *)

Context {R : ResultReporter}.

(** Executor.fail *)
Definition fail (job : Job) (errMsg : string) : Prog unit :=
  let! _ := ReportResult job false errMsg in Ret tt.

Definition no_runner : string := "no runner registered for job type".

(** Executor.execute; the value is what the deferred function observes in the duration
    histogram: the labels job_type and success. *)
Definition execute (runners : gmap string JobRunner) (job : Job) : Prog (string * bool) :=
  match runners !! job_Type job with
  | None => fail job no_runner ;;! Ret (job_Type job, false)
  | Some runner =>
      let! r := runner (job_Payload job) in
      match r with
      | Err e => fail job (error_Error e) ;;! Ret (job_Type job, false)
      | Ok _ =>
          let! r := ReportResult job true EmptyString in
          match r with
          | Err _ => Ret (job_Type job, false)
          | Ok _ => Ret (job_Type job, true)
          end
      end
  end.

(** ** The runners of cmd/worker *)

Definition EchoRunner : JobRunner := λ _, Ret (Ok tt).
End worker.

(** *** time.ParseDuration *)

(** leadingInt: the digits in front, within 2^63. *)
Fixpoint leadingInt (x : Z) (s : string) : option (Z * string) :=
  match s with
  | String c s' =>
      if is_digit c then
        if 2 ^ 63 / 10 <? x then None
        else let x' := x * 10 + digit_value c in
             if 2 ^ 63 <? x' then None else leadingInt x' s'
      else Some (x, s)
  | EmptyString => Some (x, s)
  end.

(** float64 arithmetic. *)
Definition f64_of_Z (z : Z) : spec_float := binary_normalize 53 1024 z 0 false.
Definition f64_mul : spec_float → spec_float → spec_float := SFmul 53 1024.
Definition f64_div : spec_float → spec_float → spec_float := SFdiv 53 1024.
(** uint64(f) of a finite non-negative f. *)
Definition f64_trunc (f : spec_float) : Z :=
  match f with
  | S754_finite false m e => Z.shiftl (Zpos m) e
  | _ => 0
  end.

(** leadingFraction: the digits that fit, the scale for them, and the rest. *)
Fixpoint leadingFraction (overflow : bool) (x : Z) (scale : spec_float) (s : string)
    : Z * spec_float * string :=
  match s with
  | String c s' =>
      if is_digit c then
        if overflow || ((2 ^ 63 - 1) / 10 <? x) then leadingFraction true x scale s'
        else let y := x * 10 + digit_value c in
             if 2 ^ 63 <? y then leadingFraction true x scale s'
             else leadingFraction false y (f64_mul scale (f64_of_Z 10)) s'
      else (x, scale, s)
  | EmptyString => (x, scale, s)
  end.

(** The unit names, micro with either of the two code points, in nanoseconds. *)
Definition duration_units : list (string * Z) :=
  [("ns", 1); ("us", 1000); (chr 194 +:+ chr 181 +:+ "s", 1000);
   (chr 206 +:+ chr 188 +:+ "s", 1000); ("ms", 1000000); ("s", 1000000000);
   ("m", 60000000000); ("h", 3600000000000)].

Fixpoint assoc (k : string) (l : list (string * Z)) : option Z :=
  match l with
  | [] => None
  | (k', v) :: l' => if bool_decide (k = k') then Some v else assoc k l'
  end.

(** The bytes before the next digit or period. *)
Fixpoint span_unit (s : string) : string * string :=
  match s with
  | String c s' =>
      if is_digit c || is_byte 46 c then (EmptyString, s)
      else let '(u, r) := span_unit s' in (String c u, r)
  | EmptyString => (EmptyString, EmptyString)
  end.

(** One number with its unit: its nanoseconds and the rest of the text. *)
Definition parse_component (s : string) : option (Z * string) :=
  match s with
  | EmptyString => None
  | String c _ =>
      if negb (is_byte 46 c || is_digit c) then None else
      match leadingInt 0 s with
      | None => None
      | Some (v, s1) =>
          let pre := negb (String.length s =? String.length s1)%nat in
          let '(f, scale, s2, post) :=
            match s1 with
            | String d s1' =>
                if is_byte 46 d then
                  let '(f, scale, s2) := leadingFraction false 0 (f64_of_Z 1) s1' in
                  (f, scale, s2, negb (String.length s1' =? String.length s2)%nat)
                else (0, f64_of_Z 1, s1, false)
            | EmptyString => (0, f64_of_Z 1, s1, false)
            end in
          if negb pre && negb post then None else
          let '(u, s3) := span_unit s2 in
          if string_is_empty u then None else
          match assoc u duration_units with
          | None => None
          | Some unit =>
              if 2 ^ 63 / unit <? v then None else
              let v1 := v * unit in
              if 0 <? f then
                let v2 := v1 + f64_trunc (f64_mul (f64_of_Z f) (f64_div (f64_of_Z unit) scale)) in
                if 2 ^ 63 <? v2 then None else Some (v2, s3)
              else Some (v1, s3)
          end
      end
  end.

(** The sum of the components; each one consumes a byte, so the length is enough fuel. *)
Fixpoint parse_components (fuel : nat) (d : Z) (s : string) : option Z :=
  match s, fuel with
  | EmptyString, _ => Some d
  | _, O => None
  | _, S fuel' =>
      match parse_component s with
      | None => None
      | Some (v, s') => if 2 ^ 63 <? d + v then None else parse_components fuel' (d + v) s'
      end
  end.

Definition ParseDuration (s : string) : option Z :=
  let '(neg, s1) :=
    match s with
    | String c s' => if is_byte 45 c then (true, s') else if is_byte 43 c then (false, s') else (false, s)
    | EmptyString => (false, s)
    end in
  if bool_decide (s1 = "0") then Some 0
  else if string_is_empty s1 then None
  else match parse_components (String.length s1) 0 s1 with
       | None => None
       | Some d => if neg then Some (- d) else if 2 ^ 63 - 1 <? d then None else Some d
       end.

(** *** SleepRunner *)

Definition default_sleep : Z := 2000000000.

(** How long a sleep job sleeps; a nil payload is an empty input. *)
Definition sleep_duration (payload : RawMessage) : Res Z :=
  result_map (λ s, match ParseDuration s with Some d => d | None => default_sleep end)
    (decode_struct EmptyString (λ l, get_string (field ["duration"] "duration" l))
       (match payload with Some p => p | None => EmptyString end)).

Section sleep.
Context `{E : Env}.

(** The select on the timer and the context, as one action: it answers when [d] is over, and
    with the context's error when that ends first. *)
Definition sleep (d : Z) : Prog (Res unit) := call (λ _ w, (Ok tt, w)).

Definition SleepRunner : JobRunner := λ payload,
  match sleep_duration payload with
  | Err e => Ret (Err e)
  | Ok d => sleep d
  end.

(** The map of main. *)
Definition runners : gmap string JobRunner :=
  <["echo" := EchoRunner]> (<["sleep" := SleepRunner]> ∅).
End sleep.
