(* ===== verification/WorkerSpec.v ===== *)
(** * What a worker reports

    Every job that is executed gives one result, whatever becomes of its runner; the result
    carries the job and what happened; a message for another worker is not executed; the
    duration of a sleep job. *)

From S2P Require Import Prelude GoStd Decimal Models GoTime Json JsonFacts Compact World MemEnv.
From S2P Require Import Lifecycle Broker BrokerSpec Worker.

(** ** Safety *)

Section safety.
Context `{E : Env}.

(** What the executor needs of its reporter and of the runners. *)
Class ResultReporterSafe (R : ResultReporter) : Prop :=
  ReportResult_safe job success errMsg :
    prog_safe Inv world_step (ReportResult (ResultReporter := R) job success errMsg).

Definition runners_safe (rs : gmap string JobRunner) : Prop :=
  ∀ t r p, rs !! t = Some r → prog_safe Inv world_step (r p).

#[export] Instance kafka_ReportResult_safe wid : ResultReporterSafe (kafka_ReportResult wid).
Proof.
  intros job success errMsg. unfold ReportResult, kafka_ReportResult.
  by apply prog_safe_bind; [apply Publish_safe|].
Qed.

Lemma execute_safe {R} `{!ResultReporterSafe R} rs job :
  runners_safe rs → prog_safe Inv world_step (execute rs job).
Proof.
  intros Hrs. assert (Hfail : ∀ msg, prog_safe Inv world_step (fail job msg ;;! Ret (job_Type job, false))).
  { intros msg. apply prog_safe_bind; [|done]. by apply prog_safe_bind; [apply ReportResult_safe|]. }
  unfold execute. destruct (rs !! job_Type job) as [r|] eqn:Hr; [|apply Hfail].
  apply prog_safe_bind; [by eapply Hrs|]. intros [[]|e]; [|apply Hfail].
  apply prog_safe_bind; [apply ReportResult_safe|]. by intros [|].
Qed.

Lemma runners_are_safe : runners_safe runners.
Proof.
  intros t r p. unfold runners. rewrite !lookup_insert_Some, lookup_empty.
  intros [[_ <-]|[_ [[_ <-]|[_ ?]]]]; [done| |done].
  unfold SleepRunner. destruct (sleep_duration p); [|done].
  apply prog_safe_call; [apply _|]. intros inp w HI. by split; [|apply world_step_refl].
Qed.

Lemma SendHeartbeat_safe wid host cpu mem n :
  prog_safe Inv world_step (SendHeartbeat wid host cpu mem n).
Proof.
  apply prog_safe_bind; [|intros; apply Publish_safe].
  apply prog_safe_local. intros inp w HI. by split; [|apply world_step_refl].
Qed.
End safety.
#[export] Hint Resolve execute_safe runners_are_safe SendHeartbeat_safe : sched.

(** ** Reports *)

Section reports.
Context `{E : Env}.
Implicit Types w : World.

(** What becomes of a job before the report: its runner's answer and the world it leaves. *)
Definition attempt (rs : gmap string JobRunner) (job : Job) (ins : list Input) (w : World)
    : Res unit * World :=
  match rs !! job_Type job with
  | Some r => run (r (job_Payload job)) ins w
  | None => (Err (ErrText no_runner), w)
  end.
Definition attempt_rest (rs : gmap string JobRunner) (job : Job) (ins : list Input) (w : World)
    : list Input :=
  match rs !! job_Type job with
  | Some r => run_rest (r (job_Payload job)) ins w
  | None => ins
  end.

Definition succeeded (r : Res unit) : bool := match r with Ok _ => true | Err _ => false end.
Definition report_text (r : Res unit) : string :=
  match r with Ok _ => EmptyString | Err e => error_Error e end.

(** The three branches of execute are one report of what the attempt gave. *)
Lemma run_execute {R : ResultReporter} rs job ins w :
  run (execute rs job) ins w =
  let '(r, w1) := attempt rs job ins w in
  let '(ack, w2) := run (ReportResult job (succeeded r) (report_text r))
                      (attempt_rest rs job ins w) w1 in
  ((job_Type job, succeeded r && match ack with Ok _ => true | Err _ => false end), w2).
Proof.
  unfold execute, attempt, attempt_rest. destruct (rs !! job_Type job) as [r|]; cbn [succeeded].
  - rewrite run_bind. destruct (run (r _) ins w) as [[[]|e] w1]; cbn [fst snd succeeded report_text].
    + rewrite run_bind. destruct (run (ReportResult _ _ _) _ w1) as [[ack|e] w2]; done.
    + unfold fail. rewrite !run_bind. cbn.
      by destruct (run (ReportResult _ _ _) _ w1) as [[ack|e'] w2].
  - unfold fail. rewrite !run_bind. cbn. by destruct (run (ReportResult _ _ _) _ w) as [[ack|e'] w2].
Qed.

Lemma result_Marshal_ok wid job success errMsg :
  job_Payload job = None ∨ json_text (job_Payload job) →
  ∃ body, json_Marshal (result_of wid job success errMsg) = Ok body.
Proof. intros Hp. by apply ResultMessage_Marshal_ok. Qed.

Context `{!UuidLaws}.

(** C27: executing a job reports exactly one result, on every branch: after the runner's
    own effects one message is appended to the results topic, under the job's identifier. It
    says success exactly when a runner is registered for the job's type and returned no
    error, and otherwise carries the error's text; what the collector decodes from it has
    this worker, and the job's identifier, type, attempts and payload (compacted). The
    duration is observed with the same success label. *)
Theorem execute_reports wid rs job ins w :
  let '(r, w1) := attempt rs job ins w in
  all_done ins → job_Payload job = None ∨ json_text (job_Payload job) →
  utf8_valid (job_Type job) = true → utf8_valid (report_text r) = true →
  int64_ok (job_Attempts job) = true →
  ∃ body, run (execute (R := kafka_ReportResult wid) rs job) ins w =
      ((job_Type job, succeeded r),
       set_log (w_log w1 ++ [mkKafkaMessage TopicResults (uuid_String (job_ID job)) body]) w1) ∧
    Decode body = Ok (mkResultMessage (job_ID job) wid (succeeded r) (report_text r)
      (job_Type job)
      (if raw_is_empty (job_Payload job) then None else carried (job_Payload job))
      (job_Attempts job)).
Proof.
  destruct (attempt rs job ins w) as [r w1] eqn:Hat. intros Hd Hp Ht He Ha.
  destruct (result_Marshal_ok wid job (succeeded r) (report_text r) Hp) as [body Hb].
  exists body. split.
  - rewrite run_execute, Hat. unfold ReportResult, kafka_ReportResult. rewrite run_bind.
    rewrite (run_Publish TopicResults _ _ body);
      [|apply list_elem_of_In; cbn; auto|done|].
    + cbn. by rewrite andb_true_r.
    + unfold attempt_rest. destruct (rs !! _); [by apply all_done_rest|done].
  - by apply (ResultMessage_decode (result_of wid job (succeeded r) (report_text r))).
Qed.

(** A result whose publication fails is gone: the runner has done its work, no message
    is on the topic, nothing is kept for another try, and the duration is observed as a
    failure. *)
Theorem execute_report_lost wid rs job ins w e :
  let '(r, w1) := attempt rs job ins w in
  in_outcome (hd default_input (attempt_rest rs job ins w)) = Lost e →
  run (execute (R := kafka_ReportResult wid) rs job) ins w = ((job_Type job, false), w1).
Proof.
  destruct (attempt rs job ins w) as [r w1] eqn:Hat. intros He.
  rewrite run_execute, Hat. unfold ReportResult, kafka_ReportResult, Publish.
  rewrite bool_decide_true by (apply list_elem_of_In; cbn; auto).
  destruct (json_Marshal _) as [body|e']; cbn; [|by rewrite andb_false_r].
  unfold perform. rewrite He. cbn. by rewrite andb_false_r.
Qed.

(** A worker executes only what is assigned to it, and exactly what was published: a
    message of the dispatcher goes to the executor of the worker it names, with the job's
    identifier, type, priority, attempts and compacted payload - unless the context ends
    first, and then the handler fails, so that the message is not committed; every other
    worker skips it without an error; a value that is no job message is refused. *)
Theorem kafka_handle_filters m body wid select value :
  utf8_valid (jm_Type m) = true → int16_ok (jm_Priority m) = true →
  int64_ok (jm_Attempts m) = true → json_Marshal m = Ok body →
  handle_message wid select body =
    (if bool_decide (jm_WorkerID m = wid) then
       let j := mkJob (jm_JobID m) JobStatusQueued (jm_Type m) (carried (jm_Payload m))
                  (jm_Priority m) (jm_Attempts m) None 0 0 in
       match select j with None => (Ok tt, Some j) | Some e => (Err e, None) end
     else (Ok tt, None)) ∧
  (∀ e, Decode (T := JobMessage) value = Err e → handle_message wid select value = (Err e, None)).
Proof.
  intros Ht Hp Ha Hb. unfold handle_message, kafka_handle. split.
  - rewrite (JobMessage_decode m body Ht Hp Ha Hb). by destruct (bool_decide _).
  - by intros e ->.
Qed.
End reports.

(** ** The sleep runner *)

Lemma digit_value_range c : is_digit c = true → 0 ≤ digit_value c ≤ 9.
Proof.
  unfold is_digit, digit_value. intros [H1%Nat.leb_le H2%Nat.leb_le]%andb_prop. lia.
Qed.

Lemma digits_value_ge acc s n : 0 ≤ acc → digits_value acc s = Some n → acc ≤ n.
Proof.
  revert acc. induction s as [|c s IH]; intros acc Ha; cbn; [by intros [= <-]|].
  destruct (is_digit c) eqn:Hc; [|done]. apply digit_value_range in Hc.
  intros Hn. apply IH in Hn; lia.
Qed.

(** leadingInt agrees with the value of the digits. *)
Lemma leadingInt_digits acc s n t :
  0 ≤ acc → digits_value acc s = Some n → n < 2 ^ 63 →
  match t with String c _ => is_digit c = false | EmptyString => True end →
  leadingInt acc (s +:+ t) = Some (n, t).
Proof.
  revert acc. induction s as [|c s IH]; intros acc Ha Hn Hlt Ht.
  - cbn in Hn. injection Hn as <-. rewrite append_nil. destruct t as [|c t]; cbn; [done|].
    by rewrite Ht.
  - rewrite append_cons. cbn [leadingInt digits_value] in *.
    destruct (is_digit c) eqn:Hc; [|done]. apply digit_value_range in Hc.
    pose proof (digits_value_ge (10 * acc + digit_value c) s n ltac:(lia) Hn) as Hge.
    replace (acc * 10 + digit_value c) with (10 * acc + digit_value c) by lia.
    rewrite (proj2 (Z.ltb_ge (2 ^ 63 / 10) acc)) by (apply Z.div_le_lower_bound; lia).
    rewrite (proj2 (Z.ltb_ge (2 ^ 63) _)) by lia. apply IH; [lia|done..].
Qed.

(** The text of a whole number of seconds. *)
Lemma ParseDuration_seconds (n : N) :
  Z.of_N n * 1000000000 < 2 ^ 63 →
  ParseDuration (pretty n +:+ "s") = Some (Z.of_N n * 1000000000).
Proof.
  intros Hn. pose proof (pretty_N_decimal n) as Hdec. pose proof (pretty_N_value n) as Hval.
  destruct (pretty n) as [|c s] eqn:Hs; [done|].
  assert (Hc : is_digit c = true).
  { apply is_decimal_digits in Hdec. cbn in Hdec. by apply andb_prop in Hdec as [? _]. }
  pose proof (leadingInt_digits 0 (String c s) (Z.of_N n) "s" ltac:(done) Hval ltac:(lia) eq_refl) as Hlead.
  assert (Hsign : is_byte 45 c = false ∧ is_byte 43 c = false ∧ is_byte 46 c = false).
  { by destruct c as [[] [] [] [] [] [] [] []]. }
  destruct Hsign as (H45 & H43 & H46). unfold ParseDuration. rewrite append_cons.
  rewrite H45, H43. rewrite bool_decide_false.
  2: { intros [= -> He]. by destruct s. }
  cbn [string_is_empty]. rewrite append_cons in Hlead.
  set (L := String c (s +:+ "s")) in *.
  assert (Hcomp : parse_component L = Some (Z.of_N n * 1000000000, EmptyString)).
  { unfold parse_component, L. rewrite H46, Hc. cbn [negb orb]. fold L. rewrite Hlead.
    assert ((String.length L =? String.length "s")%nat = false) as ->.
    { apply Nat.eqb_neq. unfold L. cbn. rewrite length_append. cbn. lia. }
    replace (is_byte 46 "s") with false by (vm_compute; reflexivity). cbn [negb andb].
    replace (span_unit "s") with ("s", EmptyString) by (vm_compute; reflexivity).
    cbn [string_is_empty].
    replace (assoc "s" duration_units) with (Some 1000000000) by (vm_compute; reflexivity).
    rewrite (proj2 (Z.ltb_ge _ _)); [done|]. apply Z.div_le_lower_bound; lia. }
  assert (Hnz : ∃ f, String.length L = S f) by (unfold L; cbn; by eexists).
  destruct Hnz as [f ->]. cbn [parse_components]. unfold L at 1. fold L. rewrite Hcomp.
  rewrite Z.add_0_l, (proj2 (Z.ltb_ge (2 ^ 63) _)) by lia.
  assert (∀ f d, parse_components f d EmptyString = Some d) as -> by (by destruct f0).
  by rewrite (proj2 (Z.ltb_ge _ _)) by lia.
Qed.

Lemma sleep_duration_object s :
  utf8_valid s = true →
  sleep_duration (Some (render_object [("duration", json_string s)])) =
  Ok (match ParseDuration s with Some d => d | None => default_sleep end).
Proof.
  intros Hs. unfold sleep_duration, decode_struct.
  rewrite read_render_object by (unfold members_ok; members_tac).
  cbn [field].
  replace (names_match ["duration"] "duration" "duration") with true by (vm_compute; reflexivity).
  cbv match. by rewrite get_string_printed.
Qed.

(** A sleep job whose duration is written as a whole number of seconds sleeps exactly
    that long, within int64; one whose duration cannot be parsed, and a null payload, sleeps
    two seconds; a job without a payload fails. *)
Theorem sleep_duration_spec :
  (∀ n : N, Z.of_N n * 1000000000 < 2 ^ 63 →
     sleep_duration (Some (render_object [("duration", json_string (pretty n +:+ "s"))])) =
       Ok (Z.of_N n * 1000000000)) ∧
  (∀ s, utf8_valid s = true → ParseDuration s = None →
     sleep_duration (Some (render_object [("duration", json_string s)])) = Ok 2000000000) ∧
  sleep_duration (Some "null") = Ok 2000000000 ∧
  ∃ e, sleep_duration None = Err e.
Proof.
  split_and!.
  - intros n Hn. rewrite sleep_duration_object; [by rewrite ParseDuration_seconds|].
    apply all_ascii_valid. rewrite all_ascii_app. apply andb_true_intro. split; [|done].
    apply digits_ascii, is_decimal_digits, pretty_N_decimal.
  - intros s Hs Hn. by rewrite sleep_duration_object, Hn.
  - done.
  - by eexists.
Qed.
