(* ===== verification/HeartbeatSpec.v ===== *)
(** * The way of a heartbeat

    From the worker's reporter (internal/worker/kafka_producer.go) over the topic heartbeats to
    the workers table (internal/scheduler/heartbeat_consumer.go). *)

From S2P Require Import Prelude GoStd Decimal Models GoTime Json JsonFacts TimeFacts Floats World.
From S2P Require Import Sql Lifecycle WorkersRepo WorkersSpec Broker BrokerSpec Monitor Worker.
From S2P Require Import WorkerSpec.

Section heartbeat.
Context `{E : Env, !UuidLaws}.
Implicit Types w : World.

(** What is sent, at a time that has an RFC 3339 form. *)
Lemma run_SendHeartbeat wid host cpu mem n inp ins w :
  all_done ins →
  let t := wall_clock (local_offset (in_now inp)) (in_now inp) in
  time_marshals t = true →
  ∃ body, json_Marshal (mkHeartbeatMessage wid host cpu mem n t) = Ok body ∧
    run (SendHeartbeat wid host cpu mem n) (inp :: ins) w =
      (Ok tt, set_log (w_log w ++ [mkKafkaMessage TopicHeartbeats (uuid_String wid) body]) w).
Proof.
  intros Hds t Ht. set (hm := mkHeartbeatMessage _ _ _ _ _ _).
  assert (∃ body, json_Marshal hm = Ok body) as [body Hb].
  { cbn [json_Marshal HeartbeatMessage_Json hm_Timestamp hm]. rewrite Ht. by eexists. }
  exists body. split; [done|]. unfold SendHeartbeat, time_Now. rewrite run_bind_local. cbn [hd tl].
  apply run_Publish; [apply list_elem_of_In; cbn; auto|done|done].
Qed.

(** What the consumer makes of it: one call of UpsertHeartbeat. *)
Lemma run_heartbeat_Handle wid host cpu mem n off t body key inp ins w :
  Inv w → in_outcome inp = Done → int64_ok n = true →
  json_Marshal (mkHeartbeatMessage wid host cpu mem n (wall_clock off t)) = Ok body →
  let stored := pg_text (to_valid host) = true ∧ fits_5_2 cpu ∧ fits_5_2 mem ∧
                int32_ok n = true in
  match run (heartbeat_Handle key body) (inp :: ins) w with
  | (Ok _, w') => stored ∧ same_but_workers w w' ∧
      ∃ x, heartbeat_row w wid (to_valid host) cpu mem n (in_now inp) x ∧
           w_workers w' = <[wid := x]> (w_workers w)
  | (Err _, w') => w' = w ∧ ¬ stored
  end.
Proof.
  intros HI Hd Hn Hb stored. unfold heartbeat_Handle.
  rewrite (HeartbeatMessage_decode wid host cpu mem n _ _ body Hn Hb).
  cbn [hm_WorkerID hm_Hostname hm_CPU hm_Memory hm_RunningJobs].
  unfold bind_ok. rewrite run_bind.
  pose proof (upsert_heartbeat_run wid (to_valid host) cpu mem n inp ins w HI Hd) as Hu.
  cbn [Workers_UpsertHeartbeat pgWorkersRepo].
  by destruct (run (UpsertHeartbeat _ _ _ _ _) _ w) as [[[]|e] w2].
Qed.

(** C34: a heartbeat goes through the system: what a worker sends is one message on the topic
    heartbeats, under the worker's identifier; the scheduler's consumer stores it exactly when
    the host is a text for PostgreSQL, cpu and memory are below 999.995 and the number of jobs
    is a 32-bit integer - the worker is then registered and serving, with the numbers that
    were sent, rounded to hundredths, and the time of its arrival -, and otherwise fails and
    changes nothing. At a time that has no RFC 3339 form nothing is sent. *)
Theorem heartbeat_goes_through wid host cpu mem n inp ins inp2 ins2 w :
  Inv w → in_outcome inp = Done → all_done ins → in_outcome inp2 = Done → int64_ok n = true →
  let t := wall_clock (local_offset (in_now inp)) (in_now inp) in
  (time_marshals t = false →
   ∃ e, run (SendHeartbeat wid host cpu mem n) (inp :: ins) w = (Err e, w)) ∧
  (time_marshals t = true →
   ∃ m w1, run (SendHeartbeat wid host cpu mem n) (inp :: ins) w = (Ok tt, w1) ∧
     w1 = set_log (w_log w ++ [m]) w ∧ km_topic m = TopicHeartbeats ∧
     km_key m = uuid_String wid ∧
     let stored := pg_text (to_valid host) = true ∧ fits_5_2 cpu ∧ fits_5_2 mem ∧
                   int32_ok n = true in
     match run (heartbeat_Handle (km_key m) (km_value m)) (inp2 :: ins2) w1 with
     | (Ok _, w2) => stored ∧ same_but_workers w1 w2 ∧
         ∃ x, heartbeat_row w1 wid (to_valid host) cpu mem n (in_now inp2) x ∧
              w_workers w2 = <[wid := x]> (w_workers w1)
     | (Err _, w2) => w2 = w1 ∧ ¬ stored
     end).
Proof.
  intros HI Hd Hds Hd2 Hn t. split; intros Ht.
  - unfold SendHeartbeat, time_Now. rewrite run_bind_local. cbn [hd tl]. unfold Publish.
    rewrite bool_decide_true by (apply list_elem_of_In; cbn; auto).
    cbn [json_Marshal HeartbeatMessage_Json hm_Timestamp]. fold t. rewrite Ht. by eexists.
  - destruct (run_SendHeartbeat wid host cpu mem n inp ins w Hds Ht) as (body & Hb & ->).
    eexists (mkKafkaMessage TopicHeartbeats (uuid_String wid) body), _.
    split_and!; [done..|]. cbn [km_key km_value].
    eapply run_heartbeat_Handle; [|done|done|exact Hb].
    by apply (frame_safe w); [..|eexists].
Qed.
End heartbeat.
