(* ===== verification/Quiet.v ===== *)
(** * What the programs leave alone

    Most programs publish nothing, insert no dead letter, and insert only jobs whose type and
    priority have a JSON form. Those that do more are the subject of Provenance.v. *)

From S2P Require Import Prelude GoStd Models Json World Sql Lifecycle JobsRepo WorkersRepo.
From S2P Require Import DeadLettersRepo Broker Cache Monitor Http JobHandler OtherHandlers Router.
From S2P Require Import Worker.

(** A row whose message can be read by a worker. *)
Definition typed_row (j : Job) : Prop :=
  utf8_valid (job_Type j) = true ∧ int16_ok (job_Priority j) = true.

Section quiet.
Context `{E : Env}.
Implicit Types (w : World) (inp : Input).

Definition quiet w w' : Prop :=
  w_log w' = w_log w ∧
  (∀ id j, w_jobs w !! id = None → w_jobs w' !! id = Some j → typed_row j) ∧
  (∀ id, w_dead w !! id = None → w_dead w' !! id = None).

Definition prog_quiet {A} (p : Prog A) : Prop := prog_safe (λ _, True) quiet p.

(** Nothing inserted into the jobs table. *)
Lemma quiet_intro w w' :
  w_log w' = w_log w → (∀ id, w_jobs w !! id = None → w_jobs w' !! id = None) →
  (∀ id, w_dead w !! id = None → w_dead w' !! id = None) → quiet w w'.
Proof.
  intros Hl Hj Hd. split; [done|]. split; [|done]. intros id j Hn Hs. by rewrite (Hj id Hn) in Hs.
Qed.

#[export] Instance quiet_refl : Reflexive quiet.
Proof. intros w. by apply quiet_intro. Qed.

Lemma quiet_jobs w t :
  (∀ id j, w_jobs w !! id = None → t !! id = Some j → typed_row j) → quiet w (set_jobs t w).
Proof. done. Qed.

(** An update inserts nothing. *)
Lemma quiet_jobs_kept w t :
  (∀ id, w_jobs w !! id = None → t !! id = None) → quiet w (set_jobs t w).
Proof. intros Ht. by apply quiet_intro. Qed.

Lemma quiet_dead w t :
  (∀ id, w_dead w !! id = None → t !! id = None) → quiet w (set_dead t w).
Proof. intros Ht. by apply quiet_intro. Qed.

Lemma quiet_workers w t : quiet w (set_workers t w).
Proof. by apply quiet_intro. Qed.

(** ** The calls *)

Lemma quiet_call {B} (f : action B) :
  (∀ inp w, quiet w (f inp w).2) → prog_quiet (call f).
Proof. intros Hf. apply prog_safe_call; [apply _|]. auto. Qed.

Lemma quiet_local {B} (f : Input → World → B * World) :
  (∀ inp w, quiet w (f inp w).2) → prog_quiet (local f).
Proof. intros Hf. apply prog_safe_local. auto. Qed.

Lemma quiet_bind {A B} (p : Prog A) (q : A → Prog B) :
  prog_quiet p → (∀ a, prog_quiet (q a)) → prog_quiet (bind p q).
Proof. apply prog_safe_bind. Qed.

Lemma quiet_bind_ok {A B} (p : Prog (Res A)) (q : A → Prog (Res B)) :
  prog_quiet p → (∀ a, prog_quiet (q a)) → prog_quiet (bind_ok p q).
Proof. apply prog_safe_bind_ok. Qed.

Lemma quiet_method {B C} (f : action B) (g : Res B → C) :
  (∀ inp w, quiet w (f inp w).2) → prog_quiet (bind (call f) (λ r, Ret (g r))).
Proof. intros Hf. apply quiet_bind; [by apply quiet_call|done]. Qed.

Lemma quiet_redis {B} (f : action B) : redis_only f → prog_quiet (call f).
Proof.
  intros Hf. apply quiet_call. intros inp w. destruct (Hf inp w) as [r ->].
  by apply quiet_intro.
Qed.

Lemma Inc_quiet c : prog_quiet (Inc c).
Proof.
  apply quiet_local. intros inp w. by apply quiet_intro.
Qed.

Lemma uuid_New_quiet : prog_quiet uuid_New.
Proof. by apply quiet_local. Qed.

Lemma time_Now_quiet : prog_quiet time_Now.
Proof. by apply quiet_local. Qed.
End quiet.
#[export] Hint Resolve quiet_bind quiet_bind_ok Inc_quiet uuid_New_quiet time_Now_quiet : sched.

(** ** The repositories *)

Section repositories.
Context `{E : Env, !TextLaws}.
Implicit Types (w : World) (inp : Input).

Lemma update_id_none {A} k (p : A → bool) (f : A → A) (t : gmap uuid A) id :
  t !! id = None → (update_id k p f t).1 !! id = None.
Proof. intros Hn. rewrite lookup_update_id. case_decide; [by rewrite Hn|done]. Qed.

Lemma sql_update_job_quiet id p f inp w : quiet w (sql_update_job id p f inp w).2.
Proof.
  unfold sql_update_job. destruct (update_id _ _ _ _) as [t n] eqn:Ht.
  apply quiet_jobs_kept. intros k Hk.
  replace t with (update_id id p (set_updated_at (in_now inp) f) (w_jobs w)).1 by (by rewrite Ht).
  by apply update_id_none.
Qed.

(** The only insertion of jobs. *)
Lemma Create_quiet j : int16_ok (job_Priority j) = true → prog_quiet (Create j).
Proof.
  intros Hp. apply quiet_method. intros inp w. unfold sql_insert_job.
  destruct (job_Payload j) as [p|]; [|done].
  destruct (negb (pg_text _)) eqn:Ht; [done|]. destruct (jsonb p) as [doc|]; [|done].
  destruct (w_jobs w !! job_ID j); [done|]. apply quiet_jobs. intros id j' Hn.
  rewrite lookup_insert_Some. intros [[_ <-]|[_ Hj]]; [|by rewrite Hn in Hj].
  apply negb_false_iff in Ht. split; [by apply pg_text_utf8|done].
Qed.

Lemma Cancel_quiet id : prog_quiet (Cancel id).
Proof. apply quiet_method. intros. apply sql_update_job_quiet. Qed.

Lemma Get_quiet id : prog_quiet (Get id).
Proof. by apply quiet_method. Qed.

Lemma List_quiet p : prog_quiet (List_ p).
Proof. by apply quiet_method. Qed.

Lemma sql_fetch_pending_quiet wid limit inp w : quiet w (sql_fetch_pending wid limit inp w).2.
Proof.
  unfold sql_fetch_pending.
  destruct (limit <? 0); [done|]. destruct (negb _); [done|]. destruct (_ && _); [done|].
  apply quiet_jobs_kept. intros id Hn. cbn. by rewrite lookup_fmap, Hn.
Qed.

Lemma FetchPending_quiet wid limit : prog_quiet (FetchPending wid limit).
Proof. apply quiet_method. intros. apply sql_fetch_pending_quiet. Qed.

Lemma RequeueStale_quiet n : prog_quiet (RequeueStale n).
Proof.
  apply quiet_method. intros inp w. unfold sql_requeue_stale. cbn.
  apply quiet_jobs_kept. intros id Hn. by rewrite lookup_fmap, Hn.
Qed.

Lemma MarkCompleted_quiet id : prog_quiet (MarkCompleted id).
Proof. apply quiet_method. intros. apply sql_update_job_quiet. Qed.

Lemma MarkFailed_quiet id n : prog_quiet (MarkFailed id n).
Proof.
  apply quiet_method. intros inp w. unfold sql_mark_failed.
  destruct (w_jobs w !! id) as [j|] eqn:Hj; [|done]. apply quiet_jobs_kept. intros k Hn.
  apply lookup_insert_None. split; [done|]. intros ->. by rewrite Hj in Hn.
Qed.

Lemma RollbackToQueued_quiet id : prog_quiet (RollbackToQueued id).
Proof. apply quiet_method. intros. apply sql_update_job_quiet. Qed.

Lemma UpsertHeartbeat_quiet id host cpu mem n : prog_quiet (UpsertHeartbeat id host cpu mem n).
Proof.
  apply quiet_method. intros inp w. unfold sql_upsert_heartbeat.
  destruct (negb _); [done|]. destruct (numeric_5_2 cpu); [|done].
  destruct (numeric_5_2 mem); [|done]. destruct (int32_ok n); [apply quiet_workers|done].
Qed.

Lemma FetchHealthy_quiet n : prog_quiet (FetchHealthy n).
Proof. by apply quiet_method. Qed.

Lemma MarkUnhealthy_quiet n : prog_quiet (MarkUnhealthy n).
Proof. apply quiet_method. intros inp w. unfold sql_mark_unhealthy. cbn. apply quiet_workers. Qed.

Lemma GetWorker_quiet id : prog_quiet (GetWorker id).
Proof. by apply quiet_method. Qed.

Lemma ListWorkers_quiet p : prog_quiet (ListWorkers p).
Proof. by apply quiet_method. Qed.

Lemma ListDeadLetters_quiet l o : prog_quiet (ListDeadLetters l o).
Proof. by apply quiet_method. Qed.

Lemma GetDeadLetter_quiet id : prog_quiet (GetDeadLetter id).
Proof. by apply quiet_method. Qed.

Lemma MarkReplayed_quiet id jid : prog_quiet (MarkReplayed id jid).
Proof.
  apply quiet_method. intros inp w. unfold sql_mark_replayed.
  destruct (update_id _ _ _ _) as [t n] eqn:Ht. apply quiet_dead. intros k Hk.
  replace t with (update_id id (λ _, true) (replayed_row (in_now inp) jid) (w_dead w)).1
    by (by rewrite Ht).
  by apply update_id_none.
Qed.

Lemma Delete_quiet id : prog_quiet (Delete id).
Proof.
  apply quiet_method. intros inp w. unfold sql_delete_dead_letter.
  destruct (w_dead w !! id); [|done]. apply quiet_dead. intros k Hk.
  apply lookup_delete_None. by right.
Qed.
End repositories.
#[export] Hint Resolve Create_quiet Cancel_quiet Get_quiet List_quiet FetchPending_quiet
  RequeueStale_quiet MarkCompleted_quiet MarkFailed_quiet RollbackToQueued_quiet
  UpsertHeartbeat_quiet FetchHealthy_quiet MarkUnhealthy_quiet GetWorker_quiet ListWorkers_quiet
  ListDeadLetters_quiet GetDeadLetter_quiet MarkReplayed_quiet Delete_quiet : sched.

(** ** The API, the monitor, the heartbeats' consumer *)

Section clients.
Context `{E : Env, !TextLaws} {X : Mux}.

Lemma Check_quiet key id h : prog_quiet (Check_ key id h).
Proof.
  unfold Check_. cbn [json_Marshal idemEntry_Json].
  apply quiet_bind; [apply quiet_redis, (redis_commands_only _ _ _)|].
  intros [[]|e]; [done| |done].
  apply quiet_bind; [apply quiet_redis, (redis_commands_only _ EmptyString 0)|].
  intros [v|e]; [|done]. destruct (json_Unmarshal v); [|done].
  destruct (negb _); [done|]. by destruct (uuid_Parse _).
Qed.

Lemma Allow_quiet rl key : prog_quiet (Allow rl key).
Proof.
  apply quiet_bind; [apply time_Now_quiet|]. intros now.
  apply quiet_bind; [apply quiet_redis, (redis_commands_only _ EmptyString 0)|].
  intros [n|e]; [|done]. apply quiet_bind; [|done]. destruct (n =? 1); [|done].
  apply quiet_bind; [apply quiet_redis, (redis_commands_only _ EmptyString _)|done].
Qed.

Lemma StatusCache_Get_quiet id : prog_quiet (StatusCache_Get id).
Proof.
  apply quiet_bind; [apply quiet_redis, (redis_commands_only _ EmptyString 0)|done].
Qed.

Lemma StatusCache_Set_quiet id v : prog_quiet (StatusCache_Set id v).
Proof. apply quiet_redis, (redis_commands_only _ _ _). Qed.

Lemma StatusCache_Invalidate_quiet id : prog_quiet (StatusCache_Invalidate id).
Proof. apply quiet_redis, (redis_commands_only _ EmptyString 0). Qed.

(** The priority that SubmitJob decodes is an int16. *)
Lemma get_int_ok ok vs n : ok 0 = true → get_int ok vs = Ok n → ok n = true.
Proof.
  unfold get_int. generalize 0. induction vs as [|v vs IH]; intros x Hx; cbn.
  - by intros [= <-].
  - case_bool_decide; [by apply IH|]. destruct (parse_int ok v) as [y|] eqn:Hp; [|done].
    apply IH. unfold parse_int in Hp. destruct (signed_value v) as [z|]; [|done].
    destruct (ok z) eqn:Hz; [|done]. by injection Hp as <-.
Qed.

Lemma decode_SubmitJobRequest_priority body req :
  decode_SubmitJobRequest body = Ok req → int16_ok (sr_Priority req) = true.
Proof.
  unfold decode_SubmitJobRequest. destruct (next_value body) as [[v r]|]; [|done].
  unfold decode_struct. destruct (read_document v) as [| |l|]; [done|by intros [= <-]| |done].
  unfold SubmitJobRequest_fields. destruct (get_string _) as [a|]; [cbn|done].
  destruct (get_int _ _) as [b|] eqn:Hb; [cbn|done]. destruct (get_string _); [cbn|done].
  intros [= <-]. by eapply get_int_ok.
Qed.

Lemma create_job_quiet j : int16_ok (job_Priority j) = true → prog_quiet (create_job j).
Proof.
  intros Hp. apply quiet_bind; [by apply Create_quiet|]. intros [c|e]; [|done].
  by apply quiet_bind; [apply Inc_quiet|].
Qed.

Lemma SubmitJob_quiet has_idem r : prog_quiet (SubmitJob has_idem r).
Proof.
  unfold SubmitJob. destruct (decode_SubmitJobRequest _) as [req|] eqn:Hreq; [|done].
  apply decode_SubmitJobRequest_priority in Hreq.
  destruct (string_is_empty _); [done|].
  apply quiet_bind; [apply uuid_New_quiet|]. intros newID.
  destruct has_idem; [|by apply create_job_quiet].
  apply quiet_bind; [apply Check_quiet|]. intros [[existingID []]|e].
  - apply quiet_bind; [apply Get_quiet|]. by intros [j|e].
  - by apply create_job_quiet.
  - by destruct (errors_Is _ _).
Qed.

Lemma GetJobStatus_quiet has_cache r : prog_quiet (GetJobStatus has_cache r).
Proof.
  unfold GetJobStatus. destruct (uuid_Parse _) as [id|]; [|done].
  assert (prog_quiet (get_from_table has_cache id)).
  { apply quiet_bind; [apply Get_quiet|]. intros [j|e]; [|by destruct (errors_Is _ _)].
    apply quiet_bind; [|done]. destruct has_cache; [|done].
    destruct (render_JobResponse _); [|done].
    by apply quiet_bind; [apply StatusCache_Set_quiet|]. }
  destruct has_cache; [|done].
  apply quiet_bind; [apply StatusCache_Get_quiet|]. by intros [[body|]|e].
Qed.

Lemma dlq_Replay_quiet r : prog_quiet (dlq_Replay r).
Proof.
  unfold dlq_Replay. destruct (uuid_Parse _) as [id|]; [|done].
  apply quiet_bind; [apply GetDeadLetter_quiet|]. intros [d|e]; [|by destruct (errors_Is _ _)].
  case_bool_decide; [done|]. apply quiet_bind; [apply uuid_New_quiet|]. intros newID.
  apply quiet_bind; [by apply Create_quiet|]. intros [c|e]; [|done].
  apply quiet_bind; [apply MarkReplayed_quiet|]. intros [u|e]; [|done].
  by apply quiet_bind; [apply Inc_quiet|].
Qed.

(** A handler that asks the repository once, under an identifier of the path. *)
Lemma by_id_quiet {A B} (o : option uuid) (bad : B) (p : uuid → Prog A) (k : A → Prog B) :
  (∀ id, prog_quiet (p id)) → (∀ a, prog_quiet (k a)) →
  prog_quiet (match o with None => Ret bad | Some id => let! a := p id in k a end).
Proof. intros Hp Hk. destruct o as [id|]; [|done]. by apply quiet_bind. Qed.

Lemma handle_quiet rc ep r : prog_quiet (handle rc ep r).
Proof.
  destruct ep; cbn [handle]; [done|done|apply SubmitJob_quiet| |apply GetJobStatus_quiet| | | |
    apply dlq_Replay_quiet| | |].
  - apply quiet_bind; [apply List_quiet|]. by intros [js|e].
  - apply by_id_quiet; [apply Cancel_quiet|]. intros [u|e]; [done|by destruct (errors_Is _ _)].
  - apply quiet_bind; [apply ListDeadLetters_quiet|]. by intros [ds|e].
  - apply by_id_quiet; [apply GetDeadLetter_quiet|].
    intros [d|e]; [done|by destruct (errors_Is _ _)].
  - apply by_id_quiet; [apply Delete_quiet|]. intros [u|e]; [done|by destruct (errors_Is _ _)].
  - apply quiet_bind; [apply ListWorkers_quiet|]. by intros [xs|e].
  - apply by_id_quiet; [apply GetWorker_quiet|]. intros [x|e]; [done|by destruct (errors_Is _ _)].
Qed.

Lemma NewRouter_quiet rc r : prog_quiet (NewRouter rc r).
Proof.
  apply quiet_bind; [apply Allow_quiet|]. intros [[[] n]|e]; [|done..]. cbn [negb].
  apply quiet_bind; [|done]. destruct (mux_match routes r) as [ep|]; [|done].
  destruct (public ep); [apply handle_quiet|]. unfold APIKeyAuth.
  destruct (string_is_empty _); [apply handle_quiet|]. destruct (string_is_empty _); [done|].
  destruct (negb _); [done|apply handle_quiet].
Qed.

Lemma monitor_tick_quiet : prog_quiet monitor_tick.
Proof.
  apply quiet_bind_ok; [apply MarkUnhealthy_quiet|]. intros n.
  by apply quiet_bind_ok; [apply RequeueStale_quiet|].
Qed.

Lemma monitor_Run_quiet events : prog_quiet (monitor_Run events).
Proof.
  induction events as [|[] es IH]; cbn [monitor_Run]; [done| |done].
  by apply quiet_bind; [apply monitor_tick_quiet|].
Qed.

Lemma heartbeat_Handle_quiet key value : prog_quiet (heartbeat_Handle key value).
Proof.
  unfold heartbeat_Handle. destruct (Decode value); [|done].
  by apply quiet_bind_ok; [apply UpsertHeartbeat_quiet|].
Qed.
End clients.

(** The runners of cmd/worker touch nothing. *)
Definition runners_quiet `{Env} (rs : gmap string JobRunner) : Prop :=
  ∀ t r p, rs !! t = Some r → prog_quiet (r p).

Lemma runners_are_quiet `{Env} : runners_quiet runners.
Proof.
  intros t r p. unfold runners. rewrite !lookup_insert_Some, lookup_empty.
  intros [[_ <-]|[_ [[_ <-]|[_ ?]]]]; [done| |done].
  unfold SleepRunner. destruct (sleep_duration p); [|done]. by apply quiet_call.
Qed.
