(* ===== verification/Executor.v ===== *)
(** * The executor's concurrency: internal/worker/executor.go, Executor.Run

    Run receives jobs from a buffered channel and starts a goroutine for each, with a
    semaphore channel of [maxConcurr] tokens, a wait group and an atomic counter. Every
    statement of Run and of the goroutines' deferred function that touches something shared
    is one step here; the body of a goroutine is the program [execute] of Worker.v, taken
    action by action, interleaved with everything else. *)

From S2P Require Import Prelude GoStd Models World Lifecycle Broker Worker.

Definition maxConcurr : nat := 5.
(** The capacity of jobChan (cmd/worker/main.go). *)
Definition jobChan_cap : nat := 10.

(** Arithmetic of an atomic.Int32. *)
Definition wrap32 (z : Z) : Z := (z + 2 ^ 31) mod 2 ^ 32 - 2 ^ 31.

(** Where the loop of Run stands. *)
Inductive main_pc : Type :=
| MSelect                  (* at the select *)
| MGot (j : Job)           (* received, about to send to sem *)
| MAcquired (j : Job)      (* about to wg.Add(1) *)
| MAdded (j : Job)         (* about to runningCount.Add(1) *)
| MCounted (j : Job)       (* about to start the goroutine *)
| MWait                    (* at wg.Wait() *)
| MReturned.

Section executor.
Context `{E : Env} {R : ResultReporter}.

(** Where a goroutine stands: in execute, then in the deferred function. *)
Inductive go_pc : Type :=
| GRun (p : Prog (string * bool))
| GRelease                 (* about to receive from sem *)
| GWgDone                  (* about to wg.Done() *)
| GCountDown.              (* about to runningCount.Add(-1) *)

(** A sample of the histogram worker_job_duration_seconds: the labels job_type and success, and
    the microseconds. *)
Definition Observation : Type := (string * bool) * Z.

(** The state; [ex_sent], [ex_received] and [ex_finished] record what happened.
    [ex_observed] is the histogram's data: what execute's deferred function has observed. *)
Record ExecState : Type := mkExec {
  ex_main : main_pc;
  ex_gos : list (Job * go_pc);
  ex_chan : list Job;
  ex_closed : bool;
  ex_cancelled : bool;
  ex_sem : nat;
  ex_wg : nat;
  ex_running : Z;
  ex_sent : list Job;
  ex_received : list Job;
  ex_finished : list Job;
  ex_observed : list Observation;
}.

Definition exec_init : ExecState := mkExec MSelect [] [] false false 0 0 0 [] [] [] [].

(** Executor.RunningJobs *)
Definition RunningJobs (s : ExecState) : Z := ex_running s.

Definition set_main (m : main_pc) (s : ExecState) : ExecState :=
  mkExec m (ex_gos s) (ex_chan s) (ex_closed s) (ex_cancelled s) (ex_sem s) (ex_wg s)
    (ex_running s) (ex_sent s) (ex_received s) (ex_finished s) (ex_observed s).
Definition set_gos (l : list (Job * go_pc)) (s : ExecState) : ExecState :=
  mkExec (ex_main s) l (ex_chan s) (ex_closed s) (ex_cancelled s) (ex_sem s) (ex_wg s)
    (ex_running s) (ex_sent s) (ex_received s) (ex_finished s) (ex_observed s).
Definition set_chan (l : list Job) (s : ExecState) : ExecState :=
  mkExec (ex_main s) (ex_gos s) l (ex_closed s) (ex_cancelled s) (ex_sem s) (ex_wg s)
    (ex_running s) (ex_sent s) (ex_received s) (ex_finished s) (ex_observed s).
Definition set_counts (sem wg : nat) (running : Z) (s : ExecState) : ExecState :=
  mkExec (ex_main s) (ex_gos s) (ex_chan s) (ex_closed s) (ex_cancelled s) sem wg
    running (ex_sent s) (ex_received s) (ex_finished s) (ex_observed s).
Definition set_signals (closed cancelled : bool) (s : ExecState) : ExecState :=
  mkExec (ex_main s) (ex_gos s) (ex_chan s) closed cancelled (ex_sem s) (ex_wg s)
    (ex_running s) (ex_sent s) (ex_received s) (ex_finished s) (ex_observed s).
Definition set_trace (sent received finished : list Job) (s : ExecState) : ExecState :=
  mkExec (ex_main s) (ex_gos s) (ex_chan s) (ex_closed s) (ex_cancelled s) (ex_sem s) (ex_wg s)
    (ex_running s) sent received finished (ex_observed s).
Definition set_observed (l : list Observation) (s : ExecState) : ExecState :=
  mkExec (ex_main s) (ex_gos s) (ex_chan s) (ex_closed s) (ex_cancelled s) (ex_sem s) (ex_wg s)
    (ex_running s) (ex_sent s) (ex_received s) (ex_finished s) l.

(** What others do to the executor: the consumer sends a job, main cancels the context, the
    channel's owner closes it. *)
Inductive outside_step : ExecState → ExecState → Prop :=
| out_send j s :
    (length (ex_chan s) < jobChan_cap)%nat → ex_closed s = false →
    outside_step s (set_trace (ex_sent s ++ [j]) (ex_received s) (ex_finished s)
                      (set_chan (ex_chan s ++ [j]) s))
| out_cancel s : outside_step s (set_signals (ex_closed s) true s)
| out_close s : outside_step s (set_signals true (ex_cancelled s) s).

(** The loop of Run. *)
Inductive main_step (rs : gmap string JobRunner) : ExecState → ExecState → Prop :=
| main_done s :
    ex_main s = MSelect → ex_cancelled s = true → main_step rs s (set_main MWait s)
| main_closed s :
    ex_main s = MSelect → ex_chan s = [] → ex_closed s = true →
    main_step rs s (set_main MWait s)
| main_receive j l s :
    ex_main s = MSelect → ex_chan s = j :: l →
    main_step rs s (set_main (MGot j) (set_chan l
                      (set_trace (ex_sent s) (ex_received s ++ [j]) (ex_finished s) s)))
| main_acquire j s :
    ex_main s = MGot j → (ex_sem s < maxConcurr)%nat →
    main_step rs s (set_main (MAcquired j)
                      (set_counts (S (ex_sem s)) (ex_wg s) (ex_running s) s))
| main_wg_add j s :
    ex_main s = MAcquired j →
    main_step rs s (set_main (MAdded j)
                      (set_counts (ex_sem s) (S (ex_wg s)) (ex_running s) s))
| main_count j s :
    ex_main s = MAdded j →
    main_step rs s (set_main (MCounted j)
                      (set_counts (ex_sem s) (ex_wg s) (wrap32 (ex_running s + 1)) s))
| main_go j s :
    ex_main s = MCounted j →
    main_step rs s (set_main MSelect (set_gos ((j, GRun (execute rs j)) :: ex_gos s) s))
| main_wait s :
    ex_main s = MWait → ex_wg s = 0%nat → main_step rs s (set_main MReturned s).

(** One goroutine [j, g] among the others. *)
Inductive go_step : ExecState * World → ExecState * World → Prop :=
| go_action inp j p p' l1 l2 s w w' :
    ex_gos s = l1 ++ (j, GRun p) :: l2 → prog_step inp (p, w) (p', w') →
    go_step (s, w) (set_gos (l1 ++ (j, GRun p') :: l2) s, w')
| go_return d j obs l1 l2 s w :        (* the clock is monotonic *)
    ex_gos s = l1 ++ (j, GRun (Ret obs)) :: l2 → 0 ≤ d →
    go_step (s, w) (set_gos (l1 ++ (j, GRelease) :: l2)
                      (set_observed (ex_observed s ++ [(obs, d)])
                         (set_trace (ex_sent s) (ex_received s) (ex_finished s ++ [j]) s)), w)
| go_release j l1 l2 n s w :
    ex_gos s = l1 ++ (j, GRelease) :: l2 → ex_sem s = S n →
    go_step (s, w) (set_gos (l1 ++ (j, GWgDone) :: l2)
                      (set_counts n (ex_wg s) (ex_running s) s), w)
| go_wg_done j l1 l2 n s w :
    ex_gos s = l1 ++ (j, GWgDone) :: l2 → ex_wg s = S n →
    go_step (s, w) (set_gos (l1 ++ (j, GCountDown) :: l2)
                      (set_counts (ex_sem s) n (ex_running s) s), w)
| go_count_down j l1 l2 s w :
    ex_gos s = l1 ++ (j, GCountDown) :: l2 →
    go_step (s, w) (set_gos (l1 ++ l2)
                      (set_counts (ex_sem s) (ex_wg s) (wrap32 (ex_running s - 1)) s), w).

(** A step of the executor itself, and any step. *)
Inductive internal_step (rs : gmap string JobRunner) :
    ExecState * World → ExecState * World → Prop :=
| in_main s s' w : main_step rs s s' → internal_step rs (s, w) (s', w)
| in_go c c' : go_step c c' → internal_step rs c c'.

Inductive exec_step (rs : gmap string JobRunner) :
    ExecState * World → ExecState * World → Prop :=
| ex_internal c c' : internal_step rs c c' → exec_step rs c c'
| ex_outside s s' w : outside_step s s' → exec_step rs (s, w) (s', w).

Definition reachable (rs : gmap string JobRunner) (w0 : World) (c : ExecState * World) : Prop :=
  rtc (exec_step rs) (exec_init, w0) c.

(** ** What is counted *)

(** Goroutines in execute. *)
Definition is_running (g : Job * go_pc) : bool :=
  match g.2 with GRun _ => true | _ => false end.
Definition executing (s : ExecState) : nat := length (filter is_running (ex_gos s)).
(** Goroutines that hold a token of the semaphore, and those the wait group counts. *)
Definition holds_token (g : Job * go_pc) : bool :=
  match g.2 with GRun _ | GRelease => true | _ => false end.
Definition holds_wg (g : Job * go_pc) : bool :=
  match g.2 with GRun _ | GRelease | GWgDone => true | _ => false end.
(** Goroutines whose job is over. *)
Definition over (g : Job * go_pc) : bool := negb (is_running g).

Definition main_token (m : main_pc) : nat :=
  match m with MAcquired _ | MAdded _ | MCounted _ => 1 | _ => 0 end.
Definition main_wg (m : main_pc) : nat :=
  match m with MAdded _ | MCounted _ => 1 | _ => 0 end.
Definition main_counted (m : main_pc) : nat := match m with MCounted _ => 1 | _ => 0 end.
(** The job that the loop has received and not started. *)
Definition in_hand (m : main_pc) : list Job :=
  match m with MGot j | MAcquired j | MAdded j | MCounted j => [j] | _ => [] end.

Definition count {A} (f : A → bool) (l : list A) : nat := length (filter f l).

(** The invariant of the executor. *)
Record exec_inv (s : ExecState) : Prop := {
  xi_sem : ex_sem s = (main_token (ex_main s) + count holds_token (ex_gos s))%nat;
  xi_bound : (ex_sem s ≤ maxConcurr)%nat;
  xi_wg : ex_wg s = (main_wg (ex_main s) + count holds_wg (ex_gos s))%nat;
  xi_running : ex_running s = wrap32 (Z.of_nat (main_counted (ex_main s) + length (ex_gos s)));
  xi_fifo : ex_sent s = ex_received s ++ ex_chan s;
  xi_jobs : ex_received s ≡ₚ
    in_hand (ex_main s) ++ (filter is_running (ex_gos s)).*1 ++ ex_finished s;
  xi_returned : ex_main s = MReturned → ex_wg s = 0%nat;
}.
End executor.
