(* ===== verification/ExecutorSpec.v ===== *)
(** * The executor runs every job it receives once, at most five at a time

    The invariant of the executor's shared state in every interleaving, and what follows:
    the bound on concurrency, the fate of every job, the graceful stop, progress, and what
    the running-jobs counter says. *)

From S2P Require Import Prelude GoStd Models World Lifecycle Broker Worker WorkerSpec Executor.

(** ** Counting *)

Lemma count_middle {A} (f : A → bool) l1 x l2 :
  count f (l1 ++ x :: l2) = ((if f x then 1 else 0) + count f (l1 ++ l2))%nat.
Proof.
  unfold count. rewrite !filter_app, filter_cons, !length_app.
  destruct (f x); case_decide; cbn in *; try done; lia.
Qed.

#[local] Arguments count : simpl never.

Lemma count_cons {A} (f : A → bool) x l :
  count f (x :: l) = ((if f x then 1 else 0) + count f l)%nat.
Proof. apply (count_middle f []). Qed.

Lemma count_mono {A} (f g : A → bool) l :
  (∀ x, f x = true → g x = true) → (count f l ≤ count g l)%nat.
Proof.
  intros H. induction l as [|x l IH]; [done|]. rewrite !count_cons. specialize (H x).
  destruct (f x); [rewrite H by done|destruct (g x)]; lia.
Qed.

Lemma count_le_length {A} (f : A → bool) l : (count f l ≤ length l)%nat.
Proof. apply length_filter. Qed.

Lemma wrap32_add a k : wrap32 (wrap32 a + k) = wrap32 (a + k).
Proof.
  unfold wrap32. f_equal.
  replace ((a + 2 ^ 31) mod 2 ^ 32 - 2 ^ 31 + k + 2 ^ 31) with ((a + 2 ^ 31) mod 2 ^ 32 + k) by lia.
  rewrite Z.add_mod_idemp_l by done. f_equal. lia.
Qed.

Lemma wrap32_small z : -2 ^ 31 ≤ z < 2 ^ 31 → wrap32 z = z.
Proof. intros H. unfold wrap32. rewrite Z.mod_small; lia. Qed.

Section executor.
Context `{E : Env} {R : ResultReporter}.
Implicit Types (s : ExecState) (w : World).

(** ** The invariant *)

Lemma exec_init_inv : exec_inv exec_init.
Proof. split; try done. unfold maxConcurr. cbn. lia. Qed.

Lemma outside_step_inv s s' : outside_step s s' → exec_inv s → exec_inv s'.
Proof.
  intros Hstep [Hsem Hb Hwg Hrun Hfifo Hjobs Hret]. destruct Hstep as [j s Hlen Hc|s|s]; split; cbn; try done.
  by rewrite Hfifo, app_assoc.
Qed.

Lemma main_step_inv rs s s' : main_step rs s s' → exec_inv s → exec_inv s'.
Proof.
  intros Hstep [Hsem Hb Hwg Hrun Hfifo Hjobs Hret]. destruct Hstep as
    [s Hm Hc|s Hm Hl Hc|j l s Hm Hl|j s Hm Hlt|j s Hm|j s Hm|j s Hm|s Hm Hw];
    rewrite Hm in *; cbn in *; split; cbn; rewrite ?count_cons; cbn; try done; try lia.
  - by rewrite Hfifo, Hl, <- app_assoc.
  - rewrite Hjobs. by rewrite Permutation_app_comm.
  - rewrite Hrun, wrap32_add. f_equal. lia.
Qed.

(** A goroutine moves on. *)
Lemma running_middle j p l1 l2 (f : list Job) :
  (filter is_running (l1 ++ (j, GRun p) :: l2)).*1 ++ f ≡ₚ
  (filter is_running (l1 ++ l2)).*1 ++ j :: f.
Proof.
  rewrite !filter_app, filter_cons_True, !fmap_app, fmap_cons by done. cbn.
  rewrite <- !app_assoc. cbn. apply Permutation_app_head. apply Permutation_middle.
Qed.

Lemma idle_middle j g l1 l2 :
  is_running (j, g) = false →
  filter is_running (l1 ++ (j, g) :: l2) = filter is_running (l1 ++ l2).
Proof.
  intros H. rewrite !filter_app. f_equal. cbn. by destruct g.
Qed.

Lemma go_step_inv s w s' w' : go_step (s, w) (s', w') → exec_inv s → exec_inv s'.
Proof.
  intros Hstep [Hsem Hb Hwg Hrun Hfifo Hjobs Hret]. inversion Hstep as
    [inp j p p' l1 l2 s0 w0 w0' Hg Hp|d j obs l1 l2 s0 w0 Hg Hd|j l1 l2 n s0 w0 Hg Hn
    |j l1 l2 n s0 w0 Hg Hn|j l1 l2 s0 w0 Hg]; subst; rewrite Hg in *;
    rewrite ?count_middle, ?length_app in *; cbn in *; split; cbn;
    rewrite ?count_middle, ?length_app; cbn; try done; try lia.
  - rewrite Hjobs. by rewrite !running_middle.
  - rewrite Hjobs, running_middle, idle_middle by done.
    apply Permutation_app_head, Permutation_app_head. by rewrite Permutation_app_comm.
  - by rewrite Hjobs, !idle_middle.
  - by rewrite Hjobs, !idle_middle.
  - intros Hm. rewrite (Hret Hm) in Hn. done.
  - rewrite Hrun. replace (wrap32 _ - 1) with (wrap32 (Z.of_nat (main_counted (ex_main s)
      + (length l1 + S (length l2)))) + -1) by lia.
    rewrite wrap32_add. f_equal. lia.
  - by rewrite Hjobs, !idle_middle.
Qed.

Lemma exec_step_inv rs c c' : exec_step rs c c' → exec_inv c.1 → exec_inv c'.1.
Proof.
  intros [? ? [s s' w Hm|[s w] [s' w'] Hg]|s s' w Ho].
  - by apply (main_step_inv rs).
  - by apply (go_step_inv s w s' w').
  - by apply outside_step_inv.
Qed.

Lemma reachable_inv rs w0 c : reachable rs w0 c → exec_inv c.1.
Proof.
  unfold reachable. intros Hr. remember (exec_init, w0) as c0 eqn:Hc0.
  assert (exec_inv c0.1) as Hi by (subst; apply exec_init_inv). clear Hc0.
  induction Hr as [|c1 c2 c3 H12 _ IH]; [done|]. by eapply IH, exec_step_inv.
Qed.

Lemma executing_le_sem s : exec_inv s → (executing s ≤ ex_sem s)%nat.
Proof.
  intros [Hsem _ _ _ _ _ _]. rewrite Hsem.
  transitivity (count holds_token (ex_gos s)); [|lia]. apply count_mono. by intros [j []].
Qed.

(** ** Properties *)

(** In every interleaving at most five jobs of a worker are executed at a time, and no
    more than five goroutines hold a token; the counter RunningJobs never falls short of the
    jobs being executed (while there are fewer than 2^31 goroutines). *)
Theorem executor_bounded rs w0 s w :
  reachable rs w0 (s, w) →
  (executing s ≤ ex_sem s)%nat ∧ (ex_sem s ≤ 5)%nat ∧
  (Z.of_nat (S (length (ex_gos s))) < 2 ^ 31 → Z.of_nat (executing s) ≤ RunningJobs s).
Proof.
  intros Hr%reachable_inv. pose proof (executing_le_sem _ Hr) as Hex.
  destruct Hr as [Hsem Hb Hwg Hrun Hfifo Hjobs Hret]. cbn [fst] in *.
  split_and!; [done|done|].
  - intros Hlt. unfold RunningJobs. rewrite Hrun.
    pose proof (count_le_length is_running (ex_gos s)) as Hle.
    rewrite wrap32_small; [|destruct (ex_main s); cbn; lia].
    unfold executing. unfold count in Hle. lia.
Qed.

(** C19: no job is lost or run twice inside the executor, in any interleaving: the jobs sent
    to the channel are, in order, those received and those still in it; each job received is
    exactly once in the hand of the loop, being executed, or finished; and once Run has
    returned every job it received is finished. *)
Theorem executor_exactly_once rs w0 s w :
  reachable rs w0 (s, w) →
  ex_sent s = ex_received s ++ ex_chan s ∧
  ex_received s ≡ₚ in_hand (ex_main s) ++ (filter is_running (ex_gos s)).*1 ++ ex_finished s ∧
  (ex_main s = MReturned → executing s = 0%nat ∧ ex_received s ≡ₚ ex_finished s).
Proof.
  intros Hr%reachable_inv. destruct Hr as [Hsem Hb Hwg Hrun Hfifo Hjobs Hret]. cbn [fst] in *.
  split_and!; [done|done|]. intros Hm. rewrite (Hret Hm) in Hwg.
  assert (Hz : count is_running (ex_gos s) = 0%nat).
  { apply Nat.le_0_r. transitivity (count holds_wg (ex_gos s)); [|lia].
    apply count_mono. by intros [j []]. }
  split; [done|]. rewrite Hjobs, Hm. unfold count in Hz. apply nil_length_inv in Hz.
  by rewrite Hz.
Qed.

(** A goroutine can always take a step of its own. *)
Lemma go_progress s w j g l1 l2 :
  exec_inv s → ex_gos s = l1 ++ (j, g) :: l2 → ∃ c, go_step (s, w) c.
Proof.
  intros [Hsem Hb Hwg _ _ _ _] Hg. rewrite Hg, count_middle in Hsem, Hwg.
  destruct g as [[obs|B f k|B f k]| | |]; cbn in *.
  - eexists. by eapply (go_return 0).
  - eexists. eapply (go_action default_input); [done|]. constructor.
  - eexists. eapply (go_action default_input); [done|]. constructor.
  - destruct (ex_sem s) as [|n] eqn:Hn; [lia|]. eexists. by eapply go_release.
  - destruct (ex_wg s) as [|n] eqn:Hn; [lia|]. eexists. by eapply go_wg_done.
  - eexists. by eapply go_count_down.
Qed.

(** The executor is never stuck: in every reachable state the loop or a goroutine can
    take a step of its own, unless Run has returned, or it waits for a job with an empty open
    channel and a live context, and then no goroutine is left. *)
Lemma executor_progress rs w0 s w :
  reachable rs w0 (s, w) →
  (∃ c, internal_step rs (s, w) c) ∨
  (ex_gos s = [] ∧
   (ex_main s = MReturned ∨
    (ex_main s = MSelect ∧ ex_chan s = [] ∧ ex_closed s = false ∧ ex_cancelled s = false))).
Proof.
  intros Hr%reachable_inv. cbn [fst] in Hr.
  destruct (ex_gos s) as [|[j g] l] eqn:Hg.
  2: { left. destruct (go_progress s w j g [] l Hr Hg) as [c Hc]. exists c. by constructor. }
  destruct Hr as [Hsem Hb Hwg _ _ _ _]. rewrite Hg in Hsem, Hwg. unfold count in *. cbn in *.
  assert (Hmain : ∀ s', main_step rs s s' → ∃ c, internal_step rs (s, w) c).
  { intros s' Hs. eexists. by apply in_main. }
  destruct (ex_main s) as [|j|j|j|j| |] eqn:Hm; cbn in *.
  - destruct (ex_cancelled s) eqn:Hc; [left; eapply Hmain, main_done; eauto|].
    destruct (ex_chan s) as [|j l] eqn:Hl; [|left; eapply Hmain, main_receive; eauto].
    destruct (ex_closed s) eqn:Hcl; [left; eapply Hmain, main_closed; eauto|]. right. auto 6.
  - left. eapply Hmain, (main_acquire rs j); [done|]. rewrite Hsem. unfold maxConcurr. lia.
  - left. eapply Hmain, (main_wg_add rs j). done.
  - left. eapply Hmain, (main_count rs j). done.
  - left. eapply Hmain, (main_go rs j). done.
  - left. eapply Hmain, main_wait; [done|]. lia.
  - right. auto.
Qed.

(** ** Safety of the world *)

Context `{!ResultReporterSafe R}.

(** Every goroutine executes a safe program. *)
Definition gos_safe (s : ExecState) : Prop :=
  Forall (λ g, match g.2 with GRun p => prog_safe Inv world_step p | _ => True end) (ex_gos s).

Lemma exec_step_safe rs c c' :
  runners_safe rs → exec_step rs c c' → gos_safe c.1 → Inv c.2 →
  gos_safe c'.1 ∧ Inv c'.2 ∧ world_step c.2 c'.2.
Proof.
  intros Hrs Hstep Hg HI. unfold gos_safe in *.
  destruct Hstep as [? ? [s s' w Hm|? ? Hgo]|s s' w Ho]; cbn in *.
  - split; [|by split; [|apply world_step_refl]]. destruct Hm; try done.
    constructor; [by apply execute_safe|done].
  - destruct Hgo as [inp j p p' l1 l2 s w w' Hl Hp|d j obs l1 l2 s w Hl Hd|j l1 l2 n s w Hl Hn
      |j l1 l2 n s w Hl Hn|j l1 l2 s w Hl]; cbn in *; rewrite Hl in Hg;
      apply Forall_app in Hg as (H1 & [H2 H3]%Forall_cons);
      try (split; [apply Forall_app; split; [done|]; first [done|by constructor]|
                   by split; [|apply world_step_refl]]).
    assert (prog_safe Inv world_step p' ∧ Inv w' ∧ world_step w w') as (? & ? & ?).
    { inversion Hp; simplify_eq; cbn in H2; specialize (H2 inp w HI).
      - by destruct (perform inp f w), H2 as (? & ? & ?).
      - by destruct (f inp w), H2 as (? & ? & ?). }
    split; [|done]. apply Forall_app. by split; [|constructor].
  - split; [by destruct Ho|by split; [|apply world_step_refl]].
Qed.
End executor.

(** ** What RunningJobs says *)

Section overcount.
Context `{E : Env} {R : ResultReporter}.

(** Any program can be taken to its end. *)
Lemma prog_finishes {A} (p : Prog A) w :
  ∃ a w', rtc (λ c c', ∃ inp, prog_step inp c c') (p, w) (Ret a, w').
Proof.
  revert w. induction p as [a|B f k IH|B f k IH]; intros w.
  - by exists a, w.
  - destruct (IH (perform default_input f w).1 (perform default_input f w).2) as (a & w' & Hr).
    exists a, w'. eapply rtc_l; [|exact Hr]. exists default_input. constructor.
  - destruct (IH (f default_input w).1 (f default_input w).2) as (a & w' & Hr).
    exists a, w'. eapply rtc_l; [|exact Hr]. exists default_input. constructor.
Qed.

(** A state at rest with [n] goroutines that have released everything but the counter. *)
Definition lagging (n : nat) (s : ExecState) : Prop :=
  ex_main s = MSelect ∧ ex_chan s = [] ∧ ex_closed s = false ∧ ex_sem s = 0%nat ∧
  ex_wg s = 0%nat ∧ length (ex_gos s) = n ∧ Forall (λ g, g.2 = GCountDown) (ex_gos s).

Lemma go_finish rs (j : Job) (p : Prog (string * bool)) l s w :
  ex_gos s = (j, GRun p) :: l →
  ∃ obs w', rtc (exec_step rs) (s, w) (set_gos ((j, GRun (Ret obs)) :: l) s, w').
Proof.
  intros Hl. destruct (prog_finishes p w) as (obs & w' & Hr). exists obs, w'.
  assert (Hs : s = set_gos ((j, GRun p) :: l) s) by (rewrite <- Hl; by destruct s).
  rewrite Hs at 1. clear Hl Hs.
  remember (p, w) as c eqn:Hc. remember (Ret obs, w') as c' eqn:Hc'.
  revert p w Hc. induction Hr as [c|c1 [p2 w2] c3 [inp H12] _ IH]; intros p w ->.
  - injection Hc' as -> ->. done.
  - eapply rtc_l; [|by apply IH]. apply ex_internal, in_go.
    exact (go_action inp j p p2 [] l (set_gos ((j, GRun p) :: l) s) w w2 eq_refl H12).
Qed.

Lemma in_main_step rs s s' w : main_step rs s s' → exec_step rs (s, w) (s', w).
Proof. intros. by apply ex_internal, in_main. Qed.

Lemma in_go_step rs c c' : go_step c c' → exec_step rs c c'.
Proof. intros. by apply ex_internal, in_go. Qed.

End overcount.

(** Takes one step, by the rule [r] lifted with [l]. *)
Ltac then_step l r :=
  eapply rtc_l; [apply l, r; cbn; unfold jobChan_cap, maxConcurr; (reflexivity || lia)
                |cbn -[wrap32 execute]].

Section overcounted.
Context `{E : Env} {R : ResultReporter}.

(** One more job through the executor, up to its last statement. *)
Lemma lagging_more rs (j : Job) n s w :
  lagging n s → ∃ s' w', rtc (exec_step rs) (s, w) (s', w') ∧ lagging (S n) s'.
Proof.
  intros (Hm & Hc & Hcl & Hsem & Hwg & Hn & Hg). destruct s as [m gos ch cl ca sem wg r a b c o].
  cbn in *. subst.
  destruct (go_finish rs j (execute rs j) gos
              (mkExec MSelect ((j, GRun (execute rs j)) :: gos) [] false ca 1 1 (wrap32 (r + 1))
                 (a ++ [j]) (b ++ [j]) c o) w eq_refl) as (obs & w' & Hrun).
  exists (mkExec MSelect ((j, GCountDown) :: gos) [] false ca 0 0 (wrap32 (r + 1))
            (a ++ [j]) (b ++ [j]) (c ++ [j]) (o ++ [(obs, 0)])), w'.
  split; [|split_and!; try done; by constructor].
  then_step ex_outside (out_send j). then_step in_main_step (main_receive rs j []).
  then_step in_main_step (main_acquire rs j). then_step in_main_step (main_wg_add rs j).
  then_step in_main_step (main_count rs j). then_step in_main_step (main_go rs j).
  etransitivity; [exact Hrun|]. cbn -[wrap32 execute].
  then_step in_go_step (go_return 0 j obs [] gos). then_step in_go_step (go_release j [] gos 0).
  then_step in_go_step (go_wg_done j [] gos 0). done.
Qed.

(** The number a worker reports can exceed five, and has no bound below int32: a
    goroutine gives its token back before it counts itself out, so for every [n] there is a
    reachable state in which no job is being executed and RunningJobs is [n]. *)
Theorem RunningJobs_overcounts rs w0 (n : nat) :
  Z.of_nat n < 2 ^ 31 →
  ∃ s w, reachable rs w0 (s, w) ∧ executing s = 0%nat ∧ RunningJobs s = Z.of_nat n.
Proof.
  intros Hn. assert (∃ s w, reachable rs w0 (s, w) ∧ lagging n s) as (s & w & Hr & Hl).
  { clear Hn. induction n as [|n IH].
    { exists exec_init, w0. split; [apply rtc_refl|]. by split_and!. }
    destruct IH as (s & w & Hr & Hl).
    destruct (lagging_more rs (NewJob 0 "echo" None 0) n s w Hl) as (s' & w' & Hs & Hl').
    exists s', w'. split; [|done]. unfold reachable in *. by etransitivity. }
  exists s, w. split; [done|]. pose proof (reachable_inv _ _ _ Hr) as HI.
  destruct Hl as (Hm & _ & _ & _ & _ & Hlen & Hg). split.
  - unfold executing. apply length_zero_iff_nil. clear -Hg.
    induction Hg as [|[j g] l Hh _ IH]; [done|]. cbn in Hh. subst.
    cbn. done.
  - unfold RunningJobs. pose proof (xi_running _ HI) as Hrun. cbn [fst] in Hrun. rewrite Hrun, Hm. cbn [main_counted plus]. 
    rewrite Hlen. apply wrap32_small. lia.
Qed.
End overcounted.
