(* ===== verification/ExecutorLive.v ===== *)
(** * Executor.Run comes to its end

    Once the context is cancelled or the channel closed, the executor returns after finitely
    many steps of its own, whatever their order, with every job it received executed. The
    order that decreases is lexicographic: the loop with the jobs in its channel, then the
    goroutines, each with what is left of its program. *)

From S2P Require Import Prelude GoStd Models World Lifecycle Broker Worker WorkerSpec Executor.
From S2P Require Import ExecutorSpec.

(** ** What cannot be avoided *)

(** Whatever steps are taken, a state of [P] is reached after finitely many; until then there
    is always a step to take. *)
Inductive inevitable {A} (step : A → A → Prop) (P : A → Prop) (c : A) : Prop :=
| inev_now : P c → inevitable step P c
| inev_step :
    (∃ c', step c c') → (∀ c', step c c' → inevitable step P c') → inevitable step P c.

Lemma acc_inevitable {A} (step : A → A → Prop) (I P : A → Prop) c :
  Acc (λ c' c, step c c') c → I c → (∀ c c', I c → step c c' → I c') →
  (∀ c, I c → P c ∨ ∃ c', step c c') → inevitable step P c.
Proof.
  intros Hacc HI Hkeep Hprog. induction Hacc as [c _ IH].
  destruct (Hprog c HI) as [HP|Hs]; [by apply inev_now|].
  apply inev_step; [done|]. intros c' Hc. apply IH; [done|]. by eapply Hkeep.
Qed.

(** ** Lists whose elements get smaller or go away *)

Section lists.
Context {A : Type} (R : A → A → Prop).

Inductive list_lt : list A → list A → Prop :=
| lt_gone l1 x l2 : list_lt (l1 ++ l2) (l1 ++ x :: l2)
| lt_less l1 x y l2 : R y x → list_lt (l1 ++ y :: l2) (l1 ++ x :: l2).

Lemma list_lt_cons l' x l :
  list_lt l' (x :: l) →
  l' = l ∨ (∃ y, R y x ∧ l' = y :: l) ∨ ∃ l2, list_lt l2 l ∧ l' = x :: l2.
Proof.
  intros H. remember (x :: l) as k eqn:Hk. destruct H as [l1 z l2|l1 z y l2 Hy].
  - destruct l1 as [|a l1]; cbn in Hk; simplify_eq; [by left|].
    right. right. exists (l1 ++ l2). split; [constructor|done].
  - destruct l1 as [|a l1]; cbn in Hk; simplify_eq; [right; left; eauto|].
    right. right. exists (l1 ++ y :: l2). split; [by constructor|done].
Qed.

Lemma list_lt_acc l : Forall (Acc R) l → Acc list_lt l.
Proof.
  induction 1 as [|x l Hx _ IH].
  { constructor. intros l' H. remember [] as k eqn:Hk.
    destruct H as [l1 ? ?|l1 ? ? ? ?]; by destruct l1. }
  revert l IH. induction Hx as [x _ IHx]. intros l Hl. pose proof Hl as Hl0.
  induction Hl as [l _ IHl]. constructor.
  intros l' [->|[(y & Hy & ->)|(l2 & Hl2 & ->)]]%list_lt_cons; [done|by apply IHx|].
  apply IHl; [done|]. by apply Hl0.
Qed.
End lists.

(** ** The order *)

Section executor.
Context `{E : Env} {R : ResultReporter}.
Implicit Types (s : ExecState) (w : World).

(** A goroutine's next state. *)
Inductive go_next : go_pc → go_pc → Prop :=
| next_action inp p w p' w' : prog_step inp (p, w) (p', w') → go_next (GRun p') (GRun p)
| next_return obs : go_next GRelease (GRun (Ret obs))
| next_release : go_next GWgDone GRelease
| next_wg_done : go_next GCountDown GWgDone.

Lemma go_next_acc g : Acc go_next g.
Proof.
  assert (H1 : Acc go_next GCountDown) by (constructor; by inversion 1).
  assert (H2 : Acc go_next GWgDone) by (constructor; by inversion 1).
  assert (H3 : Acc go_next GRelease) by (constructor; by inversion 1).
  destruct g as [p| | |]; [|done..].
  induction p as [obs|B f k IH|B f k IH]; constructor; intros g' Hg;
    inversion Hg as [inp p w p' w' Hp| | |]; subst; [|done|..];
    apply prog_step_inv in Hp; [done|..]; destruct Hp as [-> _]; apply IH.
Qed.

(** The goroutines, whatever their jobs. *)
Definition gos_lt (l' l : list (Job * go_pc)) : Prop :=
  list_lt (λ g' g, go_next g'.2 g.2) l' l.

Lemma gos_lt_acc l : Acc gos_lt l.
Proof.
  apply list_lt_acc, Forall_forall. intros [j g] _.
  assert (Acc (λ g' g : Job * go_pc, go_next g'.2 g.2) (j, g)); [|done].
  revert j. induction (go_next_acc g) as [g _ IH]. intros j.
  constructor. intros [j' g'] H. by apply IH.
Qed.

(** The steps that the loop has left. *)
Definition main_rank (m : main_pc) : nat :=
  match m with
  | MReturned => 0 | MWait => 1 | MSelect => 2
  | MCounted _ => 3 | MAdded _ => 4 | MAcquired _ => 5 | MGot _ => 6
  end.
Definition main_measure (s : ExecState) : nat := 7 * length (ex_chan s) + main_rank (ex_main s).

Lemma main_step_measure rs s s' : main_step rs s s' → (main_measure s' < main_measure s)%nat.
Proof.
  unfold main_measure. destruct 1 as
    [s Hm Hc|s Hm Hl Hc|j l s Hm Hl|j s Hm Hlt|j s Hm|j s Hm|j s Hm|s Hm Hw];
    rewrite Hm; cbn; rewrite ?Hl; cbn; lia.
Qed.

Lemma go_step_lt s w s' w' :
  go_step (s, w) (s', w') → main_measure s' = main_measure s ∧ gos_lt (ex_gos s') (ex_gos s).
Proof.
  intros H. inversion H as
    [inp j p p' l1 l2 s0 w0 w0' Hg Hp|d j obs l1 l2 s0 w0 Hg Hd|j l1 l2 n s0 w0 Hg Hn
    |j l1 l2 n s0 w0 Hg Hn|j l1 l2 s0 w0 Hg]; subst; (split; [done|]); rewrite Hg; cbn.
  - apply lt_less. cbn. by eapply next_action.
  - apply lt_less. constructor.
  - apply lt_less. constructor.
  - apply lt_less. constructor.
  - apply lt_gone.
Qed.

(** No infinite run of the executor's own steps. *)
Lemma internal_step_acc rs c : Acc (λ c' c, internal_step rs c c') c.
Proof.
  destruct c as [s w]. remember (main_measure s) as n eqn:Hn. revert s w Hn.
  induction n as [n IHn] using lt_wf_ind. intros s w Hn.
  remember (ex_gos s) as l eqn:Hl. revert s w Hn Hl.
  induction (gos_lt_acc l) as [l _ IHl]. intros s w Hn Hl.
  constructor. intros [s' w'] Hs. inversion Hs as [s0 s1 w0 Hm|c c' Hg]; subst.
  - eapply IHn; [|done]. by eapply main_step_measure.
  - destruct (go_step_lt _ _ _ _ Hg) as [Hmm Hlt]. eapply IHl; done.
Qed.

(** ** The end *)

(** Nobody sends any more. *)
Definition told_to_stop (s : ExecState) : Prop := ex_cancelled s = true ∨ ex_closed s = true.

Lemma internal_step_signals rs s w s' w' :
  internal_step rs (s, w) (s', w') →
  ex_cancelled s' = ex_cancelled s ∧ ex_closed s' = ex_closed s ∧ ex_sent s' = ex_sent s.
Proof.
  intros H. inversion H as [s0 s1 w0 Hm|c c' Hg]; subst; [by destruct Hm|].
  by inversion Hg.
Qed.

(** How the executor should end. *)
Definition stopped (s : ExecState) : Prop :=
  ex_main s = MReturned ∧ ex_gos s = [] ∧ RunningJobs s = 0 ∧ ex_sem s = 0%nat ∧
  ex_received s ≡ₚ ex_finished s.

(** C22: Executor.Run terminates: once its context is cancelled or its channel closed, whatever
    steps the loop and the goroutines take and in whatever order, after finitely many of them
    Run has returned, no goroutine is left, the counter is 0 and the semaphore empty, and the
    jobs that were executed to the end are exactly those that were received; nothing that was
    in the channel is lost to the account: what was sent is what was received and what is
    still in the channel. *)
Theorem executor_terminates rs w0 s w :
  reachable rs w0 (s, w) → told_to_stop s →
  inevitable (internal_step rs)
    (λ c, stopped c.1 ∧ ex_sent s = ex_received c.1 ++ ex_chan c.1) (s, w).
Proof.
  intros Hr Hstop.
  apply (acc_inevitable _ (λ c, reachable rs w0 c ∧ told_to_stop c.1 ∧ ex_sent c.1 = ex_sent s)).
  - apply internal_step_acc.
  - by split_and!.
  - intros [s1 w1] [s2 w2] (Hr1 & Hst & Hsent) Hs.
    destruct (internal_step_signals _ _ _ _ _ Hs) as (Hc & Hcl & Hse). cbn in *.
    split_and!; [|unfold told_to_stop; by rewrite Hc, Hcl|congruence].
    unfold reachable in *. eapply rtc_r; [done|by apply ex_internal].
  - intros [s1 w1] (Hr1 & Hst & Hsent). cbn in *.
    destruct (executor_progress rs w0 s1 w1 Hr1) as [Hp|[Hg Hend]]; [by right|left].
    assert (Hm : ex_main s1 = MReturned).
    { destruct Hend as [?|(_ & _ & Hcl & Hca)]; [done|].
      unfold told_to_stop in Hst. rewrite Hcl, Hca in Hst. by destruct Hst. }
    destruct (reachable_inv _ _ _ Hr1) as [Hsem _ _ Hrun Hfifo Hjobs _]. cbn [fst] in *.
    rewrite Hm, Hg in *. cbn in *. split; [|by rewrite <- Hsent].
    split_and!; [done|done| |done|done]. unfold RunningJobs. rewrite Hrun. done.
Qed.
End executor.
