(* ===== verification/Startup.v ===== *)
(** * Configuration, migrations, and the life of the API process

    internal/config, cmd/migrate, internal/db, internal/application, internal/api/http/server.go
    and the level format of internal/logger. *)

From S2P Require Import Prelude GoStd Decimal Models Json.

(** ** internal/config: Load *)

Record Config : Type := mkConfig {
  PostgresDSN : string;
  HTTPPort : Z;
  KafkaBrokers : list string;
  RedisAddr : string;
  APIKey : string;
}.
#[export] Instance Config_eq_dec : EqDecision Config.
Proof. solve_decision. Defined.

Definition or_default (s d : string) : string := if string_is_empty s then d else s.

(** The error of strconv.Atoi. *)
Definition Atoi_error (s : string) : error := ErrText ("strconv.Atoi: parsing " +:+ s).

(** [getenv] is os.Getenv after godotenv.Load: empty for a variable that is not set. *)
Definition Load (getenv : string → string) : Res Config :=
  let dsn := getenv "DATABASE_URL" in
  if string_is_empty dsn then Err (ErrText "DATABASE_URL is required") else
  let p := getenv "HTTP_PORT" in
  let port := if string_is_empty p then Some 8080 else Atoi p in
  match port with
  | None => Err (Wrap "invalid HTTP_PORT" (Atoi_error p))
  | Some port =>
      let b := getenv "KAFKA_BROKERS" in
      Ok (mkConfig dsn port
            (if string_is_empty b then ["localhost:9092"] else Split "," b)
            (or_default (getenv "REDIS_ADDR") "localhost:6379")
            (getenv "API_KEY"))
  end.

(** ** cmd/migrate: run *)

(** golang-migrate and the drivers: opening a migrator (the three calls before the switch),
    its operations on the database state [M], and the two errors it exports. *)
Class Migrate : Type := {
  M : Type;
  ParseConfig : string → option error;
  WithInstance : option error;
  NewWithDatabaseInstance : string → option error;
  Up : M → option error * M;
  Down : M → option error * M;
  Version : M → Res (N * bool);
  Force : Z → M → option error * M;
  ErrNoChange : error;
  ErrNilVersion : error;
}.

Section migrate.
Context `{Migrate}.

(** What the user sees: the error that run returns, and the lines printed. *)
Definition Report : Type := (option error * list string)%type.

(** The end of run, after the switch. *)
Definition finish (command : string) (err : option error) : Report :=
  match err with
  | Some e =>
      if errors_Is e ErrNoChange then (None, ["no migrations to apply"]) else (Some e, [])
  | None => (None, ["migration " +:+ command +:+ " complete"])
  end.

Definition print_version (v : N) (dirty : bool) : string :=
  "version=" +:+ pretty v +:+ " dirty=" +:+ (if dirty then "true" else "false").

(** The switch on the command. In the case force the := declares a new err, so the one that
    is looked at after the switch is still that of opening the migrator: nil. *)
Definition run_command (command : string) (args : list string) (m : M) : Report * M :=
  if decide (command = "up") then let '(err, m') := Up m in (finish command err, m')
  else if decide (command = "down") then let '(err, m') := Down m in (finish command err, m')
  else if decide (command = "version") then
    match Version m with
    | Err e =>
        if errors_Is e ErrNilVersion then ((None, ["no migrations applied"]), m)
        else ((Some e, []), m)
    | Ok (v, dirty) => ((None, [print_version v dirty]), m)
    end
  else if decide (command = "force") then
    match args with
    | [_; v] =>
        match Atoi v with
        | None => ((Some (Wrap "invalid version" (Atoi_error v)), []), m)
        | Some version =>
            let '(_, m') := Force version m in
            (finish command None, m')
        end
    | _ => ((Some (ErrText "usage: go run ./cmd/migrate force <version>"), []), m)
    end
  else ((Some (ErrText ("unknown command " +:+ json_string command
                        +:+ "; use up, down, version, or force")), []), m).

(** run, up to the state of the database it opens. *)
Definition migrate_run (args : list string) (getenv : string → string) (m : M) : Report * M :=
  let command := match args with c :: _ => c | [] => "up" end in
  match Load getenv with
  | Err e => ((Some e, []), m)
  | Ok cfg =>
      let path := or_default (getenv "MIGRATIONS_PATH") "migrations" in
      match ParseConfig (PostgresDSN cfg) with
      | Some e => ((Some (Wrap "parse database url" e), []), m)
      | None =>
      match WithInstance with
      | Some e => ((Some (Wrap "create postgres migration driver" e), []), m)
      | None =>
      match NewWithDatabaseInstance ("file://" +:+ path) with
      | Some e => ((Some (Wrap "create migrator" e), []), m)
      | None => run_command command args m
      end
      end
      end
  end.

(** The exit status of main. *)
Definition exit_status (r : Report) : Z := match r.1 with Some _ => 1 | None => 0 end.
End migrate.

(** ** internal/db: New *)

(** The pool's settings that New may replace. *)
Record PoolConfig : Type := mkPoolConfig { pc_MaxConns : Z; pc_MaxConnLifetime : Z }.

Definition pool_config (maxConns maxConnLifetime : Z) (parsed : PoolConfig) : PoolConfig :=
  {| pc_MaxConns := if 0 <? maxConns then maxConns else pc_MaxConns parsed;
     pc_MaxConnLifetime := if 0 <? maxConnLifetime then maxConnLifetime
                           else pc_MaxConnLifetime parsed |}.

(** New: the answers of ParseConfig, of NewWithConfig on the settings, and of Ping; the
    settings the pool is opened with. The flag says whether a pool is left open. *)
Definition db_New (maxConns maxConnLifetime : Z) (parsed : Res PoolConfig)
    (open : PoolConfig → option error) (ping : option error) : Res PoolConfig * bool :=
  match parsed with
  | Err e => (Err (Wrap "parse dsn" e), false)
  | Ok c =>
      let c' := pool_config maxConns maxConnLifetime c in
      match open c' with
      | Some e => (Err (Wrap "create pool" e), false)
      | None =>
          match ping with
          | Some e => (Err (Wrap "ping db" e), false)
          | None => (Ok c', true)
          end
      end
  end.

(** ** internal/application: RunAPI *)

(** The error that ListenAndServe returns after Shutdown. *)
Definition ErrServerClosed : error := ErrText "http: Server closed".

(** Server.Start, on what ListenAndServe returned. *)
Definition Start (listen : option error) : option error :=
  match listen with
  | Some e => if decide (e = ErrServerClosed) then None else Some (Wrap "http server" e)
  | None => None
  end.

(** What wakes RunAPI's select: the context ends, and Shutdown answers; or ListenAndServe
    returns. *)
Inductive api_event : Type :=
| ContextDone (shutdown : option error)
| ListenReturned (listen : option error).

(** The select: a server that was closed sends nothing, so the select goes on waiting.
    [None] while it waits. *)
Fixpoint api_select (events : list api_event) : option (option error) :=
  match events with
  | [] => None
  | ContextDone (Some e) :: _ => Some (Some (Wrap "http shutdown" e))
  | ContextDone None :: _ => Some None
  | ListenReturned r :: es =>
      match Start r with
      | Some e => if errors_Is e ErrServerClosed then api_select es else Some (Some e)
      | None => api_select es
      end
  end.

Definition RunAPI (database : option error) (events : list api_event) : option (option error) :=
  match database with
  | Some e => Some (Some (Wrap "db connect" e))
  | None => api_select events
  end.

(** ** The mains of cmd/api and cmd/result-collector *)

(** How a process ends: its exit status, and the deferred calls that were made before. After
    log.Fatal there are none. *)
Record ProcessEnd : Type := mkEnd { pe_status : Z; pe_deferred : list string }.
Definition Fatal : ProcessEnd := mkEnd 1 [].

(** cmd/api: main; [None] while it runs. *)
Definition api_main (getenv : string → string) (database : option error)
    (events : list api_event) : option ProcessEnd :=
  match Load getenv with
  | Err _ => Some Fatal
  | Ok cfg =>
      match RunAPI database events with
      | None => None
      | Some (Some _) => Some Fatal
      | Some None => Some (mkEnd 0 ["stop"])
      end
  end.

(** cmd/result-collector: main, by what the two consumers' Run return, in the order in which
    they do. The first one ends the process; the other consumer ends with it. *)
Definition collector_main (getenv : string → string) (database : option error)
    (returned : list (Res unit)) : option ProcessEnd :=
  match Load getenv with
  | Err _ => Some Fatal
  | Ok cfg =>
      match database with
      | Some _ => Some Fatal
      | None =>
          match returned with
          | [] => None
          | Err _ :: _ => Some Fatal
          | Ok _ :: _ =>
              Some (mkEnd 0 ["deadLetterConsumer.Close"; "resultConsumer.Close";
                             "statusCache.Close"; "producer.Close"; "database.Close"; "stop"])
          end
      end
  end.

(** ** internal/metrics: Register *)

(** The names of the collectors, in the order of MustRegister's arguments. *)
Definition collectors : list string :=
  ["jobs_submitted_total"; "jobs_completed_total"; "jobs_failed_total"; "jobs_retried_total";
   "jobs_dead_total"; "jobs_replayed_total"; "dead_letters_persisted_total";
   "worker_running_jobs"; "worker_job_duration_seconds"].

(** registerOnce, and the registry [T] that prometheus keeps. *)
Definition metrics_Register {T} (MustRegister : list string → T → T) (s : bool * T) : bool * T :=
  let '(done, reg) := s in if done then s else (true, MustRegister collectors reg).

(** ** internal/logger: FormatLevel *)

Definition ToUpper (s : string) : string := string_map to_upper s.

(** %-6s: padded with spaces on the right to six characters. *)
Definition pad6 (s : string) : string :=
  s +:+ String.concat EmptyString (replicate (6 - String.length s) " ").

Definition esc (code : string) : string := chr 27 +:+ "[" +:+ code +:+ "m".

Definition level_color (level : string) : string :=
  if decide (level = "INFO") then esc "32"
  else if decide (level = "DEBUG") then esc "34"
  else if decide (level = "ERROR" ∨ level = "FATAL") then esc "31"
  else if decide (level = "WARN") then esc "33"
  else EmptyString.

Definition FormatLevel (i : string) : string :=
  let level := ToUpper i in
  "| " +:+ level_color level +:+ pad6 level +:+ esc "0" +:+ "|".

Definition FormatMessage (i : string) : string := "[ " +:+ i +:+ " ]".
Definition FormatFieldName (i : string) : string := i +:+ ":".
Definition FormatFieldValue (i : string) : string := ToUpper i.

(** ** Properties *)

(** Registering again does nothing, so the collectors are never registered twice (where
    MustRegister would panic): their names differ. *)
Lemma metrics_Register_once {T} MustRegister (s : bool * T) n :
  Nat.iter (S n) (metrics_Register MustRegister) s = metrics_Register MustRegister s ∧ NoDup collectors.
Proof.
  split; [|by apply (bool_decide_unpack _)].
  destruct s as [d reg]. induction n as [|n IH]; [done|].
  change (Nat.iter (S (S n)) (metrics_Register MustRegister) (d, reg))
    with (metrics_Register MustRegister (Nat.iter (S n) (metrics_Register MustRegister) (d, reg))).
  rewrite IH. by destruct d.
Qed.

(** A list joined with commas is split into its elements again. *)
Fixpoint join (l : list string) : string :=
  match l with
  | [] => EmptyString
  | [s] => s
  | s :: l' => s +:+ "," +:+ join l'
  end.

Lemma Split_head c s t :
  has_byte c s = false → Split c (s +:+ String c t) = s :: Split c t.
Proof.
  induction s as [|d s IH]; cbn; intros Hs.
  - rewrite append_nil. cbn. by rewrite bool_decide_true.
  - apply orb_false_elim in Hs as [Hd Hs]. rewrite append_cons. cbn. rewrite Hd, (IH Hs). done.
Qed.

Lemma Split_last c s : has_byte c s = false → Split c s = [s].
Proof.
  induction s as [|d s IH]; cbn; [done|]. intros [Hd Hs]%orb_false_elim.
  by rewrite Hd, (IH Hs).
Qed.

Lemma Split_join l : l ≠ [] → Forall (λ s, has_byte "," s = false) l → Split "," (join l) = l.
Proof.
  intros Hne Hl. induction Hl as [|s l Hs Hl IH]; [done|]. destruct l as [|t l].
  - by apply Split_last.
  - change (join (s :: t :: l)) with (s +:+ String "," (join (t :: l))).
    rewrite Split_head by done. by rewrite IH.
Qed.

(** The configuration: without DATABASE_URL, or with a port that is no number, there is
    none; otherwise the port is the decimal given or 8080, the brokers are exactly the names
    between the commas, and an unset API_KEY gives the empty key. *)
Theorem Load_spec getenv brokers port :
  let dsn := getenv "DATABASE_URL" in
  (dsn = EmptyString → Load getenv = Err (ErrText "DATABASE_URL is required")) ∧
  (dsn ≠ EmptyString → getenv "HTTP_PORT" ≠ EmptyString → Atoi (getenv "HTTP_PORT") = None →
   ∃ e, Load getenv = Err (Wrap "invalid HTTP_PORT" e)) ∧
  (dsn ≠ EmptyString →
   (getenv "HTTP_PORT" = EmptyString ∧ port = 8080 ∨
    getenv "HTTP_PORT" = pretty port ∧ int64_ok port = true) →
   (getenv "KAFKA_BROKERS" = EmptyString ∧ brokers = ["localhost:9092"] ∨
    getenv "KAFKA_BROKERS" = join brokers ∧ join brokers ≠ EmptyString ∧
    Forall (λ s, has_byte "," s = false) brokers) →
   ∃ redis, Load getenv = Ok (mkConfig dsn port brokers redis (getenv "API_KEY"))).
Proof.
  intros dsn. unfold Load. fold dsn. split_and!.
  - by intros ->.
  - intros Hd Hp Ha. destruct dsn; [done|]. cbn. destruct (getenv "HTTP_PORT"); [done|].
    cbn [string_is_empty]. rewrite Ha. by eexists.
  - intros Hd Hp Hb. destruct dsn; [done|]. cbn [string_is_empty].
    assert ((if string_is_empty (getenv "HTTP_PORT") then Some 8080
             else Atoi (getenv "HTTP_PORT")) = Some port) as ->.
    { destruct Hp as [[-> ->]|[-> Hok]]; [done|].
      destruct (string_is_empty (pretty port)) eqn:He; [|by apply Atoi_pretty].
      pose proof (signed_value_pretty port) as Hs. by destruct (pretty port). }
    assert ((if string_is_empty (getenv "KAFKA_BROKERS") then ["localhost:9092"]
             else Split "," (getenv "KAFKA_BROKERS")) = brokers) as ->.
    { destruct Hb as [[-> ->]|(-> & Hne & Hall)]; [done|].
      destruct (join brokers) as [|c t] eqn:Hj; [done|]. cbn [string_is_empty]. rewrite <- Hj.
      apply Split_join; [by intros ->|done]. }
    by eexists.
Qed.

Section migrate_props.
Context `{Migrate}.

(** The command force never fails: whatever golang-migrate's Force answers, run returns
    no error, prints that the migration is complete, and the process exits with 0; up and down
    do report their errors, with "no change" as a success. *)
Theorem force_error_hidden getenv cfg (m : M) v version e m' :
  Load getenv = Ok cfg → ParseConfig (PostgresDSN cfg) = None → WithInstance = None →
  NewWithDatabaseInstance ("file://" +:+ or_default (getenv "MIGRATIONS_PATH") "migrations")
    = None →
  (Atoi v = Some version → Force version m = (Some e, m') →
   migrate_run ["force"; v] getenv m = ((None, ["migration force complete"]), m')) ∧
  (Up m = (Some e, m') → errors_Is e ErrNoChange = false →
   migrate_run [] getenv m = ((Some e, []), m')) ∧
  (Down m = (Some e, m') → errors_Is e ErrNoChange = true →
   migrate_run ["down"] getenv m = ((None, ["no migrations to apply"]), m')).
Proof.
  intros Hc Hp Hw Hn. unfold migrate_run. rewrite Hc, Hp, Hw, Hn. split_and!.
  - intros Ha Hf. unfold run_command.
    rewrite (decide_False (P := "force" = "up")), (decide_False (P := "force" = "down")),
      (decide_False (P := "force" = "version")), decide_True, Ha, Hf by done. done.
  - intros Hu He. unfold run_command. rewrite decide_True, Hu by done. cbn. by rewrite He.
  - intros Hd He. unfold run_command.
    rewrite (decide_False (P := "down" = "up")), decide_True, Hd by done. cbn. by rewrite He.
Qed.
End migrate_props.
