(* ===== verification/Wiring.v ===== *)
(** * How the processes are put together

    The values that the mains give to the constructors: which topic each consumer reads and in
    which group, the settings of the API's server, its limiter and its key. *)

From S2P Require Import Prelude GoStd Decimal Models GoTime Json World MemEnv Sql Lifecycle.
From S2P Require Import JobsRepo WorkersRepo DeadLettersRepo Broker BrokerSpec Cache Http Router.
From S2P Require Import Startup.

(** ** internal/broker: NewConsumer *)

Record ReaderConfig : Type := mkReaderConfig {
  rdr_Brokers : list string;
  rdr_Topic : string;
  rdr_GroupID : string;
  rdr_FirstOffset : bool;            (* StartOffset is kafka.FirstOffset *)
}.

Definition NewConsumer (brokers : list string) (topic groupID : string) : ReaderConfig :=
  mkReaderConfig brokers topic groupID true.

Section wiring.
Context `{E : Env}.

(** The consumers of the program: of a scheduler, of a collector (two), of a worker. *)
Inductive consumer_of : Type :=
| SchedulerHeartbeats | CollectorResults | CollectorDeadLetters | WorkerJobs (workerID : uuid).

Definition reader_config (cfg : Config) (c : consumer_of) : ReaderConfig :=
  match c with
  | SchedulerHeartbeats =>
      NewConsumer (KafkaBrokers cfg) TopicHeartbeats "scheduler-heartbeats"
  | CollectorResults => NewConsumer (KafkaBrokers cfg) TopicResults "result-collector"
  | CollectorDeadLetters =>
      NewConsumer (KafkaBrokers cfg) TopicDeadLetter "dead-letter-collector"
  | WorkerJobs wid => NewConsumer (KafkaBrokers cfg) TopicJobs (uuid_String wid)
  end.

(** ** internal/api/http: NewServer, and what RunAPI gives to it *)

Context {X : Mux}.

(** http.Server's settings; times in microseconds. *)
Record Server : Type := mkServer {
  srv_Addr : string;
  srv_Handler : Request → Prog Response;
  srv_ReadTimeout : Z;
  srv_WriteTimeout : Z;
  srv_IdleTimeout : Z;
}.

Definition NewServer (port : Z) (rc : RouterConfig) : Server :=
  mkServer (":" +:+ pretty port) (NewRouter rc) (seconds 10) (seconds 15) (seconds 60).

Definition NewRateLimiter (limit window : Z) : RateLimiter := mkRateLimiter limit window.

(** The server of RunAPI. *)
Definition api_server (cfg : Config) : Server :=
  NewServer (HTTPPort cfg) (mkRouterConfig true true (NewRateLimiter 100 (seconds 60)) (APIKey cfg)).

(** ** Properties *)

Context `{!UuidLaws}.

(** Two consumers share a group, and with it the messages, only when they are the same consumer
    of two processes: schedulers share the heartbeats and collectors the results, and every
    worker is offered the whole topic of jobs. (The fixed names are no UUIDs: uuid.Parse takes
    texts of 32, 36, 38 and 45 characters.) *)
Theorem groups_separate cfg c d :
  uuid_Parse "scheduler-heartbeats" = None → uuid_Parse "result-collector" = None →
  uuid_Parse "dead-letter-collector" = None →
  rdr_GroupID (reader_config cfg c) = rdr_GroupID (reader_config cfg d) → c = d.
Proof.
  intros H1 H2 H3 Heq. destruct c, d; cbn in Heq; try done;
    apply (f_equal uuid_Parse) in Heq;
    rewrite ?uuid_Parse_String, ?H1, ?H2, ?H3 in Heq; congruence.
Qed.
End wiring.
