(* ===== verification/Components.v ===== *)
(** * The parts of each process: the structs, their constructors, and what the mains fill in

    The producer with its writers, the stores on Redis, the dispatcher, the monitor, the
    reporter, the executor, the collector and the handlers, as cmd/*/main.go and RunAPI build
    them from one configuration; and that the parts fit: who writes a topic and who reads it
    meet at the same brokers, the two users of the status cache at the same Redis. *)

From S2P Require Import Prelude GoStd Decimal Models GoTime Json World Lifecycle JobsRepo.
From S2P Require Import WorkersRepo DeadLettersRepo Broker BrokerSpec Dispatcher Monitor Cache Http.
From S2P Require Import Router Worker Executor Startup Wiring.

(** ** internal/broker: NewProducer *)

Inductive Balancer : Type := LeastBytes.    (* the partition with the fewest bytes: no key *)

(** kafka.Writer *)
Record Writer : Type := mkWriter {
  wr_Addr : list string;
  wr_Topic : string;
  wr_Balancer : Balancer;
}.

Abbreviation Producer := (gmap string Writer).

Definition NewProducer (brokers : list string) : Producer :=
  let mkWriter := λ topic, mkWriter brokers topic LeastBytes in
  <[TopicJobs := mkWriter TopicJobs]> (<[TopicResults := mkWriter TopicResults]>
  (<[TopicHeartbeats := mkWriter TopicHeartbeats]>
  (<[TopicDeadLetter := mkWriter TopicDeadLetter]> ∅))).

(** [p.writers[topic]] is what [Publish] looks up: a writer to the topic of its key. *)
Lemma NewProducer_writers brokers topic :
  NewProducer brokers !! topic =
  if bool_decide (topic ∈ writers) then Some (mkWriter brokers topic LeastBytes) else None.
Proof.
  unfold NewProducer. cbv zeta. case_bool_decide as Ht.
  - unfold writers in Ht.
    repeat (apply elem_of_cons in Ht as [->|Ht]; [reflexivity|]). by apply elem_of_nil in Ht.
  - unfold writers in Ht. rewrite !not_elem_of_cons in Ht. destruct Ht as (? & ? & ? & ? & _).
    by rewrite !lookup_insert_ne.
Qed.

(** internal/broker: NewJobPublisher *)
Definition NewJobPublisher (p : Producer) : Producer := p.

(** ** internal/cache *)

Record RedisClient : Type := mkRedisClient { rd_Addr : string }.
Definition NewIdempotencyStore (addr : string) : RedisClient := mkRedisClient addr.
Definition NewStatusCache (addr : string) : RedisClient := mkRedisClient addr.

(** ** internal/scheduler; times in microseconds *)

Record DispatcherConf : Type := mkDispatcher {
  di_Publisher : option Producer;         (* nil until main sets it *)
  di_Interval : Z;
}.
Definition NewDispatcher : DispatcherConf := mkDispatcher None (seconds 2).

Record HearbeatMonitor : Type := mkMonitor { hm_Interval : Z }.
Definition NewHeartbeatMonitor : HearbeatMonitor := mkMonitor (seconds 10).

(** ** internal/worker *)

Record KafkaReporter : Type := mkReporter {
  kr_producer : Producer;
  kr_workerID : uuid;
  kr_hostname : string;
}.
Definition NewKafkaReporter (p : Producer) (workerID : uuid) (hostname : string) : KafkaReporter :=
  mkReporter p workerID hostname.

Section processes.
Context `{E : Env}.

(** ** The executor, of what main gives to NewExecutor *)
Record ExecutorConf : Type := mkExecutor {
  xc_reporter : KafkaReporter;
  xc_jobChan : nat;                       (* the channel's capacity *)
  xc_runners : gmap string JobRunner;
  xc_maxConcurr : nat;
}.
Definition NewExecutor (r : KafkaReporter) (jobChan : nat) (rs : gmap string JobRunner)
    : ExecutorConf :=
  mkExecutor r jobChan rs maxConcurr.

(** ** The processes *)

(** internal/collector: ResultCollector *)
Record ResultCollector : Type := mkResultCollector {
  co_Producer : Producer;
  co_StatusCache : option RedisClient;
}.

(** internal/api/http/handler: NewJobHandler *)
Record JobHandlerConf : Type := mkJobHandler {
  jh_Idempotency : option RedisClient;
  jh_StatusCache : option RedisClient;
}.
Definition NewJobHandler (idem statusCache : option RedisClient) : JobHandlerConf :=
  mkJobHandler idem statusCache.

Record WorkerParts : Type := mkWorkerParts {
  wk_metrics : Z;
  wk_executor : ExecutorConf;
  wk_reader : ReaderConfig;
  wk_beat : Z;                            (* between two heartbeats *)
}.
(** cmd/worker *)
Definition worker_parts (cfg : Config) (workerID : uuid) (hostname : string) : WorkerParts :=
  let reporter := NewKafkaReporter (NewProducer (KafkaBrokers cfg)) workerID hostname in
  mkWorkerParts 9101 (NewExecutor reporter jobChan_cap runners)
    (reader_config cfg (WorkerJobs workerID)) (seconds 5).

Record SchedulerParts : Type := mkSchedulerParts {
  sc_dispatcher : DispatcherConf;
  sc_monitor : HearbeatMonitor;
  sc_reader : ReaderConfig;
}.
(** cmd/scheduler *)
Definition scheduler_parts (cfg : Config) : SchedulerParts :=
  let producer := NewProducer (KafkaBrokers cfg) in
  mkSchedulerParts (mkDispatcher (Some (NewJobPublisher producer)) (di_Interval NewDispatcher))
    NewHeartbeatMonitor (reader_config cfg SchedulerHeartbeats).

Record CollectorParts : Type := mkCollectorParts {
  cp_metrics : Z;
  cp_collector : ResultCollector;
  cp_results : ReaderConfig;
  cp_letters : ReaderConfig;
}.
(** cmd/result-collector *)
Definition collector_parts (cfg : Config) : CollectorParts :=
  mkCollectorParts 9102
    (mkResultCollector (NewProducer (KafkaBrokers cfg)) (Some (NewStatusCache (RedisAddr cfg))))
    (reader_config cfg CollectorResults) (reader_config cfg CollectorDeadLetters).

Record ApiParts : Type := mkApiParts {
  at_handler : JobHandlerConf;
  at_limiter : RedisClient * RateLimiter;
  at_apiKey : string;
}.
(** RunAPI *)
Definition api_parts (cfg : Config) : ApiParts :=
  mkApiParts
    (NewJobHandler (Some (NewIdempotencyStore (RedisAddr cfg))) (Some (NewStatusCache (RedisAddr cfg))))
    (mkRedisClient (RedisAddr cfg), NewRateLimiter 100 (seconds 60)) (APIKey cfg).

(** What NewRouter looks at in them. *)
Definition router_config (a : ApiParts) : RouterConfig :=
  mkRouterConfig (bool_decide (is_Some (jh_Idempotency (at_handler a))))
    (bool_decide (is_Some (jh_StatusCache (at_handler a)))) (at_limiter a).2 (at_apiKey a).

(** ** They fit *)

(** The server of ApiProc.v is the one of these parts. *)
Lemma api_server_parts `{X : Mux} cfg :
  api_server cfg = NewServer (HTTPPort cfg) (router_config (api_parts cfg)).
Proof. done. Qed.

(** Whoever writes and whoever reads meet: every consumer of the program reads a topic for
    which the producer of every process has a writer, at the same brokers and from the first
    offset on, and the dispatcher has its publisher. *)
Theorem topics_connected cfg wid host c :
  let r := reader_config cfg c in
  let w := mkWriter (rdr_Brokers r) (rdr_Topic r) LeastBytes in
  kr_producer (xc_reporter (wk_executor (worker_parts cfg wid host))) !! rdr_Topic r = Some w ∧
  (∃ p, di_Publisher (sc_dispatcher (scheduler_parts cfg)) = Some p ∧ p !! rdr_Topic r = Some w) ∧
  co_Producer (cp_collector (collector_parts cfg)) !! rdr_Topic r = Some w ∧
  rdr_FirstOffset r = true.
Proof.
  assert (Hw : ∀ t, t ∈ writers → NewProducer (KafkaBrokers cfg) !! t =
    Some (mkWriter (KafkaBrokers cfg) t LeastBytes)).
  { intros t Ht. rewrite NewProducer_writers. by rewrite bool_decide_true. }
  assert (rdr_Topic (reader_config cfg c) ∈ writers ∧
          rdr_Brokers (reader_config cfg c) = KafkaBrokers cfg) as [Hin Hb].
  { destruct c; cbn; split; try done; apply list_elem_of_In; cbn; auto. }
  cbn zeta. rewrite Hb. split_and!; [by apply Hw| |by apply Hw|by destruct c].
  eexists. split; [done|]. by apply Hw.
Qed.

(** What the API caches is what the collector invalidates. *)
Lemma status_cache_shared cfg :
  jh_StatusCache (at_handler (api_parts cfg)) = co_StatusCache (cp_collector (collector_parts cfg)).
Proof. done. Qed.

(** A worker may lose two heartbeats in a row before the dispatcher or the monitor takes it for
    silent; the dispatcher's tick is shorter than the heartbeat's. *)
Lemma intervals cfg wid host :
  let beat := wk_beat (worker_parts cfg wid host) in
  3 * beat = seconds staleSeconds ∧ dispatch_stale_seconds = staleSeconds ∧
  di_Interval (sc_dispatcher (scheduler_parts cfg)) < beat.
Proof. by split_and!. Qed.
End processes.
