(* ===== verification/WorkerProc.v ===== *)
(** * A worker process: cmd/worker/main.go

    main starts four things that share a context and a channel of jobs: the Kafka consumer, the
    executor of Executor.v, the heartbeat's loop, and itself, waiting for the context to end.
    Every statement of theirs that blocks or touches what they share is one step. What the
    executor promises by itself (ExecutorSpec.v) holds here for the process in its world. *)

From S2P Require Import Prelude GoStd Models Json World Lifecycle Broker Worker Executor.
From S2P Require Import ExecutorSpec ExecutorLive Startup.

(** ** State *)

(** Where the goroutine of the consumer stands. *)
Inductive consumer_pc : Type :=
| CFetch                                   (* at FetchMessage *)
| CSelect (m : KafkaMessage) (j : Job)     (* at the select of handle *)
| CCommit (m : KafkaMessage)               (* at CommitMessages *)
| CSleep                                   (* in sleep, after a temporary error *)
| CReturned (r : Res unit)                 (* Run has returned *)
| CGone.

Section worker.
Context `{E : Env}.

(** Where the goroutine of the heartbeat stands. *)
Inductive beat_pc : Type :=
| BStart                                   (* at the beginning of sendHeartbeat *)
| BSend (p : Prog (Res unit))              (* in reporter.SendHeartbeat *)
| BSelect                                  (* at the select on the ticker *)
| BGone.

(** The gauge worker_running_jobs, for the worker's label; [None] before it is first set. *)
Definition Gauge : Type := option Z.

Record WorkerProc : Type := mkWorkerProc {
  wp_id : uuid;
  wp_hostname : string;
  wp_exec : ExecState;            (* with jobChan and the context *)
  wp_consumer : consumer_pc;
  wp_committed : list KafkaMessage;
  wp_beat : beat_pc;
  wp_gauge : Gauge;
  wp_exited : bool;
}.

Definition set_exec (s : ExecState) (x : WorkerProc) : WorkerProc :=
  mkWorkerProc (wp_id x) (wp_hostname x) s (wp_consumer x) (wp_committed x) (wp_beat x)
    (wp_gauge x) (wp_exited x).
Definition set_consumer (c : consumer_pc) (x : WorkerProc) : WorkerProc :=
  mkWorkerProc (wp_id x) (wp_hostname x) (wp_exec x) c (wp_committed x) (wp_beat x)
    (wp_gauge x) (wp_exited x).
Definition set_committed (l : list KafkaMessage) (x : WorkerProc) : WorkerProc :=
  mkWorkerProc (wp_id x) (wp_hostname x) (wp_exec x) (wp_consumer x) l (wp_beat x)
    (wp_gauge x) (wp_exited x).
Definition set_beat (b : beat_pc) (x : WorkerProc) : WorkerProc :=
  mkWorkerProc (wp_id x) (wp_hostname x) (wp_exec x) (wp_consumer x) (wp_committed x) b
    (wp_gauge x) (wp_exited x).
Definition set_exited (x : WorkerProc) : WorkerProc :=
  mkWorkerProc (wp_id x) (wp_hostname x) (wp_exec x) (wp_consumer x) (wp_committed x) (wp_beat x)
    (wp_gauge x) true.
Definition set_gauge (n : Z) (x : WorkerProc) : WorkerProc :=
  mkWorkerProc (wp_id x) (wp_hostname x) (wp_exec x) (wp_consumer x) (wp_committed x) (wp_beat x)
    (Some n) (wp_exited x).

(** main up to the last go statement: [None] when the configuration cannot be loaded and the
    process exits. *)
Definition worker_start (getenv : string → string) (workerID : uuid) (hostname : string)
    : option WorkerProc :=
  match Load getenv with
  | Err _ => None
  | Ok _ => Some (mkWorkerProc workerID hostname exec_init CFetch [] BStart None false)
  end.

(** stop(), or a signal: the context ends. *)
Definition stop (x : WorkerProc) : WorkerProc :=
  set_exec (set_signals (ex_closed (wp_exec x)) true (wp_exec x)) x.
Definition ctx_done (x : WorkerProc) : Prop := ex_cancelled (wp_exec x) = true.

(** ** Steps *)

(** Where Consumer.Run goes after an error of the reader. *)
Definition after_fetch_error (e : error) : consumer_pc :=
  if ctx_ended e then CReturned (Ok tt)
  else if isTemporary e then CSleep else CReturned (Err e).
Definition after_commit_error (e : error) : consumer_pc :=
  if isTemporary e then CSleep else CReturned (Err e).

(** Where handle goes with a message. *)
Definition after_fetch (wid : uuid) (m : KafkaMessage) : consumer_pc :=
  match kafka_handle wid (km_value m) with
  | Refused e => CReturned (Err e)
  | Skipped => CCommit m
  | Deliver j => CSelect m j
  end.

(** The executor's state when a job has been sent to its channel. *)
Definition sent_job (j : Job) (s : ExecState) : ExecState :=
  set_trace (ex_sent s ++ [j]) (ex_received s) (ex_finished s) (set_chan (ex_chan s ++ [j]) s).

(** The goroutine of the consumer; it reads the messages of the topic jobs, in the world [w]. *)
Inductive consumer_step (w : World) (x : WorkerProc) : WorkerProc → Prop :=
| cn_fetch m :
    wp_consumer x = CFetch → m ∈ w_log w → km_topic m = TopicJobs →
    consumer_step w x (set_consumer (after_fetch (wp_id x) m) x)
| cn_fetch_error e :
    wp_consumer x = CFetch → consumer_step w x (set_consumer (after_fetch_error e) x)
| cn_send m j :
    wp_consumer x = CSelect m j → (length (ex_chan (wp_exec x)) < jobChan_cap)%nat →
    consumer_step w x (set_consumer (CCommit m) (set_exec (sent_job j (wp_exec x)) x))
| cn_interrupted m j :
    wp_consumer x = CSelect m j → ctx_done x →
    consumer_step w x (set_consumer (CReturned (Err ErrCanceled)) x)
| cn_commit m :
    wp_consumer x = CCommit m →
    consumer_step w x (set_consumer CFetch (set_committed (wp_committed x ++ [m]) x))
| cn_commit_error m e :
    wp_consumer x = CCommit m → consumer_step w x (set_consumer (after_commit_error e) x)
| cn_slept :
    wp_consumer x = CSleep → consumer_step w x (set_consumer CFetch x)
| cn_woken :
    wp_consumer x = CSleep → ctx_done x →
    consumer_step w x (set_consumer (CReturned (Ok tt)) x)
| cn_failed e :
    wp_consumer x = CReturned (Err e) → consumer_step w x (set_consumer CGone (stop x))
| cn_ended :
    wp_consumer x = CReturned (Ok tt) → consumer_step w x (set_consumer CGone x).

(** The goroutine of the heartbeat; [memMB] is what the runtime says. *)
Inductive beat_step : WorkerProc * World → WorkerProc * World → Prop :=
| bt_start memMB x w :
    wp_beat x = BStart →
    beat_step (x, w)
      (set_beat (BSend (SendHeartbeat (wp_id x) (wp_hostname x) (mkFloat 0 0) memMB
                          (RunningJobs (wp_exec x)))) (set_gauge (RunningJobs (wp_exec x)) x), w)
| bt_send inp p p' x w w' :
    wp_beat x = BSend p → prog_step inp (p, w) (p', w') →
    beat_step (x, w) (set_beat (BSend p') x, w')
| bt_sent r x w :
    wp_beat x = BSend (Ret r) → beat_step (x, w) (set_beat BSelect x, w)
| bt_tick x w :
    wp_beat x = BSelect → beat_step (x, w) (set_beat BStart x, w)
| bt_done x w :
    wp_beat x = BSelect → ctx_done x → beat_step (x, w) (set_beat BGone x, w).

(** The process. Main leaves when the context ends, and every goroutine ends with it. *)
Inductive worker_step : WorkerProc * World → WorkerProc * World → Prop :=
| ws_signal x w : wp_exited x = false → worker_step (x, w) (stop x, w)
| ws_consumer x x' w :
    wp_exited x = false → consumer_step w x x' → worker_step (x, w) (x', w)
| ws_executor x s' w w' :
    wp_exited x = false →
    internal_step (R := kafka_ReportResult (wp_id x)) runners (wp_exec x, w) (s', w') →
    worker_step (x, w) (set_exec s' x, w')
| ws_heartbeat x x' w w' :
    wp_exited x = false → beat_step (x, w) (x', w') → worker_step (x, w) (x', w')
| ws_exit x w :
    wp_exited x = false → ctx_done x → worker_step (x, w) (set_exited x, w).

(** ** The invariant *)

(** The message gives the worker the job [j]. *)
Definition brings (w : World) (wid : uuid) (j : Job) (m : KafkaMessage) : Prop :=
  m ∈ w_log w ∧ km_topic m = TopicJobs ∧ kafka_handle wid (km_value m) = Deliver j.

(** The message has been dealt with: it is another worker's, or its job is in the channel or
    has been there. *)
Definition taken (w : World) (x : WorkerProc) (m : KafkaMessage) : Prop :=
  m ∈ w_log w ∧ km_topic m = TopicJobs ∧
  (kafka_handle (wp_id x) (km_value m) = Skipped ∨
   ∃ j, brings w (wp_id x) j m ∧ j ∈ ex_sent (wp_exec x)).

Record worker_inv (w : World) (x : WorkerProc) : Prop := {
  wi_exec : exec_inv (wp_exec x);
  wi_open : ex_closed (wp_exec x) = false;      (* nobody closes jobChan *)
  wi_chan : (length (ex_chan (wp_exec x)) ≤ jobChan_cap)%nat;
  wi_sent : Forall (λ j, ∃ m, brings w (wp_id x) j m) (ex_sent (wp_exec x));
  wi_committed : Forall (taken w x) (wp_committed x);
  wi_consumer : match wp_consumer x with
                | CSelect m j => brings w (wp_id x) j m
                | CCommit m => taken w x m
                | _ => True
                end;
}.

Lemma brings_later w w' wid j m : w_log w `prefix_of` w_log w' → brings w wid j m → brings w' wid j m.
Proof.
  intros [l Hl] (Hm & Ht & Hd). split_and!; [|done..]. rewrite Hl. apply elem_of_app. by left.
Qed.

Lemma taken_later w w' x x' m :
  w_log w `prefix_of` w_log w' → wp_id x' = wp_id x →
  (∀ j, j ∈ ex_sent (wp_exec x) → j ∈ ex_sent (wp_exec x')) → taken w x m → taken w' x' m.
Proof.
  intros Hl Hid Hs (Hm & Ht & Hor). unfold taken. rewrite Hid. split_and!; [|done|].
  - destruct Hl as [l ->]. apply elem_of_app. by left.
  - destruct Hor as [?|(j & Hb & Hj)]; [by left|right]. exists j.
    split; [by eapply brings_later|auto].
Qed.

Implicit Types (w : World) (x : WorkerProc).

(** The invariant of a later state: the executor's holds, the channel is in bounds, what was
    sent is still among what was sent, and the consumer has done nothing new. *)
Lemma worker_inv_later w w' x x' :
  worker_inv w x → w_log w `prefix_of` w_log w' → exec_inv (wp_exec x') →
  ex_closed (wp_exec x') = ex_closed (wp_exec x) →
  (length (ex_chan (wp_exec x')) ≤ jobChan_cap)%nat →
  wp_id x' = wp_id x → wp_committed x' = wp_committed x → wp_consumer x' = wp_consumer x →
  ex_sent (wp_exec x') = ex_sent (wp_exec x) → worker_inv w' x'.
Proof.
  intros [He Ho Hc Hs Hcm Hcn] Hl He' Ho' Hc' Hid Hcm' Hcn' Hs'.
  assert (Ht : ∀ m, taken w x m → taken w' x' m).
  { intros m. apply taken_later; [done..|]. by rewrite Hs'. }
  split; [done|by rewrite Ho'|done|rewrite Hs', Hid|rewrite Hcm'|rewrite Hcn'].
  - eapply Forall_impl; [exact Hs|]. intros j [m Hm]. exists m. by eapply brings_later.
  - eapply Forall_impl; [exact Hcm|done].
  - destruct (wp_consumer x); try done; [|by apply Ht]. rewrite Hid. by eapply brings_later.
Qed.

Lemma worker_init_inv w wid host :
  worker_inv w (mkWorkerProc wid host exec_init CFetch [] BStart None false).
Proof.
  split; cbn; [apply exec_init_inv|done| |constructor|constructor|done]. unfold jobChan_cap. lia.
Qed.

Lemma stop_inv w x : worker_inv w x → worker_inv w (stop x).
Proof.
  intros H. eapply worker_inv_later; [done|done|..|done|done|done|done]; [|done|apply H].
  apply (outside_step_inv (wp_exec x)); [apply out_cancel|apply H].
Qed.

Lemma set_consumer_inv w x c :
  worker_inv w x →
  match c with CSelect m j => brings w (wp_id x) j m | CCommit m => taken w x m | _ => True end →
  worker_inv w (set_consumer c x).
Proof. by intros []. Qed.

Lemma after_fetch_inv w x m :
  m ∈ w_log w → km_topic m = TopicJobs →
  match after_fetch (wp_id x) m with
  | CSelect m j => brings w (wp_id x) j m | CCommit m => taken w x m | _ => True
  end.
Proof.
  intros Hm Ht. unfold after_fetch. destruct (kafka_handle _ _) eqn:Hk; [done|..].
  - split_and!; [done|done|by left].
  - by split_and!.
Qed.

(** The consumer sends its job. *)
Lemma send_inv w x m j :
  worker_inv w x → wp_consumer x = CSelect m j →
  (length (ex_chan (wp_exec x)) < jobChan_cap)%nat →
  worker_inv w (set_consumer (CCommit m) (set_exec (sent_job j (wp_exec x)) x)).
Proof.
  intros [He Ho Hc Hs Hcm Hcn] Hpc Hlt. rewrite Hpc in Hcn.
  assert (Hin : ∀ i, i ∈ ex_sent (wp_exec x) → i ∈ ex_sent (wp_exec x) ++ [j]).
  { intros i Hi. apply elem_of_app. by left. }
  split; cbn; [|done|..].
  - apply (outside_step_inv (wp_exec x)); [by constructor|done].
  - rewrite length_app. cbn. lia.
  - apply Forall_app. split; [done|]. constructor; [by exists m|done].
  - eapply Forall_impl; [exact Hcm|]. intros m'. by apply taken_later.
  - destruct Hcn as (Hm & Ht & Hd). split_and!; [done..|]. right. exists j. split; [by split_and!|].
    apply elem_of_app. right. left.
Qed.

Lemma consumer_step_inv w x x' : consumer_step w x x' → worker_inv w x → worker_inv w x'.
Proof.
  intros Hs Hinv. destruct Hs as [m _ Hm Ht|e _|m j Hpc Hlt|m j _ _|m Hpc|m e _| | |e _|];
    try (by apply set_consumer_inv).
  - apply set_consumer_inv; [done|by apply after_fetch_inv].
  - apply set_consumer_inv; [done|]. unfold after_fetch_error.
    by destruct (ctx_ended e), (isTemporary e).
  - by apply send_inv.
  - destruct Hinv as [He Ho Hc Hs Hcm Hcn]. rewrite Hpc in Hcn. split; try done.
    apply Forall_app. by split; [|constructor].
  - apply set_consumer_inv; [done|]. unfold after_commit_error. by destruct (isTemporary e).
  - by apply set_consumer_inv; [apply stop_inv|].
Qed.

Lemma internal_step_chan rs wid s w s' w' :
  internal_step (R := kafka_ReportResult wid) rs (s, w) (s', w') →
  (length (ex_chan s') ≤ length (ex_chan s))%nat.
Proof.
  intros H. inversion H as [s0 s1 w0 Hm|c c' Hg]; subst.
  - destruct Hm as [s Hm Hc|s Hm Hl Hc|j l s Hm Hl|j s Hm Hlt|j s Hm|j s Hm|j s Hm|s Hm Hw];
      cbn; rewrite ?Hl; cbn; lia.
  - by inversion Hg.
Qed.

(** A worker keeps its invariant when it moves. *)
Lemma worker_step_inv x x' w w' :
  worker_step (x, w) (x', w') → w_log w `prefix_of` w_log w' → worker_inv w x →
  worker_inv w' x'.
Proof.
  intros Hs Hl Hinv. inversion Hs as [x0 w0 _|x0 x1 w0 _ Hc|x0 s1 w0 w1 _ Hi|x0 x1 w0 w1 _ Hb|
    x0 w0 _ _]; subst.
  - by apply stop_inv.
  - by eapply consumer_step_inv.
  - pose proof (internal_step_signals _ _ _ _ _ Hi) as (_ & Hcl & Hse).
    eapply worker_inv_later; [done|done| |done| |done..].
    + apply (exec_step_inv _ _ _ (ex_internal _ _ _ Hi)), Hinv.
    + etransitivity; [by eapply internal_step_chan|apply Hinv].
  - eapply worker_inv_later; [done|done|..];
      inversion Hb; subst; try done; apply Hinv.
  - eapply worker_inv_later; [done|done|..]; try done; apply Hinv.
Qed.

(** ** The end of the process *)

Lemma step_executor x s' w :
  wp_exited x = false →
  main_step (R := kafka_ReportResult (wp_id x)) runners (wp_exec x) s' →
  worker_step (x, w) (set_exec s' x, w).
Proof. intros He Hs. apply ws_executor; [done|]. by apply in_main. Qed.

Lemma exited_stays x w c : wp_exited x = true → ¬ worker_step (x, w) c.
Proof. intros He Hs. inversion Hs; congruence. Qed.

(** The loop of Run takes the only job of the channel and starts its goroutine. *)
Lemma job_started x w j cancelled sent :
  wp_exited x = false →
  wp_exec x = mkExec MSelect [] [j] false cancelled 0 0 0 sent [] [] [] →
  rtc worker_step (x, w)
    (set_exec (mkExec MSelect [(j, GRun (execute (R := kafka_ReportResult (wp_id x)) runners j))]
                 [] false cancelled 1 1 1 sent [j] [] []) x, w).
Proof.
  intros He Hx. destruct x as [wid host s c l b g ex]. cbn in He, Hx. subst.
  eapply rtc_l; [apply step_executor; [done|]; by apply (main_receive _ j [])|].
  eapply rtc_l; [apply step_executor; [done|]; apply (main_acquire _ j); cbn; [done|]; unfold maxConcurr; lia|].
  eapply rtc_l; [apply step_executor; [done|]; by apply (main_wg_add _ j)|].
  eapply rtc_l; [apply step_executor; [done|]; by apply (main_count _ j)|].
  eapply rtc_l; [apply step_executor; [done|]; by apply (main_go _ j)|]. done.
Qed.

(** C40: the worker's main does not wait: from a start of the process with a job's message on the
    topic there is a run in which the message is committed, the job is being executed, the
    process gets a signal, and main returns all the same, although Executor.Run would wait for
    the goroutine. Then the process is gone, the world is as it was: no result was published,
    none ever will be by this process, and the offset is past the message. *)
Theorem worker_exit_abandons getenv wid host x w m j :
  worker_start getenv wid host = Some x → brings w wid j m →
  ∃ x', rtc worker_step (x, w) (x', w) ∧ wp_exited x' = true ∧ m ∈ wp_committed x' ∧
    ex_gos (wp_exec x') = [(j, GRun (execute (R := kafka_ReportResult wid) runners j))] ∧
    ex_main (wp_exec x') = MSelect ∧ ex_finished (wp_exec x') = [] ∧
    ∀ c, ¬ worker_step (x', w) c.
Proof.
  intros Hx (Hm & Ht & Hd). unfold worker_start in Hx. destruct (Load getenv); [|done].
  injection Hx as <-.
  exists (mkWorkerProc wid host
    (mkExec MSelect [(j, GRun (execute (R := kafka_ReportResult wid) runners j))] [] false true
       1 1 1 [j] [j] [] []) CFetch [m] BStart None true).
  split; [|split_and!; try done; [left|intros c; by apply exited_stays]].
  eapply rtc_l; [apply ws_consumer; [done|]; by apply (cn_fetch _ _ m)|].
  unfold after_fetch. cbn [wp_id]. rewrite Hd.
  eapply rtc_l; [apply ws_consumer; [done|]; apply (cn_send _ _ m j); cbn; [done|];
                 unfold jobChan_cap; lia|].
  eapply rtc_l; [apply ws_consumer; [done|]; by apply (cn_commit _ _ m)|].
  etransitivity; [by apply (job_started _ _ j false [j])|].
  eapply rtc_l; [by apply ws_signal|].
  eapply rtc_l; [by apply ws_exit|]. done.
Qed.
End worker.
