(* ===== verification/WorkerMetrics.v ===== *)
(** * What a worker process measures: internal/metrics in cmd/worker

    The histogram worker_job_duration_seconds, which the deferred function of execute fills,
    and the gauge worker_running_jobs, which the heartbeat's loop sets. Both live in the
    process: the invariant ties them to the jobs it finished, to the messages it published,
    and to the heartbeat it is sending. *)

From S2P Require Import Prelude GoStd Models Json World Growing Lifecycle Broker Worker Executor.
From S2P Require Import ExecutorSpec Startup WorkerProc.

(** The topics only grow. *)
Definition log_later `{Env} (w w' : World) : Prop := w_log w `prefix_of` w_log w'.

#[export] Instance log_later_preorder `{Env} : PreOrder log_later.
Proof. split; [intros w; by unfold log_later|]. intros w1 w2 w3. unfold log_later. apply transitivity. Qed.

Section metrics.
Context `{E : Env}.
Implicit Types (w : World) (x : WorkerProc) (j : Job).

(** The worker has published the success of the job. *)
Definition success_told (wid : uuid) j w : Prop :=
  ∃ body, json_Marshal (result_of wid j true EmptyString) = Ok body ∧
    mkKafkaMessage TopicResults (uuid_String (job_ID j)) body ∈ w_log w.

(** What execute observes of a job: its type, and success only if that was published. *)
Definition labels_of (wid : uuid) j w (labels : string * bool) : Prop :=
  labels.1 = job_Type j ∧ (labels.2 = true → success_told wid j w).

Lemma labels_of_later wid j labels : stable log_later (λ w, labels_of wid j w labels).
Proof.
  intros w w' [l Hl] [Ht Hs]. split; [done|]. intros (body & Hb & Hin)%Hs. exists body.
  split; [done|]. rewrite Hl. apply elem_of_app. by left.
Qed.

(** A program of a worker, with the others adding to the topics meanwhile. *)
Abbreviation grows := (prog_from (λ _, True) log_later).

Lemma runner_grows t r payload w :
  runners !! t = Some r → grows (r payload) (λ _ _, True) w.
Proof.
  unfold runners. rewrite !lookup_insert_Some, lookup_empty.
  intros [[_ <-]|[_ [[_ <-]|[_ ?]]]]; [done| |done].
  unfold SleepRunner. destruct (sleep_duration payload) as [d|e]; [|done].
  by apply prog_from_call; [apply _| |].
Qed.

Lemma ReportResult_grows wid j success msg w :
  grows (ReportResult (ResultReporter := kafka_ReportResult wid) j success msg)
    (λ w' r, is_ok r → success = true → msg = EmptyString → success_told wid j w') w.
Proof.
  set (told := λ w', success = true → msg = EmptyString → success_told wid j w').
  unfold ReportResult, kafka_ReportResult.
  apply (prog_from_bind _ _ _ _ (λ w' r, is_ok r → told w'));
    [|intros w' [u|e] _ Ht; [exact (λ _, Ht I)|by intros []]].
  unfold Publish. case_bool_decide; [|by intros []]. destruct (json_Marshal _) as [body|e] eqn:Hb; [|by intros []].
  apply prog_from_call; [apply _| |by intros ?? _ []]. intros inp w1 _ _. cbn.
  split_and!; [done|by eexists|]. intros _ -> ->. exists body. split; [done|].
  apply elem_of_app. right. left.
Qed.

Lemma fail_grows wid j msg (labels : string * bool) w :
  labels.1 = job_Type j → labels.2 = false →
  grows (fail (R := kafka_ReportResult wid) j msg ;;! Ret labels)
    (λ w', labels_of wid j w') w.
Proof.
  intros Ht Hs. apply (prog_from_bind _ _ _ _ (λ _ _, True)).
  - eapply prog_from_bind; [apply _|apply ReportResult_grows|done].
  - intros w' _ _ _. cbn. split; [done|congruence].
Qed.

Lemma execute_grows wid j w :
  grows (execute (R := kafka_ReportResult wid) runners j) (λ w', labels_of wid j w') w.
Proof.
  unfold execute. destruct (runners !! job_Type j) as [r|] eqn:Hr; [|by apply fail_grows].
  eapply prog_from_bind; [apply _|by eapply runner_grows|].
  intros w1 [u|e] _ _; [|by apply fail_grows].
  eapply prog_from_bind; [apply _|apply ReportResult_grows|].
  intros w2 [t|e] _ Ht; cbn; split; try done. intros _. by apply Ht.
Qed.

(** ** The invariant *)

(** What was observed, in the order of the jobs that were finished. *)
Definition observed_of (wid : uuid) w (o : Observation) j : Prop :=
  labels_of wid j w o.1 ∧ 0 ≤ o.2.

Definition goroutine_ok (wid : uuid) w (g : Job * go_pc) : Prop :=
  match g.2 with GRun p => grows p (λ w', labels_of wid g.1 w') w | _ => True end.

(** A program on its way. *)
Definition on_its_way {A} (p p' : Prog A) : Prop :=
  rtc (λ q q', ∃ inp w w', prog_step inp (q, w) (q', w')) p p'.

Definition gauge_ok x : Prop :=
  ∀ p, wp_beat x = BSend p → ∃ memMB n, wp_gauge x = Some n ∧
    on_its_way (SendHeartbeat (wp_id x) (wp_hostname x) (mkFloat 0 0) memMB n) p.

Record metrics_inv w x : Prop := {
  mi_observed : Forall2 (observed_of (wp_id x) w) (ex_observed (wp_exec x))
                        (ex_finished (wp_exec x));
  mi_running : Forall (goroutine_ok (wp_id x) w) (ex_gos (wp_exec x));
  mi_gauge : gauge_ok x;
}.

Lemma metrics_init_inv w wid host :
  metrics_inv w (mkWorkerProc wid host exec_init CFetch [] BStart None false).
Proof. by split. Qed.

Lemma goroutine_ok_later wid g : stable log_later (λ w, goroutine_ok wid w g).
Proof.
  intros w w' Hl. unfold goroutine_ok. destruct (g.2); try done.
  apply prog_from_later; [apply _| |done]. apply labels_of_later.
Qed.

Lemma observed_of_later wid o j : stable log_later (λ w, observed_of wid w o j).
Proof. intros w w' Hl [Ho Hd]. split; [by eapply labels_of_later|done]. Qed.

(** The executor's part, in a later world. *)
Definition exec_ok (wid : uuid) w (s : ExecState) : Prop :=
  Forall2 (observed_of wid w) (ex_observed s) (ex_finished s) ∧
  Forall (goroutine_ok wid w) (ex_gos s).

Lemma exec_ok_later wid s : stable log_later (λ w, exec_ok wid w s).
Proof.
  intros w w' Hl [Ho Hg]. split.
  - eapply Forall2_impl; [exact Ho|]. intros o j. by apply observed_of_later.
  - eapply Forall_impl; [exact Hg|]. intros g. by apply goroutine_ok_later.
Qed.

Lemma main_step_ok wid w s s' :
  main_step (R := kafka_ReportResult wid) runners s s' → exec_ok wid w s → exec_ok wid w s'.
Proof.
  intros [] [Ho Hg]; try done. split; [done|]. constructor; [apply execute_grows|done].
Qed.

Lemma go_step_ok wid w w' s s' :
  go_step (s, w) (s', w') → exec_ok wid w s → log_later w w' ∧ exec_ok wid w' s'.
Proof.
  intros Hst Hok. inversion Hst as [inp j p p' l1 l2 s0 w0 w0' Hg Hp|d j labels l1 l2 s0 w0 Hg Hd|
    j l1 l2 n s0 w0 Hg _|j l1 l2 n s0 w0 Hg _|j l1 l2 s0 w0 Hg]; subst;
    pose proof (proj2 Hok) as Hgs; rewrite Hg in Hgs;
    apply Forall_app in Hgs as (Hl1 & [Hj Hl2]%Forall_cons); cbn in Hj.
  - destruct (prog_step_from _ log_later _ _ _ _ _ _ Hp Hj I) as (Hp' & _ & Hl).
    split; [done|]. destruct (exec_ok_later _ _ _ _ Hl Hok) as [Ho Hgs].
    split; [done|]. cbn. rewrite Hg in Hgs. apply Forall_app in Hgs as (? & [_ ?]%Forall_cons).
    apply Forall_app. by split; [|constructor].
  - split; [reflexivity|]. destruct Hok as [Ho _]. split; cbn.
    + apply Forall2_app; [done|]. constructor; [by split|constructor].
    + apply Forall_app. by split; [|constructor].
  - split; [reflexivity|]. split; [apply Hok|]. apply Forall_app. by split; [|constructor].
  - split; [reflexivity|]. split; [apply Hok|]. apply Forall_app. by split; [|constructor].
  - split; [reflexivity|]. split; [apply Hok|]. apply Forall_app. by split.
Qed.

Lemma beat_step_gauge x x' w w' : beat_step (x, w) (x', w') → gauge_ok x → gauge_ok x'.
Proof.
  intros Hb Hg. inversion Hb as [mem x0 w0 _|inp p p' x0 w0 w1 Hpc Hp|r x0 w0 _|x0 w0 _|x0 w0 _ _];
    subst; intros q; cbn; try done.
  - intros [= <-]. exists mem, (RunningJobs (wp_exec x)). by split; [|apply rtc_refl].
  - intros [= <-]. destruct (Hg p Hpc) as (mem & n & Hn & Hway). exists mem, n.
    split; [done|]. eapply rtc_r; [exact Hway|]. by exists inp, w, w'.
Qed.

(** Only the executor's part and the heartbeat's matter. *)
Lemma metrics_inv_same w x x' :
  metrics_inv w x → wp_id x' = wp_id x → wp_hostname x' = wp_hostname x →
  ex_observed (wp_exec x') = ex_observed (wp_exec x) →
  ex_finished (wp_exec x') = ex_finished (wp_exec x) →
  ex_gos (wp_exec x') = ex_gos (wp_exec x) → wp_beat x' = wp_beat x →
  wp_gauge x' = wp_gauge x → metrics_inv w x'.
Proof.
  intros [Ho Hr Hg] Hi Hh Hob Hf Hgo Hb Hga. split; [by rewrite Hi, Hob, Hf|by rewrite Hi, Hgo|].
  intros p. rewrite Hb, Hga, Hi, Hh. apply Hg.
Qed.

Lemma metrics_inv_later w w' x : log_later w w' → metrics_inv w x → metrics_inv w' x.
Proof.
  intros Hl [Ho Hr Hg].
  destruct (exec_ok_later (wp_id x) (wp_exec x) w w' Hl (conj Ho Hr)) as [Ho' Hr']. by split.
Qed.

Lemma metrics_step_inv x x' w w' :
  worker_step (x, w) (x', w') → log_later w w' → metrics_inv w x → metrics_inv w' x'.
Proof.
  intros Hs Hl Hinv. inversion Hs as [x0 w0 _|x0 x1 w0 _ Hc|x0 s1 w0 w1 _ Hi|x0 x1 w0 w1 _ Hb|
    x0 w0 _ _]; subst.
  - by apply (metrics_inv_same _ x).
  - apply (metrics_inv_same _ x); [done|by destruct Hc..].
  - assert (exec_ok (wp_id x) w' s1) as [Ho Hr].
    { destruct Hinv as [Ho Hr _]. inversion Hi as [s0 s2 w2 Hm|c c' Hg]; subst.
      - by eapply main_step_ok.
      - by eapply go_step_ok in Hg as [_ ?]. }
    split; [done|done|apply Hinv].
  - destruct (metrics_inv_later _ _ _ Hl Hinv) as [Ho Hr Hg].
    pose proof (beat_step_gauge _ _ _ _ Hb Hg) as Hg'.
    assert (wp_exec x' = wp_exec x ∧ wp_id x' = wp_id x) as [He Hid] by (by inversion Hb; subst).
    by split; rewrite ?He, ?Hid.
  - by apply (metrics_inv_same _ x).
Qed.
End metrics.
