(* ===== verification/SchedulerProc.v ===== *)
(** * A scheduler process: cmd/scheduler/main.go

    main campaigns on a ticker until it leads, starts the dispatcher and the monitor once it
    does, and leaves its loop when the process is told to stop or when the heartbeat consumer
    has failed; then the deferred calls run, in the reverse of their order. Any number of
    schedulers share the server's advisory lock (Leader.v). *)

From S2P Require Import Prelude GoStd World Leader Startup.

(** pgxpool: whether Close returns, by the number of connections that were acquired and are
    not released. Its documentation says that it blocks until all of them are. *)
Class PgxPool : Type := Close_returns : nat → Prop.
Class PgxPoolLaws (P : PgxPool) : Prop :=
  Close_waits : ∀ n, Close_returns n ↔ n = 0%nat.

(** internal/db: Close, when [held] connections are out. *)
Definition db_Close `{PgxPool} (held : nat) : Prop := Close_returns held.

(** ** State *)

(** The deferred calls. *)
Inductive Deferred : Type :=
| DTickerStop | DConsumerClose | DCancelLoops | DProducerClose | DDatabaseClose | DStop.

(** What main has deferred when it enters its loop; the last one comes first. *)
Definition deferred : list Deferred :=
  [DTickerStop; DConsumerClose; DCancelLoops; DProducerClose; DDatabaseClose; DStop].

(** Where main stands. *)
Inductive sched_pc : Type :=
| SLoop                            (* at the select *)
| SResign                          (* in the case of ctx, about to resign *)
| SDeferred (l : list Deferred)    (* has returned, with these calls to make *)
| SExited.

(** Where the goroutine of the heartbeat consumer stands. *)
Inductive hb_pc : Type :=
| HRun                             (* in Run *)
| HFailed                          (* Run returned an error *)
| HGone.

Record SchedProc : Type := mkSched {
  sp_elector : LeaderElector;
  sp_running : bool;
  sp_ctx : bool;                   (* ctx has ended *)
  sp_cancelled : bool;             (* cancelLoops was called *)
  sp_loops : nat;                  (* of dispatcher.Run and monitor.Run, how many are running *)
  sp_consumer : hb_pc;
  sp_main : sched_pc;
}.

Definition set_elector (l : LeaderElector) (p : SchedProc) : SchedProc :=
  mkSched l (sp_running p) (sp_ctx p) (sp_cancelled p) (sp_loops p) (sp_consumer p) (sp_main p).
Definition set_ctx (p : SchedProc) : SchedProc :=
  mkSched (sp_elector p) (sp_running p) true (sp_cancelled p) (sp_loops p) (sp_consumer p)
    (sp_main p).
Definition cancelLoops (p : SchedProc) : SchedProc :=
  mkSched (sp_elector p) (sp_running p) (sp_ctx p) true (sp_loops p) (sp_consumer p) (sp_main p).
Definition set_loops (running : bool) (n : nat) (p : SchedProc) : SchedProc :=
  mkSched (sp_elector p) running (sp_ctx p) (sp_cancelled p) n (sp_consumer p) (sp_main p).
Definition set_hb (c : hb_pc) (p : SchedProc) : SchedProc :=
  mkSched (sp_elector p) (sp_running p) (sp_ctx p) (sp_cancelled p) (sp_loops p) c (sp_main p).
Definition set_pc (m : sched_pc) (p : SchedProc) : SchedProc :=
  mkSched (sp_elector p) (sp_running p) (sp_ctx p) (sp_cancelled p) (sp_loops p) (sp_consumer p) m.

(** loopCtx is a child of ctx. *)
Definition loop_done (p : SchedProc) : bool := sp_ctx p || sp_cancelled p.

(** The connections that the elector keeps from the pool; those of a query in flight go back
    by themselves. *)
Definition kept (p : SchedProc) : nat := if Isleader (sp_elector p) then 1 else 0.

(** main up to its loop; [None] when log.Fatal ends the process. *)
Definition sched_start (getenv : string → string) (database : option error) : option SchedProc :=
  match Load getenv with
  | Err _ => None
  | Ok _ =>
      match database with
      | Some _ => None
      | None => Some (mkSched NewLeaderElector false false false 0 HRun SLoop)
      end
  end.

(** What follows a campaign that answered [r]. *)
Definition after_campaign (r : Res bool) (p : SchedProc) : SchedProc :=
  match r with Ok true => set_loops true 2 p | _ => p end.

Section steps.
Context `{P : PgxPool}.

(** One deferred call. *)
Inductive deferred_step (p : SchedProc) : Deferred → SchedProc → Prop :=
| df_ticker : deferred_step p DTickerStop p
| df_consumer : deferred_step p DConsumerClose p
| df_cancel : deferred_step p DCancelLoops (cancelLoops p)
| df_producer : deferred_step p DProducerClose p
| df_database : db_Close (kept p) → deferred_step p DDatabaseClose p
| df_stop : deferred_step p DStop (set_ctx p).

(** A step of the process. Only a campaign and the resignation touch the lock; [free] says of
    which sessions the pool may hand out the connection. *)
Inductive sched_step (free : Conn → Prop) : SchedProc * Lock → SchedProc * Lock → Prop :=
| ss_signal p lk : sched_step free (p, lk) (set_ctx p, lk)
| ss_consumer_fails p lk :
    sp_consumer p = HRun → sched_step free (p, lk) (set_hb HFailed p, lk)
| ss_consumer_ends p lk :         (* on any error that is a context's, its own or another's *)
    sp_consumer p = HRun → sched_step free (p, lk) (set_hb HGone p, lk)
| ss_consumer_cancels p lk :
    sp_consumer p = HFailed → sched_step free (p, lk) (set_hb HGone (cancelLoops p), lk)
| ss_loop_ends n p lk :
    sp_loops p = S n → loop_done p = true →
    sched_step free (p, lk) (set_loops (sp_running p) n p, lk)
| ss_ctx p lk :
    sp_main p = SLoop → sp_ctx p = true →
    sched_step free (p, lk) (set_pc SResign (cancelLoops p), lk)
| ss_resign exec p lk :
    sp_main p = SResign →
    let r := Resign (sp_elector p) exec lk in
    sched_step free (p, lk) (set_pc (SDeferred deferred) (set_elector r.1.2 p), r.2)
| ss_loop_ctx p lk :
    sp_main p = SLoop → loop_done p = true →
    sched_step free (p, lk) (set_pc (SDeferred deferred) p, lk)
| ss_tick_running p lk :
    sp_main p = SLoop → sp_running p = true → sched_step free (p, lk) (p, lk)
| ss_tick acquired query p lk :
    sp_main p = SLoop → sp_running p = false → (∀ c, acquired = Ok c → free c) →
    let r := Campaign (sp_elector p) acquired query lk in
    sched_step free (p, lk) (after_campaign r.1.1 (set_elector r.1.2 p), r.2)
| ss_deferred d l p p' lk :
    sp_main p = SDeferred (d :: l) → deferred_step p d p' →
    sched_step free (p, lk) (set_pc (SDeferred l) p', lk)
| ss_exit p lk :
    sp_main p = SDeferred [] → sched_step free (p, lk) (set_pc SExited p, lk).

(** ** The schedulers of a deployment *)

Record Schedulers : Type := mkSchedulers {
  sc_procs : gmap nat SchedProc;
  sc_lock : Lock;
}.
Definition no_schedulers : Schedulers := mkSchedulers ∅ None.

(** As the electors see it. *)
Definition electors (s : Schedulers) : Cluster :=
  mkCluster (sp_elector <$> sc_procs s) (sc_lock s).

Inductive schedulers_step (s : Schedulers) : Schedulers → Prop :=
| sch_start i getenv database p :
    sc_procs s !! i = None → sched_start getenv database = Some p →
    schedulers_step s (mkSchedulers (<[i := p]> (sc_procs s)) (sc_lock s))
| sch_step i p p' lk :
    sc_procs s !! i = Some p → sp_main p ≠ SExited →
    sched_step (λ c, idle c (electors s)) (p, sc_lock s) (p', lk) →
    schedulers_step s (mkSchedulers (<[i := p']> (sc_procs s)) lk)
| sch_session_end c :
    idle c (electors s) →
    schedulers_step s (mkSchedulers (sc_procs s) (pg_session_end c (sc_lock s))).

Definition schedulers_reach : Schedulers → Prop := rtc schedulers_step no_schedulers.

(** ** The electors *)

(** A step of a process is a step of its elector, or none. *)
Lemma sched_step_elector s i p p' lk :
  sc_procs s !! i = Some p → sched_step (λ c, idle c (electors s)) (p, sc_lock s) (p', lk) →
  (sp_elector p' = sp_elector p ∧ lk = sc_lock s) ∨
  cluster_step false (electors s)
    (mkCluster (<[i := sp_elector p']> (sp_elector <$> sc_procs s)) lk).
Proof.
  intros Hi Hs.
  assert (Hel : cl_electors (electors s) !! i = Some (sp_elector p)).
  { cbn. by rewrite lookup_fmap, Hi. }
  inversion Hs as [| | | | | |exec p0 lk0 Hm r| | |acq q p0 lk0 Hm Hr Hf r|d l p0 p1 lk0 Hm Hd|];
    subst; try (by left).
  - right. apply (cl_resign _ (electors s) i _ exec Hel).
  - right. replace (sp_elector (after_campaign _ _)) with r.1.2 by (by destruct r.1.1 as [[]|]).
    by apply (cl_campaign _ (electors s) i _ acq q Hel).
  - left. by destruct Hd.
Qed.

Lemma electors_step s s' :
  schedulers_step s s' → rtc (cluster_step false) (electors s) (electors s').
Proof.
  intros Hs. destruct Hs as [i getenv db p Hi Hp|i p p' lk Hi He Hs|c Hc].
  - apply rtc_once. unfold electors. cbn. rewrite fmap_insert.
    assert (sp_elector p = NewLeaderElector) as ->.
    { unfold sched_start in Hp. destruct (Load getenv), db; by simplify_eq. }
    apply (cl_start false (electors s)). cbn. by rewrite lookup_fmap, Hi.
  - destruct (sched_step_elector s i p p' lk Hi Hs) as [[Hel ->]|Hstep]; unfold electors at 2; cbn;
      rewrite fmap_insert; [|by apply rtc_once].
    rewrite Hel, insert_id by (by rewrite lookup_fmap, Hi). done.
  - apply rtc_once. apply (cl_session_end false (electors s)). by right.
Qed.

Lemma electors_ok s : schedulers_reach s → cluster_ok (electors s).
Proof.
  intros Hr. apply cluster_reachable_ok.
  replace empty_cluster with (electors no_schedulers)
    by (unfold electors, no_schedulers; cbn; by rewrite fmap_empty).
  unfold schedulers_reach in Hr. induction Hr as [s|s1 s2 s3 H12 _ IH]; [done|].
  etransitivity; [by apply electors_step|done].
Qed.

(** ** The invariant of a process *)

Record sched_ok (p : SchedProc) : Prop := {
  so_leads : sp_main p = SLoop ∨ sp_main p = SResign → Isleader (sp_elector p) = sp_running p;
  so_closed : match sp_main p with
              | SExited => Isleader (sp_elector p) = false
              | SDeferred l => DDatabaseClose ∈ l ∨ Isleader (sp_elector p) = false
              | _ => True
              end;
  so_loops : (sp_loops p ≤ 2)%nat ∧ (sp_running p = false → sp_loops p = 0%nat);
  so_over : sp_main p ≠ SLoop → loop_done p = true;
}.

(** A campaign of an elector that is not the leader answers true when it became it. *)
Lemma campaign_answer l acquired query lk :
  Isleader l = false →
  let r := Campaign l acquired query lk in
  Isleader r.1.2 = bool_decide (r.1.1 = Ok true).
Proof.
  unfold Isleader, Campaign. destruct (le_conn l) as [c|] eqn:Hl; [done|]. intros _.
  destruct acquired as [c|e]; [|by cbn; rewrite Hl].
  destruct query as [|e|e]; [|by cbn; rewrite Hl..].
  destruct (pg_try_advisory_lock c lk) as [[] lk']; [done|]. by cbn; rewrite Hl.
Qed.

Lemma resign_not_leader l exec lk : Isleader (Resign l exec lk).1.2 = false.
Proof.
  unfold Isleader, Resign. destruct (le_conn l) as [c|] eqn:Hl; [by destruct exec|].
  cbn. by rewrite Hl.
Qed.

Lemma sched_start_ok getenv database p : sched_start getenv database = Some p → sched_ok p.
Proof.
  unfold sched_start. destruct (Load getenv), database; intros [= <-].
  split; cbn; try done. split; [lia|done].
Qed.

(** Loops that have been told to stop stay so. *)
Lemma sched_step_done free p lk p' lk' :
  sched_step free (p, lk) (p', lk') → loop_done p = true → loop_done p' = true.
Proof.
  intros Hs. unfold loop_done.
  inversion Hs as [| | | | | |exec p0 lk0 Hm r| | |acq q p0 lk0 Hm Hr Hf r|
    d l p0 p1 lk0 Hm Hd|]; subst; cbn; try done; try (by rewrite orb_true_r).
  - by destruct r as [[[[]|e] el] lk1].
  - by destruct Hd; cbn; rewrite ?orb_true_r.
Qed.

Context `{!PgxPoolLaws P}.

Lemma deferred_step_ok p d l p' :
  sp_main p = SDeferred (d :: l) → deferred_step p d p' → sched_ok p →
  sched_ok (set_pc (SDeferred l) p').
Proof.
  intros Hm Hd [Hl Hc Hn Ho]. rewrite Hm in *.
  assert (Hov : loop_done p = true) by (by apply Ho).
  destruct Hd as [| | | |Hr|]; split; cbn in *; try (by intros []); try done;
    try (by (destruct Hc as [[|Hc]%elem_of_cons|Hc]; [done|left|right])).
  - unfold loop_done. cbn. by rewrite orb_true_r.
  - right. apply Close_waits in Hr. unfold kept in Hr. by destruct (Isleader _).
Qed.

Lemma sched_step_ok free p lk p' lk' :
  sched_step free (p, lk) (p', lk') → sp_main p ≠ SExited → sched_ok p → sched_ok p'.
Proof.
  intros Hs Hne Hok. pose proof Hok as [Hl Hc [Hn Hz] Ho].
  inversion Hs as [p0 lk0|p0 lk0 Hh|p0 lk0 Hh|p0 lk0 Hh|n p0 lk0 Hnn Hd|p0 lk0 Hm Hx|
    exec p0 lk0 Hm r|p0 lk0 Hm Hx|p0 lk0 Hm Hr|acq q p0 lk0 Hm Hr Hf r|
    d l p0 p1 lk0 Hm Hd|p0 lk0 Hm]; subst.
  - split; cbn; try done. 
  - split; cbn; try done.
  - split; cbn; try done.
  - split; cbn; try done. unfold loop_done. cbn. intros _. by rewrite orb_true_r.
  - split; cbn; try done. split; [lia|]. intros Hf. specialize (Hz Hf). lia.
  - split; cbn; try done; [by intros _; apply Hl; left|].
    unfold loop_done. cbn. by rewrite orb_true_r.
  - split; cbn; try done; [by intros []| |].
    + left. apply list_elem_of_In. cbn. auto 6.
    + intros _. apply Ho. by rewrite Hm.
  - split; cbn; try done; [by intros []|]. left. apply list_elem_of_In. cbn. auto 6.
  - done.
  - pose proof (campaign_answer (sp_elector p) acq q lk) as Ha. fold r in Ha.
    rewrite Hl, Hr in Ha by (by left). specialize (Ha eq_refl).
    destruct r as [[[[]|e] el] lk1]; cbn in *; split; cbn; rewrite ?Hm; try done; rewrite ?Hr; done.
  - by eapply deferred_step_ok.
  - rewrite Hm in Hc. split; cbn; try done; [by intros []| |].
    + destruct Hc as [Hc|Hc]; [by apply elem_of_nil in Hc|done].
    + intros _. apply Ho. by rewrite Hm.
Qed.

Lemma schedulers_ok s :
  schedulers_reach s → ∀ i p, sc_procs s !! i = Some p → sched_ok p.
Proof.
  intros Hr. unfold schedulers_reach in Hr.
  assert (∀ i p, sc_procs no_schedulers !! i = Some p → sched_ok p) as H0.
  { intros i p. cbn. by rewrite lookup_empty. }
  induction Hr as [s|s1 s2 s3 H12 _ IH]; [done|]. apply IH. clear IH.
  destruct H12 as [i getenv db p Hi Hp|i p p' lk Hi He Hs|c Hc]; cbn; [..|done];
    intros k q [[<- <-]|[_ Hk]]%lookup_insert_Some; eauto using sched_start_ok, sched_step_ok.
Qed.

(** ** Who schedules *)

Lemma leader_lock s i p c :
  schedulers_reach s → sc_procs s !! i = Some p → le_conn (sp_elector p) = Some c →
  (∃ n, sc_lock s = Some (c, S n)) ∧
  ∀ k q, sc_procs s !! k = Some q → Isleader (sp_elector q) = true → k = i.
Proof.
  intros Hr Hi Hc. pose proof (electors_ok s Hr) as Hok.
  assert (Hel : ∀ k q, sc_procs s !! k = Some q →
    cl_electors (electors s) !! k = Some (sp_elector q)).
  { intros k q Hk. cbn. by rewrite lookup_fmap, Hk. }
  split; [by apply (proj1 Hok i (sp_elector p) c); [apply Hel|]|].
  intros k q Hk Hq. unfold Isleader in Hq. destruct (le_conn (sp_elector q)) as [d|] eqn:Hd; [|done].
  by apply (one_holder (electors s) k i (sp_elector q) (sp_elector p) d c); [|apply Hel..| |].
Qed.

(** At most one scheduler of a cluster is active - in its loop with the dispatcher and the
    monitor started -, whatever campaigns, failures, signals and exits came before; the active
    one's session holds the advisory lock, and it runs at most one dispatcher and one monitor;
    a scheduler that was never active runs none; and one whose main has come to its end has
    given its connection back. (No session ends under a scheduler that keeps it.) *)
Theorem one_active_scheduler s i p :
  schedulers_reach s → sc_procs s !! i = Some p →
  (sp_main p = SLoop → sp_running p = true →
     (∃ c n, le_conn (sp_elector p) = Some c ∧ sc_lock s = Some (c, S n)) ∧
     ∀ k q, sc_procs s !! k = Some q → sp_main q = SLoop → sp_running q = true → k = i) ∧
  (sp_loops p ≤ 2)%nat ∧ (sp_running p = false → sp_loops p = 0%nat) ∧
  (sp_main p = SExited → le_conn (sp_elector p) = None).
Proof.
  intros Hr Hi. pose proof (schedulers_ok s Hr) as Hok.
  destruct (Hok i p Hi) as [Hl Hc [Hn Hz] _]. split_and!; [|done|done|].
  - intros Hm Hrun. rewrite Hrun in Hl. specialize (Hl (or_introl Hm)).
    unfold Isleader in Hl. destruct (le_conn (sp_elector p)) as [c|] eqn:Hcn; [|done].
    destruct (leader_lock s i p c Hr Hi Hcn) as [[n Hlk] Hone]. split; [by exists c, n|].
    intros k q Hk Hmq Hrq. apply (Hone k q Hk).
    destruct (Hok k q Hk) as [Hlq _ _ _]. rewrite <- Hrq. apply Hlq. by left.
  - intros Hm. rewrite Hm in Hc. unfold Isleader in Hc. by destruct (le_conn _).
Qed.

(** A leader that left its loop without resigning. *)
Definition stalled (i : nat) (c : Conn) (s : Schedulers) : Prop :=
  ∃ p l, sc_procs s !! i = Some p ∧ le_conn (sp_elector p) = Some c ∧
         sp_main p = SDeferred l ∧ DDatabaseClose ∈ l.

Lemma stalled_step i c s s' :
  schedulers_step s s' → stalled i c s → stalled i c s'.
Proof.
  intros Hs (p & l & Hi & Hc & Hm & Hl).
  assert (Hsame : ∀ p', le_conn (sp_elector p') = Some c → sp_main p' = SDeferred l →
    ∀ lk, stalled i c (mkSchedulers (<[i := p']> (sc_procs s)) lk)).
  { intros p' Hc' Hm' lk. exists p', l. cbn. by rewrite lookup_insert_eq. }
  destruct Hs as [k getenv db q Hk Hq|k q q' lk Hk He Hs|d Hd]; [..|by exists p, l].
  - exists p, l. cbn. rewrite lookup_insert_ne; [done|]. intros ->. by rewrite Hi in Hk.
  - destruct (decide (k = i)) as [->|Hne].
    2: { exists p, l. cbn. by rewrite lookup_insert_ne. }
    rewrite Hi in Hk. simplify_eq.
    inversion Hs as [| | | | | | | | | |d l0 p0 p1 lk0 Hm' Hd|p0 lk0 Hm']; subst; try congruence;
      try (by apply Hsame); rewrite Hm in Hm'; simplify_eq; [|by apply elem_of_nil in Hl].
    exists (set_pc (SDeferred l0) p1), l0. cbn.
    rewrite lookup_insert_eq. apply elem_of_cons in Hl as [<-|Hl].
    + inversion Hd as [| | | |Hcl|]; subst. apply Close_waits in Hcl. unfold kept, Isleader in Hcl.
      by rewrite Hc in Hcl.
    + split_and!; [done|by destruct Hd|done|done].
Qed.

(** C39: a leader that leaves its loop by loopCtx - because the heartbeat consumer failed, or
    because the select prefers that case when a signal has ended both contexts - stops the
    scheduling for good: it has not resigned, so database.Close waits for the elector's
    connection for ever; the process never exits, its session keeps the advisory lock, and as
    long as it is not killed no scheduler of the cluster becomes active, in any continuation. *)
Theorem leader_hangs s i p l c s' :
  schedulers_reach s → sc_procs s !! i = Some p → sp_main p = SDeferred l →
  le_conn (sp_elector p) = Some c → rtc schedulers_step s s' →
  (∃ p' l', sc_procs s' !! i = Some p' ∧ sp_main p' = SDeferred l' ∧ DDatabaseClose ∈ l') ∧
  (∃ n, sc_lock s' = Some (c, S n)) ∧
  ∀ k q, sc_procs s' !! k = Some q → sp_main q = SLoop → sp_running q = false.
Proof.
  intros Hr Hi Hm Hc Hs.
  assert (stalled i c s) as Hst.
  { exists p, l. split_and!; [done..|]. destruct (schedulers_ok s Hr i p Hi) as [_ Hcl _ _].
    rewrite Hm in Hcl. destruct Hcl as [?|Hcl]; [done|]. unfold Isleader in Hcl. by rewrite Hc in Hcl. }
  assert (Hr' : schedulers_reach s') by (unfold schedulers_reach in *; by etransitivity).
  assert (stalled i c s') as (p' & l' & Hi' & Hc' & Hm' & Hl').
  { clear Hr Hr' Hi Hm Hc. induction Hs as [s|s1 s2 s3 H12 _ IH]; [done|].
    by eapply IH, stalled_step. }
  destruct (leader_lock s' i p' c Hr' Hi' Hc') as [Hlk Hone].
  split_and!; [by exists p', l'|done|]. intros k q Hk Hmq.
  destruct (sp_running q) eqn:Hrq; [|done]. exfalso.
  destruct (schedulers_ok s' Hr' k q Hk) as [Hlq _ _ _].
  assert (k = i) as ->. { apply (Hone k q Hk). rewrite <- Hrq. apply Hlq. by left. }
  rewrite Hi' in Hk. simplify_eq. congruence.
Qed.
End steps.
