(* ===== verification/ConsumerProc.v ===== *)
(** * A running Consumer: internal/broker/consumer.go as a goroutine

    Consumer.Run of Broker.v is the loop seen from outside, one turn after the other. Here it
    is a goroutine beside others: each call of the reader and each action of the handler is one
    step, between which anything else may happen, and the process may end at any of them. *)

From S2P Require Import Prelude GoStd Models World Broker.

(** The rest of a turn after its handler, when the commit succeeds. *)
Definition turn_rest `{Env} (m : KafkaMessage) (r : Res unit) : Prog (RunEnd * Consumed) :=
  match r with
  | Err e => Ret (Returned (Err e), mkConsumed [(m, r)] [])
  | Ok _ => Ret (Waiting, mkConsumed [(m, r)] [m])
  end.

Section consumer.
Context `{E : Env}.
Implicit Types w : World.

(** Where Run stands. *)
Inductive run_pc : Type :=
| RFetch                                         (* at FetchMessage *)
| RHandle (m : KafkaMessage) (p : Prog (Res unit))  (* in the handler *)
| RCommit (m : KafkaMessage)                     (* at CommitMessages *)
| RSleep                                         (* in sleep *)
| RReturned (r : Res unit)                       (* has returned *)
| RGone.                                         (* and the goroutine has ended *)

(** With the messages handled, their handler's answers, and the messages committed. *)
Record Run : Type := mkRun {
  rn_pc : run_pc;
  rn_handled : list (KafkaMessage * Res unit);
  rn_committed : list KafkaMessage;
}.
Definition run_start : Run := mkRun RFetch [] [].
Definition at_pc (c : run_pc) (x : Run) : Run := mkRun c (rn_handled x) (rn_committed x).

(** Where an error of the reader leads to. *)
Definition fetch_failed (e : error) : run_pc :=
  if ctx_ended e then RReturned (Ok tt)
  else if isTemporary e then RSleep else RReturned (Err e).
Definition commit_failed (e : error) : run_pc :=
  if isTemporary e then RSleep else RReturned (Err e).

(** Where the answer of the handler leads to. *)
Definition handler_returned (m : KafkaMessage) (r : Res unit) : run_pc :=
  match r with Ok _ => RCommit m | Err e => RReturned (Err e) end.

(** sleep: the timer fires, or the context ends first. *)
Inductive sleep_returns (ctx : bool) : option error → Prop :=
| sl_timer : sleep_returns ctx None
| sl_done : ctx = true → sleep_returns ctx (Some ErrCanceled).

(** A step of Run; [ctx] says whether its context has ended. *)
Inductive run_step (handler : Handler) (topic : string) (ctx : bool) :
    Run * World → Run * World → Prop :=
| rs_fetch m x w :
    rn_pc x = RFetch → m ∈ w_log w → km_topic m = topic →
    run_step handler topic ctx (x, w) (at_pc (RHandle m (handler (km_key m) (km_value m))) x, w)
| rs_fetch_error e x w :
    rn_pc x = RFetch → run_step handler topic ctx (x, w) (at_pc (fetch_failed e) x, w)
| rs_handle inp m p p' x w w' :
    rn_pc x = RHandle m p → prog_step inp (p, w) (p', w') →
    run_step handler topic ctx (x, w) (at_pc (RHandle m p') x, w')
| rs_handled m r x w :
    rn_pc x = RHandle m (Ret r) →
    run_step handler topic ctx (x, w)
      (mkRun (handler_returned m r) (rn_handled x ++ [(m, r)]) (rn_committed x), w)
| rs_commit m x w :
    rn_pc x = RCommit m →
    run_step handler topic ctx (x, w) (mkRun RFetch (rn_handled x) (rn_committed x ++ [m]), w)
| rs_commit_error m e x w :
    rn_pc x = RCommit m → run_step handler topic ctx (x, w) (at_pc (commit_failed e) x, w)
| rs_slept x w :
    rn_pc x = RSleep → sleep_returns ctx None →
    run_step handler topic ctx (x, w) (at_pc RFetch x, w)
| rs_woken e x w :
    rn_pc x = RSleep → sleep_returns ctx (Some e) →
    run_step handler topic ctx (x, w) (at_pc (RReturned (Ok tt)) x, w).

(** ** The invariant *)

Record run_ok (topic : string) w (x : Run) : Prop := {
  ro_handled : Forall (λ h, h.1 ∈ w_log w ∧ km_topic h.1 = topic) (rn_handled x);
  ro_committed : Forall (λ m, (m, Ok tt) ∈ rn_handled x) (rn_committed x);
  ro_pc : match rn_pc x with
          | RHandle m _ => m ∈ w_log w ∧ km_topic m = topic
          | RCommit m => (m, Ok tt) ∈ rn_handled x
          | _ => True
          end;
}.

Lemma run_start_ok topic w : run_ok topic w run_start.
Proof. by split; constructor. Qed.

Lemma run_ok_later topic w w' x :
  w_log w `prefix_of` w_log w' → run_ok topic w x → run_ok topic w' x.
Proof.
  intros [l Hl] [Hh Hc Hp].
  assert (Hin : ∀ m, m ∈ w_log w ∧ km_topic m = topic → m ∈ w_log w' ∧ km_topic m = topic).
  { intros m [Hm ?]. split; [|done]. rewrite Hl. apply elem_of_app. by left. }
  split; [|done|].
  - eapply Forall_impl; [exact Hh|]. intros h. apply Hin.
  - destruct (rn_pc x); auto.
Qed.

(** A return leaves what was handled as it is. *)
Lemma at_pc_ok topic w x c :
  match c with RHandle _ _ | RCommit _ => False | _ => True end →
  run_ok topic w x → run_ok topic w (at_pc c x).
Proof. intros Hc [Hh Hm _]. split; [done|done|]. by destruct c. Qed.

Lemma run_step_ok handler topic ctx x w x' w' :
  run_step handler topic ctx (x, w) (x', w') → w_log w `prefix_of` w_log w' →
  run_ok topic w x → run_ok topic w' x'.
Proof.
  intros Hs Hl Hok. apply (run_ok_later topic w w') in Hok; [|done]. clear Hl.
  inversion Hs as [m x0 w0 Hpc Hm Ht|e x0 w0 Hpc|inp m p p' x0 w0 w1 Hpc Hp|m r x0 w0 Hpc|
    m x0 w0 Hpc|m e x0 w0 Hpc|x0 w0 Hpc _|e x0 w0 Hpc Hx]; subst;
    try (apply at_pc_ok; [|done]; unfold fetch_failed, commit_failed; by repeat case_match);
    destruct Hok as [Hh Hc Hp0]; rewrite Hpc in Hp0.
  - by split.
  - by split.
  - split; cbn.
    + apply Forall_app. split; [done|]. by constructor.
    + eapply Forall_impl; [exact Hc|]. intros m' Hm'. apply elem_of_app. by left.
    + destruct r as [[]|e]; cbn; [|done]. apply elem_of_app. right. left.
  - split; cbn; [done| |done]. apply Forall_app. split; [done|]. by constructor.
Qed.

(** ** As one of the programs of a pool *)

(** The turn of [m] when it has come to the handler's program [p]. *)
Definition turn_program (m : KafkaMessage) (p : Prog (Res unit)) : Prog (RunEnd * Consumed) :=
  let! r := p in turn_rest m r.

Lemma turn_program_start handler m :
  Consumer_Run handler [mkTurn (Ok m) (Ok tt) false] nothing_consumed =
  turn_program m (handler (km_key m) (km_value m)).
Proof. reflexivity. Qed.

(** What Run is executing. *)
Definition run_programs (x : Run) : list (Prog (RunEnd * Consumed)) :=
  match rn_pc x with RHandle m p => [turn_program m p] | _ => [] end.
End consumer.
