(* ===== verification/SchedulerRun.v ===== *)
(** * Schedulers at work: the loops and consumers of scheduler processes, in the world

    SchedulerProc.v says when a scheduler campaigns, leads, stops and exits, and counts the
    goroutines of its loops. Here the loops and the heartbeat consumer are there themselves:
    each is at its select or in a tick, whose actions are steps between which anything else
    may happen. Every step is a step of SchedulerProc.v, or none, with one of the world, so
    what holds of the schedulers there holds here. *)

From S2P Require Import Prelude GoStd Models World Lifecycle JobsRepo WorkersRepo Broker.
From S2P Require Import Dispatcher Monitor Leader Startup SchedulerProc ConsumerProc.

Section schedulers.
Context `{E : Env} {P : PgxPool}.
Implicit Types w : World.

(** dispatcher.Run and monitor.Run: at the select, or in a tick. *)
Inductive loop_kind : Type := LDispatcher | LMonitor.
Definition loop_tick (k : loop_kind) : Prog (Res unit) :=
  match k with LDispatcher => dispatcher_tick | LMonitor => monitor_tick end.

Record Loop : Type := mkLoop {
  lo_kind : loop_kind;
  lo_tick : option (Prog (Res unit));
}.

(** The goroutines of a scheduler. *)
Record SchedRun : Type := mkSchedRun {
  sr_loops : list Loop;
  sr_consumer : Run;
}.
(** What main starts at first, and when it leads. *)
Definition sched_run_start : SchedRun := mkSchedRun [] run_start.
Definition loops_started : list Loop := [mkLoop LDispatcher None; mkLoop LMonitor None].

Definition set_loop_list (l : list Loop) (r : SchedRun) : SchedRun :=
  mkSchedRun l (sr_consumer r).
Definition set_sched_consumer (c : Run) (r : SchedRun) : SchedRun := mkSchedRun (sr_loops r) c.

(** A loop, between its start and its return: [ticker.C], the actions of the tick, its end
    (an error is logged). *)
Inductive loop_step : Loop * World → Loop * World → Prop :=
| lo_fires k w : loop_step (mkLoop k None, w) (mkLoop k (Some (loop_tick k)), w)
| lo_action inp k p p' w w' :
    prog_step inp (p, w) (p', w') → loop_step (mkLoop k (Some p), w) (mkLoop k (Some p'), w')
| lo_ticked k r w : loop_step (mkLoop k (Some (Ret r)), w) (mkLoop k None, w).

(** The goroutines that main has started after a step of its own. *)
Definition loops_after (p p' : SchedProc) (r : SchedRun) : SchedRun :=
  if sp_running p' && negb (sp_running p) then set_loop_list loops_started r else r.

(** The whole: the processes with the lock, and the goroutines of each. *)
Record Sched : Type := mkSched' {
  sd_procs : Schedulers;
  sd_runs : gmap nat SchedRun;
}.
Definition no_sched : Sched := mkSched' no_schedulers ∅.

Definition proc_of (i : nat) (s : Sched) : option SchedProc := sc_procs (sd_procs s) !! i.

(** The process [i] with a new state, and with new goroutines. *)
Definition put_proc (i : nat) (p : SchedProc) (lk : Lock) (s : Sched) : Sched :=
  mkSched' (mkSchedulers (<[i := p]> (sc_procs (sd_procs s))) lk) (sd_runs s).
Definition put_run (i : nat) (r : SchedRun) (s : Sched) : Sched :=
  mkSched' (sd_procs s) (<[i := r]> (sd_runs s)).

Definition lock_of (s : Sched) : Lock := sc_lock (sd_procs s).

Inductive work_step : Sched * World → Sched * World → Prop :=
| wk_start i getenv database p s w :
    proc_of i s = None → sched_start getenv database = Some p →
    work_step (s, w) (put_run i sched_run_start (put_proc i p (lock_of s) s), w)
| wk_main i p p' lk r s w :        (* main: not a goroutine that returns *)
    proc_of i s = Some p → sd_runs s !! i = Some r → sp_main p ≠ SExited →
    sched_step (λ c, idle c (electors (sd_procs s))) (p, lock_of s) (p', lk) →
    sp_consumer p' = sp_consumer p → (sp_loops p ≤ sp_loops p')%nat →
    work_step (s, w) (put_run i (loops_after p p' r) (put_proc i p' lk s), w)
| wk_loop i p r l1 l l' l2 s w w' :
    proc_of i s = Some p → sd_runs s !! i = Some r → sp_main p ≠ SExited →
    sr_loops r = l1 ++ l :: l2 → loop_step (l, w) (l', w') →
    work_step (s, w) (put_run i (set_loop_list (l1 ++ l' :: l2) r) s, w')
| wk_loop_returns i p r l1 k l2 n s w :   (* at the select, on ctx.Done *)
    proc_of i s = Some p → sd_runs s !! i = Some r → sp_main p ≠ SExited →
    sr_loops r = l1 ++ mkLoop k None :: l2 → loop_done p = true → sp_loops p = S n →
    work_step (s, w)
      (put_run i (set_loop_list (l1 ++ l2) r)
         (put_proc i (set_loops (sp_running p) n p) (lock_of s) s), w)
| wk_consumer i p r c s w w' :
    proc_of i s = Some p → sd_runs s !! i = Some r → sp_main p ≠ SExited →
    run_step heartbeat_Handle TopicHeartbeats (loop_done p) (sr_consumer r, w) (c, w') →
    work_step (s, w) (put_run i (set_sched_consumer c r) s, w')
| wk_consumer_returns i p r res s w :
    proc_of i s = Some p → sd_runs s !! i = Some r → sp_main p ≠ SExited →
    rn_pc (sr_consumer r) = RReturned res → sp_consumer p = HRun →
    work_step (s, w)
      (put_run i (set_sched_consumer (at_pc RGone (sr_consumer r)) r)
         (put_proc i (set_hb (if res is Err _ then HFailed else HGone) p) (lock_of s) s), w)
| wk_consumer_cancels i p s w :    (* the goroutine's error branch: cancelLoops() *)
    proc_of i s = Some p → sp_main p ≠ SExited → sp_consumer p = HFailed →
    work_step (s, w) (put_proc i (set_hb HGone (cancelLoops p)) (lock_of s) s, w)
| wk_session_end c s w :
    idle c (electors (sd_procs s)) →
    work_step (s, w)
      (mkSched' (mkSchedulers (sc_procs (sd_procs s)) (pg_session_end c (lock_of s)))
         (sd_runs s), w).

Definition works (w0 : World) : Sched * World → Prop := rtc work_step (no_sched, w0).

(** ** The schedulers of SchedulerProc.v *)

(** A step is one of theirs, or none. *)
Lemma work_step_schedulers s s' w w' :
  work_step (s, w) (s', w') → rtc schedulers_step (sd_procs s) (sd_procs s').
Proof.
  intros Hs. destruct s as [[ps lk] rs].
  inversion Hs as [i g db p s0 w0 Hi Hp|i p p' lk' r s0 w0 Hi Hr He Hst Hc Hl|
    i p r l1 l l' l2 s0 w0 w1 Hi Hr He Hl Hst|i p r l1 k l2 n s0 w0 Hi Hr He Hl Hd Hn|
    i p r c s0 w0 w1 Hi Hr He Hst|i p r res s0 w0 Hi Hr He Hpc Hc|i p s0 w0 Hi He Hc|
    c s0 w0 Hc]; subst; cbn in *; try done; apply rtc_once.
  - by apply (sch_start (mkSchedulers ps lk) i g db p).
  - by apply (sch_step (mkSchedulers ps lk) i p p' lk').
  - apply (sch_step (mkSchedulers ps lk) i p); [done|done|]. by apply ss_loop_ends.
  - apply (sch_step (mkSchedulers ps lk) i p); [done|done|].
    destruct res; [by apply ss_consumer_ends|by apply ss_consumer_fails].
  - apply (sch_step (mkSchedulers ps lk) i p); [done|done|]. by apply ss_consumer_cancels.
  - by apply (sch_session_end (mkSchedulers ps lk)).
Qed.

(** ** Who works *)

(** Each process has its goroutines, as many as it counts, and of each loop one at most. *)
Definition work_ok (s : Sched) : Prop :=
  ∀ i p, proc_of i s = Some p → ∃ r, sd_runs s !! i = Some r ∧
    length (sr_loops r) = sp_loops p ∧ (lo_kind <$> sr_loops r) `sublist_of` [LDispatcher; LMonitor].

Lemma work_ok_put i p lk r s :
  work_ok s → length (sr_loops r) = sp_loops p →
  (lo_kind <$> sr_loops r) `sublist_of` [LDispatcher; LMonitor] →
  work_ok (put_run i r (put_proc i p lk s)).
Proof.
  intros Hok Hl Hs k q. unfold proc_of. cbn. intros [[<- <-]|[Hne Hk]]%lookup_insert_Some.
  - exists r. by rewrite lookup_insert_eq.
  - rewrite lookup_insert_ne by done. by apply Hok.
Qed.

(** Only a campaign starts loops, and it starts two. *)
Lemma loops_grow free p lk p' lk' :
  sched_step free (p, lk) (p', lk') → (sp_loops p ≤ sp_loops p')%nat →
  sp_loops p' = sp_loops p ∧ sp_running p' = sp_running p ∨
  sp_loops p' = 2%nat ∧ sp_running p' = true ∧ sp_running p = false.
Proof.
  intros Hs Hle.
  inversion Hs as [p0 lk0|p0 lk0 Hh|p0 lk0 Hh|p0 lk0 Hh|n p0 lk0 Hnn Hd|p0 lk0 Hm Hx|
    exec p0 lk0 Hm r|p0 lk0 Hm Hx|p0 lk0 Hm Hr|acq q p0 lk0 Hm Hr Hf r|
    d l p0 p1 lk0 Hm Hd|p0 lk0 Hm]; subst; try (by left).
  - cbn in Hle. lia.
  - destruct r as [[[[]|e] el] lk1]; cbn; [by right|by left..].
  - left. by destruct Hd.
Qed.

Lemma work_step_ok s s' w w' : work_step (s, w) (s', w') → work_ok s → work_ok s'.
Proof.
  intros Hs Hok.
  inversion Hs as [i g db p s0 w0 Hi Hp|i p p' lk' r s0 w0 Hi Hr He Hst Hc Hl|
    i p r l1 l l' l2 s0 w0 w1 Hi Hr He Hl Hst|i p r l1 k l2 n s0 w0 Hi Hr He Hl Hd Hn|
    i p r c s0 w0 w1 Hi Hr He Hst|i p r res s0 w0 Hi Hr He Hpc Hc|i p s0 w0 Hi He Hc|
    c s0 w0 Hc]; subst; try (destruct (Hok i p Hi) as (r' & Hr' & Hlen & Hsub));
    try (rewrite Hr in Hr'; simplify_eq).
  - apply work_ok_put; [done| |apply sublist_nil_l].
    unfold sched_start in Hp. destruct (Load g), db; by simplify_eq.
  - apply work_ok_put; [done|..]; unfold loops_after.
    + destruct (loops_grow _ _ _ _ _ Hst Hl) as [[-> ->]|(-> & -> & ->)]; [|done].
      by destruct (sp_running p).
    + by destruct (sp_running p' && negb (sp_running p)).
  - intros k q Hk. unfold proc_of in *. cbn in *. destruct (decide (i = k)) as [<-|Hne].
    + rewrite Hi in Hk. simplify_eq. eexists. rewrite lookup_insert_eq. split; [done|]. cbn.
      rewrite Hl in Hlen, Hsub. rewrite length_app, fmap_app in *. cbn in *. split; [done|].
      by inversion Hst; subst.
    + rewrite lookup_insert_ne by done. by apply Hok.
  - apply work_ok_put; [done|..]; cbn; rewrite Hl in Hlen, Hsub.
    + rewrite length_app in *. cbn in *. lia.
    + etransitivity; [|exact Hsub]. rewrite !fmap_app. cbn. by apply sublist_app, sublist_cons.
  - intros k q Hk. unfold proc_of in *. cbn in *. destruct (decide (i = k)) as [<-|Hne].
    + rewrite Hi in Hk. simplify_eq. eexists. by rewrite lookup_insert_eq.
    + rewrite lookup_insert_ne by done. by apply Hok.
  - by apply work_ok_put.
  - intros k q. unfold proc_of. cbn. intros [[<- <-]|[Hne Hk]]%lookup_insert_Some; [by eexists|].
    by apply Hok.
  - done.
Qed.

(** What schedulers at work keep, whatever happens to the world in between. *)
Definition sched_well (s : Sched) : Prop := schedulers_reach (sd_procs s) ∧ work_ok s.

Lemma no_sched_well : sched_well no_sched.
Proof. split; [apply rtc_refl|]. intros i p. unfold proc_of. cbn. by rewrite lookup_empty. Qed.

Lemma work_step_well s s' w w' : work_step (s, w) (s', w') → sched_well s → sched_well s'.
Proof.
  intros Hs [Hr Hok]. split; [|by eapply work_step_ok].
  unfold schedulers_reach in *. etransitivity; [exact Hr|by eapply work_step_schedulers].
Qed.

(** Whatever happens, a process that has started its loops starts none again, and what told
    them to stop is not taken back: from then on they only return. *)
Lemma loops_only_return s w s' w' i p r :
  work_step (s, w) (s', w') → proc_of i s = Some p → sd_runs s !! i = Some r →
  sp_running p = true →
  ∃ p' r', proc_of i s' = Some p' ∧ sd_runs s' !! i = Some r' ∧ sp_running p' = true ∧
    (lo_kind <$> sr_loops r') `sublist_of` (lo_kind <$> sr_loops r) ∧
    (loop_done p = true → loop_done p' = true).
Proof.
  intros Hs Hp Hr Hrun.
  inversion Hs as [k g db q s0 w0 Hk Hq|k q q' lk' t s0 w0 Hk Ht He Hst Hc Hl|
    k q t l1 l l' l2 s0 w0 w1 Hk Ht He Hl Hst|k q t l1 kd l2 n s0 w0 Hk Ht He Hl Hd Hn|
    k q t c s0 w0 w1 Hk Ht He Hst|k q t res s0 w0 Hk Ht He Hpc Hc|k q s0 w0 Hk He Hc|
    c s0 w0 Hc]; subst; unfold proc_of in *; cbn;
    try (destruct (decide (k = i)) as [->|Hne];
      [|rewrite ?lookup_insert_ne by done; by exists p, r]);
    rewrite ?lookup_insert_eq; simplify_eq.
  - destruct (loops_grow _ _ _ _ _ Hst Hl) as [[_ Hsame]|(_ & _ & Hf)]; [|by rewrite Hrun in Hf].
    eexists _, _. split_and!; [done|done|by rewrite Hsame| |by eapply sched_step_done].
    unfold loops_after. by rewrite Hrun, andb_false_r.
  - eexists _, _. split_and!; [done..| |done]. cbn. rewrite Hl, !fmap_app.
    by inversion Hst; subst.
  - eexists _, _. split_and!; [done..| |done]. cbn. rewrite Hl, !fmap_app.
    by apply sublist_app, sublist_cons.
  - eexists _, _. by split_and!.
  - eexists _, _. by split_and!.
  - eexists _, _. split_and!; [done..|]. unfold loop_done. cbn. by rewrite orb_true_r.
  - by exists p, r.
Qed.

Context `{!PgxPoolLaws P}.

(** A loop belongs to a process that leads, or that is stopping. *)
Lemma loops_led s i p r :
  sched_well s → proc_of i s = Some p → sd_runs s !! i = Some r →
  (lo_kind <$> sr_loops r) `sublist_of` [LDispatcher; LMonitor] ∧
  (sr_loops r ≠ [] →
     sp_running p = true ∧
     (loop_done p = true ∨
      ∃ c n, le_conn (sp_elector p) = Some c ∧ lock_of s = Some (c, S n) ∧
        ∀ k q, proc_of k s = Some q → Isleader (sp_elector q) = true → k = i)).
Proof.
  intros [Hsr Hok] Hi Hr. destruct (Hok i p Hi) as (r' & Hr' & Hlen & Hsub).
  rewrite Hr in Hr'. simplify_eq. split; [done|]. intros Hne.
  destruct (schedulers_ok _ Hsr i p Hi) as [Hlead _ [_ Hz] Hov].
  destruct (sp_running p) eqn:Hrun.
  2: { specialize (Hz eq_refl). rewrite Hz in Hlen. by destruct (sr_loops r'). }
  split; [done|]. destruct (sp_main p) eqn:Hm; [right|left; by apply Hov..].
  specialize (Hlead (or_introl eq_refl)). unfold Isleader in Hlead.
  destruct (le_conn (sp_elector p)) as [c|] eqn:Hc; [|done].
  destruct (leader_lock _ i p c Hsr Hi Hc) as [[n Hlk] Hone]. by exists c, n.
Qed.
End schedulers.
