(* ===== verification/Overlap.v ===== *)
(** * A leader that resigns in the middle of a tick

    main resigns as soon as its context ends. It does not wait for the loops, so the next
    leader may read the workers and dispatch while the tick of the old one, which has read the
    same workers, is still under way. *)

From S2P Require Import Prelude GoStd Models World Sql Columns Lifecycle JobsRepo WorkersRepo Broker.
From S2P Require Import Dispatcher Assignment Leader Startup.
From S2P Require Import SchedulerProc ConsumerProc SchedulerRun.

Section overlap.
Context `{E : Env} {P : PgxPool}.
Implicit Types (w : World) (p : SchedProc).

(** ** Two schedulers *)

Definition two p0 p1 (lk : Lock) r0 r1 : Sched :=
  mkSched' (mkSchedulers (<[0%nat := p0]> (<[1%nat := p1]> ∅)) lk)
    (<[0%nat := r0]> (<[1%nat := r1]> ∅)).

Lemma two_0 p0 p0' p1 lk lk' r0 r0' r1 :
  put_run 0 r0' (put_proc 0 p0' lk' (two p0 p1 lk r0 r1)) = two p0' p1 lk' r0' r1.
Proof. unfold put_run, put_proc, two. cbn. by rewrite !insert_insert_eq. Qed.

Lemma two_1 p0 p1 p1' lk lk' r0 r1 r1' :
  put_run 1 r1' (put_proc 1 p1' lk' (two p0 p1 lk r0 r1)) = two p0 p1' lk' r0 r1'.
Proof.
  unfold put_run, put_proc, two. cbn.
  by rewrite !(insert_insert_ne _ 1%nat 0%nat), !insert_insert_eq by done.
Qed.

Lemma idle_two p0 p1 lk r0 r1 c :
  le_conn (sp_elector p0) ≠ Some c → le_conn (sp_elector p1) ≠ Some c →
  idle c (electors (sd_procs (two p0 p1 lk r0 r1))).
Proof.
  intros H0 H1 i l. cbn. rewrite lookup_fmap, fmap_Some.
  intros (p & [[_ <-]|[_ [[_ <-]|[_ Hp]]%lookup_insert_Some]]%lookup_insert_Some & ->); try done.
Qed.

(** A step of one's main, while the other stands still. *)
Definition main_step_ok p p' : Prop :=
  sp_main p ≠ SExited ∧ sp_consumer p' = sp_consumer p ∧ (sp_loops p ≤ sp_loops p')%nat.

Lemma two_main_0 p0 p0' p1 lk lk' r0 r1 w :
  main_step_ok p0 p0' →
  sched_step (λ c, idle c (electors (sd_procs (two p0 p1 lk r0 r1)))) (p0, lk) (p0', lk') →
  work_step (two p0 p1 lk r0 r1, w) (two p0' p1 lk' (loops_after p0 p0' r0) r1, w).
Proof.
  intros (He & Hc & Hl) Hs. rewrite <- (two_0 p0 p0' p1 lk lk' r0).
  by apply (wk_main 0%nat p0 p0' lk' r0).
Qed.

Lemma two_main_1 p0 p1 p1' lk lk' r0 r1 w :
  main_step_ok p1 p1' →
  sched_step (λ c, idle c (electors (sd_procs (two p0 p1 lk r0 r1)))) (p1, lk) (p1', lk') →
  work_step (two p0 p1 lk r0 r1, w) (two p0 p1' lk' r0 (loops_after p1 p1' r1), w).
Proof.
  intros (He & Hc & Hl) Hs. rewrite <- (two_1 p0 p1 p1' lk lk' r0 r1).
  by apply (wk_main 1%nat p1 p1' lk' r1).
Qed.

(** A step of one's loops, likewise. *)
Lemma two_loop_0 p0 p1 lk r0 r1 l1 l l' l2 w w' :
  sp_main p0 ≠ SExited → sr_loops r0 = l1 ++ l :: l2 → loop_step (l, w) (l', w') →
  work_step (two p0 p1 lk r0 r1, w)
    (two p0 p1 lk (set_loop_list (l1 ++ l' :: l2) r0) r1, w').
Proof.
  intros He Hl Hs.
  assert (two p0 p1 lk (set_loop_list (l1 ++ l' :: l2) r0) r1 =
    put_run 0 (set_loop_list (l1 ++ l' :: l2) r0) (two p0 p1 lk r0 r1)) as ->
    by (unfold put_run, two; cbn; by rewrite insert_insert_eq).
  by eapply (wk_loop 0%nat p0 r0).
Qed.

Lemma two_loop_1 p0 p1 lk r0 r1 l1 l l' l2 w w' :
  sp_main p1 ≠ SExited → sr_loops r1 = l1 ++ l :: l2 → loop_step (l, w) (l', w') →
  work_step (two p0 p1 lk r0 r1, w)
    (two p0 p1 lk r0 (set_loop_list (l1 ++ l' :: l2) r1), w').
Proof.
  intros He Hl Hs.
  assert (two p0 p1 lk r0 (set_loop_list (l1 ++ l' :: l2) r1) =
    put_run 1 (set_loop_list (l1 ++ l' :: l2) r1) (two p0 p1 lk r0 r1)) as ->.
  { unfold put_run, two; cbn. by rewrite (insert_insert_ne _ 1%nat 0%nat), insert_insert_eq. }
  by eapply (wk_loop 1%nat p1 r1).
Qed.

(** A tick of one's dispatcher. *)
Lemma two_tick_0 p0 p1 lk r0 r1 q q' l w w' :
  sp_main p0 ≠ SExited → sr_loops r0 = mkLoop LDispatcher (Some q) :: l →
  prog_steps (q, w) (q', w') →
  rtc work_step (two p0 p1 lk r0 r1, w)
    (two p0 p1 lk (set_loop_list (mkLoop LDispatcher (Some q') :: l) r0) r1, w').
Proof.
  intros He Hl Hs. remember (q, w) as c eqn:Hc. remember (q', w') as c' eqn:Hc'.
  revert r0 q w Hl Hc. induction Hs as [c|c [q1 w1] c' [inp H1] _ IH];
    intros r0 q w Hl ->; simplify_eq.
  - rewrite <- Hl. by destruct r0.
  - eapply rtc_l.
    { apply (two_loop_0 p0 p1 lk r0 r1 [] (mkLoop LDispatcher (Some q))
        (mkLoop LDispatcher (Some q1)) l w w1); [done|done|by econstructor]. }
    exact (IH eq_refl (set_loop_list (mkLoop LDispatcher (Some q1) :: l) r0) q1 w1 eq_refl eq_refl).
Qed.

(** ** A tick that has read the workers *)

(** The rest of [dispatcher_tick] when FetchHealthy has answered [xs]. *)
Definition assigning (xs : list Worker) : Prog (Res unit) :=
  let! _ := for_fold xs 0 assign_to in Ret (Ok tt).

Lemma tick_reads inp w x :
  in_outcome inp = Done → x ∈ staff (in_now inp) w →
  prog_step inp (dispatcher_tick, w) (assigning (staff (in_now inp) w), w).
Proof.
  intros Hd Hx.
  enough (∃ q, prog_step inp (dispatcher_tick, w) (q, w) ∧ q = assigning (staff (in_now inp) w))
    as (q & Hq & <-) by done.
  destruct inp as [now u locked o]. cbn [in_outcome in_now] in *. subst o.
  unfold dispatcher_tick, bind_ok. cbn [Workers_FetchHealthy pgWorkersRepo]. unfold FetchHealthy.
  cbn [bind call]. eexists. split.
  - apply (step_call (mkInput now u locked Done) (sql_fetch_healthy dispatch_stale_seconds) _ w).
  - cbn. scanned. fold (staff now w).
    destruct (staff now w); [by apply elem_of_nil in Hx|done].
Qed.

(** What is left of a tick then does not touch the workers. *)
Definition same_workers (w w' : World) : Prop := w_workers w' = w_workers w.

#[local] Instance same_workers_preorder : PreOrder same_workers.
Proof. split; [done|]. unfold same_workers. intros w1 w2 w3. congruence. Qed.

Lemma fetch_pending_workers wid n inp w : same_workers w (sql_fetch_pending wid n inp w).2.
Proof.
  unfold sql_fetch_pending. destruct (_ <? _); [done|]. destruct (negb _); [done|].
  by destruct (_ && _).
Qed.

Lemma assigning_same_workers xs : prog_safe (λ _, True) same_workers (assigning xs).
Proof.
  apply prog_safe_bind; [|done]. apply prog_safe_for_fold. intros n x _. unfold assign_to.
  destruct (_ <=? 0); [done|]. apply prog_safe_bind.
  { apply prog_safe_method; [apply _|]. intros inp w _. split; [done|].
    apply fetch_pending_workers. }
  intros [js|e]; [|done]. apply prog_safe_bind; [|done]. apply prog_safe_for_each.
  intros j _. apply prog_safe_bind.
  - unfold JobPublisher_PublishJob, kafka_JobPublisher, PublishJob, Publish.
    case_bool_decide; [|done].
    destruct (json_Marshal _); [|done]. by apply prog_safe_call; [apply _|].
  - intros [[]|e]; [done|]. apply prog_safe_bind; [|done].
    apply prog_safe_method; [apply _|]. intros inp w _. split; [done|].
    unfold sql_update_job. by destruct (update_id _ _ _ _).
Qed.

Lemma same_workers_steps {A} (c c' : Prog A * World) :
  prog_steps c c' → prog_safe (λ _, True) same_workers c.1 → same_workers c.2 c'.2.
Proof.
  induction 1 as [c|[p1 w1] [p2 w2] c3 [inp H12] _ IH]; [done|]. cbn. intros Hp.
  assert (same_workers w1 w2 ∧ prog_safe (λ _, True) same_workers p2) as [H Hp2].
  { apply prog_step_inv in H12. destruct p1 as [a|B f k|B f k]; [done|..];
      destruct H12 as [-> ->]; specialize (Hp inp w1 I).
    - by destruct (perform inp f w1), Hp as (_ & ? & ?).
    - by destruct (f inp w1), Hp as (_ & ? & ?). }
  etransitivity; [exact H|by apply IH].
Qed.

Lemma assigning_staff xs w q w' now :
  prog_steps (assigning xs, w) (q, w') → staff now w' = staff now w.
Proof.
  intros Hs. unfold staff.
  pose proof (same_workers_steps _ _ Hs (assigning_same_workers xs)) as Hw.
  unfold same_workers in Hw. cbn in Hw. by rewrite Hw.
Qed.

(** ** The run *)

Definition fresh_sched : SchedProc := mkSched NewLeaderElector false false false 0 HRun SLoop.
Definition leading (c : Conn) : SchedProc := mkSched (mkElector (Some c)) true false false 2 HRun SLoop.
Definition resigned : SchedProc :=
  mkSched (mkElector None) true true true 2 HRun (SDeferred SchedulerProc.deferred).
Definition in_tick (q : Prog (Res unit)) : SchedRun :=
  mkSchedRun [mkLoop LDispatcher (Some q); mkLoop LMonitor None] run_start.

Lemma two_started getenv cfg w :
  Load getenv = Ok cfg →
  works w (two fresh_sched fresh_sched None sched_run_start sched_run_start, w).
Proof.
  intros Hcfg.
  assert (Hst : sched_start getenv None = Some fresh_sched) by (unfold sched_start; by rewrite Hcfg).
  eapply rtc_l; [by apply (wk_start 1%nat getenv None fresh_sched)|].
  apply rtc_once. by apply (wk_start 0%nat getenv None fresh_sched).
Qed.

Lemma two_leads getenv cfg w :
  Load getenv = Ok cfg →
  works w (two (leading 10) fresh_sched (Some (10, 1)%nat) (in_tick dispatcher_tick)
             sched_run_start, w).
Proof.
  intros Hcfg. unfold works. etransitivity; [by eapply two_started|].
  eapply rtc_l.
  { apply (two_main_0 fresh_sched (leading 10)); [by split_and!; [|done|apply Nat.le_0_l]|].
    apply (ss_tick _ (Ok 10%nat) Done fresh_sched None); [done|done|].
    intros c _. by apply idle_two. }
  apply rtc_once.
  apply (two_loop_0 (leading 10) fresh_sched _ (mkSchedRun loops_started run_start) _ []
    (mkLoop LDispatcher None) (mkLoop LDispatcher (Some dispatcher_tick)) [mkLoop LMonitor None] w w);
    [done|done|apply (lo_fires LDispatcher)].
Qed.

(** C38: leadership does not keep ticks apart: whatever point the dispatch tick of a leader has
    come to after it has read the healthy workers, at an instant [in_now inp1], there is a run
    in which the leader is told to stop there, resigns at once, and another scheduler becomes
    the leader and reads the workers for a tick of its own, at any instant [in_now inp2] at
    which one of them is still healthy, while the first one stands where it was and will go on.
    Both have then read the same rows, with the same free capacities: the second one's list has
    every worker of the first one's that is still healthy, as it was. *)
Theorem ticks_overlap `{!OrderByLaws} getenv cfg w w' q inp1 inp2 x :
  Load getenv = Ok cfg → in_outcome inp1 = Done → in_outcome inp2 = Done →
  x ∈ staff (in_now inp1) w → healthy (in_now inp2) dispatch_stale_seconds x = true →
  prog_steps (assigning (staff (in_now inp1) w), w) (q, w') →
  prog_step inp1 (dispatcher_tick, w) (assigning (staff (in_now inp1) w), w) ∧
  prog_step inp2 (dispatcher_tick, w') (assigning (staff (in_now inp2) w), w') ∧
  (∀ y, y ∈ staff (in_now inp1) w → healthy (in_now inp2) dispatch_stale_seconds y = true →
     y ∈ staff (in_now inp2) w) ∧
  ∃ s p0 p1 r0 r1, works w (s, w') ∧
    proc_of 0 s = Some p0 ∧ sd_runs s !! 0%nat = Some r0 ∧
    mkLoop LDispatcher (Some q) ∈ sr_loops r0 ∧ Isleader (sp_elector p0) = false ∧
    sp_main p0 ≠ SExited ∧
    proc_of 1 s = Some p1 ∧ sd_runs s !! 1%nat = Some r1 ∧
    mkLoop LDispatcher (Some (assigning (staff (in_now inp2) w))) ∈ sr_loops r1 ∧
    Isleader (sp_elector p1) = true.
Proof.
  intros Hcfg Hd1 Hd2 Hx Hh Hq.
  assert (Hsub : ∀ y, y ∈ staff (in_now inp1) w →
    healthy (in_now inp2) dispatch_stale_seconds y = true → y ∈ staff (in_now inp2) w).
  { unfold staff. intros y. rewrite !elem_of_order_by, !elem_of_filter_bool. by intros []. }
  pose proof (tick_reads inp1 w x Hd1 Hx) as Hread1.
  assert (Hread2 : prog_step inp2 (dispatcher_tick, w')
                     (assigning (staff (in_now inp2) w), w')).
  { pose proof (assigning_staff _ _ _ _ (in_now inp2) Hq) as <-. eapply tick_reads; [done|].
    rewrite (assigning_staff _ _ _ _ _ Hq). by apply Hsub. }
  split_and!; [done..|].
  exists (two resigned (leading 11) (Some (11, 1)%nat) (in_tick q)
            (in_tick (assigning (staff (in_now inp2) w)))),
    resigned, (leading 11), (in_tick q), (in_tick (assigning (staff (in_now inp2) w))).
  split; [|by split_and!; try done; left].
  unfold works. etransitivity; [by eapply two_leads|].
  etransitivity.
  { eapply (two_tick_0 (leading 10) fresh_sched _ (in_tick dispatcher_tick)); [done|done|].
    eapply rtc_l; [by exists inp1|exact Hq]. }
  eapply rtc_l; [apply two_main_0; [|by apply ss_signal]; by split_and!|].
  eapply rtc_l; [apply two_main_0; [|by apply ss_ctx]; by split_and!|].
  eapply rtc_l; [apply two_main_0; [|by apply (ss_resign _ Done)]; by split_and!|].
  eapply rtc_l.
  { apply (two_main_1 _ fresh_sched (leading 11)); [by split_and!; [|done|apply Nat.le_0_l]|].
    apply (ss_tick _ (Ok 11%nat) Done fresh_sched None); [done|done|].
    intros c [= <-]. by apply idle_two. }
  eapply rtc_l.
  { apply (two_loop_1 resigned (leading 11) _ _ (mkSchedRun loops_started run_start) []
      (mkLoop LDispatcher None) (mkLoop LDispatcher (Some dispatcher_tick)) [mkLoop LMonitor None]
      w' w'); [done|done|apply (lo_fires LDispatcher)]. }
  apply rtc_once.
  apply (two_loop_1 resigned (leading 11) _ _ (in_tick dispatcher_tick) []
    (mkLoop LDispatcher (Some dispatcher_tick)) _ [mkLoop LMonitor None] w' w');
    [done|done|by eapply lo_action].
Qed.
End overlap.
