(* ===== verification/CollectorProc.v ===== *)
(** * A collector process: cmd/result-collector/main.go

    main starts two consumers, of the results and of the dead letters, and waits for the first
    one to return. An error ends the process at once; nil lets main run its deferred calls and
    leave. Nobody waits for the other consumer, wherever it stands. *)

From S2P Require Import Prelude GoStd Models World Lifecycle JobsRepo DeadLettersRepo Broker.
From S2P Require Import Collector Startup SchedulerProc ConsumerProc.

(** The deferred calls, the last one first. *)
Inductive CollectorDefer : Type :=
| KDeadLettersClose | KResultsClose | KStatusCacheClose | KProducerClose | KDatabaseClose | KStop.
Definition collector_defers : list CollectorDefer :=
  [KDeadLettersClose; KResultsClose; KStatusCacheClose; KProducerClose; KDatabaseClose; KStop].

Definition defer_name (d : CollectorDefer) : string :=
  match d with
  | KDeadLettersClose => "deadLetterConsumer.Close"
  | KResultsClose => "resultConsumer.Close"
  | KStatusCacheClose => "statusCache.Close"
  | KProducerClose => "producer.Close"
  | KDatabaseClose => "database.Close"
  | KStop => "stop"
  end.

(** Where main stands. *)
Inductive collector_pc : Type :=
| KWait                                  (* at the receive from errCh *)
| KDeferred (l : list CollectorDefer)    (* has returned, with these calls to make *)
| KExited (status : Z).

Section collector.
Context `{E : Env} {P : PgxPool}.
Implicit Types w : World.

Record CollectorProc : Type := mkCollector {
  cl_ctx : bool;                         (* ctx has ended *)
  cl_results : Run;
  cl_letters : Run;
  cl_errs : list (Res unit);             (* what was sent to errCh, oldest first *)
  cl_main : collector_pc;
}.

(** main up to its receive; [None] when log.Fatal ends the process. *)
Definition collector_start (getenv : string → string) (database : option error)
    : option CollectorProc :=
  match Load getenv with
  | Err _ => None
  | Ok _ =>
      match database with
      | Some _ => None
      | None => Some (mkCollector false run_start run_start [] KWait)
      end
  end.

Definition set_results (r : Run) (x : CollectorProc) : CollectorProc :=
  mkCollector (cl_ctx x) r (cl_letters x) (cl_errs x) (cl_main x).
Definition set_letters (r : Run) (x : CollectorProc) : CollectorProc :=
  mkCollector (cl_ctx x) (cl_results x) r (cl_errs x) (cl_main x).
Definition send_err (r : Res unit) (x : CollectorProc) : CollectorProc :=
  mkCollector (cl_ctx x) (cl_results x) (cl_letters x) (cl_errs x ++ [r]) (cl_main x).
Definition set_main (c : collector_pc) (x : CollectorProc) : CollectorProc :=
  mkCollector (cl_ctx x) (cl_results x) (cl_letters x) (cl_errs x) c.
Definition end_ctx (x : CollectorProc) : CollectorProc :=
  mkCollector true (cl_results x) (cl_letters x) (cl_errs x) (cl_main x).

Definition exited (x : CollectorProc) : bool :=
  match cl_main x with KExited _ => true | _ => false end.

(** A deferred call. A query gives its connection back when it ends, and is a single step here:
    none is out when Close is called. *)
Inductive defer_step (x : CollectorProc) : CollectorDefer → CollectorProc → Prop :=
| kd_letters : defer_step x KDeadLettersClose x
| kd_results : defer_step x KResultsClose x
| kd_cache : defer_step x KStatusCacheClose x
| kd_producer : defer_step x KProducerClose x
| kd_database : db_Close 0 → defer_step x KDatabaseClose x
| kd_stop : defer_step x KStop (end_ctx x).

(** The handlers of the two consumers; main gives the result collector its status cache. *)
Definition results_step := run_step (HandleResult true) TopicResults.
Definition letters_step := run_step dead_letter_Handle TopicDeadLetter.

(** A step of the process. *)
Inductive collector_step : CollectorProc * World → CollectorProc * World → Prop :=
| ks_signal x w : exited x = false → collector_step (x, w) (end_ctx x, w)
| ks_results x r w w' :
    exited x = false → results_step (cl_ctx x) (cl_results x, w) (r, w') →
    collector_step (x, w) (set_results r x, w')
| ks_letters x r w w' :
    exited x = false → letters_step (cl_ctx x) (cl_letters x, w) (r, w') →
    collector_step (x, w) (set_letters r x, w')
| ks_results_sent x r w :
    exited x = false → rn_pc (cl_results x) = RReturned r →
    collector_step (x, w) (send_err r (set_results (at_pc RGone (cl_results x)) x), w)
| ks_letters_sent x r w :
    exited x = false → rn_pc (cl_letters x) = RReturned r →
    collector_step (x, w) (send_err r (set_letters (at_pc RGone (cl_letters x)) x), w)
| ks_failed x e l w :
    cl_main x = KWait → cl_errs x = Err e :: l →
    collector_step (x, w) (set_main (KExited 1) x, w)
| ks_returned x l w :
    cl_main x = KWait → cl_errs x = Ok tt :: l →
    collector_step (x, w) (set_main (KDeferred collector_defers) x, w)
| ks_deferred d l x x' w :
    cl_main x = KDeferred (d :: l) → defer_step x d x' →
    collector_step (x, w) (set_main (KDeferred l) x', w)
| ks_exit x w :
    cl_main x = KDeferred [] → collector_step (x, w) (set_main (KExited 0) x, w).

(** ** The invariant *)

(** How the process stands with main's outcome: what Startup.v says of the values sent. *)
Definition main_ok (getenv : string → string) (x : CollectorProc) : Prop :=
  match cl_main x with
  | KWait => True
  | KDeferred l =>
      (∃ done, collector_defers = done ++ l) ∧ ∃ rest, cl_errs x = Ok tt :: rest
  | KExited s => ∃ ds, collector_main getenv None (cl_errs x) = Some (mkEnd s ds)
  end.

Record collector_inv w (x : CollectorProc) : Prop := {
  ki_results : run_ok TopicResults w (cl_results x);
  ki_letters : run_ok TopicDeadLetter w (cl_letters x);
}.

Lemma collector_inv_later w w' x :
  w_log w `prefix_of` w_log w' → collector_inv w x → collector_inv w' x.
Proof. intros Hl [Hr Hd]. split; by eapply run_ok_later. Qed.

Lemma collector_start_inv getenv database w x :
  collector_start getenv database = Some x → collector_inv w x.
Proof.
  unfold collector_start. destruct (Load getenv), database; intros [= <-].
  split; apply run_start_ok.
Qed.

Lemma collector_step_inv x x' w w' :
  collector_step (x, w) (x', w') → w_log w `prefix_of` w_log w' → collector_inv w x →
  collector_inv w' x'.
Proof.
  intros Hs Hl [Hr Hd].
  inversion Hs as [x0 w0 _|x0 r w0 w1 _ Hst|x0 r w0 w1 _ Hst|x0 r w0 _ Hpc|x0 r w0 _ Hpc|
    x0 e l w0 Hm He|x0 l w0 Hm He|d l x0 x1 w0 Hm Hd1|x0 w0 Hm]; subst; try by split.
  - split; cbn; [by eapply run_step_ok|by eapply run_ok_later].
  - split; cbn; [by eapply run_ok_later|by eapply run_step_ok].
  - split; cbn; [by apply at_pc_ok|done].
  - split; cbn; [done|by apply at_pc_ok].
  - by destruct Hd1; split.
Qed.

(** ** How the process ends *)

Lemma collector_exited_stays x w c : exited x = true → ¬ collector_step (x, w) c.
Proof.
  unfold exited. intros He Hs. inversion Hs as [x0 w0 Hx|x0 r w0 w1 Hx _|x0 r w0 w1 Hx _|
    x0 r w0 Hx _|x0 r w0 Hx _|x0 e l w0 Hm _|x0 l w0 Hm _|d l x0 x1 w0 Hm _|x0 w0 Hm]; subst;
    unfold exited in *; try (by rewrite He in Hx); by rewrite Hm in He.
Qed.

Lemma collector_step_main getenv cfg x x' w w' :
  Load getenv = Ok cfg → collector_step (x, w) (x', w') → main_ok getenv x → main_ok getenv x'.
Proof.
  intros Hcfg Hs Hok. unfold main_ok in *.
  inversion Hs as [x0 w0 _|x0 r w0 w1 _ Hst|x0 r w0 w1 _ Hst|x0 r w0 Hx Hpc|x0 r w0 Hx Hpc|
    x0 e l w0 Hm He|x0 l w0 Hm He|d l x0 x1 w0 Hm Hd1|x0 w0 Hm]; subst; cbn; try done.
  - unfold exited in Hx. destruct (cl_main x); [done| |done]. destruct Hok as [Hd [rest ->]].
    split; [done|by eexists].
  - unfold exited in Hx. destruct (cl_main x); [done| |done]. destruct Hok as [Hd [rest ->]].
    split; [done|by eexists].
  - eexists. unfold collector_main. by rewrite Hcfg, He.
  - split; [by exists []|by eexists].
  - rewrite Hm in Hok. destruct Hok as [[done Hd] Herr]. split.
    + exists (done ++ [d]). by rewrite <- app_assoc.
    + by destruct Hd1.
  - rewrite Hm in Hok. destruct Hok as [_ [rest Herr]]. eexists. unfold collector_main.
    by rewrite Hcfg, Herr.
Qed.

(** The process ends as [collector_main] of Startup.v says: its exit status is a function of the
    values that the consumers sent, by the first one. *)
Lemma collector_exit_status getenv x x' w w' s :
  collector_start getenv None = Some x → rtc collector_step (x, w) (x', w') →
  cl_main x' = KExited s →
  ∃ ds, collector_main getenv None (cl_errs x') = Some (mkEnd s ds).
Proof.
  intros Hx Hr Hm. unfold collector_start in Hx.
  destruct (Load getenv) as [cfg|] eqn:Hcfg; [|done]. simplify_eq.
  assert (main_ok getenv x') as Hok; [|unfold main_ok in Hok; by rewrite Hm in Hok].
  assert (main_ok getenv (mkCollector false run_start run_start [] KWait)) as H0 by done.
  remember (mkCollector _ _ _ _ _, w) as c eqn:Hc. remember (x', w') as c' eqn:Hc'.
  assert (main_ok getenv c.1) as Hi by (by subst). clear H0 Hc.
  induction Hr as [c|[x1 w1] [x2 w2] c' H12 _ IH]; [by subst|].
  apply IH; [done|]. by eapply collector_step_main.
Qed.

(** The handler of the results' consumer runs while main waits. *)
Lemma handler_runs m p p' w w' errs letters ctx :
  prog_steps (p, w) (p', w') →
  rtc collector_step
    (mkCollector ctx (mkRun (RHandle m p) [] []) letters errs KWait, w)
    (mkCollector ctx (mkRun (RHandle m p') [] []) letters errs KWait, w').
Proof.
  intros Hr. remember (p, w) as c eqn:Hc. remember (p', w') as c' eqn:Hc'.
  revert p w Hc. induction Hr as [c|c [p1 w1] c' [inp H1] _ IH]; intros p w ->; simplify_eq; [done|].
  eapply rtc_l; [|by apply IH].
  apply (ks_results (mkCollector ctx (mkRun (RHandle m p) [] []) letters errs KWait)); [done|].
  by eapply (rs_handle _ _ _ inp m p).
Qed.

(** A result is handled and committed while the rest of the process stands still. *)
Lemma collector_serves m w w' letters :
  m ∈ w_log w → km_topic m = TopicResults →
  prog_steps (HandleResult true (km_key m) (km_value m), w) (Ret (Ok tt), w') →
  rtc collector_step (mkCollector false run_start letters [] KWait, w)
    (mkCollector false (mkRun RFetch [(m, Ok tt)] [m]) letters [] KWait, w').
Proof.
  intros Hm Ht Hs. set (at_run r := mkCollector false r letters [] KWait).
  eapply rtc_l.
  { apply (ks_results (at_run run_start)); [done|].
    by apply (rs_fetch (HandleResult true) TopicResults false m run_start). }
  etransitivity; [by apply handler_runs|].
  eapply rtc_l.
  { apply (ks_results (at_run (mkRun (RHandle m (Ret (Ok tt))) [] []))); [done|].
    by apply (rs_handled _ _ _ m (Ok tt)). }
  apply rtc_once. apply (ks_results (at_run (mkRun (RCommit m) [(m, Ok tt)] []))); [done|].
  by apply (rs_commit _ _ _ m).
Qed.

Context `{!PgxPoolLaws P}.

Lemma deferred_run x w :
  cl_main x = KDeferred collector_defers →
  ∃ x', rtc collector_step (x, w) (x', w) ∧ cl_main x' = KExited 0 ∧ cl_results x' = cl_results x.
Proof.
  intros Hm. exists (set_main (KExited 0) (end_ctx x)). split; [|by split].
  unfold collector_defers in Hm.
  eapply rtc_l; [by eapply ks_deferred, kd_letters|].
  eapply rtc_l; [by eapply ks_deferred, kd_results|].
  eapply rtc_l; [by eapply ks_deferred, kd_cache|].
  eapply rtc_l; [by eapply ks_deferred, kd_producer|].
  eapply rtc_l; [eapply ks_deferred; [done|]; by apply kd_database, Close_waits|].
  eapply rtc_l; [by eapply ks_deferred, kd_stop|].
  apply rtc_once. exact (ks_exit (set_main (KDeferred []) (end_ctx x)) w eq_refl).
Qed.

(** Nobody waits for a handler: whatever point the handling of a result has come to - the
    job given up and its dead letter not yet published, say -, there is a run in which the
    process gets its signal, the other consumer returns first, and main makes its deferred
    calls and exits with status 0 while the handler stands there, for ever. The message is not
    committed: another collector will handle it again, from the beginning. *)
Theorem collector_exit_cuts getenv x m p w w' :
  collector_start getenv None = Some x → m ∈ w_log w → km_topic m = TopicResults →
  prog_steps (HandleResult true (km_key m) (km_value m), w) (p, w') →
  ∃ x', rtc collector_step (x, w) (x', w') ∧ cl_main x' = KExited 0 ∧
    rn_pc (cl_results x') = RHandle m p ∧ rn_committed (cl_results x') = [] ∧
    ∀ c, ¬ collector_step (x', w') c.
Proof.
  intros Hx Hm Ht Hr. unfold collector_start in Hx. destruct (Load getenv); [|done].
  injection Hx as <-.
  set (busy := mkRun (RHandle m p) [] []).
  set (x3 := mkCollector true busy (mkRun RGone [] []) [Ok tt] (KDeferred collector_defers)).
  destruct (deferred_run x3 w' eq_refl) as (x' & Hd & He & Hres).
  exists x'. split; [|rewrite Hres; split_and!; try done].
  2: { intros c. apply collector_exited_stays. unfold exited. by rewrite He. }
  eapply rtc_l.
  { eapply ks_results; [done|]. exact (rs_fetch (HandleResult true) TopicResults false m run_start w eq_refl Hm Ht). }
  etransitivity; [by apply handler_runs|].
  eapply rtc_l; [by apply ks_signal|].
  eapply rtc_l.
  { eapply ks_letters; [done|].
    exact (rs_fetch_error dead_letter_Handle TopicDeadLetter true ErrCanceled run_start w' eq_refl). }
  eapply rtc_l; [by eapply ks_letters_sent|].
  eapply rtc_l; [by eapply ks_returned|]. exact Hd.
Qed.
End collector.
