(* ===== verification/ApiProc.v ===== *)
(** * An API process: cmd/api/main.go, application.RunAPI and http.Server

    RunAPI starts the server in a goroutine and waits for the context's end or the server's
    failure. At the end of the context it shuts the server down, which waits for the requests
    in flight, for at most [shutdownTimeout]; then its deferred calls close the stores.
    net/http is modelled as its documentation describes Shutdown: the listener is closed first,
    idle connections are closed, and it answers nil only when no connection is left. *)

From S2P Require Import Prelude GoStd Models World Lifecycle JobsRepo WorkersRepo.
From S2P Require Import DeadLettersRepo Http Router Executor ExecutorLive Startup Wiring.
From S2P Require Import SchedulerProc.

(** Thirty seconds, in microseconds: the time of the context that Shutdown gets. *)
Definition shutdownTimeout : Z := seconds 30.

(** The deferred calls of RunAPI, the last one first; the timeout's cancel only after the
    context's end. *)
Inductive ApiDefer : Type :=
| PCancel | PStatusCacheClose | PLimiterClose | PIdemClose | PDatabaseClose.
Definition api_defers : list ApiDefer :=
  [PStatusCacheClose; PLimiterClose; PIdemClose; PDatabaseClose].

(** Where RunAPI, and main behind it, stand. *)
Inductive api_pc : Type :=
| PSelect
| PShutdown                                      (* in server.Shutdown *)
| PDeferred (r : option error) (l : list ApiDefer)  (* returning r, with these calls to make *)
| PExited (status : Z).

(** The server's goroutine. *)
Inductive listen_pc : Type :=
| LServing
| LReturned (r : option error)                   (* Start has returned *)
| LGone.

Section api.
Context `{E : Env} {X : Mux} {P : PgxPool}.
Implicit Types w : World.

Record ApiProc : Type := mkApi {
  ap_cfg : Config;
  ap_ctx : bool;                                 (* ctx has ended *)
  ap_shut : bool;                                (* Shutdown was called *)
  ap_listen : listen_pc;
  ap_errs : list error;                          (* serverErrCh *)
  ap_conns : nat;                                (* connections with no request in flight *)
  ap_received : list Request;
  ap_reqs : list (Request * Prog Response);      (* in flight *)
  ap_answered : list (Request * Response);
  ap_main : api_pc;
}.

(** main and RunAPI up to the select; [None] when log.Fatal ends the process before. *)
Definition api_start (getenv : string → string) (database : option error) : option ApiProc :=
  match Load getenv with
  | Err _ => None
  | Ok cfg =>
      match database with
      | Some _ => None
      | None => Some (mkApi cfg false false LServing [] 0 [] [] [] PSelect)
      end
  end.

Definition api_ctx (x : ApiProc) : ApiProc :=
  mkApi (ap_cfg x) true (ap_shut x) (ap_listen x) (ap_errs x) (ap_conns x) (ap_received x)
    (ap_reqs x) (ap_answered x) (ap_main x).
Definition api_listen (l : listen_pc) (errs : list error) (x : ApiProc) : ApiProc :=
  mkApi (ap_cfg x) (ap_ctx x) (ap_shut x) l errs (ap_conns x) (ap_received x)
    (ap_reqs x) (ap_answered x) (ap_main x).
Definition api_conns (n : nat) (x : ApiProc) : ApiProc :=
  mkApi (ap_cfg x) (ap_ctx x) (ap_shut x) (ap_listen x) (ap_errs x) n (ap_received x)
    (ap_reqs x) (ap_answered x) (ap_main x).
Definition api_flight (received : list Request) (reqs : list (Request * Prog Response))
    (answered : list (Request * Response)) (x : ApiProc) : ApiProc :=
  mkApi (ap_cfg x) (ap_ctx x) (ap_shut x) (ap_listen x) (ap_errs x) (ap_conns x) received
    reqs answered (ap_main x).
Definition api_pc_set (shut : bool) (m : api_pc) (x : ApiProc) : ApiProc :=
  mkApi (ap_cfg x) (ap_ctx x) shut (ap_listen x) (ap_errs x) (ap_conns x) (ap_received x)
    (ap_reqs x) (ap_answered x) m.

Definition api_exited (x : ApiProc) : bool :=
  match ap_main x with PExited _ => true | _ => false end.

(** A request whose handler begins. *)
Definition begun (cfg : Config) (r : Request) : Request * Prog Response :=
  (r, srv_Handler (api_server cfg) r).
#[global] Arguments begun : simpl never.

(** What the goroutine sends when Start returned [e]. *)
Definition server_errs (e : error) (errs : list error) : list error :=
  if errors_Is e ErrServerClosed then errs else errs ++ [e].

(** A deferred call returns. A query gives its connection back when it ends, and is a single
    step here: none is out when Close is called. *)
Definition defer_returns (d : ApiDefer) : Prop :=
  match d with PDatabaseClose => db_Close 0 | _ => True end.

(** The steps of http.Server, and of the handlers that it runs. A connection that is open when
    Shutdown is called may still bring a request, and is closed after its answer. *)
Inductive server_step : ApiProc * World → ApiProc * World → Prop :=
| sr_connect x w :
    ap_listen x = LServing → ap_shut x = false →
    server_step (x, w) (api_conns (S (ap_conns x)) x, w)
| sr_close n x w : ap_conns x = S n → server_step (x, w) (api_conns n x, w)
| sr_request n r x w :
    ap_conns x = S n →
    server_step (x, w)
      (api_flight (ap_received x ++ [r])
         (ap_reqs x ++ [begun (ap_cfg x) r]) (ap_answered x)
         (api_conns n x), w)
| sr_handle inp r p p' l1 l2 x w w' :
    ap_reqs x = l1 ++ (r, p) :: l2 → prog_step inp (p, w) (p', w') →
    server_step (x, w)
      (api_flight (ap_received x) (l1 ++ (r, p') :: l2) (ap_answered x) x, w')
| sr_answer r resp l1 l2 x w :
    ap_reqs x = l1 ++ (r, Ret resp) :: l2 →
    server_step (x, w)
      (api_flight (ap_received x) (l1 ++ l2) (ap_answered x ++ [(r, resp)])
         (api_conns (if ap_shut x then ap_conns x else S (ap_conns x)) x), w).

(** The goroutine that serves. *)
Inductive listen_step (x : ApiProc) : ApiProc → Prop :=
| ls_failed e :
    ap_listen x = LServing → ap_shut x = false →
    listen_step x (api_listen (LReturned (Start (Some e))) (ap_errs x) x)
| ls_closed :
    ap_listen x = LServing → ap_shut x = true →
    listen_step x (api_listen (LReturned (Start (Some ErrServerClosed))) (ap_errs x) x)
| ls_send e :
    ap_listen x = LReturned (Some e) →
    listen_step x (api_listen LGone (server_errs e (ap_errs x)) x)
| ls_gone :
    ap_listen x = LReturned None → listen_step x (api_listen LGone (ap_errs x) x).

(** RunAPI from its select on, and main. *)
Inductive main_api_step (x : ApiProc) : ApiProc → Prop :=
| ma_signal : ap_ctx x = false → main_api_step x (api_ctx x)
| ma_ctx :
    ap_main x = PSelect → ap_ctx x = true → main_api_step x (api_pc_set true PShutdown x)
| ma_failed e errs :
    ap_main x = PSelect → ap_errs x = e :: errs →
    main_api_step x (api_pc_set (ap_shut x) (PDeferred (Some e) api_defers) x)
| ma_quiet :
    ap_main x = PShutdown → ap_conns x = 0%nat → ap_reqs x = [] →
    main_api_step x (api_pc_set (ap_shut x) (PDeferred None (PCancel :: api_defers)) x)
| ma_timeout e :            (* the context of Shutdown ends, or closing the listener failed *)
    ap_main x = PShutdown →
    main_api_step x (api_pc_set (ap_shut x)
      (PDeferred (Some (Wrap "http shutdown" e)) (PCancel :: api_defers)) x)
| ma_deferred r d l :
    ap_main x = PDeferred r (d :: l) → defer_returns d →
    main_api_step x (api_pc_set (ap_shut x) (PDeferred r l) x)
| ma_return r :
    ap_main x = PDeferred r [] →
    main_api_step x (api_pc_set (ap_shut x) (PExited (if r is Some _ then 1 else 0)) x).

Inductive api_step : ApiProc * World → ApiProc * World → Prop :=
| as_server x x' w w' :
    api_exited x = false → server_step (x, w) (x', w') → api_step (x, w) (x', w')
| as_listen x x' w :
    api_exited x = false → listen_step x x' → api_step (x, w) (x', w)
| as_main x x' w :
    api_exited x = false → main_api_step x x' → api_step (x, w) (x', w).

(** ** The invariant *)

(** RunAPI returns nil, or has. *)
Definition returns_nil (x : ApiProc) : Prop :=
  ap_main x = PExited 0 ∨ ∃ l, ap_main x = PDeferred None l.

Record api_inv (x : ApiProc) : Prop := {
  ai_account : ap_received x ≡ₚ (ap_answered x).*1 ++ (ap_reqs x).*1;
  ai_shut : ap_shut x = true → ap_ctx x = true ∧ ap_main x ≠ PSelect;
  ai_stopping : ap_main x = PShutdown ∨ returns_nil x → ap_shut x = true;
  ai_quiet : returns_nil x → ap_conns x = 0%nat ∧ ap_reqs x = [];
}.

Lemma api_start_inv getenv database x : api_start getenv database = Some x → api_inv x.
Proof.
  unfold api_start. destruct (Load getenv), database; intros [= <-].
  split; cbn; try done. by intros [?|[?|[? ?]]].
Qed.

(** While the server works, RunAPI is not returning nil. *)
Lemma server_step_inv x x' w w' : server_step (x, w) (x', w') → api_inv x → api_inv x'.
Proof.
  intros Hs [Ha Hsh Hst Hq].
  inversion Hs as [x0 w0 Hl Hn|n x0 w0 Hc|n r x0 w0 Hc|inp r p p' l1 l2 x0 w0 w1 Hr Hp|
    r resp l1 l2 x0 w0 Hr]; subst; split; cbn; try done.
  - intros Hr. pose proof (Hst (or_intror Hr)). congruence.
  - intros Hr. destruct (Hq Hr) as [Hz _]. congruence.
  - rewrite Ha, fmap_app. cbn. by rewrite app_assoc.
  - intros Hr. destruct (Hq Hr) as [Hz _]. congruence.
  - rewrite Ha, Hr, !fmap_app. done.
  - intros Hn. destruct (Hq Hn) as [_ Hz]. rewrite Hr in Hz. by destruct l1.
  - rewrite Ha, Hr, !fmap_app. cbn. solve_Permutation.
  - intros Hn. destruct (Hq Hn) as [_ Hz]. rewrite Hr in Hz. by destruct l1.
Qed.

Lemma listen_step_inv x x' : listen_step x x' → api_inv x → api_inv x'.
Proof. by intros [] [? ? ? ?]. Qed.

Lemma main_api_step_inv x x' : main_api_step x x' → api_inv x → api_inv x'.
Proof.
  intros Hs [Ha Hsh Hst Hq].
  destruct Hs as [Hc|Hm Hc|e errs Hm He|Hm Hc Hr|e Hm|r d l Hm Hd|r Hm]; split; cbn; try done;
    unfold returns_nil in *; cbn in *; rewrite ?Hm in *.
  - intros Hx. split; [done|]. by destruct (Hsh Hx).
  - by intros [?|[? ?]].
  - intros Hx. by destruct (Hsh Hx) as [_ []].
  - by intros [?|[?|[? ?]]].
  - by intros [?|[? ?]].
  - intros Hx. split; [|done]. by destruct (Hsh Hx).
  - intros _. apply Hst. by left.
  - intros Hx. split; [|done]. by destruct (Hsh Hx).
  - intros _. apply Hst. by left.
  - by intros [?|[? ?]].
  - intros Hx. split; [|done]. by destruct (Hsh Hx).
  - intros [?|[?|[l' [= -> ->]]]]; [done..|]. apply Hst. right. right. by eexists.
  - intros [?|[l' [= -> ->]]]; [done|]. apply Hq. right. by eexists.
  - intros Hx. split; [|done]. by destruct (Hsh Hx).
  - destruct r; [by intros [?|[?|[? ?]]]|]. intros _. apply Hst. right. right. by eexists.
  - destruct r; [by intros [?|[? ?]]|]. intros _. apply Hq. right. by eexists.
Qed.

Lemma api_step_inv x x' w w' : api_step (x, w) (x', w') → api_inv x → api_inv x'.
Proof.
  intros Hs. inversion Hs as [x0 x1 w0 w1 _ H|x0 x1 w0 _ H|x0 x1 w0 _ H]; subst;
    eauto using server_step_inv, listen_step_inv, main_api_step_inv.
Qed.

(** What can be reached from the process's start. *)
Definition api_reaches (getenv : string → string) w0 (c : ApiProc * World) : Prop :=
  ∃ x0, api_start getenv None = Some x0 ∧ rtc api_step (x0, w0) c.

Lemma api_reaches_inv getenv w0 c : api_reaches getenv w0 c → api_inv c.1.
Proof.
  intros (x0 & Hx & Hr). apply api_start_inv in Hx.
  assert (Hi : api_inv (x0, w0).1) by done. clear Hx. revert Hi.
  induction Hr as [c|[x1 w1] [x2 w2] c H12 _ IH]; [done|]. intros Hi. apply IH.
  by eapply api_step_inv.
Qed.

(** A request in flight goes on while the rest of the process stands still. *)
Lemma api_handles x r p p' l1 l2 w w' :
  api_exited x = false → ap_reqs x = l1 ++ (r, p) :: l2 → prog_steps (p, w) (p', w') →
  rtc api_step (x, w)
    (api_flight (ap_received x) (l1 ++ (r, p') :: l2) (ap_answered x) x, w').
Proof.
  intros He Hr Hs. remember (p, w) as c eqn:Hc. remember (p', w') as c' eqn:Hc'.
  revert x p w He Hr Hc. induction Hs as [c|c [p1 w1] c' [inp H1] _ IH];
    intros x p w He Hr ->; simplify_eq.
  - rewrite <- Hr. by destruct x.
  - eapply rtc_l; [apply as_server; [done|]; by eapply sr_handle|].
    specialize (IH eq_refl (api_flight (ap_received x) (l1 ++ (r, p1) :: l2) (ap_answered x) x)
                  p1 w1 He eq_refl eq_refl). exact IH.
Qed.

(** C23: a graceful stop loses no request: from the moment at which RunAPI begins to return nil -
    before any store is closed -, and when the process has exited with status 0, the process
    had been told to stop, no request is in flight and no connection is left, and the requests
    it has read are exactly those it has answered. *)
Theorem api_graceful getenv w0 x w :
  api_reaches getenv w0 (x, w) → returns_nil x →
  ap_ctx x = true ∧ ap_reqs x = [] ∧ ap_conns x = 0%nat ∧ ap_received x ≡ₚ (ap_answered x).*1.
Proof.
  intros Hr Hn. destruct (api_reaches_inv _ _ _ Hr) as [Ha Hsh Hst Hq]. cbn [fst] in *.
  destruct (Hq Hn) as [Hc Hz]. rewrite Hz, app_nil_r in Ha.
  destruct (Hsh (Hst (or_intror Hn))). by split_and!.
Qed.

(** ** The stop comes to its end *)

(** The steps left, but for those of the handlers. *)
Definition listen_rank (l : listen_pc) : nat :=
  match l with LServing => 2 | LReturned _ => 1 | LGone => 0 end.
Definition api_rank (m : api_pc) : nat :=
  match m with PSelect => 10 | PShutdown => 9 | PDeferred _ l => 1 + length l | PExited _ => 0 end.
Definition api_measure (x : ApiProc) : nat :=
  api_rank (ap_main x) + listen_rank (ap_listen x) + (if ap_ctx x then 0 else 1) + ap_conns x.

Inductive prog_next : Prog Response → Prog Response → Prop :=
| prog_nexts inp p w p' w' : prog_step inp (p, w) (p', w') → prog_next p' p.

Lemma prog_next_acc p : Acc prog_next p.
Proof.
  induction p as [r|B f k IH|B f k IH]; constructor; intros p' Hp;
    inversion Hp as [inp q w q' w' Hs]; subst; apply prog_step_inv in Hs; [done|..];
    destruct Hs as [-> _]; apply IH.
Qed.

Definition reqs_lt : list (Request * Prog Response) → list (Request * Prog Response) → Prop :=
  list_lt (λ g' g, prog_next g'.2 g.2).

Lemma reqs_lt_acc l : Acc reqs_lt l.
Proof.
  apply list_lt_acc, Forall_forall. intros [r p] _. revert r.
  induction (prog_next_acc p) as [p _ IH]. intros r. constructor. intros [r' p'] H. by apply IH.
Qed.

(** After the shutdown began, a step is one of a handler, or brings the rest nearer its end. *)
Lemma api_step_measure x x' w w' :
  api_step (x, w) (x', w') → ap_shut x = true →
  ap_shut x' = true ∧
  ((api_measure x' < api_measure x)%nat ∨
   api_measure x' = api_measure x ∧ reqs_lt (ap_reqs x') (ap_reqs x)).
Proof.
  unfold api_measure. intros Hs Hsh.
  inversion Hs as [x0 x1 w0 w1 _ H|x0 x1 w0 _ H|x0 x1 w0 _ H]; subst.
  - inversion H as [x0 w0 Hl Hn|n x0 w0 Hc|n r x0 w0 Hc|inp r p p' l1 l2 x0 w0 w1 Hr Hp|
      r resp l1 l2 x0 w0 Hr]; subst; cbn; (split; [done|]); rewrite ?Hc; try (left; lia).
    + congruence.
    + right. split; [done|]. rewrite Hr. apply lt_less. cbn. by econstructor.
    + rewrite Hsh. right. split; [done|]. rewrite Hr. apply lt_gone.
  - destruct H as [e Hl Hn|Hl Hn|e Hl|Hl]; cbn; (split; [done|]); left; rewrite Hl; cbn; lia.
  - destruct H as [Hc|Hm Hc|e errs Hm He|Hm Hc Hr|e Hm|r d l Hm Hd|r Hm]; cbn; (split; [done|]);
      left; rewrite ?Hm, ?Hc; cbn; lia.
Qed.

Lemma api_step_acc x w : ap_shut x = true → Acc (λ c' c, api_step c c') (x, w).
Proof.
  remember (api_measure x) as n eqn:Hn. revert x w Hn.
  induction n as [n IHn] using lt_wf_ind. intros x w Hn.
  remember (ap_reqs x) as l eqn:Hl. revert x w Hn Hl.
  induction (reqs_lt_acc l) as [l _ IHl]. intros x w -> -> Hsh.
  constructor. intros [x' w'] Hs.
  destruct (api_step_measure _ _ _ _ Hs Hsh) as [Hsh' [Hlt|[Heq Hlt]]].
  - by eapply IHn.
  - by eapply IHl.
Qed.

Context `{!PgxPoolLaws P}.

(** A process that is shutting down can always go on. *)
Lemma api_progress x w :
  ap_shut x = true → api_inv x → api_exited x = true ∨ ∃ c, api_step (x, w) c.
Proof.
  intros Hsh Hinv. unfold api_exited. destruct (ap_main x) as [| |r [|d l]|s] eqn:Hm.
  - by destruct (ai_shut _ Hinv Hsh) as [_ []].
  - right. eexists. apply as_main; [unfold api_exited; by rewrite Hm|].
    by apply (ma_timeout _ ErrDeadlineExceeded).
  - right. eexists. apply as_main; [unfold api_exited; by rewrite Hm|]. by apply ma_return.
  - right. eexists. apply as_main; [unfold api_exited; by rewrite Hm|].
    eapply ma_deferred; [done|]. destruct d; try done. by apply Close_waits.
  - by left.
Qed.

(** C24: the stop of the API terminates: once Shutdown was called, whatever steps the server, the
    requests in flight, the clients and main take, and in whatever order, after finitely many
    of them the process has exited. *)
Theorem api_stops getenv w0 x w :
  api_reaches getenv w0 (x, w) → ap_shut x = true →
  inevitable api_step (λ c, api_exited c.1 = true) (x, w).
Proof.
  intros Hr Hsh.
  apply (acc_inevitable _ (λ c, ap_shut c.1 = true ∧ api_inv c.1)).
  - by apply api_step_acc.
  - split; [done|]. by apply (api_reaches_inv _ _ _ Hr).
  - intros [x1 w1] [x2 w2] [H1 H2] Hs. split; [|by eapply api_step_inv].
    by destruct (api_step_measure _ _ _ _ Hs H1).
  - intros [x1 w1] [H1 H2]. by apply api_progress.
Qed.
End api.
