(* ===== verification/System.v ===== *)
(** * The whole system

    Every process of the scheduler, in any number and any interleaving, with any failure of
    any call; and the life of one job through all of them. *)

From S2P Require Import Prelude GoStd Decimal Models GoTime Json JsonFacts Compact World MemEnv.
From S2P Require Import Sql Lifecycle JobsRepo JobsSpec WorkersRepo DeadLettersRepo Broker.
From S2P Require Import BrokerSpec Dispatcher Monitor Cache CacheSpec Collector Http JobHandler.
From S2P Require Import OtherHandlers Router Worker WorkerSpec.

(** A program run for its effect. *)
Definition discard `{Env} {A} (p : Prog A) : Prog unit := let! _ := p in Ret tt.

Section system.
Context `{E : Env} {X : Mux}.

(** What may run: a request to the API; the scheduler's two loops and its heartbeat
    consumer; the collector's two consumers; a worker executing a job (any job, so what it
    read from the topic in particular) or sending a heartbeat. The consumers' turns may
    deliver any messages, in any order and any number of times. *)
Inductive sched_process : World → Prog unit → Prop :=
| proc_request w rc r : sched_process w (discard (NewRouter rc r))
| proc_dispatcher w events : sched_process w (dispatcher_Run events)
| proc_monitor w events : sched_process w (monitor_Run events)
| proc_heartbeats w turns :
    sched_process w (discard (Consumer_Run heartbeat_Handle turns nothing_consumed))
| proc_results w has_cache turns :
    sched_process w (discard (Consumer_Run (HandleResult has_cache) turns nothing_consumed))
| proc_dead_letters w turns :
    sched_process w (discard (Consumer_Run dead_letter_Handle turns nothing_consumed))
| proc_execute w wid rs job :
    runners_safe rs →
    sched_process w (discard (execute (R := kafka_ReportResult wid) rs job))
| proc_heartbeat w wid host cpu mem n :
    sched_process w (discard (SendHeartbeat wid host cpu mem n)).

(** The states the system can get to from the tables of [w0], with no process running. *)
Definition system_reaches (w0 w : World) : Prop :=
  ∃ ps, pool_steps sched_process ([], w0) (ps, w).

End system.

(** ** Safety *)

Section safety.
Context `{E : Env} {X : Mux} `{!OrderByLaws, !JsonbLaws}.

Lemma discard_safe {A} (p : Prog A) :
  prog_safe Inv world_step p → prog_safe Inv world_step (discard p).
Proof. intros Hp. by apply prog_safe_bind. Qed.

Lemma sched_process_safe w p : sched_process w p → prog_safe Inv world_step p.
Proof.
  intros [w0 rc r|w0 es|w0 es|w0 ts|w0 c ts|w0 ts|w0 wid rs j Hrs|w0 wid h c m n];
    try (apply discard_safe).
  - apply NewRouter_safe.
  - apply dispatcher_Run_safe.
  - apply monitor_Run_safe.
  - apply Consumer_Run_safe, heartbeat_Handle_safe.
  - apply Consumer_Run_safe. intros. apply HandleResult_safe.
  - apply Consumer_Run_safe. intros. apply dead_letter_Handle_safe.
  - by apply execute_safe.
  - apply SendHeartbeat_safe.
Qed.

(** A step of the system is a step of every row's machine. *)
Lemma system_steps w0 w (P : World → Prop) :
  Inv w0 → P w0 → (∀ w1 w2, Inv w1 → world_step w1 w2 → P w1 → P w2) →
  system_reaches w0 w → Inv w ∧ P w.
Proof.
  intros HI HP Hstep [ps Hps]. unfold pool_steps in Hps.
  remember (@nil (Prog unit), w0) as s0 eqn:Hs0. remember (ps, w) as s1 eqn:Hs1.
  assert (pool_ok Inv world_step s0.1 ∧ Inv s0.2 ∧ P s0.2) as Hinit.
  { subst s0. split_and!; [constructor|done|done]. }
  clear Hs0 HI HP. revert Hs1 Hinit.
  induction Hps as [s|s1' s2 s3 H12 _ IH]; [by intros -> (_ & ? & ?)|].
  intros Hs3 (Hok & HI & HP). apply IH; [done|].
  destruct (pool_step_safe Inv world_step sched_process s1' s2) as (Hok2 & HI2 & Hw);
    [|done..|].
  { intros w1 p _ Hp. by eapply sched_process_safe. }
  split; [exact Hok2|]. split; [exact HI2|]. by eapply (Hstep s1'.2).
Qed.

(** C1: whatever processes run, however their steps interleave, whatever calls fail or are
    applied without an answer, and whatever messages are delivered, in whatever order and
    however often: the tables stay well-formed. In particular a QUEUED job has no worker, a
    RUNNING job has a registered worker and at least one attempt, a RETRYING job has fewer
    than three attempts, no job is FAILED, every payload is a JSON text, and a dead letter is
    REPLAYED exactly when it names its new job. *)
Theorem system_safe w0 w :
  Inv w0 → system_reaches w0 w →
  (∀ id j, w_jobs w !! id = Some j →
     job_ID j = id ∧ json_text (job_Payload j) ∧ 0 ≤ job_Attempts j ∧
     match job_Status j with
     | JobStatusQueued => job_WorkerID j = None
     | JobStatusRunning => 1 ≤ job_Attempts j ∧
         ∃ wid x, job_WorkerID j = Some wid ∧ w_workers w !! wid = Some x
     | JobStatusRetrying => job_Attempts j < 3
     | JobStatusFailed => False
     | JobStatusCompleted | JobStatusDead => True
     end) ∧
  (∀ id d, w_dead w !! id = Some d →
     dl_ID d = id ∧ json_text (dl_Payload d) ∧
     (dl_Status d = "REPLAYED" ↔ is_Some (dl_ReplayedJobID d))).
Proof.
  intros HI Hr. destruct (system_steps w0 w (λ _, True) HI) as [[HJ _ HD] _]; [done..|].
  split.
  - intros id j Hj. destruct (HJ id j Hj) as [Hk Hp Ha _ Hf Hq Hrun Hretry Hw].
    split_and!; [done..|]. destruct (job_Status j); auto.
    + destruct (Hrun eq_refl) as [[wid Hwid] Hle]. split; [done|].
      destruct (Hw wid Hwid) as [x Hx]. by exists wid, x.
  - intros id d Hd. destruct (HD id d Hd) as [Hk Hp Hs]. split_and!; [done|done|].
    destruct Hs as [(Hs & _ & Hn)|(Hs & _ & Hj)]; rewrite Hs; [|done].
    rewrite Hn. split; [done|]. by intros [? ?].
Qed.

(** C2: the system refines the machines of Lifecycle.v: in any state it can get to, each step
    of any process - a statement, a transaction, a Redis command, a message written - moves
    every row of the jobs table and of the dead letters by at most one step of its machine,
    keeps every worker and its registration, and only appends to the topics. *)
Theorem system_refines w0 ps w ps' w' :
  Inv w0 → pool_steps sched_process ([], w0) (ps, w) →
  pool_step sched_process (ps, w) (ps', w') →
  (∀ id, row_next (w_workers w) id (w_jobs w !! id) (w_jobs w' !! id)) ∧
  (∀ id, dl_next id (w_dead w !! id) (w_dead w' !! id)) ∧
  (∀ wid x, w_workers w !! wid = Some x →
     ∃ x', w_workers w' !! wid = Some x' ∧ worker_CreatedAt x' = worker_CreatedAt x) ∧
  w_log w `prefix_of` w_log w'.
Proof.
  intros HI Hsteps Hstep.
  destruct (pool_steps_safe Inv world_step sched_process ([], w0) (ps, w)) as [Hok HIw];
    [|done|by apply Forall_nil_2|done|].
  { intros w1 p _ Hp. by eapply sched_process_safe. }
  destruct (pool_step_safe Inv world_step sched_process (ps, w) (ps', w')) as (_ & _ & Hw);
    [|done..].
  { intros w1 p _ Hp. by eapply sched_process_safe. }
Qed.

(** Workers stay, with their registration time. *)
Definition workers_kept (w w' : World) : Prop :=
  ∀ wid x, w_workers w !! wid = Some x →
    ∃ x', w_workers w' !! wid = Some x' ∧ worker_CreatedAt x' = worker_CreatedAt x.

#[local] Instance workers_kept_preorder : PreOrder workers_kept.
Proof.
  split; [by intros w wid x Hx; exists x|].
  intros w1 w2 w3 H12 H23 wid x Hx.
  destruct (H12 wid x Hx) as (x2 & Hx2 & Ht). destruct (H23 wid x2 Hx2) as (x3 & Hx3 & Ht').
  exists x3. split; [done|]. by rewrite Ht'.
Qed.

(** The steps after which the dead letter [id] is there. *)
Definition letter_stays (id : uuid) (s s' : list (Prog unit) * World) : Prop :=
  pool_step sched_process s s' ∧ is_Some (w_dead s'.2 !! id).

(** By such steps it only gets its mark. *)
Lemma letters_kept w0 s id d :
  Inv w0 → rtc (letter_stays id) ([], w0) s → w_dead w0 !! id = Some d →
  ∃ d', w_dead s.2 !! id = Some d' ∧ dl_later d d'.
Proof.
  intros HI Hsteps Hd.
  assert (∀ w1 p, Inv w1 → sched_process w1 p → prog_safe Inv world_step p) as Hproc.
  { intros w1 p _ Hp. by eapply sched_process_safe. }
  enough (pool_ok Inv world_step s.1 ∧ Inv s.2 ∧
          ∃ d', w_dead s.2 !! id = Some d' ∧ dl_later d d') as (_ & _ & ?) by done.
  revert s Hsteps. apply rtc_ind_r.
  { split; [by apply Forall_nil_2|]. split; [done|]. by exists d. }
  intros s s' _ [Hstep [d2 Hd2]] (Hok & HIs & d1 & Hd1 & Hl).
  destruct (pool_step_safe Inv world_step sched_process s s') as (Hok' & HI' & _ & Hdl & _); [done..|].
  split; [exact Hok'|]. split; [exact HI'|]. exists d2. split; [exact Hd2|].
  specialize (Hdl id). rewrite Hd1, Hd2 in Hdl.
  destruct (dl_next_later _ _ _ Hdl) as [[=]|(d3 & [= <-] & Hl2)]. by etransitivity.
Qed.

(** C3: in every such execution no job and no worker is ever deleted; a job keeps its
    identifier, type, payload, priority and creation time, and its attempts never decrease; a
    worker keeps its registration time; a dead letter, as long as it is there (the execution's
    steps do not delete it), keeps everything but its replay mark, and a mark that is set
    stays; what was published stays published, in order. *)
Theorem system_history w0 ps w :
  Inv w0 → pool_steps sched_process ([], w0) (ps, w) →
  (∀ id j, w_jobs w0 !! id = Some j → ∃ j', w_jobs w !! id = Some j' ∧
     job_ID j' = job_ID j ∧ job_Type j' = job_Type j ∧ job_Payload j' = job_Payload j ∧
     job_Priority j' = job_Priority j ∧ job_CreatedAt j' = job_CreatedAt j ∧
     job_Attempts j ≤ job_Attempts j') ∧
  (∀ wid x, w_workers w0 !! wid = Some x →
     ∃ x', w_workers w !! wid = Some x' ∧ worker_CreatedAt x' = worker_CreatedAt x) ∧
  (∀ id d, w_dead w0 !! id = Some d → rtc (letter_stays id) ([], w0) (ps, w) →
     ∃ d', w_dead w !! id = Some d' ∧
        dl_ID d' = dl_ID d ∧ dl_JobID d' = dl_JobID d ∧ dl_WorkerID d' = dl_WorkerID d ∧
        dl_JobType d' = dl_JobType d ∧ dl_Payload d' = dl_Payload d ∧
        dl_Attempts d' = dl_Attempts d ∧ dl_Error d' = dl_Error d ∧
        dl_CreatedAt d' = dl_CreatedAt d ∧
        (dl_Status d = "REPLAYED" → dl_Status d' = "REPLAYED")) ∧
  w_log w0 `prefix_of` w_log w.
Proof.
  intros HI Hr.
  destruct (system_steps w0 w (λ w', world_later w0 w' ∧ workers_kept w0 w') HI)
    as [_ [(Hj & _ & Hl) Hw]]; [done| |by exists ps|].
  - intros w1 w2 _ Hs [Hlater Hkept]. split; (etransitivity; [done|]).
    + by apply world_step_later.
    + by destruct Hs as (_ & _ & Hs & _).
  - split_and!; [|done| |done].
    + intros id j Hid. destruct (Hj id j Hid) as (j' & Hj' & (? & ? & ? & ? & ?) & Hle).
      exists j'. by split_and!.
    + intros id d Hd Hstays.
      destruct (letters_kept w0 (ps, w) id d HI Hstays Hd)
        as (d' & Hd' & (? & ? & ? & ? & ? & ? & ? & ?) & Hs).
      exists d'. by split_and!.
Qed.
End safety.

(** ** The life of one job *)

Section pipeline.
Context `{E : Env, !UuidLaws, !RedisLaws}.
Implicit Types w : World.

(** The job that a worker gets of the row [j]. *)
Definition delivered_job (j : Job) : Job :=
  mkJob (job_ID j) JobStatusQueued (job_Type j) (carried (job_Payload j)) (job_Priority j)
    (job_Attempts j) None 0 0.

(** C14: a job goes through the system: the message that the dispatcher publishes for a row is
    executed by the worker it is assigned to, the result that the worker reports is what the
    collector applies, and the row becomes COMPLETED when the runner succeeded; otherwise
    RETRYING while it has fewer than three attempts and DEAD, with a dead letter published,
    from three on. No other job changes on the way. *)
Theorem pipeline x j rs r ins1 ins2 ins3 w :
  all_done ins1 → all_done ins2 → all_done ins3 →
  w_jobs w !! job_ID j = Some j → json_text (job_Payload j) →
  utf8_valid (job_Type j) = true → int16_ok (job_Priority j) = true →
  int64_ok (job_Attempts j) = true → utf8_valid (report_text r) = true →
  (∀ w', attempt rs (delivered_job j) ins2 w' = (r, w')) →
  ∃ m1 m2 w1 w2 w3 msg ms t,
    run (publish_assigned x j) ins1 w = (tt, w1) ∧
    w_log w1 = w_log w ++ [m1] ∧ km_topic m1 = TopicJobs ∧
    kafka_handle (worker_ID x) (km_value m1) = Deliver (delivered_job j) ∧
    run (execute (R := kafka_ReportResult (worker_ID x)) rs (delivered_job j)) ins2 w1 =
      ((job_Type j, succeeded r), w2) ∧
    w_log w2 = w_log w1 ++ [m2] ∧ km_topic m2 = TopicResults ∧
    run (HandleResult true (km_key m2) (km_value m2)) ins3 w2 = (Ok tt, w3) ∧
    w_jobs w3 = <[job_ID j := result_row (succeeded r) t j]> (w_jobs w) ∧
    w_log w3 = w_log w2 ++ ms ∧ result_messages msg j ms ∧
    rm_JobID msg = job_ID j ∧ rm_Success msg = succeeded r ∧ rm_Error msg = report_text r.
Proof.
  intros Hd1 Hd2 Hd3 Hj Hp Ht Hprio Ha He Hrun.
  destruct (JobMessage_Marshal_ok (assignment (worker_ID x) j) Hp) as [body1 Hb1].
  destruct (result_Marshal_ok (worker_ID x) (delivered_job j) (succeeded r) (report_text r))
    as [body2 Hb2]; [right; by apply carried_json|].
  pose proof (ResultMessage_decode (result_of (worker_ID x) (delivered_job j) (succeeded r)
                (report_text r)) body2 He Ht Ha Hb2) as Hdec.
  set (msg := mkResultMessage _ _ _ _ _ _ _) in Hdec.
  set (m1 := mkKafkaMessage TopicJobs (uuid_String (worker_ID x)) body1).
  set (m2 := mkKafkaMessage TopicResults (uuid_String (job_ID j)) body2).
  set (w1 := set_log (w_log w ++ [m1]) w). set (w2 := set_log (w_log w1 ++ [m2]) w1).
  destruct (run_apply_result msg j ins3 w2 Hd3 Hj) as (w3 & ms & t & Happ & Hjobs & Hlog & Hms & _);
    [eapply ResultMessage_payload, Hdec|].
  destruct (run_invalidate (rm_JobID msg) (Ok tt : Res unit) (run_rest (apply_result msg) ins3 w2) w3)
    as (rd & t0 & Hinv & _ & _); [by apply all_done_rest|].
  exists m1, m2, w1, w2, (set_redis rd w3), msg, ms, t. split_and!; try done.
  - unfold publish_assigned, JobPublisher_PublishJob, kafka_JobPublisher, PublishJob.
    rewrite run_bind, (run_Publish TopicJobs _ _ body1) by
      (done || (apply list_elem_of_In; cbn; auto)). done.
  - unfold kafka_handle. cbn [km_value m1]. by rewrite (JobMessage_decode (assignment (worker_ID x) j) body1 Ht Hprio Ha Hb1), bool_decide_true.
  - rewrite run_execute, Hrun. unfold ReportResult, kafka_ReportResult. rewrite run_bind.
    rewrite (run_Publish TopicResults _ _ body2); [|apply list_elem_of_In; cbn; auto|done|].
    + cbn. by rewrite andb_true_r.
    + unfold attempt_rest. destruct (rs !! _); [by apply all_done_rest|done].
  - unfold HandleResult. cbn [km_value m2]. rewrite Hdec, run_bind, Happ. cbn [fst snd].
    exact Hinv.
Qed.
End pipeline.
