(* ===== verification/Statements.v ===== *)
(** * The statements of the program

    Every program of the system touches the tables through the statements of the repositories
    and nothing else: [statement] lists what a call may do, [within] says that a program makes
    no other call. What every statement keeps, every interleaving of programs keeps. *)

From S2P Require Import Prelude GoStd Models Json World Sql Columns Lifecycle JobsRepo.
From S2P Require Import WorkersRepo DeadLettersRepo Broker Dispatcher Monitor Cache Collector.
From S2P Require Import Http JobHandler OtherHandlers Router Worker WorkerSpec Quiet System.

Section statements.
Context `{E : Env}.
Implicit Types (w : World) (inp : Input).

(** What a call may be: a write of the repositories, with what their callers see to; a read; a
    Redis command; a message written. *)
Inductive statement : ∀ {B : Type}, action B → Prop :=
| st_read {B} (f : action B) : (∀ inp w, (f inp w).2 = w) → statement f
| st_redis {B} (f : action B) : redis_only f → statement f
| st_kafka topic key value : statement (kafka_write topic key value)
| st_insert_job j : int16_ok (job_Priority j) = true → statement (sql_insert_job j)
| st_set_status id p s : statement (sql_update_job id p (job_set_status s))
| st_rollback id p : statement (sql_update_job id p requeue_row)
| st_fetch_pending wid limit : statement (sql_fetch_pending wid limit)
| st_requeue_stale n : statement (sql_requeue_stale n)
| st_mark_failed id n : statement (sql_mark_failed id n)
| st_register host : statement (sql_register host)
| st_upsert id host cpu mem n : statement (sql_upsert_heartbeat id host cpu mem n)
| st_mark_unhealthy n : statement (sql_mark_unhealthy n)
| st_insert_dead_letter d : statement (sql_insert_dead_letter d)
| st_mark_replayed id jid : statement (sql_mark_replayed id jid)
| st_delete_dead_letter id : statement (sql_delete_dead_letter id).

(** A step without a call: the clock, an identifier, a counter. *)
Definition local_step {B} (f : Input → World → B * World) : Prop :=
  ∀ inp w, ∃ m, (f inp w).2 = set_metrics m w.

Fixpoint within {A} (p : Prog A) : Prop :=
  match p with
  | Ret _ => True
  | Call f k => statement f ∧ ∀ r, within (k r)
  | Local f k => local_step f ∧ ∀ b, within (k b)
  end.

(** ** What statements keep, programs keep *)

Lemma within_safe (I : World → Prop) {A} (p : Prog A) :
  (∀ B (f : action B) inp w, statement f → I w → I (f inp w).2) →
  (∀ m w, I w → I (set_metrics m w)) →
  within p → prog_safe I (λ _ _, True) p.
Proof.
  intros Hs Hm. unfold prog_safe. induction p as [a|B f k IH|B f k IH]; cbn; [done|..];
    intros [Hf Hk] inp w HI.
  - destruct (perform inp f w) as [r w'] eqn:Hp. split_and!; [|done|by apply IH].
    destruct (perform_world inp f w) as [Hw|Hw]; rewrite Hp in Hw; cbn in Hw; subst w'; auto.
  - destruct (Hf inp w) as [m Hw]. destruct (f inp w) as [b w']. cbn in Hw. subst w'.
    split_and!; [by apply Hm|done|by apply IH].
Qed.

(** ** Composition *)

Lemma within_bind {A B} (p : Prog A) (q : A → Prog B) :
  within p → (∀ a, within (q a)) → within (bind p q).
Proof. intros Hp Hq. induction p; cbn in *; [done|..]; destruct Hp; split; auto. Qed.

Lemma within_bind_ok {A B} (p : Prog (Res A)) (q : A → Prog (Res B)) :
  within p → (∀ a, within (q a)) → within (bind_ok p q).
Proof. intros Hp Hq. apply within_bind; [done|]. intros [a|e]; [apply Hq|done]. Qed.

Lemma within_discard {A} (p : Prog A) : within p → within (discard p).
Proof. intros Hp. by apply within_bind. Qed.

Lemma within_method {B C} (f : action B) (g : Res B → C) :
  statement f → within (bind (call f) (λ r, Ret (g r))).
Proof. by intros Hf. Qed.

Lemma within_redis {B} (f : action B) : redis_only f → within (call f).
Proof. intros Hf. split; [by apply st_redis|done]. Qed.

Lemma within_for_each {A} (l : list A) (body : A → Prog unit) :
  (∀ x, within (body x)) → within (for_each l body).
Proof. intros Hb. induction l as [|x l IH]; cbn; [done|]. by apply within_bind. Qed.

Lemma within_for_fold {A S} (l : list A) (s : S) (body : S → A → Prog S) :
  (∀ s x, within (body s x)) → within (for_fold l s body).
Proof. intros Hb. revert s. induction l as [|x l IH]; intros s; cbn; [done|]. by apply within_bind. Qed.

Lemma within_local {B} (f : Input → World → B * World) : local_step f → within (local f).
Proof. by intros Hf. Qed.

Lemma Inc_within c : within (Inc c).
Proof. apply within_local. intros inp w. by eexists. Qed.
Lemma uuid_New_within : within uuid_New.
Proof. apply within_local. intros inp w. exists (w_metrics w). by destruct w. Qed.
Lemma time_Now_within : within time_Now.
Proof. apply within_local. intros inp w. exists (w_metrics w). by destruct w. Qed.
Lemma Publish_within {T} `{Json T} topic key (v : T) : within (Publish topic key v).
Proof.
  unfold Publish. case_bool_decide; [|done]. destruct (json_Marshal v); [|done].
  split; [apply st_kafka|done].
Qed.
End statements.

Create HintDb within.
#[export] Hint Resolve within_bind within_bind_ok Inc_within uuid_New_within time_Now_within
  Publish_within within_for_each within_for_fold within_discard : within.

(** A method of a repository: one statement. *)
Ltac one_statement := apply within_method; first [constructor; done | by apply st_read].

(** Programs by their structure: the calls are known, the rest is cases. *)
Ltac by_cases :=
  repeat first
    [ done
    | solve [eauto with within nocore]
    | progress intros
    | apply within_for_each | apply within_for_fold
    | apply within_bind_ok
    | apply within_bind
    | match goal with
      | |- within (match ?x with _ => _ end) => destruct x
      | |- context [within (match ?x with _ => _ end)] => destruct x
      end ].

Section programs.
Context `{E : Env} {X : Mux}.

(** ** The repositories and the caches *)

Lemma Create_within j : int16_ok (job_Priority j) = true → within (Create j).
Proof. intros Hj. one_statement. Qed.
Lemma Cancel_within id : within (Cancel id).
Proof. one_statement. Qed.
Lemma Get_within id : within (Get id).
Proof. one_statement. Qed.
Lemma List_within p : within (List_ p).
Proof. one_statement. Qed.
Lemma FetchPending_within wid n : within (FetchPending wid n).
Proof. one_statement. Qed.
Lemma RequeueStale_within n : within (RequeueStale n).
Proof. one_statement. Qed.
Lemma MarkCompleted_within id : within (MarkCompleted id).
Proof. one_statement. Qed.
Lemma MarkFailed_within id n : within (MarkFailed id n).
Proof. one_statement. Qed.
Lemma RollbackToQueued_within id : within (RollbackToQueued id).
Proof. one_statement. Qed.
Lemma UpsertHeartbeat_within id host cpu mem n : within (UpsertHeartbeat id host cpu mem n).
Proof. one_statement. Qed.
Lemma FetchHealthy_within n : within (FetchHealthy n).
Proof. one_statement. Qed.
Lemma MarkUnhealthy_within n : within (MarkUnhealthy n).
Proof. one_statement. Qed.
Lemma GetWorker_within id : within (GetWorker id).
Proof. one_statement. Qed.
Lemma ListWorkers_within p : within (ListWorkers p).
Proof. one_statement. Qed.
Lemma Insert_within d : within (Insert d).
Proof. one_statement. Qed.
Lemma ListDeadLetters_within l o : within (ListDeadLetters l o).
Proof. one_statement. Qed.
Lemma GetDeadLetter_within id : within (GetDeadLetter id).
Proof. one_statement. Qed.
Lemma MarkReplayed_within id jid : within (MarkReplayed id jid).
Proof. one_statement. Qed.
Lemma Delete_within id : within (Delete id).
Proof. one_statement. Qed.

Lemma StatusCache_Get_within id : within (StatusCache_Get id).
Proof. apply within_bind; [apply within_redis, (redis_commands_only _ EmptyString 0)|done]. Qed.
Lemma StatusCache_Set_within id v : within (StatusCache_Set id v).
Proof. apply within_redis, (redis_commands_only _ _ _). Qed.
Lemma StatusCache_Invalidate_within id : within (StatusCache_Invalidate id).
Proof. apply within_redis, (redis_commands_only _ EmptyString 0). Qed.

Lemma Check_within key id h : within (Check_ key id h).
Proof.
  unfold Check_. cbn [json_Marshal idemEntry_Json].
  apply within_bind; [apply within_redis, (redis_commands_only _ _ _)|].
  intros [[]|e]; [done| |done].
  apply within_bind; [apply within_redis, (redis_commands_only _ EmptyString 0)|]. intros r.
  by_cases.
Qed.

Lemma Allow_within rl key : within (Allow rl key).
Proof.
  apply within_bind; [apply time_Now_within|]. intros now.
  apply within_bind; [apply within_redis, (redis_commands_only _ EmptyString 0)|].
  intros [n|e]; [|done]. apply within_bind; [|done]. destruct (n =? 1); [|done].
  apply within_bind; [apply within_redis, (redis_commands_only _ EmptyString _)|done].
Qed.
End programs.
#[export] Hint Resolve Create_within Cancel_within Get_within List_within FetchPending_within
  RequeueStale_within MarkCompleted_within MarkFailed_within RollbackToQueued_within
  UpsertHeartbeat_within FetchHealthy_within MarkUnhealthy_within GetWorker_within
  ListWorkers_within Insert_within ListDeadLetters_within GetDeadLetter_within
  MarkReplayed_within Delete_within StatusCache_Get_within StatusCache_Set_within
  StatusCache_Invalidate_within Check_within Allow_within : within.

Section clients.
Context `{E : Env} {X : Mux}.

(** ** The scheduler *)

Lemma dispatcher_tick_within : within dispatcher_tick.
Proof. unfold dispatcher_tick, assign_to, publish_assigned, JobPublisher_PublishJob, kafka_JobPublisher, PublishJob. cbn [Workers_FetchHealthy pgWorkersRepo Jobs_FetchPending Jobs_RollbackToQueued pgJobsRepo]. by_cases. Qed.

Lemma monitor_tick_within : within monitor_tick.
Proof. unfold monitor_tick. cbn [Workers_MarkUnhealthy pgWorkersRepo Jobs_RequeueStale pgJobsRepo]. by_cases. Qed.

Lemma dispatcher_Run_within events : within (dispatcher_Run events).
Proof.
  induction events as [|[] es IH]; cbn [dispatcher_Run]; [done| |done].
  by apply within_bind; [apply dispatcher_tick_within|].
Qed.

Lemma monitor_Run_within events : within (monitor_Run events).
Proof.
  induction events as [|[] es IH]; cbn [monitor_Run]; [done| |done].
  by apply within_bind; [apply monitor_tick_within|].
Qed.

(** ** The consumers *)

Lemma heartbeat_Handle_within key value : within (heartbeat_Handle key value).
Proof. unfold heartbeat_Handle. cbn [Workers_UpsertHeartbeat pgWorkersRepo]. by_cases. Qed.

Lemma HandleResult_within has_cache key value : within (HandleResult has_cache key value).
Proof.
  unfold HandleResult, apply_result. cbn [Jobs_MarkCompleted Jobs_MarkFailed pgJobsRepo].
  by_cases.
Qed.

Lemma dead_letter_Handle_within key value : within (dead_letter_Handle key value).
Proof. unfold dead_letter_Handle. cbn [DL_Insert pgDeadLettersRepo]. by_cases. Qed.

Lemma Consumer_Run_within handler turns cs :
  (∀ k v, within (handler k v)) → within (Consumer_Run handler turns cs).
Proof.
  intros Hh. revert cs. induction turns as [|t ts IH]; intros cs; cbn [Consumer_Run]; [done|].
  by_cases; auto.
Qed.

(** ** The worker *)

Lemma ReportResult_within wid job ok msg : within (kafka_ReportResult wid job ok msg).
Proof. unfold kafka_ReportResult. by_cases. Qed.

Lemma runner_within t r p : runners !! t = Some r → within (r p).
Proof.
  unfold runners. rewrite !lookup_insert_Some, lookup_empty.
  intros [[_ <-]|[_ [[_ <-]|[_ ?]]]]; [done| |done].
  unfold SleepRunner. destruct (sleep_duration p); [|done]. split; [by apply st_read|done].
Qed.

Lemma execute_within wid job : within (execute (R := kafka_ReportResult wid) runners job).
Proof.
  unfold execute, fail, ReportResult. pose proof ReportResult_within.
  destruct (runners !! job_Type job) as [r|] eqn:Hr; [|by_cases].
  apply within_bind; [by eapply runner_within|]. by_cases.
Qed.

Lemma SendHeartbeat_within wid host cpu mem n : within (SendHeartbeat wid host cpu mem n).
Proof. unfold SendHeartbeat. by_cases. Qed.

(** ** The API *)

Lemma create_job_within j : int16_ok (job_Priority j) = true → within (create_job j).
Proof. intros Hj. unfold create_job. cbn [Jobs_Create pgJobsRepo]. by_cases. Qed.

Lemma SubmitJob_within has_idem r : within (SubmitJob has_idem r).
Proof.
  unfold SubmitJob. destruct (decode_SubmitJobRequest _) as [req|] eqn:Hreq; [|done].
  apply decode_SubmitJobRequest_priority in Hreq. cbn [Jobs_Get pgJobsRepo].
  assert (∀ id, within (create_job (NewJob id (sr_Type req) (sr_Payload req) (sr_Priority req))))
    by (intros; by apply create_job_within).
  by_cases.
Qed.

Lemma GetJobStatus_within has_cache r : within (GetJobStatus has_cache r).
Proof. unfold GetJobStatus, get_from_table. cbn [Jobs_Get pgJobsRepo]. by_cases. Qed.

Lemma dlq_Replay_within r : within (dlq_Replay r).
Proof.
  unfold dlq_Replay, replay_letter. cbn [DL_Get DL_MarkReplayed pgDeadLettersRepo Jobs_Create pgJobsRepo].
  assert (∀ id t p, within (Create (NewJob id t p 0))) by (intros; by apply Create_within).
  by_cases.
Qed.

Lemma handle_within rc ep r : within (handle rc ep r).
Proof.
  destruct ep; cbn [handle]; [done|done|apply SubmitJob_within| |apply GetJobStatus_within| | | |
    apply dlq_Replay_within| | |];
    unfold ListJobs, CancelJob, dlq_List, dlq_Get, dlq_Delete, handle_ListWorkers, handle_GetWorker;
    cbn [Jobs_List Jobs_Cancel pgJobsRepo DL_List DL_Get DL_Delete pgDeadLettersRepo Workers_List
         Workers_Get pgWorkersRepo]; by_cases.
Qed.

Lemma NewRouter_within rc r : within (NewRouter rc r).
Proof.
  apply within_bind; [apply Allow_within|]. intros [[[] n]|e]; [|done..]. cbn [negb].
  pose proof handle_within. unfold APIKeyAuth. by_cases.
Qed.
End clients.
