(* ===== verification/SchemaSpec.v ===== *)
(** * The tables and the schema

    In every interleaving of the program's programs, whatever fails, the tables keep what the
    migrated schema asks: the types of the columns, NOT NULL, the primary keys and the foreign
    key; an INSERT leaves in a row what the schema leaves there, and an UPDATE in the rows that
    it selects what it sets, with the trigger's column, and in the others nothing. *)

From S2P Require Import Prelude GoStd Models Json World MemEnv Sql Columns Schema Migrations.
From S2P Require Import Lifecycle JobsRepo JobsSpec WorkersRepo DeadLettersRepo Broker Dispatcher.
From S2P Require Import Monitor Cache Collector Http JobHandler OtherHandlers Router Worker.
From S2P Require Import WorkerSpec Quiet System Statements.

(** ** The tables as a database *)

Definition db_of `{Env} (w : World) : Database := λ t,
  if bool_decide (t = "jobs") then job_columns <$> rows (w_jobs w)
  else if bool_decide (t = "workers") then worker_columns <$> rows (w_workers w)
  else if bool_decide (t = "dead_letters") then dead_letter_columns <$> rows (w_dead w)
  else [].

(** The tables of the schema. *)
Lemma schema_jobs : ct_tables schema !! "jobs" = Some jobs_cols.
Proof. vm_compute. reflexivity. Qed.
Lemma schema_workers : ct_tables schema !! "workers" = Some workers_cols.
Proof. vm_compute. reflexivity. Qed.
Lemma schema_dead_letters : ct_tables schema !! "dead_letters" = Some dead_letters_cols.
Proof. vm_compute. reflexivity. Qed.

Lemma schema_tables t cols :
  ct_tables schema !! t = Some cols →
  t = "jobs" ∧ cols = jobs_cols ∨ t = "workers" ∧ cols = workers_cols ∨
  t = "dead_letters" ∧ cols = dead_letters_cols.
Proof.
  assert (Hall : map_Forall (λ t cols, t = "jobs" ∧ cols = jobs_cols ∨
    t = "workers" ∧ cols = workers_cols ∨ t = "dead_letters" ∧ cols = dead_letters_cols)
    (ct_tables schema)) by (apply (bool_decide_unpack _); vm_compute; exact I).
  apply Hall.
Qed.

(** ** Row by row *)

Definition fits_numeric (x : option float64) : Prop :=
  ∀ c, x = Some c → f_exp c = 2%nat ∧ Z.abs (f_mant c) < 10 ^ 5.

Record job_stored (ws : gmap uuid Worker) (id : uuid) (j : Job) : Prop := {
  js_key : job_ID j = id;
  js_type : utf8_valid (job_Type j) = true;
  js_payload : json_text (job_Payload j);
  js_priority : int16_ok (job_Priority j) = true;
  js_attempts : int32_ok (job_Attempts j) = true;
  js_worker : ∀ wid, job_WorkerID j = Some wid → is_Some (ws !! wid);
}.

Record worker_stored (id : uuid) (x : Worker) : Prop := {
  ws_key : worker_ID x = id;
  ws_host : utf8_valid (worker_Host x) = true;
  ws_cpu : fits_numeric (worker_CPU x);
  ws_memory : fits_numeric (worker_Memory x);
  ws_running : int32_ok (worker_RunningJobs x) = true;
}.

Record letter_stored (id : uuid) (d : DeadLetter) : Prop := {
  ls_key : dl_ID d = id;
  ls_type : utf8_valid (dl_JobType d) = true;
  ls_payload : json_text (dl_Payload d);
  ls_attempts : int32_ok (dl_Attempts d) = true;
  ls_error : utf8_valid (dl_Error d) = true;
  ls_status : utf8_valid (dl_Status d) = true;
}.

Section stored.
Context `{E : Env}.
Implicit Types (w : World).

Record stored w : Prop := {
  sd_jobs : ∀ id j, w_jobs w !! id = Some j → job_stored (w_workers w) id j;
  sd_workers : ∀ id x, w_workers w !! id = Some x → worker_stored id x;
  sd_dead : ∀ id d, w_dead w !! id = Some d → letter_stored id d;
}.

(** ** What the schema asks, cell by cell *)

Lemma JobStatus_label s :
  ∃ ls, ct_types schema !! "job_status" = Some ls ∧ JobStatus_string s ∈ ls.
Proof.
  eexists. split; [vm_compute; reflexivity|]. apply list_elem_of_In. destruct s; cbn; tauto.
Qed.

Lemma WorkerStatus_label s :
  ∃ ls, ct_types schema !! "worker_status" = Some ls ∧ WorkerStatus_string s ∈ ls.
Proof.
  eexists. split; [vm_compute; reflexivity|]. apply list_elem_of_In. destruct s; cbn; tauto.
Qed.

Lemma db_jobs w : db_of w "jobs" = job_columns <$> rows (w_jobs w).
Proof. done. Qed.
Lemma db_workers w : db_of w "workers" = worker_columns <$> rows (w_workers w).
Proof. done. Qed.
Lemma db_dead_letters w : db_of w "dead_letters" = dead_letter_columns <$> rows (w_dead w).
Proof. done. Qed.

(** A nullable cell. *)
Lemma cell_ok_nullable {A} c d k (f : A → SqlValue) (o : option A) :
  col_not_null k = false → col_references k = None →
  (∀ a, o = Some a → value_ok c (col_type k) (f a)) → cell_ok c d k (f <$> o).
Proof. intros Hn Hr Ho. destruct o as [a|]; cbn; [|done]. rewrite Hr. auto. Qed.

Ltac explicit cols := let l := eval vm_compute in cols in change cols with l.
Ltac each_cell :=
  repeat (apply Forall_cons; split);
  [match goal with
   | |- cell_ok ?c ?d ?k (cell ?r ?n) =>
       let v := eval lazy -[JobStatus_string WorkerStatus_string fmap option_fmap] in (cell r n) in
       change (cell_ok c d k v)
   end..|apply Forall_nil_2].

Ltac plain_cell := solve [split; [done|exact I] | split; [exact I|exact I]].

Lemma workers_have w wid :
  stored w → is_Some (w_workers w !! wid) →
  ∃ r, r ∈ db_of w "workers" ∧ cell r "id" = Some (VUuid wid).
Proof.
  intros Hs [x Hx]. exists (worker_columns x). split.
  - rewrite db_workers. apply list_elem_of_fmap_2, elem_of_rows. by exists wid.
  - destruct (sd_workers _ Hs wid x Hx) as [<- _ _ _ _]. reflexivity.
Qed.

Lemma jobs_row_ok w id j :
  stored w → w_jobs w !! id = Some j → row_ok schema (db_of w) jobs_cols (job_columns j).
Proof.
  intros Hs Hj. destruct (sd_jobs _ Hs id j Hj) as [Hk Ht (p & Hp & Hv) Hpr Ha Hw].
  split; [apply (bool_decide_unpack _); vm_compute; exact I|].
  explicit jobs_cols. each_cell; try plain_cell.
  - split; [|exact I]. split; [done|]. apply JobStatus_label.
  - change (cell_ok schema (db_of w) (col "payload" TJsonb true (Some (DefaultValue (VJsonb "{}"))))
      (VJsonb <$> job_Payload j)). rewrite Hp. by split.
  - destruct j as [? ? ? ? ? ? [wid|] ? ?]; [|done]. split; [exact I|].
    by apply workers_have, Hw.
Qed.

Lemma workers_row_ok w id x :
  stored w → w_workers w !! id = Some x →
  row_ok schema (db_of w) workers_cols (worker_columns x).
Proof.
  intros Hs Hx. destruct (sd_workers _ Hs id x Hx) as [Hk Hh Hc Hm Hr].
  split; [apply (bool_decide_unpack _); vm_compute; exact I|].
  explicit workers_cols. each_cell; try plain_cell.
  - split; [|exact I]. split; [done|]. apply WorkerStatus_label.
  - apply (cell_ok_nullable _ _ _ VNumeric); [done|done|exact Hc].
  - apply (cell_ok_nullable _ _ _ VNumeric); [done|done|exact Hm].
  - by apply (cell_ok_nullable _ _ _ VTimestamptz).
Qed.

Lemma dead_letters_row_ok w id d :
  stored w → w_dead w !! id = Some d →
  row_ok schema (db_of w) dead_letters_cols (dead_letter_columns d).
Proof.
  intros Hs Hd. destruct (sd_dead _ Hs id d Hd) as [Hk Ht (p & Hp & Hv) Ha He Hst].
  split; [apply (bool_decide_unpack _); vm_compute; exact I|].
  explicit dead_letters_cols. each_cell; try plain_cell.
  - by apply (cell_ok_nullable _ _ _ VUuid).
  - change (cell_ok schema (db_of w) (col "payload" TJsonb true (Some (DefaultValue (VJsonb "{}"))))
      (VJsonb <$> dl_Payload d)). rewrite Hp. by split.
  - by apply (cell_ok_nullable _ _ _ VTimestamptz).
  - by apply (cell_ok_nullable _ _ _ VUuid).
Qed.

(** The primary key is the key of the table. *)
Lemma keys_of {A} (t : gmap uuid A) (key : A → uuid) (columns : A → Row) cols :
  (∀ a, (λ k, cell (columns a) (col_name k)) <$> filter (λ k, col_primary k = true) cols
        = [Some (VUuid (key a))]) →
  (∀ id a, t !! id = Some a → key a = id) → keys_ok cols (columns <$> rows t).
Proof.
  intros Hcols Hkey. unfold keys_ok.
  rewrite <- list_fmap_compose, (list_fmap_ext _ ((λ u, [Some (VUuid u)]) ∘ key)) by
    (intros _ a _; apply Hcols).
  rewrite list_fmap_compose.
  apply NoDup_fmap_2; [intros u v; congruence|]. by apply NoDup_rows_key.
Qed.

Lemma stored_integrity w : stored w → integrity schema (db_of w).
Proof.
  intros Hs t cols [[-> ->]|[[-> ->]|[-> ->]]]%schema_tables.
  - rewrite db_jobs. split.
    + apply Forall_fmap, Forall_forall. intros j [id Hj]%elem_of_rows. by eapply jobs_row_ok.
    + apply (keys_of _ job_ID); [reflexivity|]. intros id j Hj. by apply (sd_jobs _ Hs id j Hj).
  - rewrite db_workers. split.
    + apply Forall_fmap, Forall_forall. intros x [id Hx]%elem_of_rows. by eapply workers_row_ok.
    + apply (keys_of _ worker_ID); [reflexivity|]. intros id x Hx. by apply (sd_workers _ Hs id x Hx).
  - rewrite db_dead_letters. split.
    + apply Forall_fmap, Forall_forall. intros d [id Hd]%elem_of_rows. by eapply dead_letters_row_ok.
    + apply (keys_of _ dl_ID); [reflexivity|]. intros id d Hd. by apply (sd_dead _ Hs id d Hd).
Qed.

(** A value in a row that the schema accepts. *)
Definition has_column (t : string) (k : Column) : bool :=
  match ct_tables schema !! t with Some cols => bool_decide (k ∈ cols) | None => false end.

Lemma column_value w t k r v :
  integrity schema (db_of w) → has_column t k = true → r ∈ db_of w t →
  cell r (col_name k) = Some v → value_ok schema (col_type k) v.
Proof.
  unfold has_column. destruct (ct_tables schema !! t) as [cols|] eqn:Ht; [|done].
  intros Hi Hk%bool_decide_eq_true Hr Hv. destruct (Hi t cols Ht) as [Hrows _].
  destruct (proj1 (Forall_forall _ _) Hrows r Hr) as [_ Hcells].
  assert (cell_ok schema (db_of w) k (cell r (col_name k))) as Hc
    by exact (proj1 (Forall_forall _ _) Hcells k Hk).
  rewrite Hv in Hc. by destruct Hc.
Qed.

Lemma integrity_stored w : Inv w → integrity schema (db_of w) → stored w.
Proof.
  intros HI Hi. pose proof (λ t k r v, column_value w t k r v Hi) as Hcol. split.
  - intros id j Hj. assert (Hr : job_columns j ∈ db_of w "jobs").
    { apply list_elem_of_fmap_2, elem_of_rows. by exists id. }
    destruct (inv_jobs _ HI id j Hj) as [Hk Hp _ Ha _ _ _ _ Hw]. constructor; try done.
    + exact (Hcol "jobs" (col "type" TText true None) _ (VText (job_Type j)) eq_refl Hr eq_refl).
    + exact (Hcol "jobs" (col "priority" TSmallint true (Some (DefaultValue (VSmallint 0)))) _
               (VSmallint (job_Priority j)) eq_refl Hr eq_refl).
  - intros id x Hx. assert (Hr : worker_columns x ∈ db_of w "workers").
    { apply list_elem_of_fmap_2, elem_of_rows. by exists id. }
    destruct (inv_workers _ HI id x Hx) as [Hk Hn]. constructor; try done.
    + exact (Hcol "workers" (col "host" TText true None) _ (VText (worker_Host x)) eq_refl Hr eq_refl).
    + intros c Hc. apply (Hcol "workers" (col "cpu" (TNumeric 5 2) false None) _ (VNumeric c) eq_refl Hr).
      change (VNumeric <$> worker_CPU x = Some (VNumeric c)). by rewrite Hc.
    + intros c Hc.
      apply (Hcol "workers" (col "memory" (TNumeric 5 2) false None) _ (VNumeric c) eq_refl Hr).
      change (VNumeric <$> worker_Memory x = Some (VNumeric c)). by rewrite Hc.
  - intros id d Hd. assert (Hr : dead_letter_columns d ∈ db_of w "dead_letters").
    { apply list_elem_of_fmap_2, elem_of_rows. by exists id. }
    destruct (inv_dead _ HI id d Hd) as [Hk Hp _]. constructor; try done.
    + exact (Hcol "dead_letters" (col "job_type" TText true (text_default EmptyString)) _
               (VText (dl_JobType d)) eq_refl Hr eq_refl).
    + exact (Hcol "dead_letters" (col "attempts" TInteger true (Some (DefaultValue (VInteger 0)))) _
               (VInteger (dl_Attempts d)) eq_refl Hr eq_refl).
    + exact (Hcol "dead_letters" (col "error" TText true (text_default EmptyString)) _
               (VText (dl_Error d)) eq_refl Hr eq_refl).
    + exact (Hcol "dead_letters" (col "status" TText true (text_default "OPEN")) _
               (VText (dl_Status d)) eq_refl Hr eq_refl).
Qed.
End stored.

(** ** Every statement keeps the schema *)

Section kept.
Context `{E : Env, !OrderByLaws, !JsonbLaws, !TextLaws}.
Implicit Types (w : World) (inp : Input).

(** Only the jobs, only the workers, only the dead letters. *)
Lemma stored_jobs w t :
  stored w → (∀ id j, t !! id = Some j → job_stored (w_workers w) id j) → stored (set_jobs t w).
Proof. intros [_ Hw Hd] Hj. by split. Qed.

Lemma stored_workers w t :
  stored w → (∀ id, is_Some (w_workers w !! id) → is_Some (t !! id)) →
  (∀ id x, t !! id = Some x → worker_stored id x) → stored (set_workers t w).
Proof.
  intros [Hj _ Hd] Hdom Hw. split; [|done|done]. intros id j Hid. destruct (Hj id j Hid).
  constructor; auto.
Qed.

Lemma stored_dead w t :
  stored w → (∀ id d, t !! id = Some d → letter_stored id d) → stored (set_dead t w).
Proof. intros [Hj Hw _] Hd. by split. Qed.

(** The updates of a row that the statements make. *)
Definition row_kept (f : Job → Job) : Prop :=
  ∀ ws id j, job_stored ws id j → job_stored ws id (f j).

Lemma status_kept s : row_kept (job_set_status s).
Proof. by intros ws id j []. Qed.
Lemma requeue_kept : row_kept requeue_row.
Proof. by intros ws id j []. Qed.
Lemma updated_kept now f : row_kept f → row_kept (set_updated_at now f).
Proof. intros Hf ws id j Hj. by destruct (Hf ws id j Hj). Qed.

Lemma stored_update_where w p f :
  stored w → row_kept f → stored (set_jobs (update_where p f (w_jobs w)).1 w).
Proof.
  intros Hs Hf. apply stored_jobs; [done|]. intros id j. rewrite lookup_update_where.
  intros (j0 & Hj0 & ->)%fmap_Some. pose proof (sd_jobs _ Hs id j0 Hj0).
  destruct (p j0); [by apply Hf|done].
Qed.

Lemma stored_update_id w id p f :
  stored w → row_kept f → stored (set_jobs (update_id id p f (w_jobs w)).1 w).
Proof.
  intros Hs Hf. apply stored_jobs; [done|]. intros k j. rewrite lookup_update_id.
  case_decide; [|apply (sd_jobs _ Hs)].
  intros (j0 & Hj0 & ->)%fmap_Some. pose proof (sd_jobs _ Hs k j0 Hj0).
  destruct (p j0); [by apply Hf|done].
Qed.

Lemma update_job_stored id p f inp w :
  stored w → row_kept f → stored (sql_update_job id p f inp w).2.
Proof.
  intros Hs Hf. unfold sql_update_job. destruct (update_id _ _ _ _) as [t n] eqn:Ht. cbn.
  pose proof (stored_update_id w id p _ Hs (updated_kept (in_now inp) f Hf)) as Hu.
  by rewrite Ht in Hu.
Qed.

Lemma insert_job_stored j inp w :
  stored w → int16_ok (job_Priority j) = true → stored (sql_insert_job j inp w).2.
Proof.
  intros Hs Hpr. unfold sql_insert_job. destruct (job_Payload j) as [p|]; [|done].
  destruct (pg_text (job_Type j)) eqn:Ht; [cbn|done]. destruct (jsonb p) as [doc|] eqn:Hd; [|done].
  destruct (w_jobs w !! job_ID j); [done|]. apply stored_jobs; [done|]. intros id j'.
  rewrite lookup_insert_Some. intros [[<- <-]|[_ Hj]]; [|by apply (sd_jobs _ Hs)].
  constructor; cbn; try done; [by apply pg_text_utf8|by eapply jsonb_json].
Qed.

Lemma fetch_pending_stored wid limit inp w :
  stored w → stored (sql_fetch_pending wid limit inp w).2.
Proof.
  intros Hs. unfold sql_fetch_pending. destruct (limit <? 0); [done|].
  set (ps := picked _ _ _). destruct (forallb _ ps) eqn:Hov; [cbn [negb]|done].
  destruct (_ && _) eqn:Hfk; [done|]. cbn [snd]. apply stored_jobs; [done|]. intros id j.
  rewrite lookup_update_where. intros (j0 & Hj0 & ->)%fmap_Some.
  destruct (sd_jobs _ Hs id j0 Hj0) as [Hk Ht Hp Hpr Ha Hw].
  destruct (bool_decide_reflect (job_ID j0 ∈ job_ID <$> ps)) as [Hin|]; [|by apply (sd_jobs _ Hs)].
  apply list_elem_of_fmap in Hin as (j1 & Heq & Hin).
  assert (Hj1 : w_jobs w !! job_ID j1 = Some j1).
  { apply elem_of_take_list, elem_of_order_by, elem_of_filter_bool in Hin as [_ [k Hk1]%elem_of_rows].
    by rewrite (js_key _ _ _ (sd_jobs _ Hs k j1 Hk1)). }
  rewrite <- Heq, Hk, Hj0 in Hj1. injection Hj1 as <-.
  constructor; try done; cbn.
  - rewrite forallb_forall in Hov. by apply Hov, list_elem_of_In.
  - intros wid' [= <-]. apply andb_false_iff in Hfk as [Hfk|Hfk]; to_prop.
    + fold ps in Hin. rewrite Hfk in Hin. by apply elem_of_nil in Hin.
    + destruct (w_workers w !! wid); [done|]. by destruct Hfk.
Qed.

Lemma mark_failed_stored id n inp w : stored w → stored (sql_mark_failed id n inp w).2.
Proof.
  intros Hs. unfold sql_mark_failed. destruct (w_jobs w !! id) as [j|] eqn:Hj; [|done].
  apply stored_jobs; [done|]. intros k j'. rewrite lookup_insert_Some.
  intros [[<- <-]|[_ Hk]]; [|by apply (sd_jobs _ Hs)].
  apply updated_kept; [apply status_kept|]. by apply (sd_jobs _ Hs).
Qed.

Lemma register_stored host inp w : stored w → stored (sql_register host inp w).2.
Proof.
  intros Hs. unfold sql_register. destruct (pg_text host) eqn:Hh; [cbn|done].
  destruct (w_workers w !! in_uuid inp) eqn:Hn; [done|]. apply stored_workers; [done|..].
  - intros id Hid. by apply lookup_insert_is_Some'; right.
  - intros id x. rewrite lookup_insert_Some. intros [[<- <-]|[_ Hx]]; [|by apply (sd_workers _ Hs)].
    constructor; cbn; try done. by apply pg_text_utf8.
Qed.

Lemma numeric_5_2_fits x y : numeric_5_2 x = Some y → fits_numeric (Some y).
Proof.
  unfold numeric_5_2. destruct (Z.ltb_spec (Z.abs (round_half_away (f_mant x * 100)
    (10 ^ Z.of_nat (f_exp x)))) 100000); [|done]. intros [= <-] c [= <-]. cbn. by split.
Qed.

Lemma upsert_stored id host cpu mem n inp w :
  stored w → stored (sql_upsert_heartbeat id host cpu mem n inp w).2.
Proof.
  intros Hs. unfold sql_upsert_heartbeat. destruct (pg_text host) eqn:Hh; [cbn|done].
  destruct (numeric_5_2 cpu) as [c|] eqn:Hc; [|done].
  destruct (numeric_5_2 mem) as [m|] eqn:Hm; [|done]. destruct (int32_ok n) eqn:Hn; [|done].
  apply pg_text_utf8 in Hh. apply numeric_5_2_fits in Hc, Hm. apply stored_workers; [done|..].
  - intros k Hk. by apply lookup_insert_is_Some'; right.
  - intros k x. rewrite lookup_insert_Some. intros [[<- <-]|[_ Hx]]; [|by apply (sd_workers _ Hs)].
    destruct (w_workers w !! id) as [y|] eqn:Hy; constructor; try done.
    by apply (sd_workers _ Hs id y).
Qed.

Lemma mark_unhealthy_stored n inp w : stored w → stored (sql_mark_unhealthy n inp w).2.
Proof.
  intros Hs. unfold sql_mark_unhealthy. cbn. apply stored_workers; [done|..].
  - intros id [x Hx]. rewrite lookup_fmap, Hx. by eexists.
  - intros id x. rewrite lookup_fmap. intros (y & Hy & ->)%fmap_Some.
    destruct (sd_workers _ Hs id y Hy). by destruct (silent _ _ y).
Qed.

Lemma insert_dead_letter_stored d inp w : stored w → stored (sql_insert_dead_letter d inp w).2.
Proof.
  intros Hs. unfold sql_insert_dead_letter. destruct (dl_Payload d) as [p|]; [|done].
  destruct (pg_text (dl_JobType d)) eqn:Ht, (pg_text (dl_Error d)) eqn:He; cbn; try done.
  destruct (int32_ok (dl_Attempts d)) eqn:Ha; [cbn|done].
  destruct (jsonb p) as [doc|] eqn:Hd; [|done]. destruct (w_dead w !! in_uuid inp); [done|].
  apply stored_dead; [done|]. intros id d'. rewrite lookup_insert_Some.
  intros [[<- <-]|[_ Hd']]; [|by apply (sd_dead _ Hs)].
  constructor; cbn; try done; [by apply pg_text_utf8|by eapply jsonb_json|by apply pg_text_utf8].
Qed.

Lemma mark_replayed_stored id jid inp w : stored w → stored (sql_mark_replayed id jid inp w).2.
Proof.
  intros Hs. unfold sql_mark_replayed. destruct (update_id _ _ _ _) as [t n] eqn:Ht.
  apply stored_dead; [done|]. intros k d.
  replace t with (update_id id (λ _, true) (replayed_row (in_now inp) jid) (w_dead w)).1
    by (by rewrite Ht).
  rewrite lookup_update_id. case_decide; [|apply (sd_dead _ Hs)].
  intros (d0 & Hd0 & ->)%fmap_Some. by destruct (sd_dead _ Hs k d0 Hd0).
Qed.

Lemma delete_dead_letter_stored id inp w : stored w → stored (sql_delete_dead_letter id inp w).2.
Proof.
  intros Hs. unfold sql_delete_dead_letter. destruct (w_dead w !! id); [|done].
  apply stored_dead; [done|]. intros k d' [_ Hk]%lookup_delete_Some. by apply (sd_dead _ Hs).
Qed.

Lemma statement_stored {B} (f : action B) inp w : statement f → stored w → stored (f inp w).2.
Proof.
  intros Hf. destruct Hf as [B f Hr|B f Hr|topic key value|j Hp|id p s|id p|wid n|n|id n|host|
    id host c m n|n|d|id jid|id]; intros Hs.
  - by rewrite Hr.
  - destruct (Hr inp w) as [r ->]. by destruct Hs.
  - by destruct Hs.
  - by apply insert_job_stored.
  - apply update_job_stored; [done|apply status_kept].
  - apply update_job_stored; [done|apply requeue_kept].
  - by apply fetch_pending_stored.
  - unfold sql_requeue_stale. cbn. apply (stored_update_where w (requeueable _)); [done|].
    apply updated_kept, requeue_kept.
  - by apply mark_failed_stored.
  - by apply register_stored.
  - by apply upsert_stored.
  - by apply mark_unhealthy_stored.
  - by apply insert_dead_letter_stored.
  - by apply mark_replayed_stored.
  - by apply delete_dead_letter_stored.
Qed.
End kept.

(** ** The programs of the repository *)

Section programs.
Context `{E : Env} {X : Mux}.

(** The programs of [sched_process], with the runners that cmd/worker registers. *)
Inductive program : World → Prog unit → Prop :=
| pg_request w rc r : program w (discard (NewRouter rc r))
| pg_dispatcher w events : program w (dispatcher_Run events)
| pg_monitor w events : program w (monitor_Run events)
| pg_heartbeats w turns :
    program w (discard (Consumer_Run heartbeat_Handle turns nothing_consumed))
| pg_results w has_cache turns :
    program w (discard (Consumer_Run (HandleResult has_cache) turns nothing_consumed))
| pg_dead_letters w turns :
    program w (discard (Consumer_Run dead_letter_Handle turns nothing_consumed))
| pg_execute w wid job : program w (discard (execute (R := kafka_ReportResult wid) runners job))
| pg_heartbeat w wid host cpu mem n : program w (discard (SendHeartbeat wid host cpu mem n)).

Lemma program_sched w p : program w p → sched_process w p.
Proof. intros []; constructor. apply runners_are_safe. Qed.

Lemma program_within w p : program w p → within p.
Proof.
  intros []; try apply within_discard.
  - apply NewRouter_within.
  - apply dispatcher_Run_within.
  - apply monitor_Run_within.
  - apply Consumer_Run_within, heartbeat_Handle_within.
  - apply Consumer_Run_within. intros. apply HandleResult_within.
  - apply Consumer_Run_within, dead_letter_Handle_within.
  - apply execute_within.
  - apply SendHeartbeat_within.
Qed.

Context `{!OrderByLaws, !JsonbLaws, !TextLaws}.

(** C6: the tables keep the schema that the migrations leave: in every interleaving of the
    program's requests, ticks, consumers, executions and heartbeats, with any failures and any
    messages, every row has the columns of its table, each with a value of the column's type
    and within its range (the labels of the enumerations, SMALLINT, INTEGER, NUMERIC(5,2),
    JSON, encoded text), NULL only where it is allowed; the primary keys are unique; and the
    worker of a job is a row of workers. *)
Theorem schema_kept w0 ps w :
  Inv w0 → integrity schema (db_of w0) → pool_steps program ([], w0) (ps, w) →
  integrity schema (db_of w).
Proof.
  intros HI Hi Hsteps. apply stored_integrity.
  refine (proj2 (pool_steps_safe stored (λ _ _, True) program _ _ _ Hsteps _ _)).
  - by intros w1.
  - intros w1 p _ Hp. apply within_safe; [..|by eapply program_within].
    + intros B f inp w2. apply statement_stored.
    + by intros m w2 [].
  - apply Forall_nil_2.
  - by apply integrity_stored.
Qed.
End programs.

(** ** What the schema adds *)

Section additions.
Context `{E : Env}.
Implicit Types (w : World) (inp : Input).

(** The trigger of jobs sets updated_at; no other table has one. *)
Lemma fire_jobs now r :
  fire_triggers schema "jobs" now r = set_cell "updated_at" (Some (VTimestamptz now)) r.
Proof. vm_compute. reflexivity. Qed.

Lemma fire_letters now r : fire_triggers schema "dead_letters" now r = r.
Proof. vm_compute. reflexivity. Qed.

Lemma fire_workers now r : fire_triggers schema "workers" now r = r.
Proof. vm_compute. reflexivity. Qed.

(** A dead letter is selected with its creation last, and stored with the columns of the third
    migration last. *)
Lemma dead_letter_order now u (d : DeadLetter) doc :
  dead_letter_columns (mkDeadLetter u (dl_JobID d) (dl_WorkerID d) (dl_JobType d) (Some doc)
    (dl_Attempts d) (dl_Error d) "OPEN" None None now) ≡ₚ
  insert_row schema "dead_letters" now u
    [("job_id", Some (VUuid (dl_JobID d))); ("worker_id", VUuid <$> dl_WorkerID d);
     ("job_type", Some (VText (dl_JobType d))); ("payload", Some (VJsonb doc));
     ("attempts", Some (VInteger (dl_Attempts d))); ("error", Some (VText (dl_Error d)))].
Proof.
  set (cs := dead_letter_columns _).
  transitivity (take 7 cs ++ drop 10 cs ++ take 3 (drop 7 cs)).
  - rewrite <- (take_drop 7 cs) at 1. apply Permutation_app_head.
    rewrite <- (take_drop 3 (drop 7 cs)) at 1. rewrite drop_drop. apply Permutation_app_comm.
  - apply Permutation_refl'. reflexivity.
Qed.

(** The tables after an UPDATE. *)
Definition jobs_updated now (selected : uuid → Job → bool) (sets : Job → Row) w w' : Prop :=
  table_updated job_columns schema "jobs" now selected sets (w_jobs w) (w_jobs w').
Definition workers_updated now (selected : uuid → Worker → bool) (sets : Worker → Row) w w' : Prop :=
  table_updated worker_columns schema "workers" now selected sets (w_workers w) (w_workers w').
Definition letters_updated now (selected : uuid → DeadLetter → bool) (sets : DeadLetter → Row) w w'
    : Prop :=
  table_updated dead_letter_columns schema "dead_letters" now selected sets (w_dead w) (w_dead w').

(** Cells of a SET list. *)
Definition status_cell (s : string) : string * Cell := ("status", Some (VEnum "job_status" s)).
Definition worker_status_cell (s : string) : string * Cell :=
  ("status", Some (VEnum "worker_status" s)).

(** An update of one row by its key, and of every row with a condition. *)
Lemma update_id_updated {A} (columns : A → Row) t now id p (f : A → A) sets m :
  (∀ r, columns (f r) = update_row schema t now (sets r) (columns r)) →
  table_updated columns schema t now (λ k r, bool_decide (k = id) && p r) sets m
    (update_id id p f m).1.
Proof.
  intros Hf k. rewrite lookup_update_id. case_decide as Hk.
  - subst k. destruct (m !! id) as [r|]; [|done]. cbn. rewrite bool_decide_true by done. cbn.
    destruct (p r); [|done]. by rewrite Hf.
  - rewrite bool_decide_false by done. cbn. by destruct (m !! k).
Qed.

Lemma update_where_updated {A} (columns : A → Row) t now p (f : A → A) sets m :
  (∀ r, columns (f r) = update_row schema t now (sets r) (columns r)) →
  table_updated columns schema t now (λ _, p) sets m (update_where p f m).1.
Proof.
  intros Hf k. rewrite lookup_update_where. destruct (m !! k) as [r|]; [|done]. cbn.
  destruct (p r); [|done]. by rewrite Hf.
Qed.

(** The row that a SET of jobs leaves, the trigger included. *)
Lemma updated_columns now (f : Job → Job) sets j :
  job_columns (f j) = set_cells sets (job_columns j) →
  job_columns (set_updated_at now f j) = update_row schema "jobs" now sets (job_columns j).
Proof. intros Hf. unfold update_row. by rewrite fire_jobs, <- Hf. Qed.

Lemma table_updated_ext {A} (columns : A → Row) c t now p q sets m m' :
  (∀ k r, p k r = q k r) →
  table_updated columns c t now p sets m m' → table_updated columns c t now q sets m m'.
Proof.
  intros Hpq Hu k. rewrite (Hu k). destruct (m !! k) as [r|]; [|done]. cbn. by rewrite Hpq.
Qed.

Lemma sql_update_job_updated id p f sets inp w :
  (∀ j, job_columns (f j) = set_cells (sets j) (job_columns j)) →
  jobs_updated (in_now inp) (λ k j, bool_decide (k = id) && p j) sets w
    (sql_update_job id p f inp w).2.
Proof.
  intros Hf. unfold jobs_updated, sql_update_job.
  pose proof (update_id_updated job_columns "jobs" (in_now inp) id p _ sets (w_jobs w)
    (λ j, updated_columns (in_now inp) f _ j (Hf j))) as Hu.
  by destruct (update_id _ _ _ _).
Qed.

Lemma sql_mark_failed_updated id n inp w :
  jobs_updated (in_now inp) (λ k _, bool_decide (k = id))
    (λ j, [status_cell (if n <=? job_Attempts j then "DEAD" else "RETRYING")]) w
    (sql_mark_failed id n inp w).2.
Proof.
  intros k. unfold sql_mark_failed. destruct (w_jobs w !! id) as [j|] eqn:Hj; cbn [snd w_jobs set_jobs].
  - destruct (decide (k = id)) as [->|Hne].
    + rewrite lookup_insert_eq, Hj. cbn [fmap option_fmap option_map]. rewrite bool_decide_true by done.
      f_equal. apply updated_columns. unfold failed_status. by destruct (n <=? job_Attempts j).
    + rewrite lookup_insert_ne by done. rewrite bool_decide_false by done. by destruct (w_jobs w !! k).
  - destruct (decide (k = id)) as [->|Hne]; [by rewrite Hj|].
    rewrite bool_decide_false by done. by destruct (w_jobs w !! k).
Qed.

Lemma UpsertHeartbeat_columns id host cpu mem n inp w w' :
  in_outcome inp = Done → run (UpsertHeartbeat id host cpu mem n) [inp] w = (Ok tt, w') →
  ∃ c m row, numeric_5_2 cpu = Some c ∧ numeric_5_2 mem = Some m ∧
    w_workers w' = <[id := row]> (w_workers w) ∧
    match w_workers w !! id with
    | None =>
        worker_columns row ≡ₚ insert_row schema "workers" (in_now inp) (in_uuid inp)
          [("id", Some (VUuid id)); ("host", Some (VText host)); worker_status_cell "IDLE";
           ("cpu", Some (VNumeric c)); ("memory", Some (VNumeric m));
           ("running_jobs", Some (VInteger n)); ("last_heartbeat", Some (VTimestamptz (in_now inp)))]
    | Some x =>
        worker_columns row = update_row schema "workers" (in_now inp)
          [("host", Some (VText host)); ("cpu", Some (VNumeric c)); ("memory", Some (VNumeric m));
           ("running_jobs", Some (VInteger n)); ("last_heartbeat", Some (VTimestamptz (in_now inp)));
           worker_status_cell
             (if bool_decide (worker_Status x = WorkerStatusOffline) ||
                 bool_decide (worker_Status x = WorkerStatusUnhealty)
              then "IDLE" else WorkerStatus_string (worker_Status x))]
          (worker_columns x)
    end.
Proof.
  intros Hd. unfold UpsertHeartbeat. rewrite run_method by done. unfold sql_upsert_heartbeat.
  destruct (negb _); [done|]. destruct (numeric_5_2 cpu) as [c|]; [|done].
  destruct (numeric_5_2 mem) as [m|]; [|done]. destruct (int32_ok n); [|done].
  intros [= <-]. eexists c, m, _. split_and!; [done|done|reflexivity|].
  destruct (w_workers w !! id) as [x|]; [|reflexivity].
  unfold update_row. rewrite fire_workers. by destruct x as [? ? [] ? ? ? ? ?].
Qed.

Lemma FetchPending_updated `{!OrderByLaws} wid n js inp w w' :
  in_outcome inp = Done → run (FetchPending wid n) [inp] w = (Ok js, w') →
  jobs_updated (in_now inp) (λ _ j, bool_decide (job_ID j ∈ job_ID <$> js))
    (λ j, [status_cell "RUNNING"; ("worker_id", Some (VUuid wid));
           ("attempts", Some (VInteger (job_Attempts j + 1)))]) w w'.
Proof.
  intros Hd. unfold FetchPending. rewrite run_method by done. unfold sql_fetch_pending.
  destruct (n <? 0); [done|]. destruct (negb _); [done|]. destruct (_ && _); [done|].
  cbn [fst snd wrap_result result_bind]. rewrite (scan_rows_id scanJob _ scanJob_id).
  set (ps := picked _ _ _). intros [= <- <-].
  assert (Hids : job_ID <$> order_by (λ _ _, true) (set_updated_at (in_now inp) (dispatch_row wid) <$> ps)
            ≡ₚ job_ID <$> ps).
  { rewrite (fmap_Permutation job_ID _ _ (order_by_Permutation _ _)).
    by rewrite <- list_fmap_compose. }
  eapply table_updated_ext; [|apply update_where_updated].
  - intros k j. apply bool_decide_ext. by rewrite Hids.
  - intros j. by apply updated_columns.
Qed.

(** C31: the repositories' methods do to the tables what the schema makes of their statements. An
    INSERT that is answered leaves one new row: the given columns with the table's defaults for
    the rest - a new job is QUEUED work without attempts and worker, a registered worker has no
    load yet, a dead letter is OPEN and not replayed. An UPDATE leaves every row that its WHERE
    does not select as it was, and in a selected row changes the columns that it sets and, on
    jobs only, updated_at, to the time of the statement, by the trigger: so cancelling,
    dispatching, requeueing, completing, failing and rolling back a job, the heartbeat of a
    known worker, marking workers unhealthy and marking a dead letter replayed. *)
Theorem statements_follow_schema `{!OrderByLaws} inp w :
  in_outcome inp = Done →
  (∀ j row w', run (Create j) [inp] w = (Ok row, w') →
     ∃ p doc, job_Payload j = Some p ∧ jsonb p = Some doc ∧
       w_jobs w !! job_ID j = None ∧ w_jobs w' = <[job_ID j := row]> (w_jobs w) ∧
       job_columns row ≡ₚ insert_row schema "jobs" (in_now inp) (in_uuid inp)
         [("id", Some (VUuid (job_ID j))); status_cell "QUEUED";
          ("type", Some (VText (job_Type j))); ("payload", Some (VJsonb doc));
          ("priority", Some (VSmallint (job_Priority j)))]) ∧
  (∀ host row w', run (Register host) [inp] w = (Ok row, w') →
     w_workers w !! in_uuid inp = None ∧ w_workers w' = <[in_uuid inp := row]> (w_workers w) ∧
     worker_columns row ≡ₚ insert_row schema "workers" (in_now inp) (in_uuid inp)
       [("host", Some (VText host)); worker_status_cell "IDLE";
        ("running_jobs", Some (VInteger 0)); ("last_heartbeat", Some (VTimestamptz (in_now inp)))]) ∧
  (∀ d w', run (Insert d) [inp] w = (Ok tt, w') →
     ∃ p doc row, dl_Payload d = Some p ∧ jsonb p = Some doc ∧
       w_dead w !! in_uuid inp = None ∧ w_dead w' = <[in_uuid inp := row]> (w_dead w) ∧
       dead_letter_columns row ≡ₚ insert_row schema "dead_letters" (in_now inp) (in_uuid inp)
         [("job_id", Some (VUuid (dl_JobID d))); ("worker_id", VUuid <$> dl_WorkerID d);
          ("job_type", Some (VText (dl_JobType d))); ("payload", Some (VJsonb doc));
          ("attempts", Some (VInteger (dl_Attempts d))); ("error", Some (VText (dl_Error d)))]) ∧
  (∀ id host cpu mem n w', run (UpsertHeartbeat id host cpu mem n) [inp] w = (Ok tt, w') →
     ∃ c m row, numeric_5_2 cpu = Some c ∧ numeric_5_2 mem = Some m ∧
       w_workers w' = <[id := row]> (w_workers w) ∧
       match w_workers w !! id with
       | None =>
           worker_columns row ≡ₚ insert_row schema "workers" (in_now inp) (in_uuid inp)
             [("id", Some (VUuid id)); ("host", Some (VText host)); worker_status_cell "IDLE";
              ("cpu", Some (VNumeric c)); ("memory", Some (VNumeric m));
              ("running_jobs", Some (VInteger n));
              ("last_heartbeat", Some (VTimestamptz (in_now inp)))]
       | Some x =>
           worker_columns row = update_row schema "workers" (in_now inp)
             [("host", Some (VText host)); ("cpu", Some (VNumeric c)); ("memory", Some (VNumeric m));
              ("running_jobs", Some (VInteger n));
              ("last_heartbeat", Some (VTimestamptz (in_now inp)));
              worker_status_cell
                (if bool_decide (worker_Status x = WorkerStatusOffline) ||
                    bool_decide (worker_Status x = WorkerStatusUnhealty)
                 then "IDLE" else WorkerStatus_string (worker_Status x))]
             (worker_columns x)
       end) ∧
  (∀ id, jobs_updated (in_now inp) (λ k j, bool_decide (k = id) && cancellable j)
     (λ _, [status_cell "DEAD"]) w (run (Cancel id) [inp] w).2) ∧
  (∀ wid n js w', run (FetchPending wid n) [inp] w = (Ok js, w') →
     jobs_updated (in_now inp) (λ _ j, bool_decide (job_ID j ∈ job_ID <$> js))
       (λ j, [status_cell "RUNNING"; ("worker_id", Some (VUuid wid));
              ("attempts", Some (VInteger (job_Attempts j + 1)))]) w w') ∧
  (∀ n, jobs_updated (in_now inp)
     (λ _, requeueable (stale_workers (in_now inp) n (w_workers w)))
     (λ _, [status_cell "QUEUED"; ("worker_id", None)]) w (run (RequeueStale n) [inp] w).2) ∧
  (∀ id, jobs_updated (in_now inp) (λ k _, bool_decide (k = id))
     (λ _, [status_cell "COMPLETED"]) w (run (MarkCompleted id) [inp] w).2) ∧
  (∀ id n, jobs_updated (in_now inp) (λ k _, bool_decide (k = id))
     (λ j, [status_cell (if n <=? job_Attempts j then "DEAD" else "RETRYING")])
     w (run (MarkFailed id n) [inp] w).2) ∧
  (∀ id, jobs_updated (in_now inp)
     (λ k j, bool_decide (k = id) && bool_decide (job_Status j = JobStatusRunning))
     (λ _, [status_cell "QUEUED"; ("worker_id", None)]) w (run (RollbackToQueued id) [inp] w).2) ∧
  (∀ n, workers_updated (in_now inp) (λ _, silent (in_now inp) n)
     (λ _, [worker_status_cell "UNHEALTHY"]) w (run (MarkUnhealthy n) [inp] w).2) ∧
  (∀ id jid, letters_updated (in_now inp) (λ k _, bool_decide (k = id))
     (λ _, [("status", Some (VText "REPLAYED"));
            ("replayed_at", Some (VTimestamptz (in_now inp)));
            ("replayed_job_id", Some (VUuid jid))]) w (run (MarkReplayed id jid) [inp] w).2).
Proof.
  intros Hd. split_and!.
  - intros j row w'. unfold Create. rewrite run_method by done. scanned. unfold sql_insert_job.
    destruct (job_Payload j) as [p|]; [|done]. destruct (negb _); [done|].
    destruct (jsonb p) as [doc|] eqn:Hdoc; [|done].
    destruct (w_jobs w !! job_ID j) eqn:Hnew; [done|]. intros [= <- <-]. exists p, doc.
    split_and!; [done..|]. reflexivity.
  - intros host row w'. unfold Register. rewrite run_method by done. scanned. unfold sql_register.
    destruct (negb _); [done|]. destruct (w_workers w !! in_uuid inp) eqn:Hnew; [done|].
    intros [= <- <-]. split_and!; [done..|]. reflexivity.
  - intros d w'. unfold Insert. rewrite run_method by done. unfold sql_insert_dead_letter.
    destruct (dl_Payload d) as [p|]; [|done].
    destruct (negb (_ && _)); [done|]. destruct (negb _); [done|].
    destruct (jsonb p) as [doc|] eqn:Hdoc; [|done].
    destruct (w_dead w !! in_uuid inp) eqn:Hnew; [done|]. intros [= <-]. eexists p, doc, _.
    split_and!; [done..|]. apply dead_letter_order.
  - intros id host cpu mem n w'. by apply UpsertHeartbeat_columns.
  - intros id. unfold Cancel. rewrite run_method by done. apply sql_update_job_updated.
    intros j. reflexivity.
  - intros wid n js w'. by apply FetchPending_updated.
  - intros n. unfold RequeueStale. rewrite run_method by done. unfold jobs_updated, sql_requeue_stale.
    apply update_where_updated. intros j. by apply updated_columns.
  - intros id. unfold MarkCompleted, setStatus. rewrite run_method by done.
    eapply table_updated_ext; [|by apply sql_update_job_updated]. intros k j. apply andb_true_r.
  - intros id n. unfold MarkFailed. rewrite run_method by done. apply sql_mark_failed_updated.
  - intros id. unfold RollbackToQueued. rewrite run_method by done. by apply sql_update_job_updated.
  - intros n. unfold MarkUnhealthy. rewrite run_method by done.
    unfold workers_updated, sql_mark_unhealthy. apply update_where_updated. intros x.
    unfold update_row. by rewrite fire_workers.
  - intros id jid. unfold MarkReplayed. rewrite run_method by done.
    unfold letters_updated, sql_mark_replayed.
    pose proof (update_id_updated dead_letter_columns "dead_letters" (in_now inp) id (λ _, true)
      (replayed_row (in_now inp) jid)
      (λ _, [("status", Some (VText "REPLAYED"));
             ("replayed_at", Some (VTimestamptz (in_now inp)));
             ("replayed_job_id", Some (VUuid jid))]) (w_dead w)) as Hu.
    destruct (update_id _ _ _ _). eapply table_updated_ext; [|apply Hu].
    + intros k d. apply andb_true_r.
    + intros d. unfold update_row. by rewrite fire_letters.
Qed.
End additions.
