(* ===== verification/Provenance.v ===== *)
(** * Where the messages and the dead letters come from

    The system when Kafka delivers what was written: a consumer's turn delivers messages of its
    topic, a worker executes jobs that it read from the topic jobs. Then every message has its
    topic's type and speaks of a job of the table, with that job's type, payload and attempts;
    and so does every dead letter. *)

From S2P Require Import Prelude GoStd Decimal Models GoTime Json JsonFacts Compact World Growing.
From S2P Require Import MemEnv Sql Columns Lifecycle JobsRepo JobsSpec WorkersRepo DeadLettersRepo Broker.
From S2P Require Import BrokerSpec Dispatcher Monitor Cache CacheSpec Collector Http JobHandler.
From S2P Require Import OtherHandlers Router Worker WorkerSpec Quiet System.

(** ** The delivering system *)

Section system.
Context `{E : Env} {X : Mux}.

(** A turn of a consumer of [topic] delivers a message of the topic, if it delivers one. *)
Definition delivers (w : World) (topic : string) (t : Turn) : Prop :=
  ∀ m, tn_fetch t = Ok m → m ∈ w_log w ∧ km_topic m = topic.

(** The processes of [sched_process], with consumers that take one turn at a time, each with a
    message that is on the topic when the turn begins; a consumer's loop is such turns in
    sequence ([Consumer_Run_turns]). *)
Inductive kafka_process : World → Prog unit → Prop :=
| kp_request w rc r : kafka_process w (discard (NewRouter rc r))
| kp_dispatcher w events : kafka_process w (dispatcher_Run events)
| kp_monitor w events : kafka_process w (monitor_Run events)
| kp_heartbeats w t :
    delivers w TopicHeartbeats t →
    kafka_process w (discard (Consumer_Run heartbeat_Handle [t] nothing_consumed))
| kp_results w has_cache t :
    delivers w TopicResults t →
    kafka_process w (discard (Consumer_Run (HandleResult has_cache) [t] nothing_consumed))
| kp_dead_letters w t :
    delivers w TopicDeadLetter t →
    kafka_process w (discard (Consumer_Run dead_letter_Handle [t] nothing_consumed))
| kp_execute w wid rs m job :
    runners_safe rs → runners_quiet rs →
    m ∈ w_log w → km_topic m = TopicJobs → kafka_handle wid (km_value m) = Deliver job →
    kafka_process w (discard (execute (R := kafka_ReportResult wid) rs job))
| kp_heartbeat w wid host cpu mem n :
    int64_ok n = true → kafka_process w (discard (SendHeartbeat wid host cpu mem n)).

Definition kafka_reaches (w0 w : World) : Prop :=
  ∃ ps, pool_steps kafka_process ([], w0) (ps, w).

(** These executions are executions of the system of System.v. *)
Lemma kafka_process_sched w p : kafka_process w p → sched_process w p.
Proof. intros []; by constructor. Qed.

(** A consumer's loop: one turn, then, unless that returned, the rest of the loop. *)
Lemma Consumer_Run_turns handler t ts cs ins w :
  run (Consumer_Run handler (t :: ts) cs) ins w =
  run (let! r := Consumer_Run handler [t] cs in
       match r.1 with Waiting => Consumer_Run handler ts r.2 | Returned _ => Ret r end) ins w.
Proof.
  rewrite run_bind. cbn. destruct (tn_fetch t) as [msg|e].
  - rewrite !run_bind, run_rest_bind. destruct (run (handler _ _) ins w) as [[[]|e] w1]; [cbn|done].
    destruct (tn_commit t) as [[]|e]; [done|].
    destruct (isTemporary e); [|done]. by destruct (tn_interrupted t).
  - destruct (ctx_ended e); [done|]. destruct (isTemporary e); [|done].
    by destruct (tn_interrupted t).
Qed.
End system.

(** ** What messages say *)

Section messages.
Context `{E : Env}.
Implicit Types w : World.

(** The job [id] is in the table with this type and, up to the compaction that a trip through
    JSON does, this payload; it has been handed out at least [n] times, and [n] is not 0. *)
Definition describes w (id : uuid) (t : string) (p : RawMessage) (n : Z) : Prop :=
  ∃ j, w_jobs w !! id = Some j ∧ t = job_Type j ∧ p = carried (job_Payload j) ∧
       1 ≤ n ≤ job_Attempts j.

(** A message is well-typed for its topic, and speaks of a job and a worker of the tables. *)
Inductive message_ok w (m : KafkaMessage) : Prop :=
| ok_job jm :
    km_topic m = TopicJobs → Decode (km_value m) = Ok jm →
    km_key m = uuid_String (jm_WorkerID jm) → is_Some (w_workers w !! jm_WorkerID jm) →
    describes w (jm_JobID jm) (jm_Type jm) (jm_Payload jm) (jm_Attempts jm) →
    message_ok w m
| ok_result rm :
    km_topic m = TopicResults ∨ km_topic m = TopicDeadLetter ∧ rm_Success rm = false →
    Decode (km_value m) = Ok rm → km_key m = uuid_String (rm_JobID rm) →
    is_Some (w_workers w !! rm_WorkerID rm) →
    describes w (rm_JobID rm) (rm_JobType rm) (rm_Payload rm) (rm_Attempts rm) →
    message_ok w m
| ok_heartbeat hm :
    km_topic m = TopicHeartbeats → Decode (km_value m) = Ok hm →
    km_key m = uuid_String (hm_WorkerID hm) → message_ok w m.

(** A dead letter holds the job's type, and the job's payload as jsonb stores its compact
    form. *)
Definition letter_ok w (d : DeadLetter) : Prop :=
  ∃ j s, w_jobs w !! dl_JobID d = Some j ∧ dl_JobType d = job_Type j ∧
         carried (job_Payload j) = Some s ∧ dl_Payload d = jsonb s ∧
         1 ≤ dl_Attempts d ≤ job_Attempts j ∧
         ∃ wid, dl_WorkerID d = Some wid ∧ is_Some (w_workers w !! wid).

(** The tables are well-formed, every row can be sent, and every message and every dead letter
    is of a job. *)
Record Known w : Prop := {
  kn_inv : Inv w;
  kn_typed : ∀ id j, w_jobs w !! id = Some j → typed_row j;
  kn_log : Forall (message_ok w) (w_log w);
  kn_dead : ∀ id d, w_dead w !! id = Some d → letter_ok w d;
}.

(** ** Stability *)

Lemma describes_later w w' id t p n :
  world_later w w' → describes w id t p n → describes w' id t p n.
Proof.
  intros (Hj & _) (j & Hid & -> & -> & Hn).
  destruct (Hj id j Hid) as (j' & Hid' & (_ & Ht & Hp & _) & Ha).
  exists j'. rewrite Ht, Hp. split_and!; [done..|lia|lia].
Qed.

Lemma message_ok_later m : stable world_later (λ w, message_ok w m).
Proof.
  intros w w' Hl. pose proof (proj1 (proj2 Hl)) as Hw.
  intros [jm|rm|hm]; [eapply ok_job|eapply ok_result|by eapply ok_heartbeat];
    eauto using describes_later.
Qed.

Lemma letter_ok_later d : stable world_later (λ w, letter_ok w d).
Proof.
  intros w w' (Hj & Hw & _) (j & s & Hid & Ht & Hs & Hp & Hn & wid & Hwid & Hx).
  destruct (Hj _ j Hid) as (j' & Hid' & (_ & Ht' & Hp' & _) & Ha).
  exists j', s. rewrite Ht', Hp'. split_and!; [done..|lia|lia|]. exists wid. auto.
Qed.

(** A quiet step of the machines keeps everything known. *)
Lemma quiet_known w w' :
  Known w → Inv w' → world_step w w' ∧ quiet w w' → Known w' ∧ world_later w w'.
Proof.
  intros [HI HT HL HD] HI' [Hs (Hlog & Hnew & Hdead)].
  pose proof (world_step_later _ _ Hs) as Hl. split; [|done]. split; [done|..].
  - intros id j Hj. destruct (w_jobs w !! id) as [j0|] eqn:Hj0; [|by eapply Hnew].
    destruct (proj1 Hl id j0 Hj0) as (j' & Hj' & (_ & Ht & _ & Hp & _) & _).
    simplify_eq. unfold typed_row. rewrite Ht, Hp. by eapply HT.
  - rewrite Hlog. eapply Forall_impl; [done|]. intros m Hm. by eapply message_ok_later.
  - intros id d Hd. destruct Hs as (_ & Hs & _). specialize (Hs id).
    destruct (w_dead w !! id) as [d0|] eqn:Hd0; [|by rewrite (Hdead id Hd0) in Hd].
    rewrite Hd in Hs. assert (dl_same_identity d0 d) as Hid.
    { inversion Hs; subst; [by repeat split|done]. }
    destruct Hid as (_ & H1 & H2 & H3 & H4 & H5 & _).
    destruct (letter_ok_later d0 w w' Hl (HD id d0 Hd0)) as (j & s & Hok).
    exists j, s. by rewrite H1, H2, H3, H4, H5.
Qed.

(** A message that is right when it is written. *)
Lemma write_known w topic key value :
  Known w → message_ok w (mkKafkaMessage topic key value) →
  let w' := set_log (w_log w ++ [mkKafkaMessage topic key value]) w in
  Known w' ∧ world_later w w'.
Proof.
  intros [HI HT HL HD] Hm w'.
  assert (Inv w' ∧ world_step w w') as [HI' Hs]
    by (apply frame_safe; [done..|by eexists]).
  pose proof (world_step_later _ _ Hs) as Hl. split; [|done]. split; [done|done|..].
  - apply Forall_app. split; [|repeat constructor; by eapply message_ok_later].
    eapply Forall_impl; [done|]. intros m0 Hm0. by eapply message_ok_later.
  - intros id d Hd. by eapply letter_ok_later, HD.
Qed.
End messages.

(** ** The programs *)

Section programs.
Context `{E : Env} {X : Mux} `{!OrderByLaws, !JsonbLaws, !UuidLaws, !TextLaws}.
Implicit Types w : World.

(** [p] may run from [w]. *)
Definition runs_from {A} (p : Prog A) (w : World) : Prop :=
  prog_from Known world_later p (λ _ _, True) w.

(** Programs that are safe and quiet need no more. *)
Lemma quiet_from {A} (p : Prog A) (Q : A → Prop) w :
  prog_spec Inv world_step p Q → prog_quiet p → prog_from Known world_later p (λ _, Q) w.
Proof.
  intros Hs Hq. apply prog_from_mono with (Q := λ _ a, Q a ∧ True); [apply _| |by intros ?? _ [? _]].
  eapply (prog_from_spec Known world_later); [| |by apply (prog_spec_both Inv world_step (λ _, True) quiet)].
  - intros w1 []. by split.
  - intros w1 w2 HK [HI' _]. by apply quiet_known.
Qed.

Lemma quiet_runs {A} (p : Prog A) w :
  prog_safe Inv world_step p → prog_quiet p → runs_from p w.
Proof. by apply quiet_from. Qed.

Lemma runs_bind {A B} (p : Prog A) (q : A → Prog B) w :
  runs_from p w → (∀ w' a, world_later w w' → runs_from (q a) w') → runs_from (bind p q) w.
Proof. intros Hp Hq. eapply (prog_from_bind _ _ p q); [apply Hp|]. intros w' a Hl _. by apply Hq. Qed.

Lemma runs_discard {A} (p : Prog A) w : runs_from p w → runs_from (discard p) w.
Proof. intros Hp. by apply runs_bind. Qed.

(** Publishing a message that is right when it is written. *)
Lemma Publish_runs {T} `{Json T} topic key (v : T) w :
  (∀ w1 body, world_later w w1 → Known w1 → json_Marshal v = Ok body →
     message_ok w1 (mkKafkaMessage topic key body)) →
  runs_from (Publish topic key v) w.
Proof.
  intros Hm. unfold Publish. case_bool_decide; [|done].
  destruct (json_Marshal v) as [body|e]; [|done]. apply prog_from_call; [apply _| |done].
  intros inp w1 Hl HK. cbn. destruct (write_known w1 topic key body HK) as [? ?]; [|by split_and!].
  by apply Hm.
Qed.

(** ** The dispatcher *)

(** What the dispatcher knows of a job it was given for the worker [wid]. *)
Definition handed_out (wid : uuid) (j : Job) w : Prop :=
  is_Some (w_workers w !! wid) ∧ typed_row j ∧ json_text (job_Payload j) ∧
  int32_ok (job_Attempts j) = true ∧
  ∃ j', w_jobs w !! job_ID j = Some j' ∧ job_later j j' ∧ 1 ≤ job_Attempts j.

Lemma handed_out_later wid j : stable world_later (handed_out wid j).
Proof.
  intros w w' (Hj & Hw & _) (Hx & Ht & Hp & Ha & j' & Hid & Hlater & Hn). split_and!; [auto..|].
  destruct (Hj _ _ Hid) as (j2 & Hid2 & Hl2). exists j2. split_and!; [done| |done].
  by eapply job_later_trans.
Qed.

(** FetchPending hands out jobs of the table, to a registered worker. *)
Lemma FetchPending_known wid limit w :
  prog_from Known world_later (FetchPending wid limit)
    (λ w' r, ∀ js, r = Ok js → Forall (λ j, handed_out wid j w') js) w.
Proof.
  apply (prog_from_bind _ _ _ _ (λ w' r, ∀ js, r = Ok js → Forall (λ j, handed_out wid j w') js)).
  2: { intros w' r _ Hr. cbn. scanned. destruct r as [js|e]; [|done].
       intros js' [= <-]. by apply Hr. }
  apply prog_from_call; [apply _| |done]. intros inp w1 _ HK.
  destruct (sql_fetch_pending_safe wid limit inp w1 (kn_inv _ HK)) as (HI & Hs & _).
  pose proof (sql_fetch_pending_quiet wid limit inp w1) as Hq.
  destruct (quiet_known w1 _ HK HI (conj Hs Hq)) as [HK' Hl]. split_and!; [done..|].
  revert HK' Hl. unfold sql_fetch_pending. destruct (limit <? 0); [done|].
  set (ps := picked _ _ _). set (f := set_updated_at _ _).
  destruct (forallb _ ps) eqn:Hov; [|done]. destruct (negb _ && _) eqn:Hfk; [done|].
  cbn [fst snd negb]. intros HK' Hl js [= <-]. apply Forall_forall.
  intros j (j0 & -> & Hj0)%elem_of_order_by%list_elem_of_fmap.
  pose proof (inv_jobs _ (kn_inv _ HK)) as HJ.
  destruct (elem_of_picked w1 _ _ _ HJ Hj0) as (Hk & _ & _).
  set (t := (update_where _ f (w_jobs w1)).1) in *.
  assert (Ht : t !! job_ID j0 = Some (f j0)).
  { unfold t. cbn. rewrite lookup_fmap, Hk. cbn.
    rewrite bool_decide_true; [done|]. apply list_elem_of_fmap. by exists j0. }
  assert (Hwid : is_Some (w_workers w1 !! wid)).
  { destruct (w_workers w1 !! wid) eqn:Hw; [done|]. exfalso.
    apply andb_false_iff in Hfk as [Hfk|Hfk]; to_prop; [|done].
    fold ps in Hj0. rewrite Hfk in Hj0. by apply elem_of_nil in Hj0. }
  rewrite forallb_forall in Hov. destruct (HJ _ _ Hk).
  split_and!; [done|exact (kn_typed _ HK _ _ Hk)|done|by apply Hov, list_elem_of_In|].
  exists (f j0). split_and!; [done|apply job_later_refl|]. cbn. lia.
Qed.

Lemma assignment_ok wid j w key body :
  handed_out wid j w → key = uuid_String wid → json_Marshal (assignment wid j) = Ok body →
  message_ok w (mkKafkaMessage TopicJobs key body).
Proof.
  intros (Hw & [Ht Hp] & Hjson & Ha & j' & Hj & Hlater & Hn) -> Hb.
  destruct Hlater as [(_ & Ht' & Hp' & _) Hle].
  assert (Ha' : int64_ok (job_Attempts j) = true).
  { revert Ha. unfold int32_ok, int64_ok, in_range. rewrite !andb_true_iff, !Z.leb_le. lia. }
  pose proof (JobMessage_decode (assignment wid j) body Ht Hp Ha' Hb) as Hd.
  eapply ok_job; [done|exact Hd|done|done|]. exists j'. cbn.
  split_and!; [done|done|by rewrite Hp'|lia|lia].
Qed.

Lemma publish_assigned_runs x j w :
  handed_out (worker_ID x) j w → runs_from (publish_assigned x j) w.
Proof.
  intros Hj. apply runs_bind.
  - apply Publish_runs. intros w1 body Hl _. apply assignment_ok; [|done].
    by eapply handed_out_later.
  - intros w' [u|e] _; [done|]. apply runs_bind; [|done].
    apply quiet_runs; [apply RollbackToQueued_safe|apply RollbackToQueued_quiet].
Qed.

Lemma dispatcher_tick_runs w : runs_from dispatcher_tick w.
Proof.
  apply runs_bind.
  { apply quiet_runs; [|apply FetchHealthy_quiet]. eapply prog_spec_mono; [apply FetchHealthy_safe|done]. }
  intros w1 [[|x xs]|e] _; [done| |done]. apply runs_bind; [|done].
  apply (prog_from_for_fold _ _ (x :: xs) _ _ (λ _ _, True)); [by intros ????|by apply Forall_forall|].
  intros w2 n y _ _. unfold assign_to. destruct (_ <=? 0); [done|].
  eapply prog_from_bind; [apply _|apply FetchPending_known|].
  intros w3 [js|e] _ Hjs; [|done]. apply runs_bind; [|done].
  apply (prog_from_for_each _ _ js _ (λ j, handed_out (worker_ID y) j)).
  - intros j. apply handed_out_later.
  - by apply Hjs.
  - intros w4 j _ Hj. by apply publish_assigned_runs.
Qed.

Lemma dispatcher_Run_runs events w : runs_from (dispatcher_Run events) w.
Proof.
  revert w. induction events as [|[] es IH]; intros w; [done| |done].
  cbn [dispatcher_Run]. apply runs_bind; [apply dispatcher_tick_runs|]. intros w' _ _. apply IH.
Qed.

(** ** The worker *)

(** A job that a worker got from the topic. *)
Definition received wid (job : Job) w : Prop :=
  is_Some (w_workers w !! wid) ∧
  describes w (job_ID job) (job_Type job) (job_Payload job) (job_Attempts job).

Lemma received_later wid job : stable world_later (received wid job).
Proof. intros w w' Hl [Hw Hd]. split; [by apply Hl|by eapply describes_later]. Qed.

Lemma deliver_received w wid m job :
  Known w → m ∈ w_log w → km_topic m = TopicJobs →
  kafka_handle wid (km_value m) = Deliver job → received wid job w.
Proof.
  intros HK Hm Ht Hd. pose proof (proj1 (Forall_forall _ _) (kn_log _ HK) m Hm) as Hok.
  unfold kafka_handle in Hd.
  destruct Hok as [jm _ Hdec _ Hw Hdesc|rm [Ht'|[Ht' _]] _ _ _ _|hm Ht' _ _];
    [|by rewrite Ht in Ht'..].
  rewrite Hdec in Hd. case_bool_decide as Hwid; [|done]. injection Hd as <-. subst wid.
  by split.
Qed.

(** What is known of a job's numbers and texts. *)
Lemma describes_facts w id t p n :
  Known w → describes w id t p n →
  utf8_valid t = true ∧ json_text p ∧ carried p = p ∧ raw_is_empty p = false ∧
  int64_ok n = true.
Proof.
  intros HK (j & Hj & -> & -> & Hn). destruct (inv_jobs _ (kn_inv _ HK) _ _ Hj).
  pose proof (carried_json _ ok_payload) as Hc. split_and!.
  - by apply (kn_typed _ HK) in Hj as [? _].
  - done.
  - apply carried_idem.
  - destruct Hc as (s & -> & v & Hv). by destruct s.
  - revert ok_int32. unfold int32_ok, int64_ok, in_range.
    rewrite !andb_true_iff, !Z.leb_le. lia.
Qed.

Lemma ReportResult_runs wid job success errMsg w :
  received wid job w →
  runs_from (ReportResult (ResultReporter := kafka_ReportResult wid) job success errMsg) w.
Proof.
  intros Hr. apply runs_bind; [|done]. apply Publish_runs. intros w1 body Hl HK Hb.
  destruct (received_later wid job w w1 Hl Hr) as [Hw Hd].
  destruct (describes_facts _ _ _ _ _ HK Hd) as (Ht & _ & Hc & He & Ha).
  pose proof (ResultMessage_decode_any (result_of wid job success errMsg) body Ha Hb) as Hdec.
  unfold result_of in Hdec.
  cbn [rm_JobID rm_WorkerID rm_Success rm_Error rm_JobType rm_Payload rm_Attempts] in Hdec.
  rewrite He, Hc, (to_valid_id _ Ht) in Hdec.
  eapply ok_result; [by left|exact Hdec|done|done|done].
Qed.

Lemma execute_runs wid rs job w :
  runners_safe rs → runners_quiet rs → received wid job w →
  runs_from (execute (R := kafka_ReportResult wid) rs job) w.
Proof.
  intros Hs Hq Hr. unfold execute.
  assert (Hfail : ∀ w' msg, world_later w w' → runs_from
    (fail (R := kafka_ReportResult wid) job msg ;;! Ret (job_Type job, false)) w').
  { intros w' msg Hl. apply runs_bind; [|done]. apply runs_bind; [|done].
    apply ReportResult_runs. by eapply received_later. }
  destruct (rs !! job_Type job) as [r|] eqn:Hrs; [|by apply Hfail].
  apply runs_bind; [apply quiet_runs; [by eapply Hs|by eapply Hq]|].
  intros w' [u|e] Hl; [|by apply Hfail].
  apply runs_bind; [|by intros w2 [|] _].
  apply ReportResult_runs. by eapply received_later.
Qed.

Lemma SendHeartbeat_runs wid host cpu mem n w :
  int64_ok n = true → runs_from (SendHeartbeat wid host cpu mem n) w.
Proof.
  intros Hn. apply runs_bind.
  - apply quiet_runs; [|apply time_Now_quiet]. apply prog_safe_local. intros inp w1 HI.
    by split; [|apply world_step_refl].
  - intros w1 now _. apply Publish_runs. intros w2 body _ _ Hb.
    eapply ok_heartbeat; [done|by eapply HeartbeatMessage_decode|done].
Qed.

(** ** The consumers *)

Lemma consumer_turn_runs handler t w :
  (∀ m, tn_fetch t = Ok m → runs_from (handler (km_key m) (km_value m)) w) →
  runs_from (Consumer_Run handler [t] nothing_consumed) w.
Proof.
  intros Hh. cbn [Consumer_Run]. destruct (tn_fetch t) as [m|e].
  - apply runs_bind; [by apply Hh|]. intros w' [u|e] _; [|done].
    destruct (tn_commit t) as [[]|e]; [done|]. destruct (isTemporary e); [|done].
    by destruct (tn_interrupted t).
  - destruct (ctx_ended e); [done|]. destruct (isTemporary e); [|done].
    by destruct (tn_interrupted t).
Qed.

(** A result that was read, written again to the dead letters. *)
Lemma dead_letter_message rm body w :
  Known w → rm_Success rm = false → is_Some (w_workers w !! rm_WorkerID rm) →
  describes w (rm_JobID rm) (rm_JobType rm) (rm_Payload rm) (rm_Attempts rm) →
  json_Marshal rm = Ok body →
  message_ok w (mkKafkaMessage TopicDeadLetter (uuid_String (rm_JobID rm)) body).
Proof.
  intros HK Hf Hw Hd Hb. destruct (describes_facts _ _ _ _ _ HK Hd) as (Ht & _ & Hc & He & Ha).
  pose proof (ResultMessage_decode_any rm body Ha Hb) as Hdec.
  rewrite He, Hc, (to_valid_id _ Ht) in Hdec.
  eapply ok_result; [|exact Hdec|..]; [by right|done|done|done].
Qed.

Lemma HandleResult_runs has_cache m w :
  Known w → m ∈ w_log w → km_topic m = TopicResults →
  runs_from (HandleResult has_cache (km_key m) (km_value m)) w.
Proof.
  intros HK Hm Ht. pose proof (proj1 (Forall_forall _ _) (kn_log _ HK) m Hm) as Hok.
  unfold HandleResult.
  destruct Hok as [jm Ht' _ _ _ _|rm _ Hdec _ Hw Hd|hm Ht' _ _]; [by rewrite Ht in Ht'| |by rewrite Ht in Ht'].
  rewrite Hdec. apply runs_bind.
  - unfold apply_result. destruct (rm_Success rm) eqn:Hs.
    { apply quiet_runs.
      - apply prog_safe_bind_ok; [apply MarkCompleted_safe|]. intros _.
        by apply prog_safe_bind; [apply Inc_safe|].
      - apply quiet_bind_ok; [apply MarkCompleted_quiet|]. intros _.
        by apply quiet_bind; [apply Inc_quiet|]. }
    assert (Hinc : ∀ c w', runs_from (Inc c ;;! Ret (Ok tt : Res unit)) w').
    { intros c w'. apply runs_bind; [|done]. apply quiet_runs; [apply Inc_safe|apply Inc_quiet]. }
    apply runs_bind; [apply quiet_runs; [apply Inc_safe|apply Inc_quiet]|]. intros w1 _ Hl1.
    apply runs_bind; [apply quiet_runs; [apply MarkFailed_safe|apply MarkFailed_quiet]|].
    intros w2 [st|e] Hl2; [|done]. case_bool_decide; [|apply Hinc].
    apply runs_bind; [|by intros w3 [u|e] _; [apply Hinc|]].
    apply Publish_runs. intros w3 body Hl3 HK3.
    assert (Hl : world_later w w3) by (by do 2 (etransitivity; [done|])).
    apply dead_letter_message; [done|done|by apply Hl|by eapply describes_later].
  - intros w1 r _. apply runs_bind; [|done]. destruct has_cache; [|done].
    apply runs_bind; [|done].
    apply quiet_runs; [apply StatusCache_Invalidate_safe|apply StatusCache_Invalidate_quiet].
Qed.

(** The one insertion of dead letters. *)
Lemma Insert_runs rm w :
  is_Some (w_workers w !! rm_WorkerID rm) →
  describes w (rm_JobID rm) (rm_JobType rm) (rm_Payload rm) (rm_Attempts rm) →
  runs_from (Insert (dead_letter_of rm)) w.
Proof.
  intros Hw Hd. apply runs_bind; [|done]. apply prog_from_call; [apply _| |done].
  intros inp w1 Hl HK. apply and_assoc. split; [|done].
  pose proof (describes_later _ _ _ _ _ _ Hl Hd) as Hd1.
  destruct (describes_facts _ _ _ _ _ HK Hd1) as (_ & _ & _ & He & _).
  destruct (sql_insert_dead_letter_safe (dead_letter_of rm) inp w1 (kn_inv _ HK)) as [HI Hs].
  pose proof (world_step_later _ _ Hs) as Hl1. split; [|done].
  assert (Hsame : Known (sql_insert_dead_letter (dead_letter_of rm) inp w1).2 ∨
    ∃ s doc, rm_Payload rm = Some s ∧ jsonb s = Some doc ∧
    (sql_insert_dead_letter (dead_letter_of rm) inp w1).2 =
      set_dead (<[in_uuid inp := mkDeadLetter (in_uuid inp) (rm_JobID rm) (Some (rm_WorkerID rm))
        (rm_JobType rm) (Some doc) (rm_Attempts rm) (rm_Error rm) "OPEN" None None (in_now inp)]>
        (w_dead w1)) w1).
  { unfold sql_insert_dead_letter, dead_letter_of. cbn. rewrite He.
    destruct (rm_Payload rm) as [s|] eqn:Hp; [|by left].
    destruct (negb _); [by left|]. destruct (negb _); [by left|].
    destruct (jsonb s) as [doc|] eqn:Hdoc; [|by left].
    destruct (w_dead w1 !! in_uuid inp); [by left|]. right. by exists s, doc. }
  destruct Hsame as [?|(s & doc & Hp & Hdoc & Heq)]; [done|]. rewrite Heq in *.
  destruct HK as [_ HT HL HD]. split; [done|done| |].
  { eapply Forall_impl; [exact HL|]. intros m Hm. by eapply message_ok_later. }
  intros id d. cbn [w_dead set_dead]. rewrite lookup_insert_Some.
  intros [[_ <-]|[_ Hid]]; [|by eapply letter_ok_later, HD].
  destruct Hd1 as (j & Hj & Htype & Hpay & Hn). exists j, s. cbn.
  split_and!; [done|done|congruence|done|lia|lia|]. exists (rm_WorkerID rm).
  split; [done|by apply Hl].
Qed.

Lemma dead_letter_Handle_runs m w :
  Known w → m ∈ w_log w → km_topic m = TopicDeadLetter →
  runs_from (dead_letter_Handle (km_key m) (km_value m)) w.
Proof.
  intros HK Hm Ht. pose proof (proj1 (Forall_forall _ _) (kn_log _ HK) m Hm) as Hok.
  unfold dead_letter_Handle.
  destruct Hok as [jm Ht' _ _ _ _|rm _ Hdec _ Hw Hd|hm Ht' _ _]; [by rewrite Ht in Ht'| |by rewrite Ht in Ht'].
  rewrite Hdec. apply runs_bind; [by apply Insert_runs|]. intros w' [u|e] _; [|done].
  apply runs_bind; [|done]. apply quiet_runs; [apply Inc_safe|apply Inc_quiet].
Qed.

(** ** The system *)

Lemma kafka_process_runs w p : Known w → kafka_process w p → runs_from p w.
Proof.
  intros HK Hp. revert HK.
  destruct Hp as [w rc r|w es|w es|w t Ht|w c t Ht|w t Ht|w wid rs m job Hs Hq Hm Ht Hd|
                  w wid h c m n Hn]; intros HK; try (apply runs_discard).
  - apply quiet_runs; [apply NewRouter_safe|apply NewRouter_quiet].
  - apply dispatcher_Run_runs.
  - apply quiet_runs; [apply monitor_Run_safe|apply monitor_Run_quiet].
  - apply consumer_turn_runs. intros m _.
    apply quiet_runs; [apply heartbeat_Handle_safe|apply heartbeat_Handle_quiet].
  - apply consumer_turn_runs. intros m Hf. destruct (Ht m Hf). by apply HandleResult_runs.
  - apply consumer_turn_runs. intros m Hf. destruct (Ht m Hf). by apply dead_letter_Handle_runs.
  - apply execute_runs; [done|done|]. by eapply deliver_received.
  - by apply SendHeartbeat_runs.
Qed.

(** What is known stays known. *)
Lemma kafka_known w0 w : Known w0 → kafka_reaches w0 w → Known w ∧ world_later w0 w.
Proof.
  intros HK [ps Hps].
  destruct (pool_steps_from Known world_later kafka_process _ _ kafka_process_runs Hps)
    as [[_ ?] ?]; by try split.
Qed.

(** A database before any message was written. *)
Record fresh (w : World) : Prop := {
  fr_inv : Inv w;
  fr_typed : ∀ id j, w_jobs w !! id = Some j → typed_row j;
  fr_log : w_log w = [];
  fr_dead : w_dead w = ∅;
}.

Lemma fresh_known w : fresh w → Known w.
Proof.
  intros [HI HT HL HD]. split; [done|done|by rewrite HL|]. intros id d. by rewrite HD, lookup_empty.
Qed.

Lemma kafka_message_ok w0 w m :
  fresh w0 → kafka_reaches w0 w → m ∈ w_log w → Known w ∧ message_ok w m.
Proof.
  intros HF Hr Hm. destruct (kafka_known w0 w (fresh_known _ HF) Hr) as [HK _].
  split; [done|]. by apply (proj1 (Forall_forall _ _) (kn_log _ HK)).
Qed.

(** C7: every topic is typed: whatever has run, in whatever order and with whatever failures,
    a message on the topic jobs is one that no worker refuses, a message on results or
    dead-letters decodes as a result and one on heartbeats as a heartbeat, and there is no
    other topic. So no consumer of the system is ever stopped by a value it cannot decode. *)
Theorem topics_typed w0 w m :
  fresh w0 → kafka_reaches w0 w → m ∈ w_log w →
  (km_topic m = TopicJobs ∧ ∀ wid e, kafka_handle wid (km_value m) ≠ Refused e) ∨
  ((km_topic m = TopicResults ∨ km_topic m = TopicDeadLetter) ∧
   ∃ rm : ResultMessage, Decode (km_value m) = Ok rm) ∨
  (km_topic m = TopicHeartbeats ∧ ∃ hm : HeartbeatMessage, Decode (km_value m) = Ok hm).
Proof.
  intros HF Hr Hm. destruct (kafka_message_ok w0 w m HF Hr Hm) as [_ Hok].
  destruct Hok as [jm Ht Hdec _ _ _|rm Ht Hdec _ _ _|hm Ht Hdec _].
  - left. split; [done|]. intros wid e. unfold kafka_handle. rewrite Hdec. by case_bool_decide.
  - right. left. split; [by destruct Ht as [?|[? _]]; [left|right]|]. by exists rm.
  - right. right. split; [done|]. by exists hm.
Qed.

(** C5: nothing is made up on the way: every message on the topic jobs names a job of the table
    and a registered worker, and carries that job's type, its payload (compacted), and a
    number of attempts that the job has reached; so does every message on results and on
    dead-letters; and every stored dead letter names a job of the table, with its type and
    with what jsonb makes of its compacted payload. *)
Theorem system_provenance w0 w :
  fresh w0 → kafka_reaches w0 w →
  (∀ m jm, m ∈ w_log w → km_topic m = TopicJobs → Decode (km_value m) = Ok jm →
     is_Some (w_workers w !! jm_WorkerID jm) ∧
     ∃ j, w_jobs w !! jm_JobID jm = Some j ∧ jm_Type jm = job_Type j ∧
          jm_Payload jm = carried (job_Payload j) ∧ 1 ≤ jm_Attempts jm ≤ job_Attempts j) ∧
  (∀ m rm, m ∈ w_log w → km_topic m = TopicResults ∨ km_topic m = TopicDeadLetter →
     Decode (km_value m) = Ok rm →
     is_Some (w_workers w !! rm_WorkerID rm) ∧
     ∃ j, w_jobs w !! rm_JobID rm = Some j ∧ rm_JobType rm = job_Type j ∧
          rm_Payload rm = carried (job_Payload j) ∧ 1 ≤ rm_Attempts rm ≤ job_Attempts j) ∧
  (∀ id d, w_dead w !! id = Some d →
     ∃ j s, w_jobs w !! dl_JobID d = Some j ∧ dl_JobType d = job_Type j ∧
            carried (job_Payload j) = Some s ∧ dl_Payload d = jsonb s ∧
            1 ≤ dl_Attempts d ≤ job_Attempts j).
Proof.
  intros HF Hr. split_and!.
  - intros m jm Hm Ht Hdec. destruct (kafka_message_ok w0 w m HF Hr Hm) as [_ Hok].
    destruct Hok as [jm' _ Hdec' _ Hw Hd|rm [Ht'|[Ht' _]] _ _ _ _|hm Ht' _ _];
      [|by rewrite Ht in Ht'..].
    rewrite Hdec in Hdec'. by simplify_eq.
  - intros m rm Hm Ht Hdec. destruct (kafka_message_ok w0 w m HF Hr Hm) as [_ Hok].
    destruct Hok as [jm Ht' _ _ _ _|rm' _ Hdec' _ Hw Hd|hm Ht' _ _];
      [by rewrite Ht' in Ht; destruct Ht| |by rewrite Ht' in Ht; destruct Ht].
    rewrite Hdec in Hdec'. by simplify_eq.
  - intros id d Hd. destruct (kafka_known w0 w (fresh_known _ HF) Hr) as [HK _].
    destruct (kn_dead _ HK id d Hd) as (j & s & Hj & Ht & Hs & Hp & Hn & _).
    by exists j, s.
Qed.

Context `{!RedisLaws}.

(** C8: the collector is never stopped by a result: whatever result is on the topic in a state
    the system can get to, the handler returns no error when the services answer - in
    particular the job is always found -, and a result that ends a job is one the dead
    letters' consumer decodes. *)
Theorem results_accepted w0 w m ins :
  fresh w0 → kafka_reaches w0 w → m ∈ w_log w → km_topic m = TopicResults → all_done ins →
  ∃ rm j w' t, Decode (km_value m) = Ok rm ∧ w_jobs w !! rm_JobID rm = Some j ∧
    run (HandleResult true (km_key m) (km_value m)) ins w = (Ok tt, w') ∧
    w_jobs w' = <[rm_JobID rm := result_row (rm_Success rm) t j]> (w_jobs w) ∧
    ∀ m', m' ∈ w_log w' → m' ∈ w_log w ∨
      km_topic m' = TopicDeadLetter ∧ ∃ rm' : ResultMessage, Decode (km_value m') = Ok rm'.
Proof.
  intros HF Hr Hm Ht Hd. destruct (kafka_message_ok w0 w m HF Hr Hm) as [HK Hok].
  destruct Hok as [jm Ht' _ _ _ _|rm _ Hdec _ Hw Hdesc|hm Ht' _ _];
    [by rewrite Ht in Ht'| |by rewrite Ht in Ht'].
  destruct (describes_facts _ _ _ _ _ HK Hdesc) as (_ & _ & _ & _ & Ha).
  destruct Hdesc as (j & Hj & _).
  destruct (HandleResult_spec (km_key m) (km_value m) rm j ins w Hd Hdec Hj)
    as (w' & ms & t & Hrun & Hjobs & Hlog & Hms & _).
  exists rm, j, w', t. split_and!; [done..|]. rewrite Hlog.
  intros m' [Hin|Hin]%elem_of_app; [by left|]. right. revert Hms. unfold result_messages.
  case_bool_decide; [|intros ->; by apply elem_of_nil in Hin].
  intros (body & Hb & ->). apply list_elem_of_singleton in Hin as ->. split; [done|].
  eexists. by apply (ResultMessage_decode_any rm).
Qed.
End programs.
