(* ===== verification/Deployment.v ===== *)
(** * The whole program: its processes in one world

    The system of Provenance.v answers any request, executes any job that the topic brings,
    handles any message and ticks at any time. Here all this is the business of processes: the
    schedulers of SchedulerRun.v with their lock, loops and consumers, the workers of
    WorkerProc.v with their consumers, channels, executors and heartbeats, the API processes of
    ApiProc.v with their servers and their stops, and the collectors of CollectorProc.v with
    their two consumers. What a kind of process owes to the rest is the class [Process] with
    its laws; every execution of the processes is then one of the system of Provenance.v, so
    what holds there holds here. *)

From S2P Require Import Prelude GoStd Decimal Models GoTime Json World Growing Sql Lifecycle.
From S2P Require Import JobsRepo JobsSpec WorkersRepo DeadLettersRepo Broker Dispatcher Monitor.
From S2P Require Import Collector Http Router Worker WorkerSpec Quiet Executor ExecutorSpec.
From S2P Require Import Leader Startup WorkerProc WorkerMetrics SchedulerProc ConsumerProc SchedulerRun.
From S2P Require Import CollectorProc ApiProc.
From S2P Require Import System Provenance.

Section deployment.
Context `{E : Env} {X : Mux} {P : PgxPool}.
Implicit Types (w : World) (ps qs : list (Prog unit)).

(** ** The programs that run in a process *)

Definition job_programs (g : Job * go_pc) : list (Prog unit) :=
  match g.2 with GRun p => [discard p] | _ => [] end.
Definition worker_programs (x : WorkerProc) : list (Prog unit) :=
  (ex_gos (wp_exec x) ≫= job_programs) ++
  match wp_beat x with BSend p => [discard p] | _ => [] end.
Definition api_programs (x : ApiProc) : list (Prog unit) :=
  (λ g : Request * Prog Response, discard g.2) <$> ap_reqs x.
Definition consumer_programs (x : Run) : list (Prog unit) := discard <$> run_programs x.
Definition collector_programs (x : CollectorProc) : list (Prog unit) :=
  consumer_programs (cl_results x) ++ consumer_programs (cl_letters x).

(** A scheduler: its ticks, and its consumer's turn. *)
Definition loop_programs (l : Loop) : list (Prog unit) :=
  match lo_tick l with Some p => [discard p] | None => [] end.
Definition sched_run_programs (r : SchedRun) : list (Prog unit) :=
  (sr_loops r ≫= loop_programs) ++ consumer_programs (sr_consumer r).
Definition runs_programs (rs : gmap nat SchedRun) : list (Prog unit) :=
  (map_to_list rs).*2 ≫= sched_run_programs.

(** The pool [qs] runs all of [l]. *)
Definition covers qs (l : list (Prog unit)) : Prop := ∃ rest, qs ≡ₚ l ++ rest.

#[export] Instance covers_proper : Proper ((≡ₚ) ==> (≡ₚ) ==> iff) covers.
Proof. intros qs qs' Hq l l' Hl. unfold covers. by setoid_rewrite Hq; setoid_rewrite Hl. Qed.

Lemma covers_snoc qs l1 p l2 : covers qs ((l1 ++ [p]) ++ l2) ↔ covers qs (p :: l1 ++ l2).
Proof. by rewrite (Permutation_app_comm l1 [p]). Qed.

Lemma covers_drop qs l1 l2 : covers qs (l1 ++ l2) → covers qs l2.
Proof. intros [r Hr]. exists (l1 ++ r). rewrite Hr. solve_Permutation. Qed.

(** A program of the pool takes a step. *)
Lemma covers_step starts inp p p' qs l w w' :
  covers qs (p :: l) → prog_step inp (p, w) (p', w') →
  ∃ qs', pool_steps starts (qs, w) (qs', w') ∧ covers qs' (p' :: l).
Proof.
  intros [r Hr] Hs. assert (p ∈ qs) as (l1 & l2 & ->)%list_elem_of_split.
  { rewrite Hr. left. }
  exists (l1 ++ p' :: l2). split; [apply rtc_once; by eapply pool_run|].
  exists r. rewrite <- Permutation_middle in Hr |- *. apply Permutation_cons_inv in Hr.
  by rewrite Hr.
Qed.

(** A new one starts. *)
Lemma covers_start (starts : World → Prog unit → Prop) p qs l w :
  covers qs l → starts w p → ∃ qs', pool_steps starts (qs, w) (qs', w) ∧ covers qs' (p :: l).
Proof.
  intros [r Hr] Hp. exists (p :: qs). split; [apply rtc_once; by constructor|].
  exists r. by rewrite Hr.
Qed.

Lemma bind_step {A B} (k : A → Prog B) inp (p p' : Prog A) w w' :
  prog_step inp (p, w) (p', w') → prog_step inp (bind p k, w) (bind p' k, w').
Proof.
  intros Hs. destruct p as [a|C f c|C f c]; apply prog_step_inv in Hs; [done|..];
    destruct Hs as [-> ->]; constructor.
Qed.

Lemma discard_step {A} inp (p p' : Prog A) w w' :
  prog_step inp (p, w) (p', w') → prog_step inp (discard p, w) (discard p', w').
Proof. apply bind_step. Qed.

Lemma bind_middle {A B} (f : A → list B) l1 a l2 :
  (l1 ++ a :: l2) ≫= f ≡ₚ f a ++ ((l1 ++ l2) ≫= f).
Proof. rewrite !bind_app. cbn. solve_Permutation. Qed.

(** ** One worker *)

Lemma executor_covers wid s s' w w' qs l :
  internal_step (R := kafka_ReportResult wid) runners (s, w) (s', w') →
  exec_inv s → Forall (λ j, ∃ m, brings w wid j m) (ex_sent s) →
  covers qs ((ex_gos s ≫= job_programs) ++ l) →
  ∃ qs', pool_steps kafka_process (qs, w) (qs', w') ∧
         covers qs' ((ex_gos s' ≫= job_programs) ++ l).
Proof.
  intros Hs Hinv Hsent Hqs. inversion Hs as [s0 s1 w0 Hm|c c' Hg]; subst.
  - destruct Hm as [s Hm _|s Hm _ _|j l0 s Hm _|j s Hm _|j s Hm|j s Hm|j s Hm|s Hm _];
      try (exists qs; by split).
    assert (∃ m, brings w' wid j m) as (m & Hin & Ht & Hd).
    { rewrite Forall_forall in Hsent. apply Hsent. rewrite (xi_fifo _ Hinv).
      apply elem_of_app. left. rewrite (xi_jobs _ Hinv), Hm. left. }
    apply (covers_start kafka_process (discard (execute (R := kafka_ReportResult wid) runners j)));
      [done|].
    eapply kp_execute; eauto using runners_are_safe, runners_are_quiet.
  - inversion Hg as [inp j p p' l1 l2 s0 w0 w0' Hgs Hp|d j obs l1 l2 s0 w0 Hgs Hd|
      j l1 l2 n s0 w0 Hgs _|j l1 l2 n s0 w0 Hgs _|j l1 l2 s0 w0 Hgs]; subst; cbn;
      rewrite Hgs, bind_middle in Hqs;
      try (exists qs; split; [reflexivity|]; by rewrite ?bind_middle).
    + apply discard_step in Hp. destruct (covers_step kafka_process _ _ _ _ _ _ _ Hqs Hp)
        as (qs' & Hst & Hc). exists qs'. split; [done|]. by rewrite bind_middle.
    + exists qs. split; [reflexivity|]. rewrite bind_middle.
      by apply (covers_drop _ [discard (Ret obs)]) in Hqs.
Qed.

Lemma worker_consumer_programs w x x' :
  consumer_step w x x' → worker_programs x' = worker_programs x.
Proof. by intros []. Qed.

Lemma running_int64 s : exec_inv s → int64_ok (RunningJobs s) = true.
Proof.
  intros Hinv. unfold RunningJobs. rewrite (xi_running _ Hinv). unfold wrap32.
  set (z := Z.of_nat _). pose proof (Z.mod_pos_bound (z + 2 ^ 31) (2 ^ 32) eq_refl).
  unfold int64_ok, in_range. lia.
Qed.

Lemma beat_covers x x' w w' qs l :
  beat_step (x, w) (x', w') → exec_inv (wp_exec x) → covers qs (worker_programs x ++ l) →
  ∃ qs', pool_steps kafka_process (qs, w) (qs', w') ∧ covers qs' (worker_programs x' ++ l).
Proof.
  intros Hs Hinv Hqs. unfold worker_programs in *.
  inversion Hs as [mem x0 w0 Hb|inp p p' x0 w0 w1 Hb Hp|r x0 w0 Hb|x0 w0 Hb|x0 w0 Hb _]; subst;
    rewrite Hb in Hqs; cbn in *; try (exists qs; by split);
    set (gs := ex_gos (wp_exec x) ≫= job_programs) in *.
  - rewrite app_nil_r in Hqs.
    destruct (covers_start kafka_process (discard (SendHeartbeat (wp_id x) (wp_hostname x)
      (mkFloat 0 0) mem (RunningJobs (wp_exec x)))) qs (gs ++ l) w') as (qs' & Hst & Hc); [done|..].
    { apply kp_heartbeat. by apply running_int64. }
    exists qs'. split; [done|]. by apply covers_snoc.
  - apply covers_snoc in Hqs. apply discard_step in Hp.
    destruct (covers_step kafka_process _ _ _ _ _ _ _ Hqs Hp) as (qs' & Hst & Hc).
    exists qs'. split; [done|]. by apply covers_snoc.
  - exists qs. split; [done|]. apply covers_snoc in Hqs.
    rewrite app_nil_r. by apply (covers_drop _ [discard (Ret r)]) in Hqs.
Qed.

Lemma worker_covers x x' w w' qs l :
  worker_step (x, w) (x', w') → worker_inv w x → covers qs (worker_programs x ++ l) →
  ∃ qs', pool_steps kafka_process (qs, w) (qs', w') ∧ covers qs' (worker_programs x' ++ l).
Proof.
  intros Hs Hinv Hqs. inversion Hs as [x0 w0 _|x0 x1 w0 _ Hc|x0 s1 w0 w1 _ Hi|x0 x1 w0 w1 _ Hb|
    x0 w0 _ _]; subst.
  - exists qs. by split.
  - exists qs. split; [done|]. by rewrite (worker_consumer_programs _ _ _ Hc).
  - unfold worker_programs in *. rewrite <- app_assoc in *.
    eapply executor_covers; [done|apply Hinv|apply Hinv|done].
  - eapply beat_covers; [done|apply Hinv|done].
  - exists qs. by split.
Qed.

(** ** One API process *)

Lemma api_covers x x' w w' qs l :
  api_step (x, w) (x', w') → covers qs (api_programs x ++ l) →
  ∃ qs', pool_steps kafka_process (qs, w) (qs', w') ∧ covers qs' (api_programs x' ++ l).
Proof.
  intros Hs Hqs. unfold api_programs in *.
  inversion Hs as [x0 x1 w0 w1 _ Hv|x0 x1 w0 _ Hl|x0 x1 w0 _ Hm]; subst;
    [|exists qs; by destruct Hl|exists qs; by destruct Hm].
  inversion Hv as [x0 w0 _ _|n x0 w0 _|n r x0 w0 _|inp r p p' l1 l2 x0 w0 w1 Hr Hp|
    r resp l1 l2 x0 w0 Hr]; subst; cbn [ap_reqs api_flight api_conns] in *; try (by exists qs).
  - destruct (covers_start kafka_process (discard (begun (ap_cfg x) r).2) qs _ w' Hqs)
      as (qs' & Hst & Hc); [apply kp_request|].
    exists qs'. split; [done|]. rewrite fmap_app. by apply covers_snoc.
  - rewrite Hr, fmap_app in Hqs. rewrite fmap_app. cbn in *. rewrite <- app_assoc in *. cbn in *.
    rewrite <- Permutation_middle in Hqs. apply discard_step in Hp.
    destruct (covers_step kafka_process _ _ _ _ _ _ _ Hqs Hp) as (qs' & Hst & Hc).
    exists qs'. split; [done|]. by rewrite <- Permutation_middle.
  - exists qs. split; [done|]. rewrite Hr, fmap_app in Hqs. rewrite fmap_app. cbn in *.
    rewrite <- app_assoc in *. cbn in *. rewrite <- Permutation_middle in Hqs.
    by apply (covers_drop _ [discard (Ret resp)]) in Hqs.
Qed.

(** ** One collector process *)

(** A message of the topic, delivered. *)
Lemma delivers_message w m topic :
  m ∈ w_log w → km_topic m = topic → delivers w topic (mkTurn (Ok m) (Ok tt) false).
Proof. by intros Hm Ht m' [= <-]. Qed.

(** A consumer, whose turns may run in the pool. *)
Lemma consumer_covers handler topic ctx x x' w w' qs l :
  (∀ w m, m ∈ w_log w → km_topic m = topic →
     kafka_process w (discard (Consumer_Run handler [mkTurn (Ok m) (Ok tt) false]
                                 nothing_consumed))) →
  run_step handler topic ctx (x, w) (x', w') → covers qs (consumer_programs x ++ l) →
  ∃ qs', pool_steps kafka_process (qs, w) (qs', w') ∧ covers qs' (consumer_programs x' ++ l).
Proof.
  intros Hk Hs Hqs. unfold consumer_programs, run_programs in *.
  inversion Hs as [m x0 w0 Hpc Hm Ht|e x0 w0 Hpc|inp m p p' x0 w0 w1 Hpc Hp|m r x0 w0 Hpc|
    m x0 w0 Hpc|m e x0 w0 Hpc|x0 w0 Hpc _|e x0 w0 Hpc Hx]; subst; rewrite Hpc in Hqs; cbn in *;
    try (by exists qs).
  - destruct (covers_start kafka_process _ qs l w' Hqs (Hk w' m Hm eq_refl)) as (qs' & Hst & Hc).
    by exists qs'.
  - exists qs. split; [done|]. unfold fetch_failed.
    by destruct (ctx_ended e), (isTemporary e).
  - assert (Hd : prog_step inp (discard (turn_program m p), w)
                   (discard (turn_program m p'), w')) by (by apply bind_step, bind_step).
    destruct (covers_step kafka_process _ _ _ _ _ _ _ Hqs Hd) as (qs' & Hst & Hc).
    by exists qs'.
  - exists qs. split; [done|]. apply (covers_drop _ [discard (turn_program m (Ret r))]) in Hqs.
    by destruct r.
  - exists qs. split; [done|]. unfold commit_failed. by destruct (isTemporary e).
Qed.

Lemma returned_programs x r : rn_pc x = RReturned r → consumer_programs x = [].
Proof. intros Hpc. unfold consumer_programs, run_programs. by rewrite Hpc. Qed.

Lemma collector_covers x x' w w' qs l :
  collector_step (x, w) (x', w') → covers qs (collector_programs x ++ l) →
  ∃ qs', pool_steps kafka_process (qs, w) (qs', w') ∧ covers qs' (collector_programs x' ++ l).
Proof.
  intros Hs Hqs. unfold collector_programs in *. rewrite <- !app_assoc in *.
  inversion Hs as [x0 w0 _|x0 r w0 w1 _ Hst|x0 r w0 w1 _ Hst|x0 r w0 _ Hpc|x0 r w0 _ Hpc|
    x0 e k w0 Hm He|x0 k w0 Hm He|d k x0 x1 w0 Hm Hd1|x0 w0 Hm]; subst; cbn in *;
    try (by exists qs).
  - eapply consumer_covers; [|exact Hst|exact Hqs]. intros w2 m Hm Ht.
    by apply kp_results, delivers_message.
  - rewrite Permutation_app_swap_app in Hqs.
    destruct (consumer_covers _ _ _ _ _ _ _ _ _
      (λ w2 m Hm Ht, kp_dead_letters w2 _ (delivers_message w2 m _ Hm Ht)) Hst Hqs)
      as (qs' & Hq & Hc).
    exists qs'. split; [done|]. by rewrite Permutation_app_swap_app.
  - exists qs. split; [done|]. by rewrite (returned_programs _ r) in Hqs.
  - exists qs. split; [done|]. by rewrite (returned_programs (cl_letters x) r) in Hqs.
  - exists qs. split; [done|]. by destruct Hd1.
Qed.
End deployment.

(** ** The schedulers *)

Section schedulers.
Context `{E : Env} {X : Mux} {P : PgxPool}.
Implicit Types (w : World) (qs : list (Prog unit)).

Lemma runs_programs_insert i r rs :
  runs_programs (<[i := r]> rs) ≡ₚ sched_run_programs r ++ runs_programs (delete i rs).
Proof.
  unfold runs_programs. rewrite <- insert_delete_eq.
  rewrite map_to_list_insert by apply lookup_delete_eq. done.
Qed.

Lemma runs_programs_at i r rs :
  rs !! i = Some r →
  runs_programs rs ≡ₚ sched_run_programs r ++ runs_programs (delete i rs).
Proof. intros Hi. by rewrite <- runs_programs_insert, insert_id. Qed.

(** The scheduler [i] has fewer programs now. *)
Lemma runs_covers i r rs qs l :
  sched_run_programs r = [] → covers qs (runs_programs rs ++ l) →
  covers qs (runs_programs (<[i := r]> rs) ++ l).
Proof.
  intros Hr Hqs. rewrite runs_programs_insert, Hr. cbn.
  destruct (rs !! i) as [r0|] eqn:Hi; [|by rewrite delete_id].
  rewrite (runs_programs_at i r0 rs Hi), <- app_assoc in Hqs. by apply covers_drop in Hqs.
Qed.

Lemma loop_covers l l' w w' qs k :
  loop_step (l, w) (l', w') → covers qs (loop_programs l ++ k) →
  ∃ qs', pool_steps kafka_process (qs, w) (qs', w') ∧ covers qs' (loop_programs l' ++ k).
Proof.
  intros Hs Hqs. inversion Hs as [kd w0|inp kd p p' w0 w1 Hp|kd r w0]; subst; cbn in *.
  - destruct (covers_start kafka_process (discard (loop_tick kd)) qs k w' Hqs) as (qs' & Hq & Hc).
    { destruct kd; [exact (kp_dispatcher w' [Tick])|exact (kp_monitor w' [Tick])]. }
    by exists qs'.
  - apply discard_step in Hp.
    destruct (covers_step kafka_process _ _ _ _ _ _ _ Hqs Hp) as (qs' & Hq & Hc). by exists qs'.
  - exists qs. split; [done|]. by apply (covers_drop _ [discard (Ret r)]) in Hqs.
Qed.

(** Their consumers only read heartbeats, and they are well by themselves. *)
Definition consumers_ok w (s : Sched) : Prop :=
  ∀ i r, sd_runs s !! i = Some r → run_ok TopicHeartbeats w (sr_consumer r).
Definition sched_inv w (s : Sched) : Prop := consumers_ok w s ∧ sched_well s.

Lemma consumers_ok_later w w' s : w_log w `prefix_of` w_log w' → consumers_ok w s → consumers_ok w' s.
Proof. intros Hl Hs i r Hr. eapply run_ok_later; [done|]. by eapply Hs. Qed.

Lemma consumers_ok_put w s i r :
  consumers_ok w s → run_ok TopicHeartbeats w (sr_consumer r) → consumers_ok w (put_run i r s).
Proof.
  intros Hs Hr k r'. cbn. intros [[<- <-]|[_ Hk]]%lookup_insert_Some; [done|]. by eapply Hs.
Qed.

Lemma work_step_consumers s s' w w' :
  work_step (s, w) (s', w') → w_log w `prefix_of` w_log w' → consumers_ok w s → consumers_ok w' s'.
Proof.
  intros Hst Hl Hs.
  pose proof (consumers_ok_later _ _ _ Hl Hs) as Hs'.
  inversion Hst as [i g db p s0 w0 Hi Hp|i p p' lk' r s0 w0 Hi Hr He Hm Hc Hn|
    i p r l1 l l' l2 s0 w0 w1 Hi Hr He Hls Hlo|i p r l1 k l2 n s0 w0 Hi Hr He Hls Hd Hn|
    i p r c s0 w0 w1 Hi Hr He Hrun|i p r res s0 w0 Hi Hr He Hpc Hc|i p s0 w0 Hi He Hc|
    c s0 w0 Hc]; subst; try exact Hs'; apply consumers_ok_put; try exact Hs'.
  - apply run_start_ok.
  - unfold loops_after. destruct (_ && _); exact (Hs' i r Hr).
  - exact (Hs' i r Hr).
  - exact (Hs' i r Hr).
  - eapply run_step_ok; [exact Hrun|done|]. exact (Hs i r Hr).
  - apply at_pc_ok; [done|]. exact (Hs' i r Hr).
Qed.

Lemma sched_inv_later w w' s : w_log w `prefix_of` w_log w' → sched_inv w s → sched_inv w' s.
Proof. intros Hl [Hc Hw]. split; [by eapply consumers_ok_later|done]. Qed.

Lemma work_step_inv s s' w w' :
  work_step (s, w) (s', w') → w_log w `prefix_of` w_log w' → sched_inv w s → sched_inv w' s'.
Proof.
  intros Hs Hl [Hc Hw]. split; [by eapply work_step_consumers|by eapply work_step_well].
Qed.

Lemma work_covers s s' w w' qs l :
  work_step (s, w) (s', w') → covers qs (runs_programs (sd_runs s) ++ l) →
  ∃ qs', pool_steps kafka_process (qs, w) (qs', w') ∧
         covers qs' (runs_programs (sd_runs s') ++ l).
Proof.
  intros Hst Hqs.
  inversion Hst as [i g db p s0 w0 Hi Hp|i p p' lk' r s0 w0 Hi Hr He Hm Hc Hn|
    i p r l1 k k' l2 s0 w0 w1 Hi Hr He Hls Hlo|i p r l1 k l2 n s0 w0 Hi Hr He Hls Hd Hn|
    i p r c s0 w0 w1 Hi Hr He Hrun|i p r res s0 w0 Hi Hr He Hpc Hc|i p s0 w0 Hi He Hc|
    c s0 w0 Hc]; subst; cbn [sd_runs put_run put_proc]; try (by exists qs).
  - exists qs. split; [done|]. by apply runs_covers.
  - exists qs. split; [done|]. unfold loops_after. destruct (_ && _); [|by rewrite insert_id].
    rewrite runs_programs_insert. rewrite (runs_programs_at i r _ Hr) in Hqs.
    unfold sched_run_programs in *. cbn. rewrite <- !app_assoc in *. by apply covers_drop in Hqs.
  - rewrite (runs_programs_at i r _ Hr) in Hqs. unfold sched_run_programs in Hqs.
    rewrite Hls, bind_middle, <- !app_assoc in Hqs.
    destruct (loop_covers _ _ _ _ _ _ Hlo Hqs) as (qs' & Hq & Hcv). exists qs'. split; [done|].
    rewrite runs_programs_insert. unfold sched_run_programs. cbn [sr_loops sr_consumer set_loop_list].
    by rewrite bind_middle, <- !app_assoc.
  - exists qs. split; [done|]. rewrite runs_programs_insert.
    rewrite (runs_programs_at i r _ Hr) in Hqs. unfold sched_run_programs in *.
    rewrite Hls, bind_middle in Hqs. exact Hqs.
  - rewrite (runs_programs_at i r _ Hr) in Hqs. unfold sched_run_programs in Hqs.
    rewrite (Permutation_app_comm (sr_loops r ≫= _)), <- !app_assoc in Hqs.
    destruct (consumer_covers _ _ _ _ _ _ _ _ _
      (λ w2 m Hm Ht, kp_heartbeats w2 _ (delivers_message w2 m _ Hm Ht)) Hrun Hqs)
      as (qs' & Hq & Hcv). exists qs'. split; [done|].
    rewrite runs_programs_insert. unfold sched_run_programs.
    by rewrite (Permutation_app_comm (_ ≫= _)), <- !app_assoc.
  - exists qs. split; [done|]. rewrite runs_programs_insert.
    rewrite (runs_programs_at i r _ Hr) in Hqs. unfold sched_run_programs in *.
    by rewrite (returned_programs _ res Hpc) in Hqs.
Qed.
End schedulers.

(** ** Kinds of processes *)

(** A kind of process with state [S]: its steps in the world, its invariant, and the programs
    that it is running. *)
Class Process (S : Type) `{Env} : Type := {
  proc_step : S * World → S * World → Prop;
  proc_inv : World → S → Prop;
  proc_programs : S → list (Prog unit);
}.

(** What it owes to the rest: it keeps its invariant, which the others cannot break by adding
    messages, and a pool that is running its programs can follow every step. *)
Class ProcessLaws (S : Type) `{E : Env, X : Mux, !Process S} : Prop := {
  proc_keeps s s' w w' :
    proc_step (s, w) (s', w') → w_log w `prefix_of` w_log w' → proc_inv w s → proc_inv w' s';
  proc_later s w w' : w_log w `prefix_of` w_log w' → proc_inv w s → proc_inv w' s;
  proc_covers s s' w w' qs l :
    proc_step (s, w) (s', w') → proc_inv w s → covers qs (proc_programs s ++ l) →
    ∃ qs', pool_steps kafka_process (qs, w) (qs', w') ∧ covers qs' (proc_programs s' ++ l);
}.

Section kinds.
Context `{E : Env} {X : Mux} {P : PgxPool}.

(** What a worker does with its messages, and what it measures. *)
#[export] Instance worker_process : Process WorkerProc := {|
  proc_step := worker_step; proc_inv := λ w x, worker_inv w x ∧ metrics_inv w x;
  proc_programs := worker_programs |}.
#[export] Instance worker_laws : ProcessLaws WorkerProc.
Proof.
  split; cbn.
  - intros x x' w w' Hs Hl [Hi Hm]. split; [by eapply worker_step_inv|by eapply metrics_step_inv].
  - intros x w w' Hl [Hi Hm]. split; [|by eapply metrics_inv_later].
    eapply worker_inv_later; [done|done|..]; try done; apply Hi.
  - intros x x' w w' qs l Hs [Hi _] Hc. by eapply worker_covers.
Qed.

#[export] Instance api_process : Process ApiProc := {|
  proc_step := api_step; proc_inv := λ _, api_inv; proc_programs := api_programs |}.
#[export] Instance api_laws : ProcessLaws ApiProc.
Proof.
  split; cbn; [|done|].
  - intros x x' w w' Hs _ Hi. by eapply api_step_inv.
  - intros x x' w w' qs l Hs _ Hc. by eapply api_covers.
Qed.

#[export] Instance collector_process : Process CollectorProc := {|
  proc_step := collector_step; proc_inv := collector_inv; proc_programs := collector_programs |}.
#[export] Instance collector_laws : ProcessLaws CollectorProc.
Proof.
  split; cbn.
  - intros x x' w w' Hs Hl Hi. by eapply collector_step_inv.
  - intros x w w' Hl Hi. by eapply collector_inv_later.
  - intros x x' w w' qs l Hs _ Hc. by eapply collector_covers.
Qed.

(** All schedulers, with the lock they share. *)
#[export] Instance sched_kind : Process Sched := {|
  proc_step := work_step; proc_inv := sched_inv;
  proc_programs := λ s, runs_programs (sd_runs s) |}.
#[export] Instance sched_laws : ProcessLaws Sched.
Proof.
  split; cbn.
  - intros s s' w w' Hs Hl Hi. by eapply work_step_inv.
  - intros s w w' Hl Hi. by eapply sched_inv_later.
  - intros s s' w w' qs l Hs _ Hc. by eapply work_covers.
Qed.

(** Two kinds side by side. *)
#[export] Instance sum_process S T `{!Process S, !Process T} : Process (S + T) := {|
  proc_step c c' :=
    match c.1, c'.1 with
    | inl s, inl s' => proc_step (s, c.2) (s', c'.2)
    | inr t, inr t' => proc_step (t, c.2) (t', c'.2)
    | _, _ => False
    end;
  proc_inv w s := match s with inl s => proc_inv w s | inr t => proc_inv w t end;
  proc_programs s := match s with inl s => proc_programs s | inr t => proc_programs t end;
|}.
#[export] Instance sum_laws S T `{!Process S, !ProcessLaws S, !Process T, !ProcessLaws T} :
  ProcessLaws (S + T).
Proof.
  split; cbn.
  - intros [s|t] [s'|t'] w w'; try done; apply proc_keeps.
  - intros [s|t] w w'; apply proc_later.
  - intros [s|t] [s'|t'] w w' qs l; try done; apply proc_covers.
Qed.
End kinds.

(** ** Deployments *)

Record Deployment (S : Type) `{Env} : Type := mkDeployment {
  dp_procs : list S;
  dp_world : World;
}.
Arguments mkDeployment {S _} _ _.
Arguments dp_procs {S _} _.
Arguments dp_world {S _} _.

Section deployments.
Context {S : Type} `{E : Env, X : Mux, !Process S, !ProcessLaws S}.
(** [first]: what is there at the beginning; [joins s]: a process may start in the state [s]. *)
Variable first : list S.
Variable joins : S → Prop.
Hypothesis first_inv : ∀ s w, s ∈ first → proc_inv w s.
Hypothesis first_idle : ∀ s, s ∈ first → proc_programs s = [].
Hypothesis joins_inv : ∀ s w, joins s → proc_inv w s.
Hypothesis joins_idle : ∀ s, joins s → proc_programs s = [].
Implicit Types (w : World) (d : Deployment S) (qs : list (Prog unit)).

Inductive deploy_step : Deployment S → Deployment S → Prop :=
| dp_join x xs w : joins x → deploy_step (mkDeployment xs w) (mkDeployment (x :: xs) w)
| dp_process x x' xs1 xs2 w w' :
    proc_step (x, w) (x', w') →
    deploy_step (mkDeployment (xs1 ++ x :: xs2) w) (mkDeployment (xs1 ++ x' :: xs2) w').

(** What can be reached from the tables and topics of [w0]. *)
Definition deployed (w0 : World) : Deployment S → Prop := rtc deploy_step (mkDeployment first w0).

(** The steps of a process are steps of the deployment. *)
Lemma deploy_process x x' xs1 xs2 w w' :
  rtc proc_step (x, w) (x', w') →
  rtc deploy_step (mkDeployment (xs1 ++ x :: xs2) w) (mkDeployment (xs1 ++ x' :: xs2) w').
Proof.
  intros Hs. remember (x, w) as c eqn:Hc. remember (x', w') as c' eqn:Hc'.
  revert x w Hc. induction Hs as [c|c [x1 w1] c' H1 _ IH]; intros x w ->; simplify_eq; [done|].
  eapply rtc_l; [by apply dp_process|]. by apply IH.
Qed.

Definition programs d : list (Prog unit) := dp_procs d ≫= proc_programs.

Context `{!OrderByLaws, !JsonbLaws, !UuidLaws, !TextLaws}.

(** The deployment is simulated by a pool, and every process is well. *)
Definition deploy_inv (w0 : World) d : Prop :=
  ∃ qs, pool_steps kafka_process ([], w0) (qs, dp_world d) ∧ covers qs (programs d) ∧
        Forall (proc_inv (dp_world d)) (dp_procs d).

Lemma pool_log_grows w0 w w' qs qs' :
  Known w0 → pool_steps kafka_process ([], w0) (qs, w) →
  pool_steps kafka_process (qs, w) (qs', w') → w_log w `prefix_of` w_log w'.
Proof.
  intros HK Hqs Hqs'.
  destruct (pool_steps_from Known world_later kafka_process _ _ kafka_process_runs Hqs)
    as [Hp _]; [by split|].
  by destruct (pool_steps_from Known world_later kafka_process _ _ kafka_process_runs Hqs' Hp)
    as [_ (_ & _ & ?)].
Qed.

(** The other processes do not mind. *)
Lemma procs_later w w' xs :
  w_log w `prefix_of` w_log w' → Forall (proc_inv w) xs → Forall (proc_inv (S := S) w') xs.
Proof.
  intros Hl Hxs. eapply Forall_impl; [exact Hxs|]. intros x Hx. by eapply proc_later.
Qed.

Lemma deploy_step_inv w0 d d' :
  Known w0 → deploy_step d d' → deploy_inv w0 d → deploy_inv w0 d'.
Proof.
  intros HK Hs (qs & Hqs & Hc & Hxs).
  destruct Hs as [x xs w Hx|x x' xs1 xs2 w w' Hx]; cbn in *.
  - exists qs. split_and!; [done| |constructor; [by apply joins_inv|done]].
    unfold programs in *. cbn in *. by rewrite (joins_idle x Hx).
  - apply Forall_app in Hxs as [Hxs1 [Hx1 Hxs2]%Forall_cons].
    unfold programs in Hc. cbn in Hc. rewrite bind_middle in Hc.
    destruct (proc_covers _ _ _ _ _ _ Hx Hx1 Hc) as (qs' & Hst & Hc').
    pose proof (pool_log_grows _ _ _ _ _ HK Hqs Hst) as Hl.
    exists qs'. split_and!; [by etransitivity| |].
    + unfold programs. cbn. by rewrite bind_middle.
    + apply Forall_app. split; [by eapply procs_later|].
      constructor; [by eapply proc_keeps|by eapply procs_later].
Qed.

Lemma first_programs xs : xs ⊆ first → xs ≫= proc_programs = [].
Proof.
  induction xs as [|x xs IH]; intros Hxs; [done|]. cbn.
  rewrite first_idle, IH; [done| |]; set_solver.
Qed.

Lemma deployed_inv w0 d : fresh w0 → deployed w0 d → deploy_inv w0 d.
Proof.
  intros HF Hr. apply fresh_known in HF. unfold deployed in Hr.
  assert (deploy_inv w0 (mkDeployment first w0)) as Hi.
  { exists []. split_and!; [done| |].
    - exists []. unfold programs. cbn. by rewrite first_programs.
    - apply Forall_forall. intros s. apply first_inv. }
  induction Hr as [d|d1 d2 d3 H12 _ IH]; [done|]. by eapply IH, deploy_step_inv.
Qed.

Lemma deployed_reaches w0 d : fresh w0 → deployed w0 d → kafka_reaches w0 (dp_world d).
Proof. intros HF Hd. destruct (deployed_inv w0 d HF Hd) as (qs & Hqs & _). by exists qs. Qed.

Lemma deployed_process w0 d x :
  fresh w0 → deployed w0 d → x ∈ dp_procs d → proc_inv (dp_world d) x.
Proof.
  intros HF Hd Hx. destruct (deployed_inv w0 d HF Hd) as (qs & _ & _ & Hxs).
  rewrite Forall_forall in Hxs. by apply Hxs.
Qed.
End deployments.

(** ** The program's own processes *)

Section program.
Context `{E : Env} {X : Mux} {P : PgxPool} `{!OrderByLaws, !JsonbLaws, !UuidLaws, !TextLaws}.

(** The schedulers, workers, API processes and collectors. *)
Definition Proc : Type := Sched + (WorkerProc + (ApiProc + CollectorProc)).

(** The schedulers share one lock: they are one element of the deployment, there from the
    beginning, with no scheduler in it. The others come when they start. *)
Definition nobody : list Proc := [inl no_sched].

Inductive proc_joins : Proc → Prop :=
| join_worker getenv wid host x :
    worker_start getenv wid host = Some x → proc_joins (inr (inl x))
| join_api getenv database x :
    api_start getenv database = Some x → proc_joins (inr (inr (inl x)))
| join_collector getenv database x :
    collector_start getenv database = Some x → proc_joins (inr (inr (inr x))).

Lemma nobody_inv s w : s ∈ nobody → proc_inv w s.
Proof.
  intros ->%list_elem_of_singleton. split; [|apply no_sched_well].
  intros i r. cbn. by rewrite lookup_empty.
Qed.

Lemma nobody_idle s : s ∈ nobody → proc_programs s = [].
Proof. by intros ->%list_elem_of_singleton. Qed.

Lemma proc_joins_inv s w : proc_joins s → proc_inv w s.
Proof.
  intros [getenv wid host x Hx|getenv db x Hx|getenv db x Hx]; cbn.
  - unfold worker_start in Hx. destruct (Load getenv); [|done]. simplify_eq.
    split; [apply worker_init_inv|apply metrics_init_inv].
  - by eapply api_start_inv.
  - by eapply collector_start_inv.
Qed.

Lemma proc_joins_idle s : proc_joins s → proc_programs s = [].
Proof.
  intros [getenv wid host x Hx|getenv db x Hx|getenv db x Hx].
  - unfold worker_start in Hx. destruct (Load getenv); [|done]. by simplify_eq.
  - unfold api_start in Hx. destruct (Load getenv), db; by simplify_eq.
  - unfold collector_start in Hx. destruct (Load getenv), db; by simplify_eq.
Qed.

Definition program_deployed : World → Deployment Proc → Prop := deployed nobody proc_joins.

Lemma program_inv w0 d x :
  fresh w0 → program_deployed w0 d → x ∈ dp_procs d → proc_inv (dp_world d) x.
Proof.
  intros HF Hd Hx.
  exact (deployed_process _ _ nobody_inv nobody_idle proc_joins_inv proc_joins_idle w0 d x HF Hd Hx).
Qed.

(** C4: the program refines its specification: whatever schedulers, workers, API processes and
    collectors run - campaigns, ticks, consumers, channels, executors, goroutines, heartbeats,
    servers, requests in flight, shutdowns interleaved in any way, ended by signals or by
    failures of their own -, the tables and topics they get to are ones that the system of
    Provenance.v gets to, in which requests are answered, jobs read from the topic executed,
    messages handled and ticks made at any time. So its invariant, the types of its topics and
    the machines of its rows hold of the real processes. *)
Theorem processes_refine w0 d :
  fresh w0 → program_deployed w0 d → kafka_reaches w0 (dp_world d).
Proof.
  exact (deployed_reaches _ _ nobody_inv nobody_idle proc_joins_inv proc_joins_idle w0 d).
Qed.

Context `{!PgxPoolLaws P}.

(** C12: who schedules, in the whole system, with ticks, campaigns, consumers and every other
    process interleaved in any way: a scheduler process runs at most one dispatcher and one
    monitor; a loop that is there, in a tick or not, belongs to the one process that leads and
    whose session holds the advisory lock, or to a process whose loops have been told to stop
    (one of these may still tick, as a select may take the ticker's case); a process that has
    started its loops never starts one again and never takes back that they shall stop, so
    that from then on loops of it only return; and a process whose main has come to its end
    has given its connection back. (No session ends under a scheduler that keeps it.) *)
Theorem loops_are_led w0 d s i p r :
  fresh w0 → program_deployed w0 d → inl s ∈ dp_procs d →
  proc_of i s = Some p → sd_runs s !! i = Some r →
  (lo_kind <$> sr_loops r) `sublist_of` [LDispatcher; LMonitor] ∧
  (sr_loops r ≠ [] →
     sp_running p = true ∧
     (loop_done p = true ∨
      ∃ c n, le_conn (sp_elector p) = Some c ∧ lock_of s = Some (c, S n) ∧
        ∀ k q, proc_of k s = Some q → Isleader (sp_elector q) = true → k = i)) ∧
  (sp_running p = true → ∀ w s' w', work_step (s, w) (s', w') →
     ∃ p' r', proc_of i s' = Some p' ∧ sd_runs s' !! i = Some r' ∧ sp_running p' = true ∧
       (lo_kind <$> sr_loops r') `sublist_of` (lo_kind <$> sr_loops r) ∧
       (loop_done p = true → loop_done p' = true)) ∧
  (sp_main p = SExited → le_conn (sp_elector p) = None).
Proof.
  intros HF Hd Hs Hi Hr.
  assert (sched_inv (dp_world d) s) as [_ Hw] by exact (program_inv w0 d _ HF Hd Hs).
  destruct (loops_led s i p r Hw Hi Hr) as [Hsub Hled]. split_and!; [done|done|..].
  - intros Hrun w s' w' Hst. by eapply loops_only_return.
  - intros Hm. destruct (schedulers_ok _ (proj1 Hw) i p Hi) as [_ Hc _ _].
    rewrite Hm in Hc. unfold Isleader in Hc. by destruct (le_conn _).
Qed.

(** C20: what a worker process owes, in the whole system: at most five of its jobs are executed at
    a time and ten wait in its channel; every job it was sent came with a message of the topic
    jobs for this worker; a message whose offset it committed is another worker's or its job
    was sent to the channel; and the jobs sent and not finished are at most sixteen. *)
Theorem worker_accounts w0 d x :
  fresh w0 → program_deployed w0 d → inr (inl x) ∈ dp_procs d →
  let w := dp_world d in let s := wp_exec x in
  (executing s ≤ 5)%nat ∧ (length (ex_chan s) ≤ 10)%nat ∧
  (∀ j, j ∈ ex_sent s → ∃ m, m ∈ w_log w ∧ km_topic m = TopicJobs ∧
     kafka_handle (wp_id x) (km_value m) = Deliver j) ∧
  (∀ m, m ∈ wp_committed x → m ∈ w_log w ∧ km_topic m = TopicJobs ∧
     (kafka_handle (wp_id x) (km_value m) = Skipped ∨
      ∃ j, kafka_handle (wp_id x) (km_value m) = Deliver j ∧ j ∈ ex_sent s)) ∧
  ∃ open, ex_sent s ≡ₚ ex_finished s ++ open ∧ (length open ≤ 16)%nat.
Proof.
  intros HF Hd Hx.
  assert (worker_inv (dp_world d) x) as [He _ Hc Hs Hcm _]
    by exact (proj1 (program_inv w0 d _ HF Hd Hx)).
  cbn.
  assert (Hexec : (executing (wp_exec x) ≤ 5)%nat).
  { transitivity (ex_sem (wp_exec x)); [by apply executing_le_sem|apply He]. }
  rewrite Forall_forall in Hs. rewrite Forall_forall in Hcm. split_and!; [done|exact Hc|done|..].
  - intros m Hm. destruct (Hcm m Hm) as (? & ? & Hor). split_and!; [done..|].
    destruct Hor as [?|(j & (_ & _ & ?) & ?)]; [by left|right; by exists j].
  - exists (in_hand (ex_main (wp_exec x)) ++ (filter is_running (ex_gos (wp_exec x))).*1 ++
            ex_chan (wp_exec x)).
    split; [rewrite (xi_fifo _ He), (xi_jobs _ He); solve_Permutation|].
    rewrite !length_app, length_fmap. unfold executing in Hexec. unfold jobChan_cap in Hc.
    destruct (ex_main (wp_exec x)); cbn; lia.
Qed.

(** C25: what a collector process owes, in the whole system: every message that it handled,
    whatever the handler returned, is on the topic of its consumer; and it committed a message
    only after a handler returned nil on it, so a result or a dead letter is never passed
    over. *)
Theorem collector_accounts w0 d x :
  fresh w0 → program_deployed w0 d → inr (inr (inr x)) ∈ dp_procs d →
  (∀ m r, (m, r) ∈ rn_handled (cl_results x) →
     m ∈ w_log (dp_world d) ∧ km_topic m = TopicResults) ∧
  (∀ m, m ∈ rn_committed (cl_results x) → (m, Ok tt) ∈ rn_handled (cl_results x)) ∧
  (∀ m r, (m, r) ∈ rn_handled (cl_letters x) →
     m ∈ w_log (dp_world d) ∧ km_topic m = TopicDeadLetter) ∧
  (∀ m, m ∈ rn_committed (cl_letters x) → (m, Ok tt) ∈ rn_handled (cl_letters x)).
Proof.
  intros HF Hd Hx.
  assert (collector_inv (dp_world d) x) as [[Hh Hc _] [Hh' Hc' _]]
    by exact (program_inv w0 d _ HF Hd Hx).
  rewrite Forall_forall in Hc, Hc'. rewrite Forall_forall in Hh, Hh'.
  split_and!; [intros m r Hm; by apply (Hh (m, r))|by apply Hc|
    intros m r Hm; by apply (Hh' (m, r))|by apply Hc'].
Qed.
End program.
