(* ===== verification/Telemetry.v ===== *)
(** * Metrics: what a worker reports, and the server that shows it

    The measurements of a worker process in the whole system, with the invariant of
    WorkerMetrics.v; and metrics.StartServer of internal/metrics/prometheus.go with its two
    goroutines, which the worker and the collector start. *)

From S2P Require Import Prelude GoStd Decimal Models Json JsonFacts World Growing Lifecycle Broker BrokerSpec.
From S2P Require Import Http Router Worker Executor ExecutorSpec ExecutorLive Startup WorkerProc.
From S2P Require Import WorkerMetrics SchedulerProc System Provenance Deployment.

(** ** The worker's measurements *)

Section worker.
Context `{E : Env} {X : Mux} {P : PgxPool}.
Context `{!OrderByLaws, !JsonbLaws, !TextLaws, !UuidLaws}.

(** The worker's result for the job, on the topic: it succeeded. *)
Definition success_on_topic (w : World) (wid : uuid) (j : Job) : Prop :=
  ∃ m rm, m ∈ w_log w ∧ km_topic m = TopicResults ∧ Decode (km_value m) = Ok rm ∧
    rm_JobID rm = job_ID j ∧ rm_WorkerID rm = wid ∧ rm_JobType rm = job_Type j ∧
    rm_Success rm = true.

(** A job that a worker was sent is one of the table's. *)
Lemma sent_received w0 d x j :
  fresh w0 → program_deployed w0 d → inr (inl x) ∈ dp_procs d → j ∈ ex_sent (wp_exec x) →
  Known (dp_world d) ∧ received (wp_id x) j (dp_world d).
Proof.
  intros HF Hd Hx Hj.
  destruct (program_inv w0 d _ HF Hd Hx) as [[_ _ _ Hs _ _] _].
  destruct (proj1 (Forall_forall _ _) Hs j Hj) as (m & Hm & Ht & Hk).
  destruct (kafka_known w0 (dp_world d)) as [HK _].
  { by apply fresh_known. }
  { by eapply deployed_reaches, Hd; auto using nobody_inv, nobody_idle, proc_joins_inv, proc_joins_idle. }
  split; [done|]. by eapply deliver_received.
Qed.

(** The message that the invariant knows, decoded. *)
Lemma told_on_topic w wid j :
  Known w → received wid j w → success_told wid j w → success_on_topic w wid j.
Proof.
  intros HK [_ Hd] (body & Hb & Hin). destruct (describes_facts _ _ _ _ _ HK Hd) as (Ht & _ & _ & _ & Ha).
  pose proof (ResultMessage_decode_any (result_of wid j true EmptyString) body Ha Hb) as Hdec.
  eexists _, _. split_and!; [exact Hin|done|exact Hdec|done..| |done].
  cbn. by apply to_valid_id.
Qed.

(** C21: what a worker process measures is what it did, in the whole system, in every interleaving:
    the durations in the histogram are those of the jobs it finished, one for each and in their
    order, none of them negative, under the job's type - which is valid UTF-8, so that the
    deferred function does not panic on a label -; success is only observed of a job whose
    success is on the results topic, under this worker's identifier; and while a heartbeat is
    being sent the gauge shows the number of running jobs that it reports. *)
Theorem worker_metrics w0 d x :
  fresh w0 → program_deployed w0 d → inr (inl x) ∈ dp_procs d →
  let s := wp_exec x in
  Forall2 (λ (o : Observation) j,
    o.1.1 = job_Type j ∧ utf8_valid o.1.1 = true ∧ 0 ≤ o.2 ∧
    (o.1.2 = true → success_on_topic (dp_world d) (wp_id x) j)) (ex_observed s) (ex_finished s) ∧
  ∀ p, wp_beat x = BSend p →
    ∃ memMB n, wp_gauge x = Some n ∧
      on_its_way (SendHeartbeat (wp_id x) (wp_hostname x) (mkFloat 0 0) memMB n) p.
Proof.
  intros HF Hd Hx. destruct (program_inv w0 d _ HF Hd Hx) as [[He _ _ _ _ _] [Ho _ Hg]].
  split; [|exact Hg]. cbn. apply Forall2_same_length_lookup. split; [by eapply Forall2_length|].
  intros i o j Hoi Hji. destruct (Forall2_lookup_lr _ _ _ _ _ _ Ho Hoi Hji) as [[Hty Hok] Hdur].
  assert (Hsent : j ∈ ex_sent (wp_exec x)).
  { rewrite (xi_fifo _ He), (xi_jobs _ He). apply elem_of_app. left. apply elem_of_app. right.
    apply elem_of_app. right. by eapply list_elem_of_lookup_2. }
  destruct (sent_received w0 d x j HF Hd Hx Hsent) as [HK Hr]. split_and!; [done| |done|].
  - rewrite Hty. destruct Hr as [_ Hdesc]. by destruct (describes_facts _ _ _ _ _ HK Hdesc).
  - intros Hs. apply told_on_topic; [done|done|by apply Hok].
Qed.
End worker.

(** ** StartServer *)

(** The goroutine that serves: at its log line, in ListenAndServe before and after the port is
    bound, accepting, with ListenAndServe's answer, and over. *)
Inductive serve_pc : Type :=
| VLog | VListen | VBind | VTrack | VAccept | VReturned (e : error) | VGone.

(** The goroutine that waits for the context: there, in Shutdown before and after the listener
    is closed, and over. *)
Inductive stop_pc : Type := TWait | TShutdown | TIdle | TGone.

Record MetricsServer : Type := mkMetricsServer {
  ms_port : Z;
  ms_ctx : bool;                  (* the process's context has ended *)
  ms_shut : bool;                 (* Shutdown has begun *)
  ms_conns : nat;
  ms_serve : serve_pc;
  ms_stop : stop_pc;
  ms_logged : list string;
}.

(** StartServer returns at once, with both goroutines started. *)
Definition StartServer (port : Z) : MetricsServer :=
  mkMetricsServer port false false 0 VLog TWait [].

Definition ms_serves (v : serve_pc) (x : MetricsServer) : MetricsServer :=
  mkMetricsServer (ms_port x) (ms_ctx x) (ms_shut x) (ms_conns x) v (ms_stop x) (ms_logged x).
Definition ms_stops (t : stop_pc) (x : MetricsServer) : MetricsServer :=
  mkMetricsServer (ms_port x) (ms_ctx x) (ms_shut x) (ms_conns x) (ms_serve x) t (ms_logged x).
Definition ms_signals (ctx shut : bool) (x : MetricsServer) : MetricsServer :=
  mkMetricsServer (ms_port x) ctx shut (ms_conns x) (ms_serve x) (ms_stop x) (ms_logged x).
Definition ms_connections (n : nat) (x : MetricsServer) : MetricsServer :=
  mkMetricsServer (ms_port x) (ms_ctx x) (ms_shut x) n (ms_serve x) (ms_stop x) (ms_logged x).
Definition ms_logs (l : list string) (x : MetricsServer) : MetricsServer :=
  mkMetricsServer (ms_port x) (ms_ctx x) (ms_shut x) (ms_conns x) (ms_serve x) (ms_stop x)
    (ms_logged x ++ l).

(** [if err != nil && err != http.ErrServerClosed] *)
Definition serve_failure (e : error) : list string :=
  if bool_decide (e = ErrServerClosed) then [] else ["metrics server failed"].

(** The server's socket is bound. *)
Definition holds_port (x : MetricsServer) : bool :=
  match ms_serve x with VTrack => true | VAccept => negb (ms_shut x) | _ => false end.

(** A step, with the ports that are taken on the host. net/http's Server asks whether a
    Shutdown has begun before it binds the port and again before it accepts; Shutdown closes
    the listener that accepts, and then waits for the connections without a limit. *)
Inductive ms_step : MetricsServer * gset Z → MetricsServer * gset Z → Prop :=
| ms_cancel x ports :
    ms_ctx x = false → ms_step (x, ports) (ms_signals true (ms_shut x) x, ports)
| ms_log x ports :
    ms_serve x = VLog →
    ms_step (x, ports) (ms_serves VListen (ms_logs ["metrics server listening"] x), ports)
| ms_listen x ports :
    ms_serve x = VListen →
    ms_step (x, ports) (ms_serves (if ms_shut x then VReturned ErrServerClosed else VBind) x, ports)
| ms_bind x ports :
    ms_serve x = VBind → ms_port x ∉ ports →
    ms_step (x, ports) (ms_serves VTrack x, {[ms_port x]} ∪ ports)
| ms_bind_failed e x ports :            (* the port is taken, or the system refuses *)
    ms_serve x = VBind → e ≠ ErrServerClosed → ms_step (x, ports) (ms_serves (VReturned e) x, ports)
| ms_track x ports :
    ms_serve x = VTrack → ms_shut x = false → ms_step (x, ports) (ms_serves VAccept x, ports)
| ms_too_late x ports :
    ms_serve x = VTrack → ms_shut x = true →
    ms_step (x, ports) (ms_serves (VReturned ErrServerClosed) x, ports ∖ {[ms_port x]})
| ms_accept x ports :
    ms_serve x = VAccept → ms_shut x = false →
    ms_step (x, ports) (ms_connections (S (ms_conns x)) x, ports)
| ms_accept_failed e x ports :
    ms_serve x = VAccept → ms_shut x = false → e ≠ ErrServerClosed →
    ms_step (x, ports) (ms_serves (VReturned e) x, ports ∖ {[ms_port x]})
| ms_closed x ports :
    ms_serve x = VAccept → ms_shut x = true →
    ms_step (x, ports) (ms_serves (VReturned ErrServerClosed) x, ports)
| ms_returned e x ports :
    ms_serve x = VReturned e →
    ms_step (x, ports) (ms_serves VGone (ms_logs (serve_failure e) x), ports)
| ms_conn_ends n x ports :
    ms_conns x = S n → ms_step (x, ports) (ms_connections n x, ports)
| ms_ctx_done x ports :
    ms_stop x = TWait → ms_ctx x = true → ms_step (x, ports) (ms_stops TShutdown x, ports)
| ms_shutdown x ports :
    ms_stop x = TShutdown →
    ms_step (x, ports) (ms_stops TIdle (ms_signals (ms_ctx x) true x),
                        match ms_serve x with VAccept => ports ∖ {[ms_port x]} | _ => ports end)
| ms_quiet x ports :
    ms_stop x = TIdle → ms_conns x = 0%nat → ms_step (x, ports) (ms_stops TGone x, ports)
| ms_close_failed x ports :             (* the listener's Close failed *)
    ms_stop x = TIdle → ms_conns x = 0%nat →
    ms_step (x, ports)
      (ms_stops TGone (ms_logs ["metrics server shutdown failed"] x), ports).

(** What is known of it on the way, if the ports [taken] were taken when it started. *)
Record server_inv (port : Z) (taken : gset Z) (x : MetricsServer) (ports : gset Z) : Prop := {
  si_port : ms_port x = port;
  si_ports : ports = if holds_port x then {[port]} ∪ taken else taken;
  si_free : holds_port x = true → port ∉ taken;
  si_shut : ms_shut x = true ↔ ms_stop x = TIdle ∨ ms_stop x = TGone;
  si_quiet : ms_stop x = TGone → ms_conns x = 0%nat;
  si_accept : ms_serve x = VAccept → port ∉ taken;
  si_failed : port ∈ taken → ms_shut x = false →
    match ms_serve x with
    | VReturned e => e ≠ ErrServerClosed
    | VGone => "metrics server failed" ∈ ms_logged x
    | _ => True
    end;
}.

Lemma start_inv port taken : server_inv port taken (StartServer port) taken.
Proof. split; cbn; try done. by split; [|intros []]. Qed.

Lemma release (port : Z) (taken : gset Z) : port ∉ taken → ({[port]} ∪ taken) ∖ {[port]} = taken.
Proof. set_solver. Qed.

Lemma server_inv_step port taken x ports x' ports' :
  ms_step (x, ports) (x', ports') → server_inv port taken x ports →
  server_inv port taken x' ports'.
Proof.
  intros Hs [Hp Hps Hfr Hsh Hq Ha Hf]. destruct x as [p ctx shut conns serve stop logged].
  unfold holds_port in *. cbn in Hp, Hps, Hfr, Hsh, Hq, Ha, Hf.
  assert (Hwait : stop = TWait ∨ stop = TShutdown → shut = false).
  { intros Hst. destruct shut; [|done]. destruct (proj1 Hsh eq_refl), Hst; congruence. }
  inversion Hs; cbn in *; subst; split; cbn in *; try done.
  all: try (by destruct shut; rewrite ?release by auto).
  all: try (by rewrite release by auto).
  all: try (by auto).
  all: try tauto.
  - intros Hst. pose proof (proj2 Hsh (or_intror Hst)) as Hx. discriminate Hx.
  - intros Hin Hsf. unfold serve_failure. rewrite bool_decide_false by auto.
    apply elem_of_app. right. left.
  - intros Hst. specialize (Hq Hst). discriminate Hq.
  - rewrite Hwait by auto. by split; [|intros []].
  - rewrite Hwait in * by auto. destruct serve; cbn in *; rewrite ?release by auto; done.
  - by destruct serve.
  - destruct serve; try done; try (by auto). intros Hin Hsf. apply elem_of_app. left. by apply Hf.
Qed.

Definition server_reaches (port : Z) (taken : gset Z) : MetricsServer * gset Z → Prop :=
  rtc ms_step (StartServer port, taken).

Lemma server_reaches_inv port taken c :
  server_reaches port taken c → server_inv port taken c.1 c.2.
Proof.
  unfold server_reaches. intros Hr. remember (StartServer port, taken) as c0 eqn:Hc0.
  assert (server_inv port taken c0.1 c0.2) as Hi by (subst; apply start_inv). clear Hc0.
  induction Hr as [|[x1 p1] [x2 p2] c3 H12 _ IH]; [done|]. by eapply IH, server_inv_step.
Qed.

(** The steps left once Shutdown has begun. *)
Definition serve_rank (v : serve_pc) : nat :=
  match v with
  | VLog => 6 | VListen => 5 | VBind => 4 | VTrack => 3 | VAccept => 2 | VReturned _ => 1
  | VGone => 0
  end.
Definition stop_rank (t : stop_pc) : nat :=
  match t with TWait => 3 | TShutdown => 2 | TIdle => 1 | TGone => 0 end.
Definition server_measure (x : MetricsServer) : nat :=
  serve_rank (ms_serve x) + stop_rank (ms_stop x) + ms_conns x + (if ms_ctx x then 0 else 1).

Lemma ms_step_measure x ports x' ports' :
  ms_step (x, ports) (x', ports') → ms_shut x = true →
  ms_shut x' = true ∧ (server_measure x' < server_measure x)%nat.
Proof.
  unfold server_measure. destruct x as [p ctx shut conns serve stop logged].
  intros Hs Hsh. cbn in Hsh. subst. inversion Hs; cbn in *; subst; cbn; split; try done; lia.
Qed.

(** Either goroutine can go on until it is over; then the port is free again. *)
Lemma server_progress port taken x ports :
  server_inv port taken x ports → ms_shut x = true →
  (ms_serve x = VGone ∧ ms_stop x = TGone ∧ ports = taken) ∨ ∃ c, ms_step (x, ports) c.
Proof.
  intros [_ Hps _ Hsh _ _ _] Hshut. unfold holds_port in Hps.
  destruct (ms_serve x) as [| | | | |e|] eqn:Hv.
  - right. eexists. by apply ms_log.
  - right. eexists. by apply ms_listen.
  - right. eexists. by apply (ms_bind_failed ErrCanceled).
  - right. eexists. by apply ms_too_late.
  - right. eexists. by apply ms_closed.
  - right. eexists. by eapply ms_returned.
  - destruct (proj1 Hsh Hshut) as [Ht|Ht]; [|by left]. right.
    destruct (ms_conns x) as [|n] eqn:Hn; eexists; [by apply ms_quiet|by eapply ms_conn_ends].
Qed.

(** The metrics server stops: from the moment at which Shutdown begins, whatever the two
    goroutines and the scraping clients do, and in whatever order - the server may still be on
    its way to binding its port -, after finitely many steps both goroutines are over and no
    more than the ports that were taken before are taken: no listener is left behind. And
    while it has not been told to stop, a server whose port was taken when it started has
    never accepted, and if it is over it has logged its failure: that is all that happens. *)
Theorem metrics_server_stops port taken x ports :
  server_reaches port taken (x, ports) →
  (ms_shut x = true →
   inevitable ms_step (λ c, ms_serve c.1 = VGone ∧ ms_stop c.1 = TGone ∧ c.2 = taken) (x, ports)) ∧
  (port ∈ taken → ms_shut x = false →
   ms_serve x ≠ VAccept ∧ (ms_serve x = VGone → "metrics server failed" ∈ ms_logged x)).
Proof.
  intros Hr%server_reaches_inv. cbn in Hr. split.
  - intros Hsh. apply (acc_inevitable _ (λ c, ms_shut c.1 = true ∧ server_inv port taken c.1 c.2)).
    + remember (server_measure x) as n eqn:Hn. clear Hr. revert x ports Hn Hsh.
      induction n as [n IH] using lt_wf_ind. intros x ports Hn Hsh. constructor. intros [x' ports'] Hs.
      destruct (ms_step_measure _ _ _ _ Hs Hsh) as [Hsh' Hlt]. eapply IH; [|done..]. lia.
    + done.
    + intros [x1 p1] [x2 p2] [H1 H2] Hs. split; [|by eapply server_inv_step].
      by destruct (ms_step_measure _ _ _ _ Hs H1).
    + intros [x1 p1] [H1 H2]. by eapply server_progress.
  - intros Hin Hsh. split; [intros Ha; by apply (si_accept _ _ _ _ Hr Ha)|].
    intros Hg. pose proof (si_failed _ _ _ _ Hr Hin Hsh) as Hf. by rewrite Hg in Hf.
Qed.
