(* ===== verification/Drain.v ===== *)
(** * The queue drains

    Liveness of the whole way of a job: rounds in which the dispatcher ticks, the workers
    execute what they were given and the collector applies their results. As long as each
    round finds one healthy worker with free capacity, every job of the queue comes to its
    end, after a number of rounds known in advance. *)

From S2P Require Import Prelude GoStd Decimal Models GoTime Json JsonFacts Compact World MemEnv.
From S2P Require Import Sql Lifecycle JobsRepo JobsSpec WorkersRepo WorkersSpec DeadLettersRepo.
From S2P Require Import Broker BrokerSpec Dispatcher DispatcherSpec Cache CacheSpec Collector.
From S2P Require Import Monitor Worker WorkerSpec Quiet System.

(** ** Sums over a table *)

Section sums.
Context {A : Type} (cost : A → nat).
Implicit Types t : gmap uuid A.

Definition total t : nat := map_fold (λ _ a n, cost a + n)%nat 0%nat t.

Lemma total_delete t id a : t !! id = Some a → total t = (cost a + total (delete id t))%nat.
Proof.
  intros Hid.
  apply (map_fold_delete_L (λ _ a n, cost a + n)%nat); [|done]. intros; lia. Qed.

Lemma total_insert t id a : t !! id = None → total (<[id := a]> t) = (cost a + total t)%nat.
Proof.
  intros Hid.
  apply (map_fold_insert_L (λ _ a n, cost a + n)%nat); [|done]. intros; lia. Qed.

Lemma total_le t t' :
  (∀ id a', t' !! id = Some a' → ∃ a, t !! id = Some a ∧ (cost a' ≤ cost a)%nat) →
  (total t' ≤ total t)%nat.
Proof.
  revert t. induction t' as [|id a' t' Hid IH] using map_ind; intros t Ht.
  { unfold total at 1. rewrite map_fold_empty. lia. }
  destruct (Ht id a') as (a & Ha & Hle); [by rewrite lookup_insert_eq|].
  rewrite total_insert, (total_delete t id a) by done.
  assert (total t' ≤ total (delete id t))%nat; [|lia].
  apply IH. intros k b Hk. assert (k ≠ id) by (intros ->; by rewrite Hid in Hk).
  rewrite lookup_delete_ne by done. apply Ht. by rewrite lookup_insert_ne.
Qed.

Lemma total_lt t t' id a a' :
  t !! id = Some a → t' !! id = Some a' → (cost a' < cost a)%nat →
  (∀ id a', t' !! id = Some a' → ∃ a, t !! id = Some a ∧ (cost a' ≤ cost a)%nat) →
  (total t' < total t)%nat.
Proof.
  intros Ha Ha' Hlt Ht. rewrite (total_delete t id a), (total_delete t' id a') by done.
  assert (total (delete id t') ≤ total (delete id t))%nat; [|lia].
  apply total_le. intros k b [Hne Hk]%lookup_delete_Some. rewrite lookup_delete_ne by done.
  by apply Ht.
Qed.

Lemma total_pos t : (0 < total t)%nat → ∃ id a, t !! id = Some a ∧ (0 < cost a)%nat.
Proof.
  induction t as [|id a t Hid IH] using map_ind; [unfold total; rewrite map_fold_empty; lia|].
  rewrite total_insert by done. intros H. destruct (decide (cost a = 0)%nat) as [H0|H0].
  - destruct IH as (k & b & Hk & Hb); [lia|]. exists k, b. split; [|done].
    rewrite lookup_insert_ne; [done|]. intros ->. by rewrite Hid in Hk.
  - exists id, a. rewrite lookup_insert_eq. split; [done|lia].
Qed.

Lemma total_zero t : total t = 0%nat → ∀ id a, t !! id = Some a → cost a = 0%nat.
Proof. intros H0 id a Ha. rewrite (total_delete t id a) in H0 by done. lia. Qed.

Lemma total_bound n t : (∀ id a, t !! id = Some a → (cost a ≤ n)%nat) → (total t ≤ n * size t)%nat.
Proof.
  induction t as [|id a t Hid IH] using map_ind; intros Ht.
  { unfold total. rewrite map_fold_empty. lia. }
  rewrite total_insert, map_size_insert_None by done.
  assert (cost a ≤ n)%nat by (eapply Ht, lookup_insert_eq).
  assert (total t ≤ n * size t)%nat; [|lia].
  apply IH. intros k b Hk. apply (Ht k). rewrite lookup_insert_ne; [done|]. intros ->.
  by rewrite Hid in Hk.
Qed.
End sums.


(** ** Rounds *)

Section drain.
Context `{E : Env}.
Implicit Types (w : World).

(** The messages written between two worlds. *)
Definition new_messages w w' : list KafkaMessage := drop (length (w_log w)) (w_log w').

(** The worker that a message of the topic jobs is for executes its job. *)
Definition execute_message (rs : gmap string JobRunner) (m : KafkaMessage) (ins : list Input) w
    : World :=
  match Decode (T := JobMessage) (km_value m) with
  | Ok jm =>
      match kafka_handle (jm_WorkerID jm) (km_value m) with
      | Deliver j => (run (execute (R := kafka_ReportResult (jm_WorkerID jm)) rs j) ins w).2
      | _ => w
      end
  | Err _ => w
  end.

(** The collector handles a message. *)
Definition collect_message (ins : list Input) w (m : KafkaMessage) : World :=
  (run (HandleResult true (km_key m) (km_value m)) ins w).2.

(** A job's message is executed, and then what was published is collected. *)
Definition serve (rs : gmap string JobRunner) (i : list Input * list Input) w (m : KafkaMessage)
    : World :=
  let w1 := execute_message rs m i.1 w in foldl (collect_message i.2) w1 (new_messages w w1).

Fixpoint serve_all (rs : gmap string JobRunner) (ios : list (list Input * list Input))
    (ms : list KafkaMessage) w : World :=
  match ms with
  | [] => w
  | m :: ms' => serve_all rs (tl ios) ms' (serve rs (hd ([], []) ios) w m)
  end.

(** The inputs of one round. *)
Record Round : Type := mkRound {
  rd_tick : list Input;
  rd_serve : list (list Input * list Input);
}.

(** A tick of the dispatcher, and every message that it published is served. *)
Definition drain_round (rs : gmap string JobRunner) (rd : Round) w : World :=
  let w1 := (run dispatcher_tick (rd_tick rd) w).2 in
  serve_all rs (rd_serve rd) (new_messages w w1) w1.

(** The services answer, and no other transaction is in the way. *)
Definition answering (rd : Round) : Prop :=
  all_done (rd_tick rd) ∧ Forall (λ i, in_locked i = ∅) (rd_tick rd) ∧
  Forall (λ i, all_done i.1 ∧ all_done i.2) (rd_serve rd).

(** Some worker is healthy and has free capacity. *)
Definition someone_free (now : Time) w : Prop :=
  ∃ wid x, w_workers w !! wid = Some x ∧ healthy now dispatch_stale_seconds x = true ∧
           (0 < capacity x)%nat.

(** [n] rounds. Before each one anything may happen that leaves the jobs alone, heartbeats in
    particular, and someone is free when it begins. *)
Inductive rounds : nat → World → World → Prop :=
| rounds_0 w : rounds 0 w w
| rounds_S n rd w w1 w2 :
    w_jobs w1 = w_jobs w → Inv w1 → answering rd →
    someone_free (in_now (hd default_input (rd_tick rd))) w1 →
    rounds n (drain_round runners rd w1) w2 → rounds (S n) w w2.

(** The tries that a job may still need: up to three attempts in all, and one at least. *)
Definition tries (j : Job) : nat :=
  if pending j then Z.to_nat (Z.max 1 (3 - job_Attempts j)) else 0.

(** The rounds that are enough. *)
Definition rounds_needed w : nat := total tries (w_jobs w).

(** Every pending job can be sent to a worker, and its attempts have room. *)
Definition ready w : Prop :=
  ∀ id j, w_jobs w !! id = Some j → pending j = true →
    typed_row j ∧ int32_ok (job_Attempts j + 1) = true.

(** What a round does to a row: nothing, or one attempt at a pending job. *)
Definition attempted (j j' : Job) : Prop :=
  pending j = true ∧ same_identity j j' ∧ job_Attempts j' = job_Attempts j + 1 ∧
  (job_Status j' = JobStatusCompleted ∨
   job_Status j' = JobStatusRetrying ∧ job_Attempts j' < 3 ∨
   job_Status j' = JobStatusDead ∧ 3 ≤ job_Attempts j').

(** What rounds do to a row. *)
Definition progressed (j j' : Job) : Prop :=
  j' = j ∨
  pending j = true ∧ same_identity j j' ∧ job_Attempts j ≤ job_Attempts j' ∧
  (job_Status j' = JobStatusCompleted ∨ job_Status j' = JobStatusDead ∧ 3 ≤ job_Attempts j' ∨
   pending j' = true).

Lemma pending_status j s :
  job_Status j = s →
  pending j = match s with JobStatusQueued | JobStatusRetrying => true | _ => false end.
Proof. intros Hs. unfold pending. rewrite Hs. by destruct s. Qed.

Lemma attempted_tries j j' : 0 ≤ job_Attempts j → attempted j j' → (tries j' < tries j)%nat.
Proof.
  intros H0 (Hp & _ & Ha & Hs). unfold tries. rewrite Hp, Ha.
  destruct Hs as [Hs|[[Hs Hlt]|[Hs _]]]; rewrite (pending_status j' _ Hs); cbn; lia.
Qed.
End drain.

(** ** Serving *)

Section serving.
Context `{E : Env, !UuidLaws, !RedisLaws}.
Implicit Types (w : World).

(** The runners of cmd/worker leave the world as it is. *)
Lemma attempt_runners job ins w : all_done ins → ∃ r, attempt runners job ins w = (r, w).
Proof.
  intros Hd. unfold attempt. destruct (runners !! job_Type job) as [r|] eqn:Hr; [|by eexists].
  unfold runners in Hr. rewrite !lookup_insert_Some, lookup_empty in Hr.
  destruct Hr as [[_ <-]|[_ [[_ <-]|[_ ?]]]]; [by eexists| |done].
  unfold SleepRunner. destruct (sleep_duration _); [|by eexists].
  unfold sleep. rewrite run_call, perform_all_done by done. by eexists.
Qed.

Lemma new_messages_app w w' ms : w_log w' = w_log w ++ ms → new_messages w w' = ms.
Proof. intros Hl. unfold new_messages. rewrite Hl. apply drop_app_length. Qed.

(** The message of a job is executed: one result is on the topic. *)
Lemma execute_message_spec wid j m ins w :
  message_of (wid, j) m → json_text (job_Payload j) → typed_row j →
  int64_ok (job_Attempts j) = true → all_done ins →
  ∃ m2 rm, execute_message runners m ins w = set_log (w_log w ++ [m2]) w ∧
    km_topic m2 = TopicResults ∧ Decode (km_value m2) = Ok rm ∧ rm_JobID rm = job_ID j.
Proof.
  intros (_ & _ & Hb) Hp [Ht Hprio] Ha Hd. unfold execute_message.
  pose proof (JobMessage_decode (assignment wid j) _ Ht Hprio Ha Hb) as Hdec.
  rewrite Hdec. unfold kafka_handle. rewrite Hdec, bool_decide_true by done.
  cbn [jm_WorkerID assignment]. set (job := received_job _).
  rewrite run_execute. destruct (attempt_runners job ins w Hd) as [r Hr]. rewrite Hr.
  destruct (result_Marshal_ok wid job (succeeded r) (report_text r)) as [body Hbody].
  { right. by apply carried_json. }
  unfold ReportResult, kafka_ReportResult. rewrite run_bind.
  rewrite (run_Publish TopicResults _ _ body); [|apply list_elem_of_In; cbn; auto|done|].
  - eexists _, _. split; [done|]. split; [done|]. cbn [km_value]. split.
    + by apply (ResultMessage_decode_any (result_of wid job (succeeded r) (report_text r))).
    + done.
  - unfold attempt_rest. destruct (runners !! _); [by apply all_done_rest|done].
Qed.

Lemma serve_row wid j m i w :
  message_of (wid, j) m → w_jobs w !! job_ID j = Some j → json_text (job_Payload j) →
  typed_row j → int64_ok (job_Attempts j) = true → all_done i.1 → all_done i.2 →
  ∃ b t, w_jobs (serve runners i w m) = <[job_ID j := result_row b t j]> (w_jobs w).
Proof.
  intros Hm Hj Hp Ht Ha H1 H2.
  destruct (execute_message_spec wid j m i.1 w Hm Hp Ht Ha H1) as (m2 & rm & Hex & _ & Hdec & Hid).
  unfold serve. rewrite Hex, (new_messages_app w _ [m2]) by done. cbn [foldl].
  unfold collect_message, HandleResult. rewrite Hdec, run_bind.
  destruct (run_apply_result rm j i.2 (set_log (w_log w ++ [m2]) w) H2)
    as (w3 & ms & t & -> & Hjobs & _); [by rewrite Hid|by eapply ResultMessage_payload|].
  cbn [fst snd].
  destruct (run_invalidate (rm_JobID rm) (Ok tt : Res unit) (run_rest (apply_result rm) i.2
    (set_log (w_log w ++ [m2]) w)) w3) as (rd & t0 & -> & _); [by apply all_done_rest|].
  exists (rm_Success rm), t. cbn. by rewrite Hjobs, Hid.
Qed.

(** All messages of a tick are served. *)
Lemma serve_all_rows l ms ios w :
  Forall2 message_of l ms → NoDup ((λ a, job_ID a.2) <$> l) →
  Forall (λ i, all_done i.1 ∧ all_done i.2) ios →
  Forall (λ a : uuid * Job, w_jobs w !! job_ID a.2 = Some a.2 ∧ json_text (job_Payload a.2) ∧
    typed_row a.2 ∧ int64_ok (job_Attempts a.2) = true) l →
  let w' := serve_all runners ios ms w in
  (∀ id, id ∉ (λ a, job_ID a.2) <$> l → w_jobs w' !! id = w_jobs w !! id) ∧
  Forall (λ a : uuid * Job, ∃ b t, w_jobs w' !! job_ID a.2 = Some (result_row b t a.2)) l.
Proof.
  intros Hms. revert ios w. induction Hms as [|[wid j] m l ms Hm Hms IH]; intros ios w HN Hios Hl.
  { split; [done|constructor]. }
  rewrite fmap_cons in HN. apply NoDup_cons in HN as [Hj HN].
  apply Forall_cons in Hl as [(Hrow & Hp & Ht & Ha) Hl]. cbn [fst snd] in *.
  assert (Hi : all_done (hd ([], []) ios).1 ∧ all_done (hd ([], []) ios).2).
  { destruct Hios; [split; constructor|done]. }
  destruct (serve_row wid j m (hd ([], []) ios) w Hm Hrow Hp Ht Ha (proj1 Hi) (proj2 Hi))
    as (b & t & Hs).
  destruct (IH (tl ios) (serve runners (hd ([], []) ios) w m) HN) as [Hframe Hrows].
  { by destruct Hios. }
  { rewrite Forall_forall in Hl |- *. intros a Hin. rewrite Hs, lookup_insert_ne; [by apply Hl|].
    intros Heq. apply Hj. rewrite Heq. by apply (list_elem_of_fmap_2 (λ a : uuid * Job, job_ID a.2)). }
  cbn [serve_all]. split.
  - intros id Hid. rewrite fmap_cons, not_elem_of_cons in Hid. destruct Hid as [Hne Hid].
    rewrite (Hframe id Hid), Hs. by apply lookup_insert_ne.
  - constructor; [|done]. cbn [snd]. exists b, t. rewrite Hframe by done. rewrite Hs.
    apply lookup_insert_eq.
Qed.
End serving.

(** ** The invariant *)

Section rounds_invariant.
Context `{E : Env, !OrderByLaws, !JsonbLaws}.
Implicit Types (w : World).

Lemma serve_inv rs i w m : runners_safe rs → Inv w → Inv (serve rs i w m).
Proof.
  intros Hrs HI. unfold serve.
  assert (HI1 : Inv (execute_message rs m i.1 w)).
  { unfold execute_message. destruct (Decode _) as [jm|]; [|done].
    destruct (kafka_handle _ _) as [j| |]; try done.
    eapply run_inv; [|done]. by apply execute_safe. }
  generalize (new_messages w (execute_message rs m i.1 w)) as ms. revert HI1.
  generalize (execute_message rs m i.1 w) as w1. intros w1 HI1 ms. revert w1 HI1.
  induction ms as [|m2 ms IH]; intros w1 HI1; [done|]. apply IH.
  unfold collect_message. eapply run_inv; [|done]. apply HandleResult_safe.
Qed.

Lemma serve_all_inv rs ios ms w : runners_safe rs → Inv w → Inv (serve_all rs ios ms w).
Proof.
  intros Hrs. revert ios w. induction ms as [|m ms IH]; intros ios w HI; [done|].
  by apply IH, serve_inv.
Qed.

(** A round, whatever fails in it, keeps the invariant. *)
Lemma drain_round_inv rs rd w : runners_safe rs → Inv w → Inv (drain_round rs rd w).
Proof.
  intros Hrs HI. apply serve_all_inv; [done|]. eapply run_inv; [|done]. apply dispatcher_tick_safe.
Qed.
End rounds_invariant.

(** ** What a round does *)

Section draining.
Context `{E : Env, !OrderByLaws, !JsonbLaws, !UuidLaws, !RedisLaws}.
Implicit Types (w : World).

Lemma result_attempted j j1 b t :
  pending j = true → same_identity j j1 → job_Attempts j1 = job_Attempts j + 1 →
  attempted j (result_row b t j1).
Proof.
  intros Hp Hid Ha. split_and!; [done|done|done|].
  cbn. unfold result_status. destruct b; [by left|]. rewrite Ha. unfold maxAttempts.
  destruct (Z.leb_spec 3 (job_Attempts j + 1)); [right; right|right; left]; by split.
Qed.

(** Each row: as it was, or one attempt further; the assigned ones are. *)
Lemma assigned_rows l w w1 w' :
  assigned_post w w1 l →
  (∀ id, id ∉ (λ a, job_ID a.2) <$> l → w_jobs w' !! id = w_jobs w1 !! id) →
  Forall (λ a : uuid * Job, ∃ b t, w_jobs w' !! job_ID a.2 = Some (result_row b t a.2)) l →
  (∀ id, id ∉ (λ a, job_ID a.2) <$> l → w_jobs w' !! id = w_jobs w !! id) ∧
  (∀ id, id ∈ (λ a, job_ID a.2) <$> l → ∃ j j',
     w_jobs w !! id = Some j ∧ w_jobs w' !! id = Some j' ∧ attempted j j').
Proof.
  intros P Hframe Hrows. split.
  - intros id Hid. by rewrite (Hframe id Hid), (ap_frame _ _ _ P id Hid).
  - intros id ([wid j1] & -> & Hin)%list_elem_of_fmap. rewrite Forall_forall in Hrows.
    destruct (Hrows _ Hin) as (b & t & Hj'). cbn [snd] in *.
    destruct (ap_rows _ _ _ P wid j1 Hin) as (j & Hj & Hp & _ & Hid & _ & _ & Ha).
    exists j, (result_row b t j1). split_and!; [done|done|by apply result_attempted].
Qed.

(** One round: every row is as it was or one attempt further, and when a job is pending some
    row is further. *)
Lemma round_rows rd w :
  Inv w → ready w → answering rd → someone_free (in_now (hd default_input (rd_tick rd))) w →
  ∃ ids : list uuid, let w' := drain_round runners rd w in
  (∀ id, id ∉ ids → w_jobs w' !! id = w_jobs w !! id) ∧
  (∀ id, id ∈ ids → ∃ j j', w_jobs w !! id = Some j ∧ w_jobs w' !! id = Some j' ∧
     attempted j j') ∧
  ((∃ id j, w_jobs w !! id = Some j ∧ pending j = true) → ids ≠ []).
Proof.
  intros HI Hready (Hd & Hlk & Hios) (wid & x & Hx & Hh & Hcap).
  destruct (run_tick (rd_tick rd) w HI Hd Hlk) as (l & w1 & Hrun & P & _ & Hfull).
  destruct (ap_log _ _ _ P) as (ms & Hlog & Hms).
  destruct (serve_all_rows l ms (rd_serve rd) w1 Hms (ap_NoDup _ _ _ P) Hios)
    as [Hframe Hrows].
  { apply Forall_forall. intros [k j1] Hin. cbn [snd].
    destruct (ap_rows _ _ _ P k j1 Hin) as (j & Hj & Hp & Hj1 & (Hid & Ht & Hpl & Hpr & _) & _ & _ & Ha).
    destruct (Hready _ _ Hj Hp) as [[Hty Hprio] H32].
    split_and!; [done|rewrite Hpl; apply (inv_jobs _ HI _ _ Hj)| |].
    - unfold typed_row. by rewrite Ht, Hpr.
    - rewrite Ha. by apply int32_int64. }
  exists ((λ a, job_ID a.2) <$> l). unfold drain_round. rewrite Hrun. cbn [snd].
  rewrite (new_messages_app w w1 ms Hlog).
  destruct (assigned_rows l w w1 _ P Hframe Hrows) as [Hout Hin]. split_and!; [done|done|].
  intros (id & j & Hj & Hp) Hnil%fmap_nil_inv. subst l.
  specialize (Hfull (λ id j Hj Hp, proj2 (Hready id j Hj Hp)) id j).
  rewrite (ap_frame _ _ _ P id) in Hfull by apply not_elem_of_nil.
  specialize (Hfull Hj Hp wid x Hx Hh). cbn in Hfull. lia.
Qed.

(** A round does its part: rows progress, the queue stays ready, and while a job is pending
    fewer tries are left. *)
Lemma round_progress rd w :
  Inv w → ready w → answering rd → someone_free (in_now (hd default_input (rd_tick rd))) w →
  let w' := drain_round runners rd w in
  (∀ id j, w_jobs w !! id = Some j →
     ∃ j', w_jobs w' !! id = Some j' ∧ (j' = j ∨ attempted j j')) ∧
  ready w' ∧ (rounds_needed w' ≤ Nat.pred (rounds_needed w))%nat.
Proof.
  intros HI Hready Hans Hfree w'.
  destruct (round_rows rd w HI Hready Hans Hfree) as (ids & Hframe & Hrows & Hne).
  fold w' in Hframe, Hrows.
  assert (Hback : ∀ id j', w_jobs w' !! id = Some j' →
    ∃ j, w_jobs w !! id = Some j ∧ (j' = j ∨ attempted j j')).
  { intros id j' Hj'. destruct (decide (id ∈ ids)) as [Hin|Hout].
    - destruct (Hrows id Hin) as (j & j2 & Hj & Hj2 & Hat). rewrite Hj' in Hj2. simplify_eq. eauto.
    - rewrite (Hframe id Hout) in Hj'. eauto. }
  assert (Hcost : ∀ id j', w_jobs w' !! id = Some j' →
    ∃ j, w_jobs w !! id = Some j ∧ (tries j' ≤ tries j)%nat).
  { intros id j' Hj'. destruct (Hback id j' Hj') as (j & Hj & [->|Hat]); [by exists j|].
    exists j. split; [done|]. apply Nat.lt_le_incl, attempted_tries; [|done].
    apply (inv_jobs _ HI _ _ Hj). }
  split_and!.
  - intros id j Hj. destruct (decide (id ∈ ids)) as [Hin|Hout].
    + destruct (Hrows id Hin) as (j0 & j2 & Hj0 & Hj2 & Hat). rewrite Hj in Hj0. simplify_eq. eauto.
    + exists j. rewrite (Hframe id Hout). auto.
  - intros id j' Hj' Hp'. destruct (Hback id j' Hj') as (j & Hj & [->|(Hp & (_ & Ht & _ & Hpr & _) & Ha & Hs)]);
      [by eapply Hready|].
    destruct (Hready id j Hj Hp) as [[Hty Hprio] _]. unfold typed_row. rewrite Ht, Hpr, Ha.
    split; [done|]. pose proof (ok_attempts _ _ _ (inv_jobs _ HI _ _ Hj)) as Hnn.
    destruct Hs as [Hs|[[_ Hlt]|[Hs _]]]; [by rewrite (pending_status _ _ Hs) in Hp'| |
                                           by rewrite (pending_status _ _ Hs) in Hp'].
    unfold int32_ok, in_range. apply andb_true_iff. split; apply Z.leb_le; lia.
  - unfold rounds_needed. destruct ids as [|id ids].
    + destruct (total tries (w_jobs w)) as [|n] eqn:Hn.
      * pose proof (total_le tries _ _ Hcost). cbn. lia.
      * exfalso. apply Hne; [|done].
        destruct (total_pos tries (w_jobs w)) as (id & j & Hj & Hpos); [lia|].
        exists id, j. split; [done|]. unfold tries in Hpos. destruct (pending j); [done|lia].
    + destruct (Hrows id) as (j & j' & Hj & Hj' & Hat); [left|].
      assert (total tries (w_jobs w') < total tries (w_jobs w))%nat; [|lia].
      eapply total_lt; [exact Hj|exact Hj'| |done]. apply attempted_tries; [|done].
      apply (inv_jobs _ HI _ _ Hj).
Qed.

Lemma same_identity_trans j1 j2 j3 :
  same_identity j1 j2 → same_identity j2 j3 → same_identity j1 j3.
Proof. intros (?&?&?&?&?) (?&?&?&?&?). split_and!; congruence. Qed.

Lemma progressed_trans j1 j2 j3 :
  (j2 = j1 ∨ attempted j1 j2) → progressed j2 j3 → progressed j1 j3.
Proof.
  intros [->|(Hp & Hid & Ha & Hs)]; [done|]. intros [->|(_ & Hid' & Ha' & Hs')]; right.
  - split_and!; [done|done|lia|]. destruct Hs as [?|[[Hs ?]|?]]; [by left| |by right; left].
    right. right. by rewrite (pending_status _ _ Hs).
  - split_and!; [done|by eapply same_identity_trans|lia|done].
Qed.

Lemma rounds_progress n w w' :
  ready w → rounds n w w' →
  (∀ id j, w_jobs w !! id = Some j →
     ∃ j', w_jobs w' !! id = Some j' ∧ progressed j j') ∧
  (rounds_needed w' ≤ rounds_needed w - n)%nat.
Proof.
  intros Hready Hr. induction Hr as [w|n rd w w1 w2 Hj HI Hans Hfree _ IH].
  { split; [|lia]. intros id j Hj. exists j. split; [done|by left]. }
  assert (Hready1 : ready w1) by (unfold ready; by rewrite Hj).
  destruct (round_progress rd w1 HI Hready1 Hans Hfree) as (Hrows & Hready2 & Hn).
  destruct (IH Hready2) as [Hrows2 Hn2]. unfold rounds_needed in *. rewrite Hj in Hn. split; [|lia].
  intros id j Hid. rewrite <- Hj in Hid. destruct (Hrows id j Hid) as (j1 & Hj1 & Hor).
  destruct (Hrows2 id j1 Hj1) as (j2 & Hj2 & Hp). exists j2. split; [done|].
  by eapply progressed_trans.
Qed.

(** After enough rounds nothing is pending. *)
Lemma rounds_empty n w w' :
  ready w → rounds n w w' → (rounds_needed w ≤ n)%nat →
  ∀ id j', w_jobs w' !! id = Some j' → pending j' = false.
Proof.
  intros Hready Hr Hn id j' Hj'.
  destruct (rounds_progress n w w' Hready Hr) as [_ Hn'].
  assert (tries j' = 0%nat) as Ht by (eapply total_zero; [|exact Hj']; unfold rounds_needed in *; lia).
  unfold tries in Ht. destruct (pending j'); [lia|done].
Qed.

(** The queue drains: when the services answer and every round - a tick of the dispatcher, the
    workers executing what it published, the collector applying their results - finds at least
    one healthy worker with free capacity, then after as many rounds as the queue may need
    tries (at most three for a job, and one for a job that has had them) no job is pending: each
    job that was in the queue is COMPLETED, or DEAD after three attempts, with the same type,
    payload and priority, and every other job is as it was. *)
Lemma queue_drains n w w' :
  ready w → rounds n w w' → (rounds_needed w ≤ n)%nat →
  ∀ id j, w_jobs w !! id = Some j → ∃ j', w_jobs w' !! id = Some j' ∧ pending j' = false ∧
    if pending j
    then same_identity j j' ∧ (job_Status j' = JobStatusCompleted ∨
                               job_Status j' = JobStatusDead ∧ 3 ≤ job_Attempts j')
    else j' = j.
Proof.
  intros Hready Hr Hn id j Hj.
  destruct (rounds_progress n w w' Hready Hr) as [Hrows Hn'].
  destruct (Hrows id j Hj) as (j' & Hj' & Hp). exists j'.
  assert (Hdone : pending j' = false) by (by eapply rounds_empty).
  split_and!; [done|done|].
  destruct Hp as [->|(Hp & Hid & _ & Hs)]; [by rewrite Hdone|]. rewrite Hp. split; [done|].
  destruct Hs as [?|[?|Hs]]; [by left|by right|by rewrite Hdone in Hs].
Qed.

(** Three rounds for each job of the table are enough. *)
Lemma rounds_needed_le w : JobsInv w → (rounds_needed w ≤ 3 * size (w_jobs w))%nat.
Proof.
  intros HI. apply total_bound. intros id j Hj. unfold tries.
  pose proof (ok_attempts _ _ _ (HI id j Hj)). destruct (pending j); lia.
Qed.

(** The jobs that nobody works at: the queue, and the jobs of the workers that are gone. *)
Definition unattended (t : Time) w (j : Job) : Prop :=
  pending j = true ∨
  job_Status j = JobStatusRunning ∧
  ∃ wid x, job_WorkerID j = Some wid ∧ w_workers w !! wid = Some x ∧ gone t x.

(** A job that is in the queue, or is RUNNING and may come back to it, can be sent to a worker. *)
Definition sendable w : Prop :=
  ∀ id j, w_jobs w !! id = Some j → pending j = true ∨ job_Status j = JobStatusRunning →
    typed_row j ∧ int32_ok (job_Attempts j + 1) = true.

(** A sweep puts every job that nobody works at in the queue, and the queue stays ready. *)
Lemma sweep_requeues i1 i2 ins w :
  Inv w → sendable w → in_outcome i1 = Done → in_outcome i2 = Done →
  let w1 := (run monitor_tick (i1 :: i2 :: ins) w).2 in
  ready w1 ∧ size (w_jobs w1) = size (w_jobs w) ∧
  ∀ id j, w_jobs w !! id = Some j → unattended (in_now i1) w j →
    ∃ j1, w_jobs w1 !! id = Some j1 ∧ pending j1 = true ∧ same_identity j j1.
Proof.
  intros HI Hsend Hd1 Hd2.
  destruct (run_monitor_tick i1 i2 ins w HI Hd1 Hd2) as (w1 & -> & Hws & Hdom & Hrows).
  cbn [snd]. split_and!.
  - intros id j1 Hj1 Hp. destruct (proj1 (Hdom id)) as [j Hj]; [by rewrite Hj1|].
    destruct (Hrows id j Hj) as [(wid & Hs & _ & _ & Hj')|[Hj' _]]; rewrite Hj1 in Hj'; simplify_eq.
    + apply (Hsend id j Hj). by right.
    + apply (Hsend id j Hj). by left.
  - rewrite <- !size_dom. f_equal. apply set_eq. intros id. by rewrite !elem_of_dom.
  - intros id j Hj Hun. destruct (Hrows id j Hj) as [(wid & _ & _ & _ & Hj')|[Hj' Hkeep]].
    { eexists. split; [exact Hj'|]. by split_and!. }
    exists j. split_and!; [done| |by split_and!].
    destruct Hun as [Hp|(Hs & wid & x & Hwid & Hx & Hg)]; [done|]. exfalso.
    apply (Hkeep wid Hs Hwid). exists (marked (in_now i1) x). split; [cbn; by rewrite lookup_fmap, Hx|].
    left. by apply gone_marked.
Qed.

(** C10: no job is lost with its worker: when a sweep of the heartbeat monitor has succeeded and
    the rounds that follow - a tick of the dispatcher, the workers executing what it published,
    the collector applying their results - each find the services answering and at least one
    healthy worker with free capacity, then after three rounds for each job of the table every
    job that was in the queue, or was RUNNING on a worker that had fallen silent or was
    UNHEALTHY, is COMPLETED, or DEAD after three attempts, with the type, payload and priority
    it was submitted with, and the queue is empty. *)
Theorem lost_jobs_drain i1 i2 ins n w w' :
  Inv w → sendable w → in_outcome i1 = Done → in_outcome i2 = Done →
  rounds n (run monitor_tick (i1 :: i2 :: ins) w).2 w' → (3 * size (w_jobs w) ≤ n)%nat →
  (∀ id j, w_jobs w !! id = Some j → unattended (in_now i1) w j →
     ∃ j', w_jobs w' !! id = Some j' ∧ same_identity j j' ∧
       (job_Status j' = JobStatusCompleted ∨
        job_Status j' = JobStatusDead ∧ 3 ≤ job_Attempts j')) ∧
  (∀ id j', w_jobs w' !! id = Some j' → pending j' = false).
Proof.
  intros HI Hsend Hd1 Hd2 Hr Hn.
  destruct (sweep_requeues i1 i2 ins w HI Hsend Hd1 Hd2) as (Hready & Hsize & Hun).
  set (w1 := (run monitor_tick _ w).2) in *.
  assert (HI1 : Inv w1) by (by eapply run_inv; [apply monitor_tick_safe|]).
  assert (Hneed : (rounds_needed w1 ≤ n)%nat).
  { pose proof (rounds_needed_le w1 (inv_jobs _ HI1)). lia. }
  split; [|by eapply rounds_empty].
  intros id j Hj Hu. destruct (Hun id j Hj Hu) as (j1 & Hj1 & Hp & Hid).
  destruct (queue_drains n w1 w' Hready Hr Hneed id j1 Hj1) as (j' & Hj' & _ & Hend).
  rewrite Hp in Hend. destruct Hend as [Hid' Hend]. exists j'.
  split_and!; [done|by eapply same_identity_trans|done].
Qed.
End draining.
