(* ===== verification/Recovery.v ===== *)
(** * There is always a way out

    Whatever has happened to the system - lost calls, half-applied handlers, consumers that
    stopped, processes that died in the middle of something -, its own programs can bring every
    job of the table to its end from there: no state is a trap. The way is the one of Drain.v,
    taken by the programs of the delivering system (Provenance.v), beside all that is still in
    flight: a sweep, then rounds of a heartbeat, a tick, executions and results. *)

From S2P Require Import Prelude GoStd Decimal Models GoTime Json JsonFacts Compact World Growing.
From S2P Require Import MemEnv Sql Lifecycle JobsRepo JobsSpec WorkersRepo WorkersSpec.
From S2P Require Import DeadLettersRepo Broker BrokerSpec Dispatcher DispatcherSpec Cache CacheSpec.
From S2P Require Import Collector Monitor Http JobHandler OtherHandlers Router Worker WorkerSpec.
From S2P Require Import HeartbeatSpec Quiet System Provenance Drain.

(** ** Programs of the system, run to their ends beside the others *)

Section leads.
Context `{E : Env} {X : Mux}.
Implicit Types w : World.

(** With whatever else in flight, the system can go from [w] to [w']. *)
Definition leads w w' : Prop :=
  ∀ ps, ∃ ps', pool_steps kafka_process (ps, w) (ps', w').

#[export] Instance leads_preorder : PreOrder leads.
Proof.
  split; [by intros w ps; exists ps|]. intros w1 w2 w3 H12 H23 ps.
  destruct (H12 ps) as [ps2 ?]. destruct (H23 ps2) as [ps3 ?]. exists ps3. by etransitivity.
Qed.

Lemma leads_run p ins w : kafka_process w p → leads w (run p ins w).2.
Proof.
  intros Hp ps. eexists. eapply rtc_l; [by apply pool_start|]. apply run_pool.
Qed.

Lemma leads_discard {A} (p : Prog A) ins w :
  kafka_process w (discard p) → leads w (run p ins w).2.
Proof. intros Hp. pose proof (leads_run _ ins w Hp) as H. unfold discard in H. by rewrite run_bind in H. Qed.

(** A message of a topic, given to its consumer. *)
Definition deliver (m : KafkaMessage) : Turn := mkTurn (Ok m) (Ok tt) false.

Lemma delivers_deliver w topic m : m ∈ w_log w → km_topic m = topic → delivers w topic (deliver m).
Proof. intros Hm Ht m' [= <-]. by split. Qed.

Lemma leads_consumed (handler : Handler) m ins w :
  kafka_process w (discard (Consumer_Run handler [deliver m] nothing_consumed)) →
  leads w (run (handler (km_key m) (km_value m)) ins w).2.
Proof.
  intros Hp. pose proof (leads_discard _ ins w Hp) as H. cbn [Consumer_Run deliver tn_fetch] in H.
  rewrite run_bind in H. by destruct (run (handler _ _) ins w) as [[[]|e] w1].
Qed.
End leads.

Section known.
Context `{E : Env} {X : Mux} `{!OrderByLaws, !JsonbLaws, !UuidLaws, !TextLaws}.
Implicit Types w : World.

Lemma leads_known w w' : Known w → leads w w' → Known w' ∧ world_later w w'.
Proof.
  intros HK Hl. destruct (Hl []) as [ps Hps].
  destruct (pool_steps_from Known world_later kafka_process _ _ kafka_process_runs Hps)
    as [[_ ?] ?]; by try split.
Qed.

Lemma leads_log w w' m : Known w → leads w w' → m ∈ w_log w → m ∈ w_log w'.
Proof.
  intros HK Hl Hm. destruct (leads_known w w' HK Hl) as (_ & _ & _ & [l ->]).
  apply elem_of_app. by left.
Qed.

(** What is executed is collected. *)
Lemma serve_leads wid j m i w :
  Known w → m ∈ w_log w → message_of (wid, j) m → json_text (job_Payload j) → typed_row j →
  int64_ok (job_Attempts j) = true → all_done i.1 → leads w (serve runners i w m).
Proof.
  intros HK Hin Hm Hp Ht Ha Hdone.
  destruct (execute_message_spec wid j m i.1 w Hm Hp Ht Ha Hdone) as (m2 & rm & Hex & Htop & _).
  unfold serve. rewrite (new_messages_app w _ [m2]) by (by rewrite Hex). cbn [foldl].
  assert (Hleads : leads w (execute_message runners m i.1 w)).
  { unfold execute_message. destruct (Decode (km_value m)) as [jm|]; [|done].
    destruct (kafka_handle (jm_WorkerID jm) (km_value m)) as [job| |] eqn:Hk; try done.
    apply leads_discard, (kp_execute _ _ runners m); [apply runners_are_safe|
      apply runners_are_quiet|done|apply Hm|done]. }
  etransitivity; [exact Hleads|]. apply leads_consumed, kp_results, delivers_deliver; [|done].
  rewrite Hex. cbn. apply elem_of_app. right. by left.
Qed.

Lemma serve_all_leads l ms ios w :
  Known w → Forall2 message_of l ms → Forall (λ m, m ∈ w_log w) ms →
  Forall (λ i, all_done i.1 ∧ all_done i.2) ios →
  Forall (λ a : uuid * Job, json_text (job_Payload a.2) ∧ typed_row a.2 ∧
            int64_ok (job_Attempts a.2) = true) l →
  leads w (serve_all runners ios ms w).
Proof.
  intros HK Hms. revert ios w HK.
  induction Hms as [|[wid j] m l ms Hm Hms IH]; intros ios w HK Hin Hios Hl; [done|].
  apply Forall_cons in Hin as [Hin Hins]. apply Forall_cons in Hl as [(Hp & Ht & Ha) Hl].
  cbn [snd] in *.
  assert (leads w (serve runners (hd ([], []) ios) w m)) as Hs.
  { eapply serve_leads; [done..|]. destruct Hios as [|io ios [? _]]; [by constructor|done]. }
  cbn [serve_all]. etransitivity; [exact Hs|]. apply IH; [by apply (leads_known w)| |by destruct Hios|done].
  eapply Forall_impl; [exact Hins|]. intros m' Hm'. by eapply leads_log.
Qed.

(** A round is a run of the system. *)
Lemma round_leads rd w : Known w → ready w → answering rd → leads w (drain_round runners rd w).
Proof.
  intros HK Hready (Hd & Hlk & Hios). pose proof (kn_inv _ HK) as HI.
  destruct (run_tick (rd_tick rd) w HI Hd Hlk) as (l & w1 & Hrun & P & _).
  destruct (ap_log _ _ _ P) as (ms & Hlog & Hms).
  assert (Htick : leads w w1).
  { pose proof (leads_run (dispatcher_Run [Tick]) (rd_tick rd) w (kp_dispatcher w [Tick])) as Hl.
    cbn [dispatcher_Run] in Hl. rewrite run_bind, Hrun in Hl. exact Hl. }
  unfold drain_round. rewrite Hrun. cbn [snd]. rewrite (new_messages_app w w1 ms Hlog).
  etransitivity; [exact Htick|]. apply (serve_all_leads l); [by apply (leads_known w)|done| |done|].
  - apply Forall_forall. intros m Hm. rewrite Hlog. apply elem_of_app. by right.
  - apply Forall_forall. intros [k j1] Hin. cbn [snd].
    destruct (ap_rows _ _ _ P k j1 Hin) as (j & Hj & Hp & _ & (_ & Ht & Hpl & Hpr & _) & _ & _ & Ha).
    destruct (Hready _ _ Hj Hp) as [[Hty Hprio] H32]. split_and!.
    + rewrite Hpl. apply (inv_jobs _ HI _ _ Hj).
    + unfold typed_row. by rewrite Ht, Hpr.
    + rewrite Ha. by apply int32_int64.
Qed.
End known.

(** ** The way out *)

Section recovery.
Context `{E : Env} {X : Mux}.
Context `{!OrderByLaws, !JsonbLaws, !UuidLaws, !TextLaws, !RedisLaws}.
Implicit Types w : World.

(** An instant at which nobody has been heard of for the monitor's time, and that a message can
    carry. *)
Definition quiet_instant (t : Time) w : Prop :=
  time_marshals (wall_clock (local_offset t) t) = true ∧
  ∀ wid x, w_workers w !! wid = Some x → gone t x.

(** A job that nothing will change any more, unless a client or a late result does. *)
Definition final (j : Job) : Prop :=
  job_Status j = JobStatusCompleted ∨ job_Status j = JobStatusDead.

Definition at_time (t : Time) : Input := mkInput t 0%N ∅ Done.

(** A worker reports for work: the jobs are as they were, and someone is free. *)
Lemma beat_leads t (wid : uuid) host w :
  Known w → time_marshals (wall_clock (local_offset t) t) = true →
  pg_text (to_valid host) = true →
  ∃ w', leads w w' ∧ w_jobs w' = w_jobs w ∧ someone_free t w'.
Proof.
  intros HK Ht Hh. set (zero := mkFloat 0 0).
  destruct (run_SendHeartbeat wid host zero zero 0 (at_time t) [] w) as (body & Hb & Hsend);
    [constructor|done|]. cbn [in_now at_time] in *.
  set (m := mkKafkaMessage TopicHeartbeats (uuid_String wid) body) in *.
  set (w1 := set_log (w_log w ++ [m]) w) in *.
  assert (Hl1 : leads w w1).
  { pose proof (leads_discard (SendHeartbeat wid host zero zero 0) [at_time t] w) as Hl.
    rewrite Hsend in Hl. by apply Hl, kp_heartbeat. }
  assert (Hl2 : leads w1 (run (heartbeat_Handle (km_key m) (km_value m)) [at_time t] w1).2).
  { apply leads_consumed, kp_heartbeats, delivers_deliver; [|done].
    apply elem_of_app. right. by left. }
  destruct (leads_known w w1 HK Hl1) as [HK1 _].
  pose proof (run_heartbeat_Handle wid host zero zero 0 _ _ body (km_key m) (at_time t) [] w1
    (kn_inv _ HK1) eq_refl eq_refl Hb) as Hrun.
  cbn [km_value m] in Hl2. destruct (run (heartbeat_Handle _ _) _ w1) as [[[]|e] w2].
  - destruct Hrun as (_ & (Hj & _) & x & Hx & Hws). exists w2.
    split; [by etransitivity|]. split; [done|]. exists wid, x.
    destruct Hx as [_ _ _ _ Hn Hhealthy _]. split_and!.
    + rewrite Hws. apply lookup_insert_eq.
    + by apply Hhealthy.
    + unfold capacity. rewrite Hn. apply Nat.ltb_lt, eq_refl.
  - destruct Hrun as [_ []]. by split_and!.
Qed.

(** As many rounds as one likes. *)
Lemma rounds_lead n t host w :
  Known w → ready w → time_marshals (wall_clock (local_offset t) t) = true →
  pg_text (to_valid host) = true → ∃ w', leads w w' ∧ rounds n w w'.
Proof.
  intros HK Hready Ht Hh. revert w HK Hready. induction n as [|n IH]; intros w HK Hready.
  { exists w. split; [done|constructor]. }
  destruct (beat_leads t 0%N host w HK Ht Hh) as (w1 & Hl1 & Hj & Hfree).
  destruct (leads_known w w1 HK Hl1) as [HK1 _].
  set (rd := mkRound [at_time t] []).
  assert (Hans : answering rd) by (split_and!; repeat constructor).
  assert (Hready1 : ready w1) by (unfold ready; by rewrite Hj).
  assert (Hl2 : leads w1 (drain_round runners rd w1)) by (by apply round_leads).
  destruct (round_progress rd w1 (kn_inv _ HK1) Hready1 Hans Hfree) as (_ & Hready2 & _).
  destruct (IH (drain_round runners rd w1)) as (w' & Hl3 & Hr); [by apply (leads_known w1)|done|].
  exists w'. split; [by transitivity w1; [|transitivity (drain_round runners rd w1)]|]. by apply (rounds_S n rd w w1 w' Hj (kn_inv _ HK1) Hans Hfree).
Qed.

(** A sweep at an instant at which all are gone leaves no job RUNNING. *)
Lemma sweep_leads t w :
  Known w → quiet_instant t w →
  ∃ w1, leads w w1 ∧ (∀ id, is_Some (w_jobs w1 !! id) ↔ is_Some (w_jobs w !! id)) ∧
    ∀ id j, w_jobs w !! id = Some j → ∃ j1, w_jobs w1 !! id = Some j1 ∧
      same_identity j j1 ∧ job_Attempts j1 = job_Attempts j ∧
      (job_Status j = JobStatusRunning ∧ job_Status j1 = JobStatusQueued ∨
       job_Status j ≠ JobStatusRunning ∧ j1 = j).
Proof.
  intros HK [_ Hq]. pose proof (kn_inv _ HK) as HI.
  destruct (run_monitor_tick (at_time t) (at_time t) [] w HI eq_refl eq_refl)
    as (w1 & Hrun & Hws & Hdom & Hrows).
  exists w1. split_and!.
  - pose proof (leads_run (monitor_Run [Tick]) [at_time t; at_time t] w (kp_monitor w [Tick])) as Hl.
    cbn [monitor_Run] in Hl. rewrite run_bind, Hrun in Hl. exact Hl.
  - done.
  - intros id j Hj. destruct (Hrows id j Hj) as [(wid & Hs & _ & _ & Hj1)|[Hj1 Hkeep]].
    + eexists. split; [exact Hj1|]. split_and!; try done. by left.
    + exists j. split_and!; try done. right. split; [|done]. intros Hs.
      destruct (ok_running _ _ _ (inv_jobs _ HI _ _ Hj) Hs) as [[wid Hwid] _].
      destruct (ok_worker _ _ _ (inv_jobs _ HI _ _ Hj) wid Hwid) as [x Hx].
      apply (Hkeep wid Hs Hwid). exists (marked t x).
      split; [cbn; by rewrite lookup_fmap, Hx|]. left. by apply gone_marked, (Hq wid).
Qed.

(** What the sweep and the rounds after it make of a row. *)
Lemma swept_end j j1 j' :
  job_Status j ≠ JobStatusFailed → same_identity j j1 →
  (job_Status j = JobStatusRunning ∧ job_Status j1 = JobStatusQueued ∨
   job_Status j ≠ JobStatusRunning ∧ j1 = j) →
  (if pending j1
   then same_identity j1 j' ∧ (job_Status j' = JobStatusCompleted ∨
                               job_Status j' = JobStatusDead ∧ 3 ≤ job_Attempts j')
   else j' = j1) →
  final j ∧ j' = j ∨
  ¬ final j ∧ same_identity j j' ∧
  (job_Status j' = JobStatusCompleted ∨ job_Status j' = JobStatusDead ∧ 3 ≤ job_Attempts j').
Proof.
  intros Hnf Hid [[Hr Hq]|[Hnr ->]] Hend.
  - rewrite (pending_status _ _ Hq) in Hend. destruct Hend as [Hid' Hs]. right. split_and!; [|by eapply same_identity_trans|done].
    unfold final. rewrite Hr. by intros [].
  - rewrite (pending_status j (job_Status j) eq_refl) in Hend. unfold final.
    destruct (job_Status j); try done.
    + right. destruct Hend. split_and!; [by intros []|done..].
    + left. split; [by left|done].
    + right. destruct Hend. split_and!; [by intros []|done..].
    + left. split; [by right|done].
Qed.

(** C9: no state is a trap: whatever has run and whatever has failed - with handlers broken
    off, messages consumed and lost, jobs RUNNING on workers that are gone, and any programs
    still in flight -, the programs of the system can bring every job to its end from there:
    there is a continuation after which each job that was not yet COMPLETED or DEAD is
    COMPLETED, or DEAD after three attempts, with the type, payload and priority it was
    submitted with, and the others are as they were. It takes an instant at which nobody has
    been heard of for fifteen seconds, and a worker with a host name that the database
    stores; no attempt counter may be at the end of its range. *)
Theorem always_recoverable t host w0 ps w :
  fresh w0 → pool_steps kafka_process ([], w0) (ps, w) →
  quiet_instant t w → pg_text (to_valid host) = true →
  (∀ id j, w_jobs w !! id = Some j → int32_ok (job_Attempts j + 1) = true) →
  ∃ ps' w', pool_steps kafka_process (ps, w) (ps', w') ∧
    ∀ id j, w_jobs w !! id = Some j → ∃ j', w_jobs w' !! id = Some j' ∧
      (final j ∧ j' = j ∨
       ¬ final j ∧ same_identity j j' ∧
       (job_Status j' = JobStatusCompleted ∨
        job_Status j' = JobStatusDead ∧ 3 ≤ job_Attempts j')).
Proof.
  intros Hf Hr Hq Hh H32.
  destruct (kafka_known w0 w (fresh_known _ Hf)) as [HK _]; [by exists ps|].
  destruct (sweep_leads t w HK Hq) as (w1 & Hl1 & Hdom & Hsweep).
  destruct (leads_known w w1 HK Hl1) as [HK1 Hlater].
  assert (Hready : ready w1).
  { intros id j1 Hj1 _. split; [by eapply kn_typed|].
    destruct (proj1 (Hdom id)) as [j Hj]; [by rewrite Hj1|].
    destruct (Hsweep id j Hj) as (j2 & Hj2 & _ & Ha & _). rewrite Hj1 in Hj2. simplify_eq.
    rewrite Ha. eauto. }
  destruct (rounds_lead (3 * size (w_jobs w1)) t host w1 HK1 Hready (proj1 Hq) Hh)
    as (w' & Hl2 & Hrounds).
  destruct (Hl1 ps) as [ps1 Hps1]. destruct (Hl2 ps1) as [ps' Hps'].
  exists ps', w'. split; [by etransitivity|]. intros id j Hj.
  destruct (Hsweep id j Hj) as (j1 & Hj1 & Hid & _ & Hs).
  destruct (queue_drains _ w1 w' Hready Hrounds (rounds_needed_le w1 (inv_jobs _ (kn_inv _ HK1))) id j1 Hj1)
    as (j' & Hj' & _ & Hend).
  exists j'. split; [done|]. by apply (swept_end j j1 j'); [eapply ok_not_failed, (inv_jobs _ (kn_inv _ HK)), Hj|..].
Qed.
End recovery.
