(* ===== verification/Scenarios.v ===== *)
(** * Scenarios

    The theorems applied to concrete states and requests, with the in-memory services of
    MemEnv.v: each lemma shows that the hypotheses of a theorem can hold together. *)

From S2P Require Import Prelude GoStd Decimal Models GoTime Json JsonFacts Compact World MemEnv.
From S2P Require Import Sql Lifecycle JobsRepo JobsSpec WorkersRepo WorkersSpec DeadLettersRepo.
From S2P Require Import Broker BrokerSpec Dispatcher DispatcherSpec Assignment Monitor Leader Sha256.
From S2P Require Import Cache CacheSpec Collector Http JobHandler OtherHandlers Router HttpSpec Worker.
From S2P Require Import WorkerSpec Executor ExecutorSpec ExecutorLive Startup HeartbeatSpec System Growing Quiet Provenance.

#[local] Existing Instance mem_env.
#[local] Existing Instance mem_order_by.
#[local] Existing Instance mem_jsonb.
#[local] Existing Instance mem_uuid.
#[local] Existing Instance mem_text.
#[local] Existing Instance mem_redis.

(** ** The cast *)

(** An input at second [n] that draws the identifier [u]; every call is answered. *)
Definition at_second (n : Z) (u : uuid) : Input := mkInput (seconds n) u ∅ Done.
Definition lost_at (n : Z) (u : uuid) : Input :=
  mkInput (seconds n) u ∅ (Lost ErrDeadlineExceeded).

Definition worker7 : Worker :=
  mkWorker 7 "host-a" WorkerStatusActive (Some (mkFloat 0 0)) (Some (mkFloat 15 1)) 3
    (Some (seconds 100)) (seconds 1).
Definition worker8 : Worker :=
  mkWorker 8 "host-b" WorkerStatusActive (Some (mkFloat 0 0)) (Some (mkFloat 15 1)) 1
    (Some (seconds 10)) (seconds 1).

Definition job1 : Job :=
  mkJob 1 JobStatusQueued "echo" (Some "{}") 5 0 None (seconds 50) (seconds 50).
Definition job2 : Job :=
  mkJob 2 JobStatusRunning "echo" (Some "{}") 0 1 (Some 8%N) (seconds 40) (seconds 60).
Definition job3 : Job :=
  mkJob 3 JobStatusRetrying "sleep" (Some "{}") 0 2 (Some 7%N) (seconds 30) (seconds 60).
Definition job4 : Job :=
  mkJob 4 JobStatusDead "echo" (Some "{}") 0 1 (Some 7%N) (seconds 20) (seconds 60).

Definition letter9 : DeadLetter :=
  mkDeadLetter 9 4 (Some 7%N) "echo" (Some "{}") 3 "boom" "OPEN" None None (seconds 70).

Definition world1 : World :=
  mkWorld _ (<[1%N := job1]> (<[2%N := job2]> (<[3%N := job3]> (<[4%N := job4]> ∅))))
    (<[7%N := worker7]> (<[8%N := worker8]> ∅)) (<[9%N := letter9]> ∅) (∅ : Store) []
    no_metrics.

Lemma braces_json : json_text (Some "{}").
Proof. exists "{}". split; [reflexivity|]. exists "{}". reflexivity. Qed.

Lemma world1_inv : Inv world1.
Proof.
  constructor.
  - intros id j. cbn [w_jobs w_workers world1]. rewrite !lookup_insert_Some, lookup_empty.
    intros [[<- <-]|[_ [[<- <-]|[_ [[<- <-]|[_ [[<- <-]|[_ [=]]]]]]]]];
      constructor; try done; try apply braces_json; cbn; try (intros wid [= <-]; by eexists).
  - intros id x. cbn [w_workers world1]. rewrite !lookup_insert_Some, lookup_empty.
    by intros [[<- <-]|[_ [[<- <-]|[_ [=]]]]].
  - intros id d. cbn [w_dead world1]. rewrite !lookup_insert_Some, lookup_empty.
    intros [[<- <-]|[_ [=]]]. constructor; [done|apply braces_json|by left].
Qed.

(** chi's tree for paths without parameters: the pattern itself, under its method. *)
#[local] Instance mem_mux : Mux := {|
  mux_match rs r :=
    (λ x, x.2) <$> head (List.filter (λ x, bool_decide (x.1.1 = rq_method r) &&
                                           bool_decide (x.1.2 = rq_path r)) rs);
  mux_unmatched _ := mkResponse StatusNotFound [] "404 page not found";
  promhttp_page _ := mkResponse StatusOK [] EmptyString;
|}.

(** ** The whole system *)

(** The dispatcher has started and asked for the healthy workers. *)
Lemma dispatcher_started_beside_letter : ∃ p, rtc (letter_stays 9) ([], world1) ([p], world1).
Proof.
  assert (Hl : is_Some (w_dead world1 !! 9%N)) by (by exists letter9).
  eexists. eapply rtc_l.
  { split; [apply pool_start, (proc_dispatcher world1 [Tick])|exact Hl]. }
  eapply rtc_once. split; [|exact Hl].
  apply (pool_run _ (at_second 101 0) _ _ [] [] world1 world1).
  apply (step_call (at_second 101 0)).
Qed.

Lemma dispatcher_started : ∃ p, pool_steps sched_process ([], world1) ([p], world1).
Proof.
  destruct dispatcher_started_beside_letter as [p Hp]. exists p.
  by apply (rtc_subrel (letter_stays 9)); [intros s s' []|].
Qed.

Lemma world1_reached : system_reaches world1 world1.
Proof. destruct dispatcher_started as [p Hp]. by exists [p]. Qed.

Lemma system_safe_witness :
  Inv world1 ∧ system_reaches world1 world1 ∧
  ∃ wid x, job_WorkerID job2 = Some wid ∧ w_workers world1 !! wid = Some x.
Proof.
  split; [exact world1_inv|]. split; [exact world1_reached|].
  destruct (proj1 (system_safe world1 world1 world1_inv world1_reached) 2%N job2 eq_refl)
    as (_ & _ & _ & _ & H). exact H.
Defined.

Lemma system_refines_witness :
  ∃ ps, pool_steps sched_process ([], world1) (ps, world1) ∧
  row_next (w_workers world1) 2 (Some job2) (Some job2).
Proof.
  destruct dispatcher_started as [p Hp]. exists [p]. split; [exact Hp|].
  exact (proj1 (system_refines world1 [p] world1 (Ret tt :: [p]) world1 world1_inv Hp
    (pool_start _ (Ret tt) [p] world1 (proc_monitor world1 []))) 2%N).
Defined.

Lemma system_history_witness :
  ∃ ps, pool_steps sched_process ([], world1) (ps, world1) ∧
  (∃ j', w_jobs world1 !! 2%N = Some j' ∧ job_Attempts job2 ≤ job_Attempts j') ∧
  rtc (letter_stays 9) ([], world1) (ps, world1) ∧
  ∃ d', w_dead world1 !! 9%N = Some d' ∧ dl_Payload d' = dl_Payload letter9.
Proof.
  destruct dispatcher_started_beside_letter as [p Hp]. exists [p].
  assert (Hsteps : pool_steps sched_process ([], world1) ([p], world1)).
  { apply (rtc_subrel (letter_stays 9)); [|exact Hp]. intros s s' [Hs _]. exact Hs. }
  destruct (system_history world1 [p] world1 world1_inv Hsteps) as (Hj & _ & Hd & _).
  destruct (Hj 2%N job2 eq_refl) as (j' & Hj' & _ & _ & _ & _ & _ & Ha).
  destruct (Hd 9%N letter9 eq_refl Hp) as (d' & Hd' & _ & _ & _ & _ & Hpay & _).
  split; [exact Hsteps|]. split; [by exists j'|]. split; [exact Hp|]. by exists d'.
Defined.

Lemma pipeline_witness :
  ∃ m1 m2 w1 w2 w3 t,
    run (publish_assigned worker8 job2) [] world1 = (tt, w1) ∧
    kafka_handle 8 (km_value m1) = Deliver (delivered_job job2) ∧
    run (execute (R := kafka_ReportResult 8) runners (delivered_job job2)) [] w1 =
      (("echo", true), w2) ∧
    run (HandleResult true (km_key m2) (km_value m2)) [] w2 = (Ok tt, w3) ∧
    w_jobs w3 = <[2%N := result_row true t job2]> (w_jobs world1).
Proof.
  destruct (pipeline worker8 job2 runners (Ok tt) [] [] [] world1)
    as (m1 & m2 & w1 & w2 & w3 & msg & ms & t & H1 & _ & _ & H2 & H3 & _ & _ & H4 & H5 & _);
    [constructor|constructor|constructor|reflexivity|exact braces_json|reflexivity|reflexivity
    |reflexivity|reflexivity|reflexivity|].
  by exists m1, m2, w1, w2, w3, t.
Defined.

(** ** The queue and the dispatcher *)

Lemma world1_attempts id j :
  w_jobs world1 !! id = Some j → pending j = true → int32_ok (job_Attempts j + 1) = true.
Proof.
  cbn [w_jobs world1]. rewrite !lookup_insert_Some, lookup_empty.
  by intros [[_ <-]|[_ [[_ <-]|[_ [[_ <-]|[_ [[_ <-]|[_ [=]]]]]]]]].
Qed.

Lemma FetchPending_spec_witness :
  ∃ js w', run (FetchPending 7 2) [at_second 101 0] world1 = (Ok js, w') ∧
           fetch_post 7 2 (at_second 101 0) world1 w' js.
Proof.
  apply (FetchPending_spec 7 2 (at_second 101 0) [] world1 world1_inv eq_refl); [done| |].
  - by eexists.
  - exact world1_attempts.
Defined.

Lemma pair_of {A B} (p : A * B) a : p.1 = a → p = (a, p.2).
Proof. intros <-. apply surjective_pairing. Qed.

(** The jobs that a call gave, and the world it left. *)
Definition fetched_jobs (r : Res (list Job) * World) : list Job :=
  match r.1 with Ok js => js | Err _ => [] end.
Definition fetch1 : Res (list Job) * World := run (FetchPending 7 2) [at_second 101 0] world1.
Definition fetch2 : Res (list Job) * World := run (FetchPending 7 2) [] fetch1.2.

Lemma FetchPending_exclusive_witness :
  Inv world1 ∧ fetch1 = (Ok (fetched_jobs fetch1), fetch1.2) ∧
  fetch2 = (Ok (fetched_jobs fetch2), fetch2.2) ∧ length (fetched_jobs fetch1) = 2%nat ∧
  job_ID <$> fetched_jobs fetch1 ## job_ID <$> fetched_jobs fetch2.
Proof.
  assert (H1 : fetch1 = (Ok (fetched_jobs fetch1), fetch1.2)) by (apply pair_of; reflexivity).
  assert (H2 : fetch2 = (Ok (fetched_jobs fetch2), fetch2.2)) by (apply pair_of; reflexivity).
  split; [exact world1_inv|]. split; [exact H1|]. split; [exact H2|].
  split; [reflexivity|].
  exact (FetchPending_exclusive 7 7 2 2 [at_second 101 0] world1 (fetched_jobs fetch1)
           (fetched_jobs fetch2) fetch1.2 fetch2.2 world1_inv H1 H2).
Defined.

(** A tick at 101 seconds: worker 7 has two seats; worker 8, which is silent, gets nothing. *)
Lemma tick_capacity_witness :
  Inv world1 ∧
  (∃ l, (∀ id, dispatched_to 7 world1 (run dispatcher_tick [at_second 101 0] world1).2 id → id ∈ l) ∧
       (length l ≤ 2)%nat) ∧
  ∀ id, ¬ dispatched_to 8 world1 (run dispatcher_tick [at_second 101 0] world1).2 id.
Proof.
  split; [exact world1_inv|]. split.
  - destruct (tick_capacity 7 [at_second 101 0] world1 world1_inv) as (l & Hd & Hl).
    exists l. split; [exact Hd|]. destruct l as [|id l]; [cbn; lia|].
    destruct (Hl id) as (x & t & [= <-] & _ & _ & _ & _ & Hlen); [left|exact Hlen].
  - intros id Hid. destruct (tick_capacity 8 [at_second 101 0] world1 world1_inv) as (l & Hd & Hl).
    destruct (Hl id (Hd id Hid)) as (x & t & [= <-] & _ & _ & [= <-] & Ht & _).
    vm_compute in Ht. discriminate Ht.
Defined.

(** The queue of [world1] is job 1, by its priority, and then job 3; worker 7 has two seats, and
    worker 8, which is silent, none. *)
Lemma tick_equivalent_witness :
  ∃ l w' q, run dispatcher_tick [at_second 101 0] world1 = (Ok tt, w') ∧
    assigned_post world1 w' l ∧ queued world1 q ∧
    who_got l ≡ₚ allocation (staff (seconds 101) world1) q.
Proof.
  apply (tick_equivalent [at_second 101 0] world1 world1_inv);
    [by repeat constructor|by repeat constructor|exact world1_attempts].
Defined.

(** Worker 7 with room for one job only. *)
Definition world3 : World :=
  set_workers (<[7%N := mkWorker 7 "host-a" WorkerStatusActive None None 4 (Some (seconds 100))
                          (seconds 1)]> (w_workers world1)) world1.

Lemma world3_inv : Inv world3.
Proof.
  apply workers_update_safe; [exact world1_inv| |].
  - intros wid x Hx. rewrite lookup_insert. case_decide as Hw; [|by eexists].
    subst. injection Hx as <-. by eexists.
  - intros wid x. rewrite lookup_insert_Some. intros [[<- <-]|[_ Hx]]; [done|].
    by apply (inv_workers _ world1_inv).
Qed.

(** The row that the tick leaves in the queue. *)
Lemma tick_work_conserving_witness :
  ∃ l, w_jobs (run dispatcher_tick [at_second 101 0] world3).2 !! 3%N = Some job3 ∧
    pending job3 = true ∧
    assigned_post world3 (run dispatcher_tick [at_second 101 0] world3).2 l ∧
    length (List.filter (λ a, bool_decide (a.1 = 7%N)) l) = 1%nat.
Proof.
  assert (Hleft : w_jobs (run dispatcher_tick [at_second 101 0] world3).2 !! 3%N = Some job3)
    by (vm_compute; reflexivity).
  destruct (tick_work_conserving [at_second 101 0] world3 3 job3 world3_inv) as (l & Hl & Hcap);
    [by repeat constructor|by repeat constructor|exact world1_attempts|exact Hleft|done|].
  exists l. split; [exact Hleft|]. split; [done|]. split; [exact Hl|].
  by apply (Hcap 7%N (mkWorker 7 "host-a" WorkerStatusActive None None 4 (Some (seconds 100))
                        (seconds 1))).
Defined.

(** The message cannot be published: the broker does not answer. *)
Lemma publish_failure_witness :
  ∃ j' w', run (publish_assigned worker8 job2) [lost_at 101 0; at_second 102 0] world1 = (tt, w') ∧
    w_jobs w' = <[2%N := j']> (w_jobs world1) ∧ job_Status j' = JobStatusQueued ∧
    job_Attempts j' = 1.
Proof.
  destruct (publish_failure worker8 job2 (lost_at 101 0) (at_second 102 0) [] world1
              ErrDeadlineExceeded) as (j' & w' & H1 & H2 & _ & H3 & _ & H4 & _);
    [by left|done|exact braces_json|done|done|].
  by exists j', w'.
Defined.

(** ** The sweep *)

Lemma monitor_tick_spec_witness :
  ∃ w', run monitor_tick [at_second 101 0; at_second 102 0] world1 = (Ok tt, w') ∧
    (∃ j', w_jobs w' !! 2%N = Some j' ∧ (j' = job2 ∨ job_Status j' = JobStatusQueued)) ∧
    w_workers w' !! 7%N = Some worker7.
Proof.
  destruct (monitor_tick_spec (at_second 101 0) (at_second 102 0) [] world1 world1_inv eq_refl
              eq_refl) as (w' & Hrun & Hw & _ & Hj & _); [done|].
  exists w'. split; [exact Hrun|]. split.
  - destruct (Hj 2%N job2 eq_refl) as [H|(j' & H & _ & _ & Hq & _)];
      eexists; (split; [exact H|auto]).
  - destruct (Hw 7%N worker7 eq_refl) as [[[Hg|[_ Hg]] _]|[_ H]]; [done| |exact H].
    exfalso. specialize (Hg (seconds 100) eq_refl). vm_compute in Hg. discriminate Hg.
Defined.

(** ** Results *)

Definition good_result : ResultMessage :=
  mkResultMessage 2 8 true EmptyString "echo" (Some "{}") 1.
Definition bad_result : ResultMessage :=
  mkResultMessage 4 7 false "boom" "echo" (Some "{}") 1.
Definition text_of (m : ResultMessage) : string :=
  match json_Marshal m with Ok s => s | Err _ => EmptyString end.

Lemma good_result_text : Decode (text_of good_result) = Ok good_result.
Proof. by apply (ResultMessage_decode good_result). Qed.
Lemma bad_result_text : Decode (text_of bad_result) = Ok bad_result.
Proof. by apply (ResultMessage_decode bad_result). Qed.

Lemma HandleResult_spec_witness :
  ∃ w' ms t, run (HandleResult true "k" (text_of good_result)) [at_second 110 0] world1
               = (Ok tt, w') ∧
    w_jobs w' = <[2%N := result_row true t job2]> (w_jobs world1) ∧ w_log w' = ms.
Proof.
  destruct (HandleResult_spec "k" (text_of good_result) good_result job2 [at_second 110 0] world1)
    as (w' & ms & t & H1 & H2 & H3 & _);
    [by repeat constructor|exact good_result_text|done|].
  exists w', ms, t. split; [exact H1|]. split; [exact H2|exact H3].
Defined.

Lemma late_result_resurrects_witness :
  job_Status job4 = JobStatusDead ∧
  ∃ j', w_jobs (run (HandleResult true "k" (text_of bad_result)) [] world1).2 !! 4%N = Some j' ∧
        pending j' = true.
Proof.
  split; [done|].
  exact (proj2 (late_result_resurrects "k" (text_of bad_result) bad_result job4 [] world1
    (Forall_nil_2 _) bad_result_text eq_refl eq_refl) eq_refl eq_refl).
Defined.

Lemma bad_result_storable : storable bad_result "{}".
Proof. by split. Qed.

Lemma dead_letter_Handle_spec_witness :
  ∃ w', run (dead_letter_Handle "k" (text_of bad_result)) [at_second 120 11] world1 = (Ok tt, w') ∧
    w_dead w' = <[11%N := mkDeadLetter 11 4 (Some 7%N) "echo" (Some "{}") 1 "boom" "OPEN" None
                            None (seconds 120)]> (w_dead world1).
Proof.
  destruct (dead_letter_Handle_spec "k" (text_of bad_result) bad_result "{}" (at_second 120 11) []
              world1) as (w' & H1 & H2 & _);
    [done|exact bad_result_text|exact bad_result_storable|done|].
  exists w'. split; [exact H1|exact H2].
Defined.

(** ** The topics *)

Lemma PublishJob_roundtrip_witness :
  ∃ body, run (PublishJob (assignment 8 job2)) [] world1 =
      (Ok tt, set_log [mkKafkaMessage TopicJobs (uuid_String 8) body] world1) ∧
    Decode body = Ok (assignment 8 job2).
Proof.
  exact (proj1 (PublishJob_roundtrip (assignment 8 job2) [] world1 eq_refl eq_refl eq_refl
                  (Forall_nil_2 _)) (or_intror braces_json)).
Defined.

(** ** The worker *)

Definition message2 : string :=
  match json_Marshal (assignment 8 job2) with Ok s => s | Err _ => EmptyString end.

Lemma kafka_handle_filters_witness :
  handle_message 8 (λ _, None) message2 = (Ok tt, Some (delivered_job job2)) ∧
  handle_message 8 (λ _, Some ErrCanceled) message2 = (Err ErrCanceled, None) ∧
  handle_message 7 (λ _, None) message2 = (Ok tt, None).
Proof.
  pose proof (λ wid select, proj1 (kafka_handle_filters (assignment 8 job2) message2 wid select
                EmptyString eq_refl eq_refl eq_refl eq_refl)) as H.
  split; [exact (H 8%N (λ _, None))|]. split; [exact (H 8%N (λ _, Some ErrCanceled))|].
  exact (H 7%N (λ _, None)).
Defined.

(** A job of a type without a runner is reported as failed. *)
Definition odd_job : Job := NewJob 21 "mail" (Some "{}") 0.

Lemma execute_reports_witness :
  ∃ body, run (execute (R := kafka_ReportResult 7) runners odd_job) [] world1 =
      (("mail", false), set_log [mkKafkaMessage TopicResults (uuid_String 21) body] world1) ∧
    Decode body = Ok (mkResultMessage 21 7 false no_runner "mail" (Some "{}") 0).
Proof.
  exact (execute_reports 7 runners odd_job [] world1 (Forall_nil_2 _) (or_intror braces_json)
           eq_refl eq_refl eq_refl).
Defined.

#[local] Instance reporter7 : ResultReporter := kafka_ReportResult 7.

(** An executor that has received a job and started its goroutine, the context still live. *)
Definition exec_one : ExecState :=
  mkExec MSelect [(job2, GRun (execute runners job2))] [] false false 1 1 1 [job2] [job2] [] [].

Lemma exec_one_reached : reachable runners world1
  (exec_one, world1).
Proof.
  unfold reachable, exec_one.
  then_step ex_outside (out_send job2). then_step in_main_step (main_receive runners job2 []).
  then_step in_main_step (main_acquire runners job2). then_step in_main_step (main_wg_add runners job2).
  then_step in_main_step (main_count runners job2). then_step in_main_step (main_go runners job2).
  apply rtc_refl.
Qed.

Lemma executor_bounded_witness :
  reachable runners world1 (exec_one, world1) ∧
  executing exec_one = 1%nat ∧
  (executing exec_one ≤ ex_sem exec_one)%nat.
Proof.
  split; [exact exec_one_reached|]. split; [reflexivity|].
  exact (proj1 (executor_bounded runners world1 _ world1 exec_one_reached)).
Defined.

Lemma executor_exactly_once_witness :
  reachable runners world1 (exec_one, world1) ∧
  [job2] = [job2] ++ [].
Proof.
  split; [exact exec_one_reached|].
  exact (proj1 (executor_exactly_once runners world1 _ world1 exec_one_reached)).
Defined.

(** The same executor after its context was cancelled. *)
Definition exec_told : ExecState :=
  mkExec MSelect [(job2, GRun (execute runners job2))] [] false true 1 1 1 [job2] [job2] [] [].

Lemma exec_told_reached : reachable runners world1 (exec_told, world1).
Proof.
  unfold reachable. eapply rtc_r; [exact exec_one_reached|].
  apply ex_outside. exact (out_cancel exec_one).
Qed.

Lemma executor_terminates_witness :
  reachable runners world1 (exec_told, world1) ∧ told_to_stop exec_told ∧
  inevitable (internal_step runners)
    (λ c, stopped c.1 ∧ [job2] = ex_received c.1 ++ ex_chan c.1) (exec_told, world1).
Proof.
  assert (Hs : told_to_stop exec_told) by (left; reflexivity).
  exact (conj exec_told_reached
    (conj Hs (executor_terminates runners world1 exec_told world1 exec_told_reached Hs))).
Defined.

Lemma RunningJobs_overcounts_witness :
  ∃ s w, reachable runners world1 (s, w) ∧
    executing s = 0%nat ∧ RunningJobs s = 6.
Proof. exact (RunningJobs_overcounts runners world1 6 eq_refl). Defined.

(** ** The tables behind the API *)

Lemma Cancel_spec_witness :
  in_outcome (at_second 101 0) = Done ∧
  match run (Cancel 2) [at_second 101 0] world1 with
  | (Ok _, w') => ∃ j', w_jobs w' !! 2%N = Some j' ∧ job_Status j' = JobStatusDead
  | (Err e, w') => e = ErrNotFound
  end.
Proof.
  split; [reflexivity|].
  pose proof (Cancel_spec 2 (at_second 101 0) [] world1 eq_refl) as H.
  destruct (run (Cancel 2) [at_second 101 0] world1) as [[u|e] w'].
  - destruct H as (j & j' & _ & _ & -> & _ & Hs & _). exists j'. split; [|exact Hs].
    cbn. by rewrite lookup_insert_eq.
  - by destruct H.
Defined.

Lemma List_spec_witness :
  match run (List_ (mkListParams (Some "QUEUED") None 10 0)) [at_second 101 0] world1 with
  | (Ok js, w') => w' = world1 ∧ ∃ all, js = take 10 all ∧ NoDup (job_ID <$> all)
  | (Err e, w') => w' = world1
  end.
Proof.
  pose proof (List_spec (mkListParams (Some "QUEUED") None 10 0) (at_second 101 0) [] world1
                world1_inv eq_refl) as H.
  destruct (run _ _ world1) as [[js|e] w'].
  - destruct H as [Hw (all & Hjs & _ & Hn & _)]; [done|]. split; [exact Hw|].
    exists all. by split.
  - by destruct H.
Defined.

Lemma heartbeat_goes_through_witness :
  ∃ m w1, run (SendHeartbeat 7 "host-a" (mkFloat 0 0) (mkFloat 125 1) 2) [at_second 130 0] world1
            = (Ok tt, w1) ∧
    km_topic m = TopicHeartbeats ∧
    match run (heartbeat_Handle (km_key m) (km_value m)) [at_second 131 0] w1 with
    | (Ok _, w2) => ∃ x, w_workers w2 = <[7%N := x]> (w_workers w1) ∧ worker_RunningJobs x = 2
    | (Err _, w2) => w2 = w1
    end.
Proof.
  destruct (proj2 (heartbeat_goes_through 7 "host-a" (mkFloat 0 0) (mkFloat 125 1) 2
    (at_second 130 0) [] (at_second 131 0) [] world1 world1_inv eq_refl (Forall_nil_2 _) eq_refl
    eq_refl) eq_refl) as (m & w1 & Hrun & _ & Htop & _ & H).
  exists m, w1. split; [exact Hrun|]. split; [exact Htop|].
  destruct (run (heartbeat_Handle _ _) _ w1) as [[u|e] w2].
  - destruct H as (_ & _ & x & Hx & Hw). exists x. split; [exact Hw|]. apply (hb_running _ _ _ _ _ _ _ _ Hx).
  - apply H.
Defined.

Lemma FetchHealthy_spec_witness :
  ∃ xs, run (FetchHealthy 15) [at_second 101 0] world1 = (Ok xs, world1) ∧
    worker7 ∈ xs ∧ NoDup (worker_ID <$> xs).
Proof.
  destruct (FetchHealthy_spec 15 (at_second 101 0) [] world1 world1_inv eq_refl)
    as (xs & H1 & H2 & H3 & _).
  exists xs. split; [exact H1|]. split; [|exact H3]. apply H2. split; [done|].
  split; [done|]. split; [done|]. exists (seconds 100). by split.
Defined.

(** ** The API *)

(** A request with no header and no query. *)
Definition request (method path param body : string) : Request :=
  mkRequest method path "10.0.0.1:5000" (λ _, EmptyString) (λ _, EmptyString) (λ _, param) body.

(** POST /jobs with a type and a payload text. *)
Definition post_job (t p : string) : Request :=
  request "POST" "/jobs/" EmptyString (render_object [("type", json_string t); ("payload", p)]).

Lemma post_echo : submits (post_job "echo" "{}") "echo" "{}" 0.
Proof. exists EmptyString. split; [vm_compute; reflexivity|]. by split. Qed.

Lemma submit_idempotent_witness :
  ∃ w1 w2, let j := submitted 31 "echo" "{}" 0 (seconds 200) in
    run (SubmitJob true (post_job "echo" "{}"))
      [at_second 200 31; at_second 200 0; at_second 200 0] world1 = (writeJob StatusCreated j, w1) ∧
    run (SubmitJob true (post_job "echo" "{}"))
      [at_second 260 32; at_second 260 0; at_second 260 0; at_second 260 0] w1
        = (writeJob StatusOK j, w2) ∧
    w_jobs w2 = w_jobs w1.
Proof.
  destruct (submit_idempotent (post_job "echo" "{}") "echo" "{}" 0 "{}" (at_second 200 31)
    (at_second 200 0) (at_second 200 0) (at_second 260 32) (at_second 260 0) (at_second 260 0)
    (at_second 260 0) world1 post_echo) as (w1 & w2 & H1 & H2 & _ & H3);
    [done|by repeat constructor|by repeat constructor|done|done|done|done|done|].
  exists w1, w2. split; [exact H1|]. by split.
Defined.

Lemma submit_poisoned_witness :
  ∃ w1 w2,
    run (SubmitJob true (post_job "echo" "{}"))
      [at_second 200 31; at_second 200 0; lost_at 200 0] world1 =
      (writeError StatusInternalServerError "failed to create job", w1) ∧
    run (SubmitJob true (post_job "echo" "{}"))
      [at_second 260 32; at_second 260 0; at_second 260 0; at_second 260 0] w1 =
      (writeError StatusInternalServerError "failed to fetch existing job", w2) ∧
    w_jobs w2 = w_jobs world1.
Proof.
  destruct (submit_poisoned (post_job "echo" "{}") "echo" "{}" 0 ErrDeadlineExceeded
    (at_second 200 31) (at_second 200 0) (lost_at 200 0) (at_second 260 32) (at_second 260 0)
    (at_second 260 0) (at_second 260 0) world1 post_echo) as (w1 & w2 & H1 & H2 & _ & H3);
    [by repeat constructor|done|by repeat constructor|done|done|done|done|done|].
  exists w1, w2. split; [exact H1|]. by split.
Defined.

(** Type "a" with payload 12 and type "a1" with payload 2. *)
Lemma post_a : submits (post_job "a" "12") "a" ("1" +:+ "2") 0.
Proof. exists EmptyString. split; [vm_compute; reflexivity|]. by split. Qed.
Lemma post_a1 : submits (post_job "a1" "2") ("a" +:+ "1") "2" 0.
Proof. exists EmptyString. split; [vm_compute; reflexivity|]. by split. Qed.

Lemma submit_collision_witness :
  ∃ w1 w2, let j := submitted 31 "a" "12" 0 (seconds 200) in
    run (SubmitJob true (post_job "a" "12"))
      [at_second 200 31; at_second 200 0; at_second 200 0] world1 = (writeJob StatusCreated j, w1) ∧
    run (SubmitJob true (post_job "a1" "2"))
      [at_second 260 32; at_second 260 0; at_second 260 0; at_second 260 0] w1
        = (writeJob StatusOK j, w2) ∧
    w_jobs w2 = w_jobs w1.
Proof.
  exact (submit_collision (post_job "a" "12") (post_job "a1" "2") "a" "1" "2" 0 0 "12"
    (at_second 200 31) (at_second 200 0) (at_second 200 0) (at_second 260 32) (at_second 260 0)
    (at_second 260 0) (at_second 260 0) world1 post_a post_a1 eq_refl eq_refl eq_refl
    ltac:(by repeat constructor) ltac:(by repeat constructor) eq_refl eq_refl
    ltac:(done) ltac:(done) ltac:(done)).
Defined.

(** GET or DELETE /jobs/2 *)
Definition about_job2 (method : string) : Request :=
  request method "/jobs/2" (uuid_String 2) EmptyString.

Lemma about_job2_id method : uuid_Parse (rq_param (about_job2 method) "id") = Some 2%N.
Proof. apply uuid_Parse_String. Qed.

Lemma job2_rendered : ∃ data, render_JobResponse (toJobResponse job2) = Ok data.
Proof. eexists. reflexivity. Qed.

Lemma GetJobStatus_cached_witness :
  ∃ data w1,
    run (GetJobStatus true (about_job2 "GET")) [at_second 101 0; at_second 101 0; at_second 101 0]
      world1 =
      (mkResponse StatusOK [("X-Cache", "MISS"); ("Content-Type", "application/json")]
         (data +:+ newline), w1) ∧
    run (GetJobStatus true (about_job2 "GET")) [at_second 400 0] w1 =
      (mkResponse StatusOK [("Content-Type", "application/json"); ("X-Cache", "HIT")] data, w1).
Proof.
  destruct job2_rendered as [data Hdata]. exists data.
  assert (∃ w1, run (GetJobStatus true (about_job2 "GET"))
    [at_second 101 0; at_second 101 0; at_second 101 0] world1 =
    ((run (GetJobStatus true (about_job2 "GET"))
       [at_second 101 0; at_second 101 0; at_second 101 0] world1).1, w1)) as [w1 Hw1].
  { eexists. apply surjective_pairing. }
  destruct (GetJobStatus_cached (about_job2 "GET") 2 job2 data (at_second 101 0) (at_second 101 0)
    (at_second 101 0) (at_second 400 0) world1 w1 (about_job2_id "GET"))
    as (w' & H1 & _ & H2); [by repeat constructor|done|done|done|exact Hdata|done|done|].
  exists w'. split; [exact H1|]. assert (w1 = w') as <- by (rewrite H1 in Hw1; by injection Hw1).
  by apply H2.
Defined.

Lemma cancel_leaves_stale_status_witness :
  ∃ data w1 w2 j',
    run (CancelJob (about_job2 "DELETE")) [at_second 102 0] w1 =
      (mkResponse StatusNoContent [] EmptyString, w2) ∧
    w_jobs w2 !! 2%N = Some j' ∧ job_Status j' = JobStatusDead ∧
    run (GetJobStatus true (about_job2 "DELETE")) [at_second 103 0] w2 =
      (mkResponse StatusOK [("Content-Type", "application/json"); ("X-Cache", "HIT")] data, w2).
Proof.
  destruct job2_rendered as [data Hdata]. exists data.
  destruct (cancel_leaves_stale_status (about_job2 "DELETE") 2 job2 data (at_second 101 0)
    (at_second 101 0) (at_second 101 0) (at_second 102 0) (at_second 103 0) world1
    (about_job2_id "DELETE")) as (w1 & w2 & j' & _ & H);
    [by repeat constructor|done|done|done|exact Hdata|done|done|].
  by exists w1, w2, j'.
Defined.

(** POST /dead-letters/9/replay *)
Definition replay9 : Request :=
  request "POST" "/dead-letters/9/replay" (uuid_String 9) EmptyString.

Lemma replay9_id : uuid_Parse (rq_param replay9 "id") = Some 9%N.
Proof. apply uuid_Parse_String. Qed.

Lemma Replay_once_witness :
  ∃ w1 resp,
    run (dlq_Replay replay9) [at_second 300 0; at_second 300 41; at_second 300 0; at_second 300 0]
      world1 = (resp, w1) ∧ rs_status resp = StatusCreated ∧
    run (dlq_Replay replay9) [at_second 301 0] w1 =
      (writeError StatusConflict "dead letter already replayed", w1).
Proof.
  destruct (Replay_once replay9 9 letter9 "{}" "{}" (at_second 300 0) (at_second 300 41)
    (at_second 300 0) (at_second 300 0) (at_second 301 0) world1 replay9_id)
    as (w1 & resp & H1 & H2 & _ & _ & H3);
    [by repeat constructor|done|done|done|done|done|done|].
  by exists w1, resp.
Defined.

Lemma Replay_duplicates_witness :
  ∃ w1 w2 resp1 resp2,
    run (dlq_Replay replay9) [at_second 300 0; at_second 300 41; at_second 300 0; lost_at 300 0]
      world1 = (resp1, w1) ∧ rs_status resp1 = StatusInternalServerError ∧
    run (dlq_Replay replay9) [at_second 301 0; at_second 301 42; at_second 301 0; at_second 301 0]
      w1 = (resp2, w2) ∧ rs_status resp2 = StatusCreated.
Proof.
  destruct (Replay_duplicates replay9 9 letter9 "{}" "{}" ErrDeadlineExceeded (at_second 300 0)
    (at_second 300 41) (at_second 300 0) (lost_at 300 0) (at_second 301 0) (at_second 301 42)
    (at_second 301 0) (at_second 301 0) world1 replay9_id)
    as (w1 & w2 & r1 & r2 & H1 & H2 & _ & H3 & H4 & _);
    [by repeat constructor|done|done|done|done|done|done|done|done|done|].
  exists w1, w2, r1, r2. by split_and!.
Defined.

(** A request without a key where one is configured. *)
Definition guarded : RouterConfig := mkRouterConfig true true (mkRateLimiter 100 (seconds 60)) "secret".

Lemma router_auth_witness :
  rs_status (run (NewRouter guarded (request "GET" "/workers/" EmptyString EmptyString)) [] world1).1
    ∈ [StatusUnauthorized; StatusTooManyRequests; StatusInternalServerError].
Proof.
  pose proof (proj1 (router_auth guarded GetWorkers (request "GET" "/workers/" EmptyString EmptyString)
    [] world1 eq_refl eq_refl)) as H.
  destruct (run (NewRouter _ _) _ _) as [resp w']. apply H; [done|].
  vm_compute. discriminate.
Defined.

(** ** Redis *)

Lemma Check_first_wins_witness :
  ∃ w1 w2,
    run (Check_ "key-1" 31 "h1") [at_second 200 0] world1 = (Ok (uuid_Nil, false), w1) ∧
    run (Check_ "key-1" 32 "h2") [at_second 300 0; at_second 300 0] w1 =
      (Err ErrPayloadMismatch, w2).
Proof.
  destruct (Check_first_wins "key-1" 31 "h1" 32 "h2" (at_second 200 0) (at_second 300 0)
    (at_second 300 0) world1) as (w1 & w2 & H1 & H2 & _);
    [done|done|done|done|done|done|done|done|].
  by exists w1, w2.
Defined.

Definition quiet_world : World := mkWorld _ ∅ ∅ ∅ (∅ : Store) [] no_metrics.

(** Two clients and two windows, with a limit of one. *)
Lemma limiter_equivalent_witness :
  allow_all (mkRateLimiter 1 (seconds 60))
    [("a", seconds 60); ("b:1", seconds 61); ("a", seconds 119); ("a", seconds 120)] quiet_world =
  [Ok (true, 0); Ok (true, 0); Ok (false, 0); Ok (true, 0)].
Proof.
  apply (limiter_equivalent (mkRateLimiter 1 (seconds 60)) 60
           [("a", seconds 60); ("b:1", seconds 61); ("a", seconds 119); ("a", seconds 120)] quiet_world);
    [reflexivity|reflexivity| |vm_compute; discriminate|].
  - repeat constructor; vm_compute; discriminate.
  - intros k t t'. vm_compute. reflexivity.
Defined.

(** ** The leader *)

(** Scheduler 0 has campaigned with connection 10; scheduler 1 has just started. *)
Definition led_cluster : Cluster :=
  mkCluster (<[1%nat := NewLeaderElector]> (<[0%nat := mkElector (Some 10%nat)]>
               (<[0%nat := NewLeaderElector]> ∅))) (Some (10, 1)%nat).

Lemma led_cluster_reached : rtc (cluster_step false) empty_cluster led_cluster.
Proof.
  eapply rtc_l; [by apply (cl_start _ _ 0%nat)|].
  eapply rtc_l; [apply (cl_campaign _ _ 0%nat NewLeaderElector (Ok 10%nat) Done); [done|]|].
  { intros c _ i l Hl. cbn in Hl. apply lookup_insert_Some in Hl as [[_ <-]|[_ Hl]]; [done|discriminate Hl]. }
  eapply rtc_l; [by apply (cl_start _ _ 1%nat)|]. cbn. apply rtc_refl.
Qed.

Lemma leader_unique_witness :
  rtc (cluster_step false) empty_cluster led_cluster ∧ leader led_cluster 0 ∧
  (∀ k, leader led_cluster k → 0%nat = k).
Proof.
  assert (H0 : leader led_cluster 0) by (by exists (mkElector (Some 10%nat))).
  split; [exact led_cluster_reached|]. split; [exact H0|].
  intros k Hk. exact (leader_unique led_cluster 0 k led_cluster_reached H0 Hk).
Defined.

(** ** Start-up *)

Definition plain_getenv (k : string) : string :=
  if decide (k = "DATABASE_URL") then "postgres://db"
  else if decide (k = "KAFKA_BROKERS") then "a:1,b:2" else EmptyString.

(** A database whose Force and Up fail, and whose Down has nothing to do. *)
#[local] Instance broken_migrate : Migrate := {|
  M := unit;
  ParseConfig _ := None;
  WithInstance := None;
  NewWithDatabaseInstance _ := None;
  Up m := (Some (ErrText "dirty database"), m);
  Down m := (Some (ErrText "no change"), m);
  Version _ := Ok (3%N, true);
  Force _ m := (Some (ErrText "connection refused"), m);
  ErrNoChange := ErrText "no change";
  ErrNilVersion := ErrText "no migration";
|}.

Lemma force_error_hidden_witness :
  migrate_run ["force"; "3"] plain_getenv tt = ((None, ["migration force complete"]), tt).
Proof.
  exact (proj1 (force_error_hidden plain_getenv
    (mkConfig "postgres://db" 8080 ["a:1"; "b:2"] "localhost:6379" EmptyString) tt "3" 3
    (ErrText "connection refused") tt eq_refl eq_refl eq_refl eq_refl) eq_refl eq_refl).
Defined.

(** ** A job that fails for the third time, through all processes *)

(** A job of a type without a runner, tried twice. *)
Definition job5 : Job :=
  mkJob 5 JobStatusRetrying "mail" (Some "[1, 2]") 0 2 (Some 7%N) (seconds 30) (seconds 60).
Definition world5 : World :=
  mkWorld _ (<[5%N := job5]> ∅) (<[7%N := worker7]> ∅) ∅ (∅ : Store) [] no_metrics.

Lemma world5_fresh : fresh world5.
Proof.
  constructor; [|..|done|done].
  - constructor.
    + intros id j. cbn [w_jobs w_workers world5]. rewrite lookup_insert_Some, lookup_empty.
      intros [[<- <-]|[_ [=]]]. constructor; try done.
      * exists "[1, 2]". split; [reflexivity|]. exists "[1, 2]". reflexivity.
      * intros wid [= <-]. by eexists.
    + intros id x. cbn [w_workers world5]. rewrite lookup_insert_Some, lookup_empty.
      by intros [[<- <-]|[_ [=]]].
    + intros id d. cbn [w_dead world5]. by rewrite lookup_empty.
  - intros id j. cbn [w_jobs world5]. rewrite lookup_insert_Some, lookup_empty.
    by intros [[<- <-]|[_ [=]]].
Qed.

Definition no_message : KafkaMessage := mkKafkaMessage EmptyString EmptyString EmptyString.
Definition turn_of (m : KafkaMessage) : Turn := mkTurn (Ok m) (Ok tt) false.

(** The dispatcher publishes it, worker 7 fails to execute it, the collector gives it up, the
    dead letters' consumer stores it. *)
Definition world5a : World := (run (dispatcher_Run [Tick]) [at_second 101 0] world5).2.
Definition message5a : KafkaMessage := default no_message (w_log world5a !! 0%nat).
Definition job5a : Job :=
  match kafka_handle 7 (km_value message5a) with Deliver j => j | _ => job5 end.
Definition world5b : World :=
  (run (discard (execute (R := kafka_ReportResult 7) runners job5a)) [] world5a).2.
Definition message5b : KafkaMessage := default no_message (w_log world5b !! 1%nat).
Definition world5c : World :=
  (run (discard (Consumer_Run (HandleResult true) [turn_of message5b] nothing_consumed))
     [at_second 103 0] world5b).2.
Definition message5c : KafkaMessage := default no_message (w_log world5c !! 2%nat).
Definition world5d : World :=
  (run (discard (Consumer_Run dead_letter_Handle [turn_of message5c] nothing_consumed))
     [at_second 104 55] world5c).2.

Lemma delivers_one w topic m :
  m ∈ w_log w → km_topic m = topic → delivers w topic (turn_of m).
Proof. by intros Hm Ht m' [= <-]. Qed.

Ltac on_log k := apply (list_elem_of_lookup_2 _ k); vm_compute; reflexivity.

Lemma world5b_reached : kafka_reaches world5 world5b.
Proof.
  destruct (run_pool_start kafka_process (dispatcher_Run [Tick]) [at_second 101 0] world5 []
    world5) as [ps1 H1]; [reflexivity|constructor|].
  destruct (run_pool_start kafka_process
    (discard (execute (R := kafka_ReportResult 7) runners job5a)) [] world5a ps1 world5)
    as [ps2 H2]; [exact H1| |by exists ps2].
  apply (kp_execute world5a 7 runners message5a); [apply runners_are_safe|apply runners_are_quiet|
    on_log 0%nat|vm_compute; reflexivity..].
Qed.

Lemma world5d_reached : kafka_reaches world5 world5d.
Proof.
  destruct world5b_reached as [ps2 H2].
  destruct (run_pool_start kafka_process
    (discard (Consumer_Run (HandleResult true) [turn_of message5b] nothing_consumed))
    [at_second 103 0] world5b ps2 world5) as [ps3 H3];
    [exact H2| |].
  { apply kp_results, delivers_one; [on_log 1%nat|vm_compute; reflexivity]. }
  destruct (run_pool_start kafka_process
    (discard (Consumer_Run dead_letter_Handle [turn_of message5c] nothing_consumed))
    [at_second 104 55] world5c ps3 world5) as [ps4 H4];
    [unfold world5c; exact H3| |exists ps4; unfold world5d; exact H4].
  apply kp_dead_letters, delivers_one; [on_log 2%nat|vm_compute; reflexivity].
Qed.

Lemma topics_typed_witness :
  km_topic message5c = TopicDeadLetter ∧
  ((km_topic message5c = TopicJobs ∧ ∀ wid e, kafka_handle wid (km_value message5c) ≠ Refused e) ∨
   ((km_topic message5c = TopicResults ∨ km_topic message5c = TopicDeadLetter) ∧
    ∃ rm : ResultMessage, Decode (km_value message5c) = Ok rm) ∨
   (km_topic message5c = TopicHeartbeats ∧
    ∃ hm : HeartbeatMessage, Decode (km_value message5c) = Ok hm)).
Proof.
  split; [vm_compute; reflexivity|].
  apply (topics_typed world5 world5d message5c world5_fresh world5d_reached). on_log 2%nat.
Defined.

Definition letter5 : DeadLetter :=
  mkDeadLetter 55 5 (Some 7%N) "mail" (Some "[1,2]") 3 no_runner "OPEN" None None (seconds 104).

Lemma system_provenance_witness :
  w_dead world5d !! 55%N = Some letter5 ∧
  ∃ j s, w_jobs world5d !! 5%N = Some j ∧ job_Type j = "mail" ∧
         carried (job_Payload j) = Some s ∧ jsonb s = Some "[1,2]" ∧ 3 ≤ job_Attempts j.
Proof.
  assert (Hd : w_dead world5d !! 55%N = Some letter5) by (vm_compute; reflexivity).
  split; [exact Hd|].
  destruct (proj2 (proj2 (system_provenance world5 world5d world5_fresh world5d_reached)) 55%N
    letter5 Hd) as (j & s & H1 & H2 & H3 & H4 & _ & H5).
  exists j, s. split_and!; [exact H1|symmetry; exact H2|exact H3|symmetry; exact H4|exact H5].
Defined.

Lemma results_accepted_witness :
  km_topic message5b = TopicResults ∧
  ∃ rm j w' t, Decode (km_value message5b) = Ok rm ∧ w_jobs world5b !! rm_JobID rm = Some j ∧
    run (HandleResult true (km_key message5b) (km_value message5b)) [at_second 103 0] world5b
      = (Ok tt, w') ∧
    w_jobs w' = <[rm_JobID rm := result_row (rm_Success rm) t j]> (w_jobs world5b).
Proof.
  assert (Ht : km_topic message5b = TopicResults) by (vm_compute; reflexivity).
  split; [exact Ht|].
  destruct (results_accepted world5 world5b message5b [at_second 103 0] world5_fresh
    world5b_reached) as (rm & j & w' & t & H1 & H2 & H3 & H4 & _);
    [on_log 1%nat|exact Ht|by repeat constructor|].
  exists rm, j, w', t. exact (conj H1 (conj H2 (conj H3 H4))).
Defined.
