(* ===== verification/SchemaScenarios.v ===== *)
(** * Scenarios of the schema

    The theorems on migrations, tables and statements, applied to concrete catalogues and
    tables. *)

From S2P Require Import Prelude GoStd Models Json World MemEnv Sql Columns Schema Migrations.
From S2P Require Import Lifecycle JobsRepo JobsSpec WorkersRepo DeadLettersRepo Dispatcher Router.
From S2P Require Import Quiet System Statements SchemaSpec Scenarios.

#[local] Existing Instance mem_env.
#[local] Existing Instance mem_order_by.
#[local] Existing Instance mem_jsonb.
#[local] Existing Instance mem_uuid.
#[local] Existing Instance mem_text.
#[local] Existing Instance mem_redis.
#[local] Existing Instance mem_mux.

(** A database that another program uses too. *)
Definition notes_cols : list Column :=
  [primary "id" None; col "text" TText true (text_default EmptyString)].
Definition shared_catalog : Catalog := {|
  ct_extensions := ∅;
  ct_types := {["mood" := ["glad"; "sad"]]};
  ct_tables := {["notes" := notes_cols]};
  ct_indexes := {["idx_notes_text" := ("notes", [asc "text"])]};
  ct_functions := ∅;
  ct_triggers := ∅;
|}.

Lemma shared_unused : unused shared_catalog.
Proof. constructor; by apply (bool_decide_unpack _); vm_compute. Qed.

(** The first migration is in, the other two go up and come down. *)
Lemma migrations_roundtrip_witness :
  ∃ c1 c2 c3, migrate_up 0 1 shared_catalog = Ok c1 ∧ migrate_up 1 3 c1 = Ok c2 ∧
    migrate_down 1 3 c2 = Ok c3 ∧ with_extension "pgcrypto" c3 = with_extension "pgcrypto" c1 ∧
    ct_tables c2 !! "dead_letters" = Some dead_letters_cols ∧
    ct_tables c2 !! "notes" = Some notes_cols ∧
    ct_types c2 !! "mood" = Some ["glad"; "sad"] ∧
    ct_indexes c2 !! "idx_notes_text" = Some ("notes", [asc "text"]).
Proof.
  destruct (migrations_roundtrip shared_catalog shared_unused 1 3) as
    (c1 & c2 & c3 & Hup1 & Hup2 & Hdown & Hback & _ & Htheirs & _ & Hours); [lia|].
  exists c1, c2, c3. split_and!; [exact Hup1|exact Hup2|exact Hdown|exact Hback|..].
  - rewrite (om_tables _ (Hours eq_refl) "dead_letters"); [vm_compute; reflexivity|].
    by apply (bool_decide_unpack _); vm_compute.
  - rewrite (ok_tables _ _ Htheirs "notes"); [vm_compute; reflexivity|].
    by apply (bool_decide_unpack _); vm_compute.
  - rewrite (ok_types _ _ Htheirs "mood"); [vm_compute; reflexivity|].
    by apply (bool_decide_unpack _); vm_compute.
  - rewrite (ok_indexes _ _ Htheirs "idx_notes_text"); [vm_compute; reflexivity|].
    by apply (bool_decide_unpack _); vm_compute.
Defined.

(** Two jobs, a worker whose numbers have two decimals and a dead letter keep the schema, *)
Definition stored7 : Worker :=
  mkWorker 7 "host-a" WorkerStatusActive (Some (mkFloat 0 2)) (Some (mkFloat 150 2)) 3
    (Some (seconds 100)) (seconds 1).
Definition world8 : World :=
  mkWorld _ (<[1%N := job1]> (<[3%N := job3]> ∅)) (<[7%N := stored7]> ∅) (<[9%N := letter9]> ∅)
    (∅ : Store) [] no_metrics.

Lemma world8_inv : Inv world8.
Proof.
  constructor.
  - intros id j. cbn [w_jobs w_workers world8]. rewrite !lookup_insert_Some, lookup_empty.
    intros [[<- <-]|[_ [[<- <-]|[_ [=]]]]];
      constructor; try done; try apply braces_json; cbn; try (intros wid [= <-]; by eexists).
  - intros id x. cbn [w_workers world8]. rewrite lookup_insert_Some, lookup_empty.
    by intros [[<- <-]|[_ [=]]].
  - intros id d. cbn [w_dead world8]. rewrite lookup_insert_Some, lookup_empty.
    intros [[<- <-]|[_ [=]]]. constructor; [done|apply braces_json|by left].
Qed.

Lemma world8_stored : stored world8.
Proof.
  constructor.
  - intros id j. cbn [w_jobs w_workers world8]. rewrite !lookup_insert_Some, lookup_empty.
    intros [[<- <-]|[_ [[<- <-]|[_ [=]]]]];
      constructor; try done; try apply braces_json; cbn; try (intros wid [= <-]; by eexists).
  - intros id x. cbn [w_workers world8]. rewrite lookup_insert_Some, lookup_empty.
    intros [[<- <-]|[_ [=]]]. constructor; try done; intros c [= <-]; by split.
  - intros id d. cbn [w_dead world8]. rewrite lookup_insert_Some, lookup_empty.
    intros [[<- <-]|[_ [=]]]. constructor; try done. apply braces_json.
Qed.

(** and so they do after a tick of the dispatcher. *)
Definition ticked8 : World := (run (dispatcher_Run [Tick]) [at_second 101 0] world8).2.

Lemma schema_kept_witness :
  length (w_log ticked8) = 2%nat ∧ integrity schema (db_of ticked8).
Proof.
  split; [vm_compute; reflexivity|].
  destruct (run_pool_start program (dispatcher_Run [Tick]) [at_second 101 0] world8 []
    world8) as [ps Hsteps]; [reflexivity|constructor|].
  apply (schema_kept world8 ps ticked8 world8_inv (stored_integrity world8 world8_stored) Hsteps).
Defined.

(** A job inserted with its own payload and priority; and job 3, after two attempts, marked failed:
    the trigger stamps it. *)
Lemma statements_follow_schema_witness :
  (∃ row w', run (Create (NewJob 21 "mail" (Some "[1, 2]") 5)) [at_second 101 0] world8 = (Ok row, w') ∧
    w_jobs w' !! 21%N = Some row ∧
    job_columns row ≡ₚ insert_row schema "jobs" (seconds 101) 0
      [("id", Some (VUuid 21)); ("status", Some (VEnum "job_status" "QUEUED"));
       ("type", Some (VText "mail")); ("payload", Some (VJsonb "[1, 2]"));
       ("priority", Some (VSmallint 5))]) ∧
  job_columns <$> w_jobs (run (MarkFailed 3 3) [at_second 101 0] world8).2 !! 3%N =
    Some (update_row schema "jobs" (seconds 101)
            [("status", Some (VEnum "job_status" "RETRYING"))] (job_columns job3)).
Proof.
  pose proof (statements_follow_schema (at_second 101 0) world8 eq_refl)
    as (Hins & _ & _ & _ & _ & _ & _ & _ & Hfail & _). split.
  - assert (Hok : is_ok (run (Create (NewJob 21 "mail" (Some "[1, 2]") 5)) [at_second 101 0] world8).1
                  = true) by (vm_compute; reflexivity).
    destruct (run (Create (NewJob 21 "mail" (Some "[1, 2]") 5)) [at_second 101 0] world8)
      as [[row|e] w'] eqn:Hrun; [clear Hok|discriminate Hok].
    destruct (Hins _ _ _ Hrun) as (p & doc & [= <-] & [= <-] & _ & Hw & Hrow).
    exists row, w'. split; [exact eq_refl|]. split; [|exact Hrow].
    rewrite Hw. apply lookup_insert_eq.
  - rewrite (Hfail 3%N 3 3%N). vm_compute. reflexivity.
Defined.
