(* ===== verification/ProcScenarios.v ===== *)
(** * Scenarios of the processes

    The theorems on worker and scheduler processes, and on the queue, applied to concrete
    states, with the cast of Scenarios.v. *)

From S2P Require Import Prelude GoStd Decimal Models GoTime Json JsonFacts Compact World MemEnv.
From S2P Require Import Sql Lifecycle JobsRepo JobsSpec WorkersRepo WorkersSpec DeadLettersRepo.
From S2P Require Import Broker BrokerSpec Dispatcher DispatcherSpec Monitor Leader Cache CacheSpec.
From S2P Require Import Collector Http Router Worker WorkerSpec Executor ExecutorSpec ExecutorLive.
From S2P Require Import Redelivery Startup Wiring WorkerProc SchedulerProc ConsumerProc.
From S2P Require Import SchedulerRun Overlap.
From S2P Require Import CollectorProc ApiProc System Growing Quiet Provenance.
From S2P Require Import Deployment WorkerMetrics Telemetry Drain Recovery Assignment Scenarios.

#[local] Existing Instance mem_env.
#[local] Existing Instance mem_order_by.
#[local] Existing Instance mem_jsonb.
#[local] Existing Instance mem_uuid.
#[local] Existing Instance mem_text.
#[local] Existing Instance mem_redis.
#[local] Existing Instance mem_mux.

(** A pool whose Close waits. *)
#[local] Instance waiting_pool : PgxPool := λ n, n = 0%nat.
#[local] Instance waiting_pool_laws : PgxPoolLaws waiting_pool.
Proof. by intros n. Qed.

Definition api_config : Config := ok_value (mkConfig EmptyString 0 [] EmptyString EmptyString) (Load plain_getenv).

(** A program after [n] actions with the input [inp]. *)
Fixpoint after {A} (n : nat) (inp : Input) (p : Prog A) (w : World) : Prog A * World :=
  match n, p with
  | S n', Call f k => after n' inp (k (perform inp f w).1) (perform inp f w).2
  | S n', Local f k => after n' inp (k (f inp w).1) (f inp w).2
  | _, _ => (p, w)
  end.

Lemma after_steps {A} n inp (p : Prog A) w : prog_steps (p, w) (after n inp p w).
Proof.
  revert p w. induction n as [|n IH]; intros p w; [by destruct p|].
  destruct p as [a|B f k|B f k]; cbn; [done|..];
    (eapply rtc_l; [exists inp; constructor|apply IH]).
Qed.

(** ** A worker *)

Definition started7 : WorkerProc :=
  mkWorkerProc 7 "host-a" exec_init CFetch [] BStart None false.

Lemma message5a_brings : brings world5a 7 job5a message5a.
Proof. split; [on_log 0%nat|]. split; vm_compute; reflexivity. Qed.

Lemma started7_start : worker_start plain_getenv 7 "host-a" = Some started7.
Proof. reflexivity. Qed.

Lemma worker_exit_abandons_witness :
  worker_start plain_getenv 7 "host-a" = Some started7 ∧ brings world5a 7 job5a message5a ∧
  ∃ x', rtc worker_step (started7, world5a) (x', world5a) ∧ wp_exited x' = true ∧
    message5a ∈ wp_committed x' ∧ ∀ c, ¬ worker_step (x', world5a) c.
Proof.
  destruct (worker_exit_abandons plain_getenv 7 "host-a" started7 world5a message5a job5a
    started7_start message5a_brings) as (x' & H1 & H2 & H3 & _ & _ & _ & H4).
  exact (conj started7_start (conj message5a_brings
    (ex_intro _ x' (conj H1 (conj H2 (conj H3 H4)))))).
Defined.

(** Every kind's run is a run of the process in its deployment. *)
Lemma lift_steps {S} (step : S * World → S * World → Prop) (f : S → Proc) x x' w w' :
  (∀ y y' v v', step (y, v) (y', v') → proc_step (f y, v) (f y', v')) →
  rtc step (x, w) (x', w') → rtc (proc_step (S := Proc)) (f x, w) (f x', w').
Proof.
  intros Hf Hs. remember (x, w) as c eqn:Hc. remember (x', w') as c' eqn:Hc'.
  revert x w Hc. induction Hs as [c|c [x1 w1] c' H1 _ IH]; intros x w ->; simplify_eq; [done|].
  apply (rtc_l _ _ (f x1, w1)); [by apply Hf|]. by apply IH.
Qed.

(** A scheduler has become the leader, and its dispatcher has published the job. *)
Definition tick5 : Res unit * World := run dispatcher_tick [at_second 101 0] world5.
Definition dispatched5 : Sched :=
  two (leading 10) fresh_sched (Some (10, 1)%nat) (in_tick (Ret tick5.1)) sched_run_start.

Lemma world5a_ticked : world5a = tick5.2.
Proof. unfold world5a, tick5. cbn [dispatcher_Run]. by rewrite run_bind. Qed.

Lemma dispatched5_works : works world5 (dispatched5, world5a).
Proof.
  unfold works. etransitivity; [exact (two_leads plain_getenv api_config world5 eq_refl)|].
  rewrite world5a_ticked.
  apply (two_tick_0 (leading 10) fresh_sched _ (in_tick dispatcher_tick) _ dispatcher_tick
           (Ret tick5.1) [mkLoop LMonitor None] world5 tick5.2); [done|done|].
  apply run_prog_steps.
Qed.

(** Then worker 7 has come. *)
Lemma deployed5a : program_deployed world5 (mkDeployment [inr (inl started7); inl dispatched5] world5a).
Proof.
  unfold program_deployed, deployed. etransitivity.
  - apply (deploy_process proc_joins (inl no_sched) (inl dispatched5) [] [] world5 world5a).
    apply (lift_steps work_step inl); [done|exact dispatched5_works].
  - apply rtc_once.
    exact (dp_join proc_joins (inr (inl started7)) [inl dispatched5] world5a
             (join_worker plain_getenv 7 "host-a" started7 eq_refl)).
Qed.

Lemma processes_refine_witness :
  fresh world5 ∧
  program_deployed world5 (mkDeployment [inr (inl started7); inl dispatched5] world5a) ∧
  kafka_reaches world5 world5a.
Proof.
  exact (conj world5_fresh (conj deployed5a (processes_refine world5 _ world5_fresh deployed5a))).
Defined.

Lemma loops_are_led_witness :
  program_deployed world5 (mkDeployment [inr (inl started7); inl dispatched5] world5a) ∧
  (loop_done (leading 10) = true ∨
   ∃ c n, le_conn (sp_elector (leading 10)) = Some c ∧ lock_of dispatched5 = Some (c, S n) ∧
     ∀ k q, proc_of k dispatched5 = Some q → Isleader (sp_elector q) = true → k = 0%nat).
Proof.
  split; [exact deployed5a|].
  destruct (loops_are_led world5 _ dispatched5 0 (leading 10) (in_tick (Ret tick5.1)) world5_fresh
    deployed5a (list_elem_of_further _ _ _ (list_elem_of_here _ _)) eq_refl eq_refl) as (_ & H & _).
  apply H. discriminate.
Defined.

(** The leader has read the healthy workers and marked the first jobs for worker 7, and is about to
    publish them. *)
Definition early_tick : Prog (Res unit) * World :=
  after 1 (at_second 101 0) (assigning (staff (seconds 101) world5)) world5.

(** The next leader reads one second later, and finds worker 7 as it was. *)
Lemma ticks_overlap_witness :
  worker7 ∈ staff (seconds 101) world5 ∧ worker7 ∈ staff (seconds 102) world5 ∧
  ∃ s p0 p1 r1, works world5 (s, early_tick.2) ∧
    proc_of 0 s = Some p0 ∧ proc_of 1 s = Some p1 ∧
    Isleader (sp_elector p0) = false ∧ Isleader (sp_elector p1) = true ∧
    sd_runs s !! 1%nat = Some r1 ∧
    mkLoop LDispatcher (Some (assigning (staff (seconds 102) world5))) ∈ sr_loops r1.
Proof.
  assert (Hx : worker7 ∈ staff (seconds 101) world5).
  { unfold staff. rewrite elem_of_order_by, elem_of_filter_bool, elem_of_rows.
    split; [vm_compute; reflexivity|]. exists 7%N. vm_compute. reflexivity. }
  destruct (ticks_overlap plain_getenv api_config world5 early_tick.2 early_tick.1
    (at_second 101 0) (at_second 102 0) worker7 eq_refl eq_refl eq_refl Hx)
    as (_ & _ & Hsub & s & p0 & p1 & r0 & r1 & H1 & H2 & _ & _ & H3 & _ & H4 & H5 & H6 & H7).
  - vm_compute. reflexivity.
  - rewrite <- (surjective_pairing early_tick). apply after_steps.
  - split; [exact Hx|]. split.
    + apply Hsub; [exact Hx|vm_compute; reflexivity].
    + exact (ex_intro _ s (ex_intro _ p0 (ex_intro _ p1 (ex_intro _ r1
        (conj H1 (conj H2 (conj H4 (conj H3 (conj H7 (conj H5 H6)))))))))).
Defined.

(** Then it takes the job, and is killed. *)
Lemma worker_accounts_witness :
  ∃ x, program_deployed world5 (mkDeployment [inr (inl x); inl dispatched5] world5a) ∧
    wp_exited x = true ∧ message5a ∈ wp_committed x ∧
    (kafka_handle (wp_id x) (km_value message5a) = Skipped ∨
     ∃ j, kafka_handle (wp_id x) (km_value message5a) = Deliver j ∧ j ∈ ex_sent (wp_exec x)).
Proof.
  destruct (worker_exit_abandons plain_getenv 7 "host-a" started7 world5a message5a job5a
    started7_start message5a_brings) as (x & H1 & H2 & H3 & _ & _ & _ & _).
  assert (Hd : program_deployed world5 (mkDeployment [inr (inl x); inl dispatched5] world5a)).
  { unfold program_deployed, deployed. etransitivity; [exact deployed5a|].
    apply (deploy_process proc_joins (inr (inl started7)) (inr (inl x)) [] [inl dispatched5]).
    by apply (lift_steps worker_step (λ y, inr (inl y))). }
  destruct (worker_accounts world5 _ x world5_fresh Hd (list_elem_of_here _ _))
    as (_ & _ & _ & H4 & _).
  exact (ex_intro _ x (conj Hd (conj H2 (conj H3 (proj2 (proj2 (H4 message5a H3))))))).
Defined.

(** ** A collector *)

Definition collector0 : CollectorProc := mkCollector false run_start run_start [] KWait.

(** The collector has written that job 5 is DEAD. *)
Definition halfway : Prog (Res unit) * World :=
  after 2 (at_second 103 0) (HandleResult true (km_key message5b) (km_value message5b)) world5b.

(** It is told to stop there: the job is DEAD, and nothing is in the dead letters' topic. *)
Lemma collector_exit_cuts_witness :
  (job_Status <$> w_jobs halfway.2 !! 5%N) = Some JobStatusDead ∧
  w_log halfway.2 = w_log world5b ∧
  ∃ x', rtc collector_step (collector0, world5b) (x', halfway.2) ∧ cl_main x' = KExited 0 ∧
    rn_committed (cl_results x') = [].
Proof.
  split; [vm_compute; reflexivity|]. split; [vm_compute; reflexivity|].
  destruct (collector_exit_cuts plain_getenv collector0 message5b halfway.1 world5b halfway.2)
    as (x' & H1 & H2 & _ & H3 & _).
  - reflexivity.
  - on_log 1%nat.
  - vm_compute; reflexivity.
  - rewrite <- (surjective_pairing halfway). apply after_steps.
  - exact (ex_intro _ x' (conj H1 (conj H2 H3))).
Defined.

(** A collector that has handled and committed the result. *)
Definition served_results : Run := mkRun RFetch [(message5b, Ok tt)] [message5b].
Definition collector1 : CollectorProc := mkCollector false served_results run_start [] KWait.
Definition result5 : Res unit * World :=
  run (HandleResult true (km_key message5b) (km_value message5b)) [at_second 103 0] world5b.

Lemma result5_handled :
  prog_steps (HandleResult true (km_key message5b) (km_value message5b), world5b)
    (Ret (Ok tt), result5.2).
Proof.
  assert (result5.1 = Ok tt) as <- by (vm_compute; reflexivity). apply run_prog_steps.
Qed.

Lemma message5b_result : message5b ∈ w_log world5b ∧ km_topic message5b = TopicResults.
Proof. split; [on_log 1%nat|vm_compute; reflexivity]. Qed.

Lemma collector1_steps :
  rtc collector_step (collector0, world5b) (collector1, result5.2).
Proof.
  exact (collector_serves message5b world5b result5.2 run_start (proj1 message5b_result)
           (proj2 message5b_result) result5_handled).
Qed.

(** ** From a worker to a collector *)

(** Worker 7 with its job at the point [p]. *)
Definition running7 (p : Prog (string * bool)) : WorkerProc :=
  mkWorkerProc 7 "host-a" (mkExec MSelect [(job5a, GRun p)] [] false false 1 1 1 [job5a] [job5a] [] [])
    CFetch [message5a] BStart None false.
Definition execute5 : Prog (string * bool) :=
  execute (R := kafka_ReportResult 7) runners job5a.

Lemma running7_started : rtc worker_step (started7, world5a) (running7 execute5, world5a).
Proof.
  destruct message5a_brings as (Hm & Ht & Hd).
  eapply rtc_l; [apply ws_consumer; [done|]; by apply (cn_fetch _ _ message5a)|].
  unfold after_fetch. cbn [wp_id started7]. rewrite Hd.
  eapply rtc_l; [apply ws_consumer; [done|]; apply (cn_send _ _ message5a job5a); cbn; [done|];
                 unfold jobChan_cap; lia|].
  eapply rtc_l; [apply ws_consumer; [done|]; by apply (cn_commit _ _ message5a)|].
  exact (job_started (mkWorkerProc 7 "host-a" (mkExec MSelect [] [job5a] false false 0 0 0 [job5a] [] [] [])
    CFetch [message5a] BStart None false) world5a job5a false [job5a] eq_refl eq_refl).
Qed.

Lemma running7_steps p p' w w' :
  prog_steps (p, w) (p', w') → rtc worker_step (running7 p, w) (running7 p', w').
Proof.
  intros Hs. remember (p, w) as c eqn:Hc. remember (p', w') as c' eqn:Hc'.
  revert p w Hc. induction Hs as [c|c [p1 w1] c' [inp H1] _ IH]; intros p w ->; simplify_eq; [done|].
  eapply rtc_l; [|by apply IH].
  apply (ws_executor (running7 p)); [done|]. apply in_go.
  by apply (go_action inp job5a p p1 [] []).
Qed.

Lemma world5b_executed : world5b = (run execute5 [] world5a).2.
Proof. unfold world5b, discard. by rewrite run_bind. Qed.

Definition executed7 : WorkerProc := running7 (Ret (run execute5 [] world5a).1).

Lemma executed7_steps : rtc worker_step (started7, world5a) (executed7, world5b).
Proof.
  etransitivity; [exact running7_started|]. rewrite world5b_executed.
  apply running7_steps, run_prog_steps.
Qed.

(** The whole deployment: the worker has executed the job, the collector its result. *)
Definition procs5 : list Proc := [inr (inr (inr collector1)); inr (inl executed7); inl dispatched5].

Lemma deployed5c : program_deployed world5 (mkDeployment procs5 result5.2).
Proof.
  unfold program_deployed, deployed. etransitivity; [exact deployed5a|].
  etransitivity.
  { apply (deploy_process proc_joins (inr (inl started7)) (inr (inl executed7)) []).
    apply (lift_steps worker_step (λ y, inr (inl y))); [done|exact executed7_steps]. }
  eapply rtc_l.
  { exact (dp_join proc_joins (inr (inr (inr collector0))) _ world5b
             (join_collector plain_getenv None collector0 eq_refl)). }
  apply (deploy_process proc_joins _ (inr (inr (inr collector1))) []).
  apply (lift_steps collector_step (λ y, inr (inr (inr y)))); [done|exact collector1_steps].
Qed.

Lemma collector_accounts_witness :
  program_deployed world5 (mkDeployment procs5 result5.2) ∧
  message5b ∈ rn_committed (cl_results collector1) ∧ km_topic message5b = TopicResults ∧
  (message5b, Ok tt) ∈ rn_handled (cl_results collector1).
Proof.
  destruct (collector_accounts world5 _ collector1 world5_fresh deployed5c
    (list_elem_of_here _ _)) as (H1 & H2 & _).
  pose proof (H2 message5b (list_elem_of_here _ _)) as H.
  exact (conj deployed5c (conj (list_elem_of_here _ _) (conj (proj2 (H1 _ _ H)) H))).
Defined.

(** Worker 7 observes its job after three seconds, and begins a heartbeat. *)
Definition beat7 : Prog (Res unit) := SendHeartbeat 7 "host-a" (mkFloat 0 0) (mkFloat 2 0) 1.
Definition observed7 : WorkerProc :=
  mkWorkerProc 7 "host-a"
    (mkExec MSelect [(job5a, GRelease)] [] false false 1 1 1 [job5a] [job5a] [job5a]
       [("mail", false, 3000000)])
    CFetch [message5a] (BSend beat7) (Some 1) false.

Lemma observed7_steps : rtc worker_step (executed7, world5b) (observed7, world5b).
Proof.
  assert (Hl : (run execute5 [] world5a).1 = ("mail", false)) by (vm_compute; reflexivity).
  unfold executed7. rewrite Hl.
  eapply rtc_l; [apply (ws_executor (running7 (Ret ("mail", false)))); [done|]; apply in_go;
    by apply (go_return 3000000 job5a ("mail", false) [] [])|].
  eapply rtc_l; [apply ws_heartbeat; [done|]; by apply (bt_start (mkFloat 2 0))|].
  reflexivity.
Qed.

Lemma deployed5d :
  program_deployed world5 (mkDeployment [inr (inl observed7); inl dispatched5] world5b).
Proof.
  unfold program_deployed, deployed. etransitivity; [exact deployed5a|].
  apply (deploy_process proc_joins (inr (inl started7)) (inr (inl observed7)) []).
  apply (lift_steps worker_step (λ y, inr (inl y))); [done|].
  etransitivity; [exact executed7_steps|exact observed7_steps].
Qed.

Lemma worker_metrics_witness :
  job_Type job5a = "mail" ∧ utf8_valid "mail" = true ∧
  ∃ memMB, on_its_way (SendHeartbeat 7 "host-a" (mkFloat 0 0) memMB 1) beat7.
Proof.
  destruct (worker_metrics world5 _ observed7 world5_fresh deployed5d (list_elem_of_here _ _))
    as [Ho Hg]. cbn in Ho. apply Forall2_cons in Ho as [(Ht & Hv & _ & _) _].
  destruct (Hg beat7 eq_refl) as (memMB & n & Hn & Hway). injection Hn as <-.
  exact (conj (eq_sym Ht) (conj Hv (ex_intro _ memMB Hway))).
Defined.

(** The same result comes again: job 5 has two letters. *)
Definition result5b : ResultMessage :=
  match Decode (km_value message5b) with Ok m => m | Err _ => bad_result end.
Definition job5b : Job := default job5 (w_jobs world5b !! 5%N).

Lemma result5b_decodes : Decode (km_value message5b) = Ok result5b.
Proof. vm_compute. reflexivity. Qed.
Lemma job5b_stored : w_jobs world5b !! rm_JobID result5b = Some job5b.
Proof. vm_compute. reflexivity. Qed.
Lemma result5b_failed : rm_Success result5b = false.
Proof. vm_compute. reflexivity. Qed.
Lemma job5b_attempts : maxAttempts ≤ job_Attempts job5b.
Proof. vm_compute. discriminate. Qed.
Lemma result5b_storable : storable (reread result5b) "[1,2]".
Proof. split; vm_compute; reflexivity. Qed.
Lemma world5b_no_letters id : w_dead world5b !! id = None.
Proof.
  assert (w_dead world5b = ∅) as -> by (vm_compute; reflexivity). apply lookup_empty.
Qed.

Lemma redelivery_duplicates_witness :
  ∃ m w4, km_topic m = TopicDeadLetter ∧
    w_dead w4 = <[62%N := stored_letter (reread result5b) "[1,2]" (at_second 112 62)]>
                (<[61%N := stored_letter (reread result5b) "[1,2]" (at_second 111 61)]>
                   (w_dead world5b)).
Proof.
  destruct (redelivery_duplicates (km_key message5b) (km_value message5b) result5b "[1,2]" job5b
    [] [] (at_second 111 61) (at_second 112 62) world5b (Forall_nil_2 _) (Forall_nil_2 _) eq_refl
    eq_refl result5b_decodes job5b_stored result5b_failed job5b_attempts result5b_storable)
    as (m & _ & _ & _ & w4 & _ & _ & _ & _ & H4 & _ & _ & _ & H8).
  - discriminate.
  - apply world5b_no_letters.
  - apply world5b_no_letters.
  - exact (ex_intro _ m (ex_intro _ w4 (conj H4 H8))).
Defined.

(** ** An API process *)

Definition api0 : ApiProc := mkApi api_config false false LServing [] 0 [] [] [] PSelect.
Definition get_health : Request := request "GET" "/health" EmptyString EmptyString.
Definition health_run : Response * World := run (begun api_config get_health).2 [] world5.
(** It is told to stop with one request in flight, which is answered then. *)
Definition api_stopping : ApiProc :=
  mkApi api_config true true LServing [] 0 [get_health] [begun api_config get_health] [] PShutdown.
Definition api_quiet : ApiProc :=
  mkApi api_config true true LServing [] 0 [get_health] [] [(get_health, health_run.1)]
    (PDeferred None (PCancel :: api_defers)).

Lemma api_stopping_reached : api_reaches plain_getenv world5 (api_stopping, world5).
Proof.
  exists api0. split; [reflexivity|].
  eapply rtc_l; [by apply as_server, sr_connect|].
  eapply rtc_l; [apply as_server; [done|]; by apply (sr_request 0 get_health)|].
  eapply rtc_l; [by apply as_main, ma_signal|].
  apply rtc_once. by apply as_main, ma_ctx.
Qed.

Lemma api_quiet_reached : api_reaches plain_getenv world5 (api_quiet, health_run.2).
Proof.
  destruct api_stopping_reached as (x0 & H0 & Hr). exists x0. split; [exact H0|].
  etransitivity; [exact Hr|].
  etransitivity.
  { apply (api_handles api_stopping get_health (begun api_config get_health).2
      (Ret health_run.1) [] [] world5 health_run.2); [done|done|].
    apply (run_prog_steps _ []). }
  eapply rtc_l.
  { apply as_server; [done|]. by apply (sr_answer get_health health_run.1 [] []). }
  apply rtc_once. by apply as_main, ma_quiet.
Qed.

Lemma api_graceful_witness :
  api_reaches plain_getenv world5 (api_quiet, health_run.2) ∧
  ap_received api_quiet ≡ₚ (ap_answered api_quiet).*1 ∧ rs_status health_run.1 = StatusOK.
Proof.
  split; [exact api_quiet_reached|]. split; [|vm_compute; reflexivity].
  destruct (api_graceful plain_getenv world5 api_quiet health_run.2 api_quiet_reached
    (or_intror (ex_intro _ _ eq_refl))) as (_ & _ & _ & H). exact H.
Defined.

Lemma api_stops_witness :
  api_reaches plain_getenv world5 (api_stopping, world5) ∧
  inevitable api_step (λ c, api_exited c.1 = true) (api_stopping, world5).
Proof.
  split; [exact api_stopping_reached|].
  exact (api_stops plain_getenv world5 api_stopping world5 api_stopping_reached eq_refl).
Defined.

(** ** Two schedulers *)

Definition scheduler0 : SchedProc := mkSched NewLeaderElector false false false 0 HRun SLoop.
(** It leads; then its heartbeat consumer has failed, and main has left the loop. *)
Definition scheduler_leads : SchedProc :=
  mkSched (mkElector (Some 10%nat)) true false false 2 HRun SLoop.
Definition scheduler_left : SchedProc :=
  mkSched (mkElector (Some 10%nat)) true false true 2 HGone (SDeferred deferred).

Definition led : Schedulers := mkSchedulers (<[0%nat := scheduler_leads]> ∅) (Some (10, 1)%nat).
Definition left_behind : Schedulers :=
  mkSchedulers (<[0%nat := scheduler_left]> ∅) (Some (10, 1)%nat).

(** One step of the only scheduler. *)
Lemma sch_only p p' lk lk' :
  sp_main p ≠ SExited →
  sched_step (λ c, idle c (electors (mkSchedulers (<[0%nat := p]> ∅) lk))) (p, lk) (p', lk') →
  schedulers_step (mkSchedulers (<[0%nat := p]> ∅) lk) (mkSchedulers (<[0%nat := p']> ∅) lk').
Proof.
  intros He Hs.
  pose proof (sch_step (mkSchedulers (<[0%nat := p]> ∅) lk) 0%nat p p' lk'
    (lookup_insert_eq _ _ _) He Hs) as H.
  cbn [sc_procs] in H. rewrite insert_insert_eq in H. exact H.
Qed.

Lemma led_reached : schedulers_reach led.
Proof.
  unfold schedulers_reach, led.
  eapply rtc_l; [by apply (sch_start _ 0%nat plain_getenv None scheduler0)|].
  apply rtc_once. apply sch_only; [done|].
  apply (ss_tick _ (Ok 10%nat) Done scheduler0 None); [done|done|].
  intros c _ i l. cbn. rewrite lookup_fmap, fmap_Some. intros (p & Hp & ->).
  apply lookup_insert_Some in Hp as [[_ <-]|[_ Hp]]; [done|]. by rewrite lookup_empty in Hp.
Qed.

Lemma left_behind_reached : schedulers_reach left_behind.
Proof.
  unfold schedulers_reach. etransitivity; [exact led_reached|]. unfold led, left_behind.
  eapply rtc_l; [apply sch_only; [done|]; by apply ss_consumer_fails|].
  eapply rtc_l; [apply sch_only; [done|]; by apply ss_consumer_cancels|].
  apply rtc_once. apply sch_only; [done|]. by apply ss_loop_ctx.
Qed.

Lemma one_active_scheduler_witness :
  schedulers_reach led ∧
  (∃ c n, Some 10%nat = Some c ∧ sc_lock led = Some (c, S n)).
Proof.
  split; [exact led_reached|].
  destruct (one_active_scheduler led 0 scheduler_leads led_reached (lookup_insert_eq _ _ _))
    as [H _]. exact (proj1 (H eq_refl eq_refl)).
Defined.

Lemma leader_hangs_witness :
  schedulers_reach left_behind ∧
  ∃ p' l', sc_procs left_behind !! 0%nat = Some p' ∧ sp_main p' = SDeferred l' ∧
           DDatabaseClose ∈ l'.
Proof.
  split; [exact left_behind_reached|].
  exact (proj1 (leader_hangs left_behind 0 scheduler_left deferred 10%nat left_behind
    left_behind_reached (lookup_insert_eq _ _ _) eq_refl eq_refl (rtc_refl _ _))).
Defined.

(** ** The queue *)

Definition round5 : Round := mkRound [at_second 101 0; at_second 101 0] [([], [at_second 103 0])].

Lemma world5_ready : ready world5.
Proof.
  intros id j. cbn [w_jobs world5]. rewrite lookup_insert_Some, lookup_empty.
  by intros [[<- <-]|[_ [=]]].
Qed.

Lemma world5_round : rounds 1 world5 (drain_round runners round5 world5).
Proof.
  eapply (rounds_S 0 round5 world5 world5); [reflexivity|apply world5_fresh| | |apply rounds_0].
  - split; [by repeat constructor|]. split; [by repeat constructor|].
    constructor; [split; by repeat constructor|constructor].
  - exists 7%N, worker7. split; [reflexivity|]. split; vm_compute; [reflexivity|lia].
Qed.

(** Worker 8 has fallen silent with a job. *)
Definition job6 : Job :=
  mkJob 6 JobStatusRunning "echo" (Some "{}") 0 1 (Some 8%N) (seconds 40) (seconds 60).
Definition world6 : World :=
  mkWorld _ (<[6%N := job6]> ∅) (<[7%N := worker7]> (<[8%N := worker8]> ∅)) ∅ (∅ : Store) []
    no_metrics.
Definition sweep6 : list Input := [at_second 101 0; at_second 102 0].
Definition round6 (n : Z) : Round :=
  mkRound [at_second n 0; at_second n 0] [([], [at_second n 0])].

Lemma world6_inv : Inv world6.
Proof.
  constructor.
  - intros id j. cbn [w_jobs w_workers world6]. rewrite lookup_insert_Some, lookup_empty.
    intros [[<- <-]|[_ [=]]]. constructor; try done; [apply braces_json|].
    intros wid [= <-]. by eexists.
  - intros id x. cbn [w_workers world6]. rewrite !lookup_insert_Some, lookup_empty.
    by intros [[<- <-]|[_ [[<- <-]|[_ [=]]]]].
  - intros id d. cbn [w_dead world6]. by rewrite lookup_empty.
Qed.

Lemma world6_sendable : sendable world6.
Proof.
  intros id j. cbn [w_jobs world6]. rewrite lookup_insert_Some, lookup_empty.
  by intros [[<- <-]|[_ [=]]].
Qed.

Definition swept6 : World := (run monitor_tick sweep6 world6).2.
Definition round6a : World := drain_round runners (round6 103) swept6.
Definition round6b : World := drain_round runners (round6 104) round6a.
Definition round6c : World := drain_round runners (round6 105) round6b.

Lemma world6_round n w w' :
  Inv w → 103 ≤ n ≤ 105 → w_workers w !! 7%N = Some worker7 →
  ∀ k, rounds k (drain_round runners (round6 n) w) w' → rounds (S k) w w'.
Proof.
  intros HI Hn Hw k Hr. eapply (rounds_S k (round6 n) w w); [reflexivity|done| | |exact Hr].
  - split; [by repeat constructor|]. split; [by repeat constructor|].
    constructor; [split; by repeat constructor|constructor].
  - exists 7%N, worker7. split; [done|]. split; [|vm_compute; lia].
    assert (n = 103 ∨ n = 104 ∨ n = 105) as [->|[->| ->]] by lia; reflexivity.
Qed.

Lemma world6_rounds : rounds 3 swept6 round6c.
Proof.
  assert (H0 : Inv swept6) by (unfold swept6; eapply run_inv; [apply monitor_tick_safe|apply world6_inv]).
  assert (H1 : Inv round6a) by (apply drain_round_inv; [apply runners_are_safe|done]).
  assert (H2 : Inv round6b) by (apply drain_round_inv; [apply runners_are_safe|done]).
  apply (world6_round 103); [done|lia|vm_compute; reflexivity|].
  apply (world6_round 104); [done|lia|vm_compute; reflexivity|].
  apply (world6_round 105); [done|lia|vm_compute; reflexivity|]. apply rounds_0.
Qed.

Lemma worker8_gone : gone (in_now (at_second 101 0)) worker8.
Proof. right. split; [done|]. by intros h [= <-]. Qed.

Lemma lost_jobs_drain_witness :
  Inv world6 ∧ sendable world6 ∧ rounds 3 swept6 round6c ∧
  ∃ j', w_jobs round6c !! 6%N = Some j' ∧ same_identity job6 j' ∧
    (job_Status j' = JobStatusCompleted ∨ job_Status j' = JobStatusDead ∧ 3 ≤ job_Attempts j').
Proof.
  split; [exact world6_inv|]. split; [exact world6_sendable|]. split; [exact world6_rounds|].
  destruct (lost_jobs_drain (at_second 101 0) (at_second 102 0) [] 3 world6 round6c world6_inv
    world6_sendable eq_refl eq_refl world6_rounds (proj1 (Nat.leb_le 3 3) eq_refl)) as [H _].
  exact (H 6%N job6 eq_refl (or_intror (conj eq_refl
    (ex_intro _ 8%N (ex_intro _ worker8 (conj eq_refl (conj eq_refl worker8_gone))))))).
Defined.

(** ** Two ticks and no heartbeat *)

(** Three jobs in the queue, and a worker with room for one. *)
Definition queued_job (id : uuid) : Job :=
  mkJob id JobStatusQueued "echo" (Some "{}") 0 0 None (seconds 50) (seconds 50).
Definition busy7 : Worker :=
  mkWorker 7 "host-a" WorkerStatusActive None None 4 (Some (seconds 100)) (seconds 1).
Definition world7 : World :=
  mkWorld _ (<[11%N := queued_job 11]> (<[12%N := queued_job 12]> (<[13%N := queued_job 13]> ∅)))
    (<[7%N := busy7]> ∅) ∅ (∅ : Store) [] no_metrics.

Lemma world7_inv : Inv world7.
Proof.
  constructor.
  - intros id j. cbn [w_jobs w_workers world7]. rewrite !lookup_insert_Some, lookup_empty.
    intros [[<- <-]|[_ [[<- <-]|[_ [[<- <-]|[_ [=]]]]]]]; constructor; try done; apply braces_json.
  - intros id x. cbn [w_workers world7]. rewrite lookup_insert_Some, lookup_empty.
    by intros [[<- <-]|[_ [=]]].
  - intros id d. cbn [w_dead world7]. by rewrite lookup_empty.
Qed.

Lemma world7_attempts : attempts_fit world7.
Proof.
  intros id j. cbn [w_jobs world7]. rewrite !lookup_insert_Some, lookup_empty.
  by intros [[_ <-]|[_ [[_ <-]|[_ [[_ <-]|[_ [=]]]]]]].
Qed.

Definition ticked7 : World := (run dispatcher_tick [at_second 101 0] world7).2.
Definition ticked7b : World := (run dispatcher_tick [at_second 101 0] ticked7).2.
(** The job that is left. *)
Definition left7 : Job :=
  default (queued_job 0) (head (List.filter pending (rows (w_jobs ticked7b)))).

Lemma ticks_overcommit_witness :
  capacity busy7 = 1%nat ∧
  ∃ ids : list uuid, NoDup ids ∧ length ids = 2%nat ∧
    ∀ k, k ∈ ids → ∃ j, w_jobs ticked7b !! k = Some j ∧ job_Status j = JobStatusRunning ∧
                        job_WorkerID j = Some 7%N.
Proof.
  split; [reflexivity|].
  apply (ticks_overcommit [at_second 101 0] [at_second 101 0] world7 (job_ID left7) left7 7%N busy7
    world7_inv world7_attempts);
    [by repeat constructor|by repeat constructor|by repeat constructor|by repeat constructor
    |vm_compute; reflexivity..].
Defined.

(** ** Recovery *)

(** Worker 7 is gone with the job that it was sent; at 200 s nobody has been heard of. *)
Definition running5a : Job := default job5 (w_jobs world5a !! 5%N).

Lemma workers5a wid x : w_workers world5a !! wid = Some x → x = worker7.
Proof.
  assert (w_workers world5a = <[7%N := worker7]> ∅) as -> by (vm_compute; reflexivity).
  rewrite lookup_insert_Some, lookup_empty. by intros [[_ <-]|[_ ?]].
Qed.

Lemma jobs5a id j : w_jobs world5a !! id = Some j → j = running5a.
Proof.
  assert (w_jobs world5a = <[5%N := running5a]> ∅) as -> by (vm_compute; reflexivity).
  rewrite lookup_insert_Some, lookup_empty. by intros [[_ <-]|[_ ?]].
Qed.

Lemma quiet5a : quiet_instant (seconds 200) world5a.
Proof.
  split; [vm_compute; reflexivity|]. intros wid x ->%workers5a. right. split; [done|].
  intros h [= <-]. vm_compute. reflexivity.
Qed.

Lemma always_recoverable_witness :
  job_Status running5a = JobStatusRunning ∧
  ∃ ps ps' w' j', pool_steps kafka_process ([], world5) (ps, world5a) ∧
    pool_steps kafka_process (ps, world5a) (ps', w') ∧
    w_jobs w' !! 5%N = Some j' ∧ same_identity running5a j' ∧
    (job_Status j' = JobStatusCompleted ∨ job_Status j' = JobStatusDead ∧ 3 ≤ job_Attempts j').
Proof.
  assert (Hs : job_Status running5a = JobStatusRunning) by (vm_compute; reflexivity).
  split; [exact Hs|].
  destruct (run_pool_start kafka_process (dispatcher_Run [Tick]) [at_second 101 0] world5 []
    world5) as [ps H1]; [reflexivity|constructor|].
  destruct (always_recoverable (seconds 200) "host-b" world5 ps world5a world5_fresh H1 quiet5a eq_refl)
    as (ps' & w' & H2 & Hrows).
  { intros id j ->%jobs5a. vm_compute. reflexivity. }
  destruct (Hrows 5%N running5a) as (j' & Hj' & [[Hf _]|(_ & Hid & Hend)]);
    [vm_compute; reflexivity|destruct Hf as [Hf|Hf]; rewrite Hs in Hf; discriminate|].
  exists ps, ps', w', j'. exact (conj H1 (conj H2 (conj Hj' (conj Hid Hend)))).
Defined.

(** ** The metrics server *)

(** The worker is told to stop before its metrics server has bound the port. *)
Definition early_stop : MetricsServer := mkMetricsServer 9101 true true 0 VLog TIdle [].

Lemma early_stop_reached : server_reaches 9101 ∅ (early_stop, ∅).
Proof.
  eapply rtc_l; [by apply (ms_cancel (StartServer 9101))|].
  eapply rtc_l; [by apply ms_ctx_done|]. eapply rtc_l; [by apply ms_shutdown|]. reflexivity.
Qed.

(** A second worker on the host. *)
Definition unmeasured : MetricsServer :=
  mkMetricsServer 9101 false false 0 VGone TWait
    ["metrics server listening"; "metrics server failed"].

Lemma unmeasured_reached : server_reaches 9101 {[9101]} (unmeasured, {[9101]}).
Proof.
  eapply rtc_l; [by apply (ms_log (StartServer 9101))|]. eapply rtc_l; [by apply ms_listen|].
  eapply rtc_l; [by apply (ms_bind_failed (ErrText "address already in use"))|].
  eapply rtc_l; [by eapply ms_returned|]. reflexivity.
Qed.

Lemma metrics_server_stops_witness :
  inevitable ms_step (λ c, ms_serve c.1 = VGone ∧ ms_stop c.1 = TGone ∧ c.2 = ∅) (early_stop, ∅) ∧
  "metrics server failed" ∈ ms_logged unmeasured.
Proof.
  split.
  - exact (proj1 (metrics_server_stops 9101 ∅ early_stop ∅ early_stop_reached) eq_refl).
  - destruct (proj2 (metrics_server_stops 9101 {[9101]} unmeasured {[9101]} unmeasured_reached)
      (proj2 (elem_of_singleton 9101 9101) eq_refl) eq_refl) as [_ Hlog].
    exact (Hlog eq_refl).
Defined.
